(** * Fabric control plane: mailbox, port manager and routing engine

    A shallow embedding of the fabric driver core
    (drivers/gpu/drm/i915/fabric) and the properties its specification
    states about it.  Machine integers are [Z] with the wrap-around of
    their C type written out; arrays are lists indexed as the code
    indexes them; sparse tables (xarrays) are finite maps. *)

From Stdlib Require Import ZArith Lia Bool List Btauto.
From stdpp Require Import base list gmap sorting.

Local Open Scope Z_scope.

(** ** Machine integers *)

Definition wrap (w x : Z) : Z := x mod 2 ^ w.
Definition u8 : Z -> Z := wrap 8.
Definition u16 : Z -> Z := wrap 16.
Definition u32 : Z -> Z := wrap 32.
Definition u64 : Z -> Z := wrap 64.

(** [x << s] and [x >> s] on a 64-bit unsigned operand. *)
Definition shl64 (x s : Z) : Z := u64 (Z.shiftl x s).
Definition shr64 (x s : Z) : Z := Z.shiftr x s.

(** Kernel error numbers, as the negative values the code returns. *)
Definition EINVAL : Z := 22.
Definition ENOMEM : Z := 12.
Definition ENODEV : Z := 19.
Definition ETIMEDOUT : Z := 110.
Definition EINTR : Z := 4.

(** ** Mailbox control word (mbdb.h, ops.h) *)

Module Cw.

Definition MBOX_CW_OPCODE_MASK : Z := 0xFF.
Definition MBOX_CW_OPCODE_SHIFT : Z := 0.
Definition MBOX_CW_IS_REQ_MASK : Z := 0x1.
Definition MBOX_CW_IS_REQ_SHIFT : Z := 8.
Definition MBOX_CW_POSTED_MASK : Z := 0x1.
Definition MBOX_CW_POSTED_SHIFT : Z := 9.
Definition MBOX_CW_SEQ_NO_MASK : Z := 0x3F.
Definition MBOX_CW_SEQ_NO_SHIFT : Z := 10.
Definition MBOX_CW_PARAMS_LEN_MASK : Z := 0xFFF.
Definition MBOX_CW_PARAMS_LEN_SHIFT : Z := 16.
Definition MBOX_CW_RSP_STATUS_MASK : Z := 0xF.
Definition MBOX_CW_RSP_STATUS_SHIFT : Z := 28.
Definition MBOX_CW_TID_MASK : Z := 0xFFFFFFFF.
Definition MBOX_CW_TID_SHIFT : Z := 32.

Definition MBOX_OP_CODE_FW_START : Z := 3.
Definition MBOX_OP_CODE_RESET : Z := 13.
Definition MBOX_OP_CODE_QSFP_MGR_FAULT_TRAP_NOTIFICATION : Z := 22.
Definition MBOX_OP_CODE_LINK_MGR_PORT_STATE_CHANGE_TRAP_NOTIFICATION : Z := 34.
Definition MBOX_OP_CODE_NOOP : Z := 39.
Definition MBOX_OP_CODE_LINK_MGR_PORT_LWD_TRAP_NOTIFICATION : Z := 65.
Definition MBOX_OP_CODE_LINK_MGR_PORT_LQI_TRAP_NOTIFICATION : Z := 69.

Definition MBOX_RSP_STATUS_OK : Z := 0.
Definition MBOX_RSP_STATUS_SEQ_NO_ERROR : Z := 1.

(** enum mbdb_msg_type *)
Inductive mbdb_msg_type := MBOX_RESPONSE | MBOX_REQUEST.

Definition msg_type_val (t : mbdb_msg_type) : Z :=
  match t with MBOX_RESPONSE => 0 | MBOX_REQUEST => 1 end.

(** enum posted *)
Inductive posted := MBOX_RESPONSE_REQUESTED | MBOX_NO_RESPONSE_REQUESTED.

Definition posted_val (p : posted) : Z :=
  match p with MBOX_RESPONSE_REQUESTED => 0 | MBOX_NO_RESPONSE_REQUESTED => 1 end.

(** build_cw: every operand is widened to 64 bits by its [ULL] mask. *)
Definition build_cw (op_code : Z) (req_rsp : mbdb_msg_type) (is_posted : posted)
    (seq_no length tid : Z) : Z :=
  Z.lor (Z.lor (Z.lor (Z.lor (Z.lor
    (shl64 (Z.land op_code MBOX_CW_OPCODE_MASK) MBOX_CW_OPCODE_SHIFT)
    (shl64 (Z.land (msg_type_val req_rsp) MBOX_CW_IS_REQ_MASK) MBOX_CW_IS_REQ_SHIFT))
    (shl64 (Z.land (posted_val is_posted) MBOX_CW_POSTED_MASK) MBOX_CW_POSTED_SHIFT))
    (shl64 (Z.land seq_no MBOX_CW_SEQ_NO_MASK) MBOX_CW_SEQ_NO_SHIFT))
    (shl64 (Z.land length MBOX_CW_PARAMS_LEN_MASK) MBOX_CW_PARAMS_LEN_SHIFT))
    (shl64 (Z.land tid MBOX_CW_TID_MASK) MBOX_CW_TID_SHIFT).

(** The decoders: the cast binds tighter than the mask, and the result is
    truncated once more to the return type. *)
Definition mbdb_mbox_op_code (cw : Z) : Z :=
  u8 (Z.land (u8 (shr64 cw MBOX_CW_OPCODE_SHIFT)) MBOX_CW_OPCODE_MASK).

Definition mbdb_mbox_msg_type (cw : Z) : Z :=
  Z.land (shr64 cw MBOX_CW_IS_REQ_SHIFT) MBOX_CW_IS_REQ_MASK.

Definition mbdb_mbox_is_posted (cw : Z) : Z :=
  Z.land (shr64 cw MBOX_CW_POSTED_SHIFT) MBOX_CW_POSTED_MASK.

Definition mbdb_mbox_seq_no (cw : Z) : Z :=
  u8 (Z.land (u8 (shr64 cw MBOX_CW_SEQ_NO_SHIFT)) MBOX_CW_SEQ_NO_MASK).

Definition mbdb_mbox_seqno_next (seqno : Z) : Z :=
  u8 (Z.land (seqno + 1) MBOX_CW_SEQ_NO_MASK).

Definition mbdb_mbox_seqno_error (seqno expected_seqno : Z) : bool :=
  negb (seqno =? expected_seqno).

Definition mbdb_mbox_params_len (cw : Z) : Z :=
  u16 (Z.land (u16 (shr64 cw MBOX_CW_PARAMS_LEN_SHIFT)) MBOX_CW_PARAMS_LEN_MASK).

Definition mbdb_mbox_tid (cw : Z) : Z :=
  u32 (Z.land (u32 (shr64 cw MBOX_CW_TID_SHIFT)) MBOX_CW_TID_MASK).

Definition mbdb_mbox_rsp_status (cw : Z) : Z :=
  u8 (Z.land (u8 (shr64 cw MBOX_CW_RSP_STATUS_SHIFT)) MBOX_CW_RSP_STATUS_MASK).

(** A field of [n] bits at bit [s] of a control word, read arithmetically. *)
Definition cw_field (cw s n : Z) : Z := (cw / 2 ^ s) mod 2 ^ n.

End Cw.
(** ** Forwarding-table blocks (routing_topology.h)

    A block stores one 4-bit port per destination FID, two per byte, the
    odd offset in the low nibble.  A block is the list of its bytes; the
    source indexes it without a bounds check, and here an offset past the
    end reads 0 and writes nothing. *)

Module Uft.

Definition ROUTING_UFT_INVALID_PORT8 : Z := 0x7f.
Definition ROUTING_UFT_INVALID_PORT4 : Z := 0xf.

Definition byte_at (block : list Z) (i : Z) : Z := default 0 (block !! Z.to_nat i).

Definition routing_uft_entry_set (block : list Z) (fid_offset port : Z) : list Z :=
  let i := u16 (Z.shiftr fid_offset 1) in
  if negb (Z.land fid_offset 1 =? 0)
  then <[Z.to_nat i := u8 (Z.lor (Z.land (byte_at block i) 0xf0) (Z.land port 0xf))]> block
  else <[Z.to_nat i := u8 (Z.lor (Z.shiftl port 4) (Z.land (byte_at block i) 0xf))]> block.

Definition routing_uft_entry_get (block : list Z) (fid_offset : Z) : Z :=
  u8 (Z.land
        (Z.shiftr (byte_at block (Z.shiftr fid_offset 1))
                  (if negb (Z.land fid_offset 1 =? 0) then 0 else 4))
        0xf).

End Uft.

(** ** Unicast routes (routing_logic.c)

    The two functions that fill the forwarding-table blocks of a source
    subdevice.  Each takes the management block of the table and the
    bridge block routing_uft_bridge_get returns for the destination, and
    gives both blocks back. *)

Module Unicast.
Import Uft.

Definition ROUTING_FID_BLOCK_SIZE : Z := 64.
Definition ROUTING_FID_CPORT_BASE : Z := ROUTING_FID_BLOCK_SIZE.
Definition PORT_BRIDGE_START : Z := 9.

(** FIELD_GET(ROUTING_FID_HOST_MASK, fid), the mask being GENMASK(0, 0) *)
Definition is_host_fid (fid : Z) : bool := negb (Z.land fid 1 =? 0).

(** fid_to_bridge_offset: FIELD_GET(ROUTING_FID_MDFI_MASK, fid), the mask
    being GENMASK(2, 1) *)
Definition fid_to_bridge_offset (fid : Z) : Z := u8 (Z.shiftr (Z.land fid 6) 1).

(** One round of the loop of unicast_route_pair_via; [mod_] is the u16
    counter [mod]. *)
Definition route_pair_fid (ports : list Z) (num_ports : Z) (st : list Z * Z) (fid : Z)
    : list Z * Z :=
  let '(block, mod_) := st in
  if is_host_fid fid
  then (routing_uft_entry_set block fid ROUTING_UFT_INVALID_PORT4, mod_)
  else
    let port := default 0 (ports !! Z.to_nat (mod_ mod num_ports)) in
    (routing_uft_entry_set block fid port, u16 (mod_ + 1)).

(** unicast_route_pair_via *)
Definition unicast_route_pair_via (mgmt block : list Z) (fid_mgmt : Z)
    (ports : list Z) (num_ports : Z) : list Z * list Z :=
  (routing_uft_entry_set mgmt (u16 (fid_mgmt - ROUTING_FID_CPORT_BASE))
     (default 0 (ports !! 0%nat)),
   (foldl (route_pair_fid ports num_ports) (block, 0) (seqZ 0 ROUTING_FID_BLOCK_SIZE)).1).

(** One round of the loop of unicast_route_local; [base] is a u8. *)
Definition route_local_fid (fid_base : Z) (block : list Z) (fid : Z) : list Z :=
  if is_host_fid fid
  then routing_uft_entry_set block fid ROUTING_UFT_INVALID_PORT4
  else
    let base := u8 fid_base in
    let bridge_offset := fid_to_bridge_offset (u16 (base + fid)) in
    let port := u8 (PORT_BRIDGE_START + bridge_offset) in
    routing_uft_entry_set block fid port.

(** unicast_route_local *)
Definition unicast_route_local (mgmt block : list Z) (fid_mgmt fid_base : Z)
    : list Z * list Z :=
  (routing_uft_entry_set mgmt (u16 (fid_mgmt - ROUTING_FID_CPORT_BASE)) 0,
   foldl (route_local_fid fid_base) block (seqZ 0 ROUTING_FID_BLOCK_SIZE)).

End Unicast.

(** ** Topology: neighbors, planes and hop costs (routing_logic.c) *)

Module Topo.

Definition PORT_COUNT : Z := 13.
Definition ROUTING_COST_INFINITE : Z := 0xffff.

Inductive pm_port_state :=
  | PM_PORT_STATE_DISABLED
  | PM_PORT_STATE_ENABLED
  | PM_PORT_STATE_IN_ERROR
  | PM_PORT_STATE_ISOLATED
  | PM_PORT_STATE_RECHECK
  | PM_PORT_STATE_INIT
  | PM_PORT_STATE_ACTIVE.

Definition pm_port_state_eqb (a b : pm_port_state) : bool :=
  match a, b with
  | PM_PORT_STATE_DISABLED, PM_PORT_STATE_DISABLED
  | PM_PORT_STATE_ENABLED, PM_PORT_STATE_ENABLED
  | PM_PORT_STATE_IN_ERROR, PM_PORT_STATE_IN_ERROR
  | PM_PORT_STATE_ISOLATED, PM_PORT_STATE_ISOLATED
  | PM_PORT_STATE_RECHECK, PM_PORT_STATE_RECHECK
  | PM_PORT_STATE_INIT, PM_PORT_STATE_INIT
  | PM_PORT_STATE_ACTIVE, PM_PORT_STATE_ACTIVE => true
  | _, _ => false
  end.

(** enum PORT_CONTROL: bit numbers in [fport.controls]. *)
Definition PORT_CONTROL_ENABLED : Z := 0.
Definition PORT_CONTROL_ROUTABLE : Z := 1.
Definition PORT_CONTROL_BEACONING : Z := 2.
Definition PORT_CONTROL_CLEAR_ERROR : Z := 3.

(** The fields of [struct portinfo] the routing engine reads. *)
Record portinfo := mk_portinfo {
  neighbor_guid : Z;
  neighbor_port_number : Z
}.

(** A [struct fport *]: the subdevice (its position in the routable list)
    and the index into that subdevice's [port] array.  The [sd] back pointer
    of a port is the first component. *)
Definition port_ptr : Type := nat * nat.

Record fport := mk_fport {
  portinfo_of : option portinfo;
  state : pm_port_state;
  controls : Z;
  lpn : Z;
  cached_neighbor : option port_ptr
}.

Inductive fsubdev_routing_info_state :=
  | TILE_ROUTING_STATE_ERROR
  | TILE_ROUTING_STATE_VALID.

Record fsubdev := mk_fsubdev {
  guid : Z;
  port : list fport;
  lpn_fport_map : list (option nat);
  fport_lpns : Z;
  routing_state : fsubdev_routing_info_state;
  routing_plane_of : option nat;
  routing_plane_index : Z
}.

Record routing_plane := mk_plane {
  index : Z;
  num_subdevs : Z;
  sd_list : list nat;
  cost : list Z
}.

(** The routable list and the planes of the topology context.  A
    [struct fsubdev *] is a position in [routable_list], a
    [struct routing_plane *] a position in [plane_list]. *)
Record fabric := mk_fabric {
  routable_list : list fsubdev;
  plane_list : list routing_plane
}.

Definition set_cached_neighbor (p : fport) (n : option port_ptr) : fport :=
  mk_fport (portinfo_of p) (state p) (controls p) (lpn p) n.

Definition set_port (sd : fsubdev) (ports : list fport) : fsubdev :=
  mk_fsubdev (guid sd) ports (lpn_fport_map sd) (fport_lpns sd)
    (routing_state sd) (routing_plane_of sd) (routing_plane_index sd).

Definition set_plane (sd : fsubdev) (pl : option nat) : fsubdev :=
  mk_fsubdev (guid sd) (port sd) (lpn_fport_map sd) (fport_lpns sd)
    (routing_state sd) pl (routing_plane_index sd).

Definition set_plane_index (sd : fsubdev) (i : Z) : fsubdev :=
  mk_fsubdev (guid sd) (port sd) (lpn_fport_map sd) (fport_lpns sd)
    (routing_state sd) (routing_plane_of sd) i.

Definition with_sds (f : fabric) (l : list fsubdev) : fabric :=
  mk_fabric l (plane_list f).

Definition with_planes (f : fabric) (l : list routing_plane) : fabric :=
  mk_fabric (routable_list f) l.

Definition update_sd (f : fabric) (h : nat) (g : fsubdev -> fsubdev) : fabric :=
  with_sds f (alter g h (routable_list f)).

Definition update_plane (f : fabric) (h : nat) (g : routing_plane -> routing_plane) : fabric :=
  with_planes f (alter g h (plane_list f)).

(** for_each_fabric_lpn: the set bits of [fport_lpns] below PORT_COUNT, in
    increasing order. *)
Definition fabric_lpns (sd : fsubdev) : list Z :=
  filter (fun l => Z.testbit (fport_lpns sd) l = true) (seqZ 0 PORT_COUNT).

(** get_fport_handle *)
Definition get_fport_handle (sd : fsubdev) (l : Z) : option nat :=
  if l <? PORT_COUNT then mjoin (lpn_fport_map sd !! Z.to_nat l) else None.

Definition test_bit (nr bits : Z) : bool := Z.testbit bits nr.

(** port_is_routable *)
Definition port_is_routable (p : fport) : bool :=
  pm_port_state_eqb (state p) PM_PORT_STATE_ACTIVE
  && test_bit PORT_CONTROL_ROUTABLE (controls p).

(** routing_sd_is_error *)
Definition routing_sd_is_error (sd : fsubdev) : bool :=
  match routing_state sd with TILE_ROUTING_STATE_ERROR => true | _ => false end.

(** find_routable_sd: the first subdevice of the routable list with the
    GUID. *)
Fixpoint find_guid (g : Z) (l : list fsubdev) (h : nat) : option nat :=
  match l with
  | [] => None
  | sd :: l' => if guid sd =? g then Some h else find_guid g l' (S h)
  end.

Definition find_routable_sd (f : fabric) (g : Z) : option nat :=
  find_guid g (routable_list f) 0.

Definition port_at (f : fabric) (p : port_ptr) : option fport :=
  sd ← routable_list f !! p.1; port sd !! p.2.

(** process_neighbor: the port the source names as its neighbor, after
    every check of the function has passed. *)
Definition neighbor_candidate (f : fabric) (sd_src : fsubdev) (port_src : fport)
    : option port_ptr :=
  if negb (port_is_routable port_src) then None else
  match portinfo_of port_src with
  | None => None
  | Some pi =>
    let nguid := neighbor_guid pi in
    if (nguid =? 0) || (guid sd_src =? nguid) then None else
    match find_routable_sd f nguid with
    | None => None
    | Some h_dst =>
      match routable_list f !! h_dst with
      | None => None
      | Some sd_dst =>
        match get_fport_handle sd_dst (neighbor_port_number pi) with
        | None => None
        | Some i_dst =>
          match port sd_dst !! i_dst with
          | None => None
          | Some port_dst =>
            if negb (port_is_routable port_dst) then None else
            match portinfo_of port_dst with
            | None => None
            | Some pi_dst =>
              if negb (neighbor_guid pi_dst =? guid sd_src) then None else
              if negb (neighbor_port_number pi_dst =? lpn port_src) then None else
              Some (h_dst, i_dst)
            end
          end
        end
      end
    end
  end.

Definition store_neighbor (f : fabric) (p : port_ptr) (n : option port_ptr) : fabric :=
  update_sd f p.1 (fun sd =>
    set_port sd (alter (fun q => set_cached_neighbor q n) p.2 (port sd))).

Definition process_neighbor (f : fabric) (h_src i_src : nat) : fabric :=
  let f0 := store_neighbor f (h_src, i_src) None in
  match routable_list f0 !! h_src with
  | None => f0
  | Some sd_src =>
    match port sd_src !! i_src with
    | None => f0
    | Some port_src =>
      match neighbor_candidate f0 sd_src port_src with
      | None => f0
      | Some port_dst => store_neighbor f0 (h_src, i_src) (Some port_dst)
      end
    end
  end.

(** Modelled from the spec: routing_sd_iter and routing_sd_next are declared
    in routing_topology.h and defined outside the tree.  The sweep works on
    "the routable set", and update_routed_status passes [all = 1] to
    "enumerate ALL devices" including failed ones, so the walk with
    [all = 0] visits the routable list in order and leaves out subdevices in
    the error state. *)
Definition routing_sd_visited (all : bool) (f : fabric) (h : nat) : bool :=
  match routable_list f !! h with
  | Some sd => all || negb (routing_sd_is_error sd)
  | None => false
  end.

Definition routing_sd_walk (all : bool) (f : fabric) : list nat :=
  filter (fun h => routing_sd_visited all f h = true)
         (seq 0 (length (routable_list f))).

(** A loop [for (sd = routing_sd_iter(0); sd; sd = routing_sd_next(sd, 0))]
    over the subdevices [walk] that the iterator yields. *)
Definition for_each_sd (walk : list nat) (body : fabric -> nat -> fabric) (f : fabric)
    : fabric :=
  foldl body f walk.

Definition process_neighbors_sd (f : fabric) (h : nat) : fabric :=
  match routable_list f !! h with
  | None => f
  | Some sd =>
    foldl (fun f l =>
             match get_fport_handle sd l with
             | None => f
             | Some i => process_neighbor f h i
             end)
          f (fabric_lpns sd)
  end.

Definition process_neighbors (walk : list nat) (f : fabric) : fabric :=
  for_each_sd walk process_neighbors_sd f.

(** *** What the neighbor pass establishes *)

(** What "the relationship is mutually confirmed" says of a port [src] and
    the port [nb] cached as its neighbor. *)
Definition confirmed (f : fabric) (src nb : port_ptr) : Prop :=
  exists sd_src port_src pi sd_dst port_dst pi_dst,
    routable_list f !! src.1 = Some sd_src /\
    port sd_src !! src.2 = Some port_src /\
    port_is_routable port_src = true /\
    portinfo_of port_src = Some pi /\
    routable_list f !! nb.1 = Some sd_dst /\
    guid sd_dst = neighbor_guid pi /\
    get_fport_handle sd_dst (neighbor_port_number pi) = Some nb.2 /\
    port sd_dst !! nb.2 = Some port_dst /\
    port_is_routable port_dst = true /\
    portinfo_of port_dst = Some pi_dst /\
    neighbor_guid pi_dst = guid sd_src /\
    neighbor_port_number pi_dst = lpn port_src.

(** [q] is [p] up to the cached neighbor. *)
Definition same_port (p q : fport) : Prop :=
  portinfo_of q = portinfo_of p /\ state q = state p /\
  controls q = controls p /\ lpn q = lpn p.

Definition same_sd (sd sd' : fsubdev) : Prop :=
  guid sd' = guid sd /\ lpn_fport_map sd' = lpn_fport_map sd /\
  fport_lpns sd' = fport_lpns sd /\ routing_state sd' = routing_state sd.

(** Two fabrics that differ in cached neighbors only. *)
Definition same_fabric (f f' : fabric) : Prop :=
  Forall2 same_sd (routable_list f) (routable_list f').

(** Every port of [f] that has a cached neighbor is confirmed by it. *)
Definition port_ok (f : fabric) (src : port_ptr) : Prop :=
  forall sd p nb,
    routable_list f !! src.1 = Some sd -> port sd !! src.2 = Some p ->
    cached_neighbor p = Some nb -> confirmed f src nb.

(** neighbor_of, through get_fport_handle.  The callers that do not test
    the handle dereference it; every fabric lpn of a subdevice is mapped
    (initial_port_state sets the bit and the map entry together), and an
    unmapped one is read here as a port without neighbor. *)
Definition neighbor_of_lpn (sd : fsubdev) (l : Z) : option port_ptr :=
  i ← get_fport_handle sd l; p ← port sd !! i; cached_neighbor p.

Definition new_plane (idx : Z) : routing_plane := mk_plane idx 0 [] [].

Definition set_num_subdevs (pl : routing_plane) (n : Z) : routing_plane :=
  mk_plane (index pl) n (sd_list pl) (cost pl).

Definition add_sd (pl : routing_plane) (h : nat) : routing_plane :=
  mk_plane (index pl) (num_subdevs pl) (sd_list pl ++ [h]) (cost pl).

Definition set_cost (pl : routing_plane) (c : list Z) : routing_plane :=
  mk_plane (index pl) (num_subdevs pl) (sd_list pl) c.

(** routing_plane_destroy, for the members of the plane; build_planes
    destroys every plane and is left with an empty plane list. *)
Definition plane_release_sds (f : fabric) (pl : routing_plane) : fabric :=
  foldl (fun f h => update_sd f h (fun sd => set_plane_index (set_plane sd None) 0))
        f (sd_list pl).

Definition destroy_planes (f : fabric) : fabric :=
  with_planes (foldl plane_release_sds f (plane_list f)) [].

(** plane_alloc: the new plane is linked at the tail and takes num_planes
    as its index.  (Allocation is taken to succeed.) *)
Definition plane_alloc (f : fabric) : fabric * nat :=
  let h := length (plane_list f) in
  (with_planes f (plane_list f ++ [new_plane (Z.of_nat h)]), h).

Definition propagate_plane_entry (pl : nat) (st : fabric * list nat) (h : nat)
    : fabric * list nat :=
  let '(f, queue) := st in
  match routable_list f !! h with
  | None => st
  | Some sd =>
    let f := update_plane f pl (fun p => add_sd p h) in
    let own := default pl (routing_plane_of sd) in
    let n := default 0 (num_subdevs <$> plane_list f !! own) in
    let f := update_sd f h (fun sd => set_plane_index sd (u16 n)) in
    let f := update_plane f own (fun p => set_num_subdevs p (u16 (n + 1))) in
    foldl (fun '(f, queue) l =>
             match neighbor_of_lpn sd l with
             | None => (f, queue)
             | Some port_neighbor =>
               let h_n := port_neighbor.1 in
               match routable_list f !! h_n with
               | None => (f, queue)
               | Some sd_neighbor =>
                 if routing_sd_is_error sd_neighbor
                    || bool_decide (is_Some (routing_plane_of sd_neighbor))
                 then (f, queue)
                 else (update_sd f h_n (fun sd => set_plane sd (Some pl)),
                       queue ++ [h_n])
               end
             end)
          (f, queue) (fabric_lpns sd)
  end.

(** propagate_plane: the work queue loop; every subdevice is queued at
    most once, so [fuel] above the length of the routable list is never
    exhausted. *)
Fixpoint propagate_loop (fuel : nat) (pl : nat) (st : fabric * list nat) : fabric :=
  match fuel with
  | O => st.1
  | S fuel' =>
    match st.2 with
    | [] => st.1
    | h :: queue => propagate_loop fuel' pl (propagate_plane_entry pl (st.1, queue) h)
    end
  end.

Definition propagate_plane (f : fabric) (pl : nat) (root : nat) : fabric :=
  propagate_loop (S (length (routable_list f))) pl (f, [root]).

Definition build_planes (walk : list nat) (f : fabric) : fabric :=
  for_each_sd walk (fun f h =>
    match routable_list f !! h with
    | None => f
    | Some sd =>
      match routing_plane_of sd with
      | Some _ => f
      | None =>
        let '(f, pl) := plane_alloc f in
        let f := update_sd f h (fun sd => set_plane sd (Some pl)) in
        propagate_plane f pl h
      end
    end) (destroy_planes f).

(** ** The cost matrix (routing_logic.c) *)

Definition cost_at (cost : list Z) (idx : Z) : Z := default 0 (cost !! Z.to_nat idx).
Definition cost_set (cost : list Z) (idx v : Z) : list Z := <[Z.to_nat idx := v]> cost.

(** The innermost statement of the relaxation: [value] is a u16. *)
Definition relax_j (n k i : Z) (cost : list Z) (j : Z) : list Z :=
  if j =? k then cost
  else
    let ij := i * n + j in
    let kj := k * n + j in
    let ik := i * n + k in
    let value := u16 (cost_at cost ik + cost_at cost kj) in
    if cost_at cost ij >? value
    then cost_set (cost_set cost ij value) (j * n + i) value
    else cost.

Definition relax_i (n k : Z) (cost : list Z) (i : Z) : list Z :=
  if i =? k then cost
  else if cost_at cost (i * n + k) =? ROUTING_COST_INFINITE then cost
  else foldl (relax_j n k i) cost (seqZ (i + 1) (n - (i + 1))).

Definition relax_k (n : Z) (cost : list Z) (k : Z) : list Z :=
  foldl (relax_i n k) cost (seqZ 0 (n - 1)).

Definition floyd_warshall (n : Z) (cost : list Z) : list Z :=
  foldl (relax_k n) cost (seqZ 0 n).

(** The single-hop matrix: 0xffff everywhere (memset 0xff), 0 on the
    diagonal, 1 toward the subdevice of every cached neighbor. *)
Definition seed_sd (f : fabric) (n : Z) (cost : list Z) (h : nat) : list Z :=
  match routable_list f !! h with
  | None => cost
  | Some sd =>
    let i := routing_plane_index sd in
    foldl (fun cost l =>
             match neighbor_of_lpn sd l with
             | None => cost
             | Some port_neighbor =>
               match routable_list f !! port_neighbor.1 with
               | None => cost
               | Some sd_n => cost_set cost (i * n + routing_plane_index sd_n) 1
               end
             end)
          (cost_set cost (i * n + i) 0) (fabric_lpns sd)
  end.

Definition single_hop (f : fabric) (pl : routing_plane) : list Z :=
  let n := num_subdevs pl in
  foldl (seed_sd f n) (replicate (Z.to_nat (n * n)) ROUTING_COST_INFINITE) (sd_list pl).

(** compute_cost_for_plane (the allocation is taken to succeed). *)
Definition compute_cost_for_plane (f : fabric) (pl : routing_plane) : routing_plane :=
  set_cost pl (floyd_warshall (num_subdevs pl) (single_hop f pl)).

Definition compute_costs (f : fabric) : fabric :=
  with_planes f (map (compute_cost_for_plane f) (plane_list f)).

(** routing_cost_lookup *)
Definition routing_cost_lookup (f : fabric) (h_src h_dst : nat) : Z :=
  match routable_list f !! h_src, routable_list f !! h_dst with
  | Some sd_src, Some sd_dst =>
    match routing_plane_of sd_src with
    | None => ROUTING_COST_INFINITE
    | Some pl =>
      if negb (bool_decide (routing_plane_of sd_dst = Some pl)) then ROUTING_COST_INFINITE
      else
        match plane_list f !! pl with
        | None => ROUTING_COST_INFINITE
        | Some plane =>
          let i := routing_plane_index sd_src in
          let j := routing_plane_index sd_dst in
          let n := num_subdevs plane in
          cost_at (cost plane) (i * n + j)
        end
    end
  | _, _ => ROUTING_COST_INFINITE
  end.

(** The stages of routing_logic_run up to the cost matrix. *)
Definition sweep_costs (f : fabric) : fabric :=
  let walk := routing_sd_walk false f in
  compute_costs (build_planes walk (process_neighbors walk f)).

(** *** The ring A-B-C-D-A *)

Definition ROUTABLE_ACTIVE (l g n : Z) : fport :=
  mk_fport (Some (mk_portinfo g n)) PM_PORT_STATE_ACTIVE 2 l None.

(** A subdevice with fabric ports 1 and 2, cabled to port [n1] of [g1] and
    port [n2] of [g2]. *)
Definition ring_sd (g g1 n1 g2 n2 : Z) : fsubdev :=
  mk_fsubdev g [ROUTABLE_ACTIVE 1 g1 n1; ROUTABLE_ACTIVE 2 g2 n2]
    [None; Some 0%nat; Some 1%nat; None; None; None; None; None; None; None; None; None; None]
    6 TILE_ROUTING_STATE_VALID None 0.

Definition ring_A : nat := 0.
Definition ring_B : nat := 1.
Definition ring_C : nat := 2.
Definition ring_D : nat := 3.

Definition ring : fabric :=
  mk_fabric [ring_sd 0xA 0xB 2 0xD 1; ring_sd 0xB 0xC 2 0xA 1;
             ring_sd 0xC 0xD 2 0xB 1; ring_sd 0xD 0xA 2 0xC 1] [].

(** *** Quantities the further statements are written with *)

Definition cost_symmetric (n : Z) (cost : list Z) : Prop :=
  forall a b, 0 <= a < n -> 0 <= b < n -> cost_at cost (a * n + b) = cost_at cost (b * n + a).

(** [c'] is a matrix of the size of [c], symmetric, nowhere above [c] and
    with the diagonal of [c]. *)
Definition relaxed (n : Z) (c c' : list Z) : Prop :=
  length c' = length c /\
  cost_symmetric n c' /\
  (forall a b, 0 <= a < n -> 0 <= b < n -> cost_at c' (a * n + b) <= cost_at c (a * n + b)) /\
  (forall a, 0 <= a < n -> cost_at c' (a * n + a) = cost_at c (a * n + a)).

(** Two subdevices, and two fabrics, that differ in cached neighbors
    only, port by port. *)
Definition same_wires_sd (sd sd' : fsubdev) : Prop :=
  same_sd sd sd' /\ Forall2 same_port (port sd) (port sd').

Definition same_wires (f f' : fabric) : Prop :=
  Forall2 same_wires_sd (routable_list f) (routable_list f').

(** The cached neighbor of the port [src] is the port that passes the
    checks of process_neighbor on [f], or NULL when none does. *)
Definition neighbor_set (f : fabric) (src : port_ptr) : Prop :=
  forall sd p, routable_list f !! src.1 = Some sd -> port sd !! src.2 = Some p ->
    cached_neighbor p = neighbor_candidate f sd p.

(** *** A subdevice in error with a neighbor cached *)

(** Two subdevices cabled port 1 to port 1.  The first is in the error
    state, with its port Active and the neighbor an earlier sweep cached;
    the port of the second has left Active since. *)
Definition stale : fabric :=
  mk_fabric
    [ mk_fsubdev 0xA
        [mk_fport (Some (mk_portinfo 0xB 1)) PM_PORT_STATE_ACTIVE 2 1 (Some (1%nat, 0%nat))]
        (None :: Some 0%nat :: replicate 11 None) 2 TILE_ROUTING_STATE_ERROR None 0;
      mk_fsubdev 0xB
        [mk_fport (Some (mk_portinfo 0xA 1)) PM_PORT_STATE_DISABLED 2 1 None]
        (None :: Some 0%nat :: replicate 11 None) 2 TILE_ROUTING_STATE_VALID None 0 ]
    [].

(** *** Quantities the statements on the planes are written with *)

(** The subdevice without its plane. *)
Definition reset_plane (sd : fsubdev) : fsubdev := set_plane_index (set_plane sd None) 0.

(** Every subdevice that has a plane is on the list of that plane, and a
    subdevice without a plane has plane index 0. *)
Definition planes_linked (f : fabric) : Prop :=
  forall h sd, routable_list f !! h = Some sd ->
    match routing_plane_of sd with
    | None => routing_plane_index sd = 0
    | Some p => exists plane, plane_list f !! p = Some plane /\ h ∈ sd_list plane
    end.

(** The state of the work queue of propagate_plane for the plane [pl]:
    a subdevice with a plane is on the list of its plane or waits in the
    queue for [pl], and those in the queue have the plane [pl]. *)
Definition queue_inv (pl : nat) (f : fabric) (queue : list nat) : Prop :=
  (pl < length (plane_list f))%nat /\
  (forall h, h ∈ queue ->
     exists sd, routable_list f !! h = Some sd /\ routing_plane_of sd = Some pl) /\
  forall h sd, routable_list f !! h = Some sd ->
    match routing_plane_of sd with
    | None => routing_plane_index sd = 0
    | Some p =>
      (exists plane, plane_list f !! p = Some plane /\ h ∈ sd_list plane) \/
      (p = pl /\ h ∈ queue)
    end.

(** The subdevices without a plane. *)
Definition unassigned (f : fabric) : nat :=
  length (filter (fun sd => routing_plane_of sd = None) (routable_list f)).

(** The three stages of routing_logic_run that work on the routable list
    and the planes. *)
Definition topology_stages (f : fabric) : fabric :=
  let walk := routing_sd_walk false f in
  compute_costs (build_planes walk (process_neighbors walk f)).

(** The subdevices of [f'] are those of [f] up to [R], one by one. *)
Definition sd_rel (R : fsubdev -> fsubdev -> Prop) (f f' : fabric) : Prop :=
  Forall2 R (routable_list f) (routable_list f').

Definition same_state (sd sd' : fsubdev) : Prop := routing_state sd' = routing_state sd.

Definition same_plane (sd sd' : fsubdev) : Prop :=
  routing_plane_of sd' = routing_plane_of sd /\
  routing_plane_index sd' = routing_plane_index sd.

Definition same_but_plane (sd sd' : fsubdev) : Prop := reset_plane sd' = reset_plane sd.

End Topo.

(** ** Port manager (port.c) *)

Module Port.

Definition PORT_COUNT : Z := 13.

Definition IB_PORT_DOWN : Z := 1.
Definition IB_PORT_INIT : Z := 2.
Definition IB_PORT_ARMED : Z := 3.
Definition IB_PORT_ACTIVE : Z := 4.

Definition IB_PORT_PHYS_POLLING : Z := 2.
Definition IB_PORT_PHYS_DISABLED : Z := 3.

Inductive pm_port_state :=
  | PM_PORT_STATE_DISABLED
  | PM_PORT_STATE_ENABLED
  | PM_PORT_STATE_IN_ERROR
  | PM_PORT_STATE_ISOLATED
  | PM_PORT_STATE_RECHECK
  | PM_PORT_STATE_INIT
  | PM_PORT_STATE_ACTIVE.

(** enum PORT_CONTROL: bit numbers in [fport.controls]. *)
Definition PORT_CONTROL_ENABLED : Z := 0.
Definition PORT_CONTROL_ROUTABLE : Z := 1.
Definition PORT_CONTROL_BEACONING : Z := 2.
Definition PORT_CONTROL_CLEAR_ERROR : Z := 3.

Inductive fport_health :=
  | FPORT_HEALTH_BLACK
  | FPORT_HEALTH_RED
  | FPORT_HEALTH_YELLOW
  | FPORT_HEALTH_GREEN.

(** enum fport_issue: bit numbers in [fport_status.issues]. *)
Definition FPORT_ISSUE_LQI : Z := 0.
Definition FPORT_ISSUE_LWD : Z := 1.
Definition FPORT_ISSUE_RATE : Z := 2.

Inductive fport_error :=
  | FPORT_ERROR_NONE
  | FPORT_ERROR_FAILED
  | FPORT_ERROR_ISOLATED
  | FPORT_ERROR_FLAPPING
  | FPORT_ERROR_LINK_DOWN
  | FPORT_ERROR_DID_NOT_TRAIN.

Record fport_status := mk_status {
  health : fport_health;
  issues : Z;
  error_reason : fport_error
}.

(** The fields of [struct portinfo] the port manager reads. *)
Record portinfo := mk_portinfo {
  neighbor_guid : Z;
  neighbor_port_number : Z;
  link_width_enabled : Z;
  link_width_active : Z;
  link_speed_enabled : Z;
  link_speed_active : Z;
  link_width_downgrade_rx_active : Z;
  link_width_downgrade_tx_active : Z;
  oldr_nn_lqi : Z
}.

Record fport := mk_fport {
  fport_portinfo : portinfo;
  state : pm_port_state;
  controls : Z;
  lpn : Z;
  log_state : Z
}.

Record fsm_io := mk_fio {
  deisolating : bool;
  routing_changed : bool;
  rescan_needed : bool;
  request_deisolation : bool
}.

(** The two mailbox operations the state machine issues, with the logical
    port number and the state requested. *)
Inductive mbox_call :=
  | ops_linkmgr_port_maj_phystate_set (lpn new_state : Z)
  | ops_linkmgr_port_link_state_set (lpn new_state : Z).

(** What a pass over the ports reads and does not write: the identity of
    the subdevice, the device registry behind fdev_find_by_sd_guid, the two
    loopback module parameters, and the firmware's answer to each mailbox
    call, numbered in the order the calls are made: the return value [err]
    and the operation status [op_err] written back. *)
Record pm_env := mk_env {
  sd_guid : Z;
  sd_fdev : nat;
  fdev_find_by_sd_guid : Z -> option nat;
  port_allow_direct_loopback : bool;
  port_isolate_loop_pairs : bool;
  reply : nat -> Z * Z
}.

(** The state an FSM action works on: the port [p] it was called with, the
    unpublished status array of the subdevice (indexed by logical port
    number), the request flags of the pass, the system-wide count of
    isolated ports, and the mailbox calls made so far. *)
Record pm := mk_pm {
  p : fport;
  next_port_status : list fport_status;
  fio : fsm_io;
  isolated_port_cnt : Z;
  calls : list mbox_call
}.

Definition set_state (s : pm) (st : pm_port_state) : pm :=
  mk_pm (mk_fport (fport_portinfo (p s)) st (controls (p s)) (lpn (p s)) (log_state (p s)))
        (next_port_status s) (fio s) (isolated_port_cnt s) (calls s).

Definition set_controls (s : pm) (c : Z) : pm :=
  mk_pm (mk_fport (fport_portinfo (p s)) (state (p s)) c (lpn (p s)) (log_state (p s)))
        (next_port_status s) (fio s) (isolated_port_cnt s) (calls s).

Definition set_fio (s : pm) (f : fsm_io) : pm :=
  mk_pm (p s) (next_port_status s) f (isolated_port_cnt s) (calls s).

Definition set_isolated_port_cnt (s : pm) (n : Z) : pm :=
  mk_pm (p s) (next_port_status s) (fio s) n (calls s).

(** An update of [sd->next_port_status[p->lpn]]. *)
Definition with_status (s : pm) (f : fport_status -> fport_status) : pm :=
  mk_pm (p s) (alter f (Z.to_nat (lpn (p s))) (next_port_status s))
        (fio s) (isolated_port_cnt s) (calls s).

Definition status_at (l : list fport_status) (lpn : Z) : option fport_status :=
  l !! Z.to_nat lpn.

Definition set_routing_changed (s : pm) : pm :=
  set_fio s (mk_fio (deisolating (fio s)) true (rescan_needed (fio s))
                    (request_deisolation (fio s))).

Definition set_rescan_needed (s : pm) : pm :=
  set_fio s (mk_fio (deisolating (fio s)) (routing_changed (fio s)) true
                    (request_deisolation (fio s))).

Definition set_request_deisolation (s : pm) : pm :=
  set_fio s (mk_fio (deisolating (fio s)) (routing_changed (fio s))
                    (rescan_needed (fio s)) true).

(** A mailbox call: logged, and answered by the environment. *)
Definition mbox (e : pm_env) (c : mbox_call) (s : pm) : (Z * Z) * pm :=
  (reply e (length (calls s)),
   mk_pm (p s) (next_port_status s) (fio s) (isolated_port_cnt s) (calls s ++ [c])).

(** [err || op_err] *)
Definition failed (r : Z * Z) : bool := negb (r.1 =? 0) || negb (r.2 =? 0).

Definition test_bit (nr bits : Z) : bool := Z.testbit bits nr.
Definition set_bit (nr bits : Z) : Z := Z.lor bits (Z.shiftl 1 nr).
Definition clear_bit (nr bits : Z) : Z := Z.ldiff bits (Z.shiftl 1 nr).

(** fls: the position of the most significant set bit, counted from 1. *)
Definition fls (x : Z) : Z := if x <=? 0 then 0 else Z.log2 x + 1.

(** *** Health helpers *)

Definition set_health_black (st : fport_status) : fport_status :=
  mk_status FPORT_HEALTH_BLACK 0 FPORT_ERROR_NONE.

Definition set_health_red (reason : fport_error) (st : fport_status) : fport_status :=
  mk_status FPORT_HEALTH_RED 0 reason.

Definition set_health_yellow (issue : Z) (st : fport_status) : fport_status :=
  mk_status FPORT_HEALTH_YELLOW (set_bit issue (issues st)) (error_reason st).

Definition set_health_green (st : fport_status) : fport_status :=
  mk_status FPORT_HEALTH_GREEN 0 FPORT_ERROR_NONE.

(** FIELD_GET(OLDR_NN_LQI_NEIGHBOR_NORMAL, x): bit 4;
    FIELD_GET(OLDR_NN_LQI_LINK_QUALITY_INDICATOR, x): bits 7:5. *)
Definition neighbor_normal (oldr_nn_lqi : Z) : bool := Z.testbit oldr_nn_lqi 4.
Definition link_quality (oldr_nn_lqi : Z) : Z := Z.land (Z.shiftr oldr_nn_lqi 5) 7.

(** *** FSM actions *)

Definition is_isolated (st : pm_port_state) : bool :=
  match st with PM_PORT_STATE_ISOLATED => true | _ => false end.

Definition atomic_dec_isolated (s : pm) : pm :=
  set_isolated_port_cnt s (isolated_port_cnt s - 1).

Definition atomic_inc_isolated (s : pm) : pm :=
  set_isolated_port_cnt s (isolated_port_cnt s + 1).

Definition port_in_error (e : pm_env) (s : pm) : pm :=
  let s := if is_isolated (state (p s)) then atomic_dec_isolated s else s in
  let s := set_state s PM_PORT_STATE_IN_ERROR in
  let s := with_status s (set_health_red FPORT_ERROR_FAILED) in
  let s := set_routing_changed s in
  let '(_, s) := mbox e (ops_linkmgr_port_maj_phystate_set (lpn (p s)) IB_PORT_PHYS_DISABLED) s in
  s.

Definition port_disable (e : pm_env) (s : pm) : pm :=
  let s := if is_isolated (state (p s)) then atomic_dec_isolated s else s in
  let '(r, s) := mbox e (ops_linkmgr_port_maj_phystate_set (lpn (p s)) IB_PORT_PHYS_DISABLED) s in
  if failed r then port_in_error e s
  else
    let s := set_state s PM_PORT_STATE_DISABLED in
    let s := with_status s set_health_black in
    set_routing_changed s.

Definition port_enable_polling (e : pm_env) (s : pm) : pm :=
  let '(r, s) := mbox e (ops_linkmgr_port_maj_phystate_set (lpn (p s)) IB_PORT_PHYS_POLLING) s in
  if failed r then port_in_error e s
  else
    let s := set_state s PM_PORT_STATE_ENABLED in
    set_request_deisolation s.

Definition port_isolate (e : pm_env) (s : pm) : pm :=
  let '(r, s) := mbox e (ops_linkmgr_port_maj_phystate_set (lpn (p s)) IB_PORT_PHYS_DISABLED) s in
  if failed r then port_in_error e s
  else
    let s := set_state s PM_PORT_STATE_ISOLATED in
    let s := with_status s (set_health_red FPORT_ERROR_ISOLATED) in
    atomic_inc_isolated s.

Definition port_deisolate (e : pm_env) (s : pm) : pm :=
  let s := atomic_dec_isolated s in
  let '(r, s) := mbox e (ops_linkmgr_port_maj_phystate_set (lpn (p s)) IB_PORT_PHYS_POLLING) s in
  if failed r then port_in_error e s
  else
    let s := set_state s PM_PORT_STATE_RECHECK in
    with_status s set_health_black.

Definition set_active_health (s : pm) : pm :=
  let pi := fport_portinfo (p s) in
  let s := with_status s set_health_green in
  let s := if link_quality (oldr_nn_lqi pi) <? 4
           then with_status s (set_health_yellow FPORT_ISSUE_LQI) else s in
  let s := if (fls (link_width_active pi) <? fls (link_width_enabled pi))
              || negb (link_width_downgrade_rx_active pi =? link_width_active pi)
              || negb (link_width_downgrade_tx_active pi =? link_width_active pi)
           then with_status s (set_health_yellow FPORT_ISSUE_LWD) else s in
  if fls (link_speed_enabled pi) <? fls (link_speed_active pi)
  then with_status s (set_health_yellow FPORT_ISSUE_RATE) else s.

Definition port_activate (e : pm_env) (s : pm) : pm :=
  let '(r, s) := mbox e (ops_linkmgr_port_link_state_set (lpn (p s)) IB_PORT_ACTIVE) s in
  if failed r then port_in_error e s
  else
    let s := set_state s PM_PORT_STATE_ACTIVE in
    let s := set_active_health s in
    set_routing_changed s.

Definition valid_neighbor (e : pm_env) (s : pm) : bool :=
  let pi := fport_portinfo (p s) in
  match fdev_find_by_sd_guid e (neighbor_guid pi) with
  | None => false
  | Some neighbor_dev =>
    if negb (Nat.eqb neighbor_dev (sd_fdev e)) then true
    else if (neighbor_guid pi =? sd_guid e) && (neighbor_port_number pi =? lpn (p s))
    then port_allow_direct_loopback e
    else negb (port_isolate_loop_pairs e)
  end.

Definition port_arm (e : pm_env) (s : pm) : pm :=
  let '(r, s) := mbox e (ops_linkmgr_port_link_state_set (lpn (p s)) IB_PORT_ARMED) s in
  if failed r then port_in_error e s
  else
    let s := set_state s PM_PORT_STATE_INIT in
    if neighbor_normal (oldr_nn_lqi (fport_portinfo (p s)))
    then port_activate e s
    else s.

Definition port_arm_or_isolate (e : pm_env) (s : pm) : pm :=
  if valid_neighbor e s then port_arm e s else port_isolate e s.

Definition port_retry (e : pm_env) (s : pm) : pm :=
  let s := with_status s (set_health_red FPORT_ERROR_LINK_DOWN) in
  set_state s PM_PORT_STATE_ENABLED.

Definition port_rearm (e : pm_env) (s : pm) : pm :=
  let s := with_status s (set_health_red FPORT_ERROR_LINK_DOWN) in
  port_arm e s.

Definition port_retry_active (e : pm_env) (s : pm) : pm :=
  set_routing_changed (port_retry e s).

Definition port_rearm_active (e : pm_env) (s : pm) : pm :=
  set_routing_changed (port_rearm e s).

(** *** FSM states *)

Definition enabled (s : pm) : bool := test_bit PORT_CONTROL_ENABLED (controls (p s)).

Definition fsm_DISABLED (e : pm_env) (s : pm) : pm :=
  if enabled s then port_enable_polling e s else s.

Definition fsm_ENABLED (e : pm_env) (s : pm) : pm :=
  if negb (enabled s) then port_disable e s
  else if log_state (p s) =? IB_PORT_DOWN then s
  else if log_state (p s) =? IB_PORT_INIT then port_arm_or_isolate e s
  else port_in_error e s.

Definition fsm_IN_ERROR (e : pm_env) (s : pm) : pm :=
  if test_bit PORT_CONTROL_CLEAR_ERROR (controls (p s))
  then
    let s := set_controls s (clear_bit PORT_CONTROL_CLEAR_ERROR (controls (p s))) in
    let s := set_state s PM_PORT_STATE_DISABLED in
    set_rescan_needed s
  else s.

Definition fsm_ISOLATED (e : pm_env) (s : pm) : pm :=
  if negb (enabled s) then port_disable e s
  else if deisolating (fio s) then port_deisolate e s
  else s.

Definition fsm_RECHECK (e : pm_env) (s : pm) : pm :=
  if negb (enabled s) then port_disable e s
  else if log_state (p s) =? IB_PORT_DOWN then s
  else if log_state (p s) =? IB_PORT_INIT then port_arm_or_isolate e s
  else port_in_error e s.

Definition fsm_INIT (e : pm_env) (s : pm) : pm :=
  if negb (enabled s) then port_disable e s
  else if log_state (p s) =? IB_PORT_DOWN then port_retry e s
  else if log_state (p s) =? IB_PORT_INIT then port_rearm e s
  else if neighbor_normal (oldr_nn_lqi (fport_portinfo (p s))) then port_activate e s
  else s.

Definition fsm_ACTIVE (e : pm_env) (s : pm) : pm :=
  if negb (enabled s) then port_disable e s
  else if log_state (p s) =? IB_PORT_DOWN then port_retry_active e s
  else if log_state (p s) =? IB_PORT_INIT then port_rearm_active e s
  else set_active_health s.

(** The body of the loop of kick_fsms for one port.  (The enum has no
    value outside the seven, so the default arm is not reached.) *)
Definition kick_fsm (e : pm_env) (s : pm) : pm :=
  match state (p s) with
  | PM_PORT_STATE_DISABLED => fsm_DISABLED e s
  | PM_PORT_STATE_ENABLED => fsm_ENABLED e s
  | PM_PORT_STATE_IN_ERROR => fsm_IN_ERROR e s
  | PM_PORT_STATE_ISOLATED => fsm_ISOLATED e s
  | PM_PORT_STATE_RECHECK => fsm_RECHECK e s
  | PM_PORT_STATE_INIT => fsm_INIT e s
  | PM_PORT_STATE_ACTIVE => fsm_ACTIVE e s
  end.

(** The subdevice state a pass works on. *)
Record pm_sd := mk_pm_sd {
  port : list fport;
  sd_next_port_status : list fport_status;
  sd_fio : fsm_io;
  sd_isolated_port_cnt : Z;
  sd_calls : list mbox_call
}.

(** kick_fsms: step the FSM of every port of the subdevice once, in
    array order. *)
Definition kick_port (e : pm_env) (sd : pm_sd) (i : nat) : pm_sd :=
  match port sd !! i with
  | None => sd
  | Some q =>
    let s := kick_fsm e (mk_pm q (sd_next_port_status sd) (sd_fio sd)
                               (sd_isolated_port_cnt sd) (sd_calls sd)) in
    mk_pm_sd (<[i := p s]> (port sd)) (next_port_status s) (fio s)
             (isolated_port_cnt s) (calls s)
  end.

Definition kick_fsms (e : pm_env) (sd : pm_sd) : pm_sd :=
  foldl (kick_port e) sd (seq 0 (length (port sd))).

(** The mailbox calls a step has made: the positions of [calls] it added. *)
Definition issued (s s' : pm) (k : nat) : Prop :=
  (length (calls s) <= k < length (calls s'))%nat.

(** The port is in InError and its unpublished health is Red, reason
    FAILED. *)
Definition in_error_red (s : pm) : Prop :=
  state (p s) = PM_PORT_STATE_IN_ERROR /\
  status_at (next_port_status s) (lpn (p s)) =
    Some (mk_status FPORT_HEALTH_RED 0 FPORT_ERROR_FAILED).

Definition status_in_range (s : pm) : Prop :=
  (Z.to_nat (lpn (p s)) < length (next_port_status s))%nat.

(** The status array reaches the port's logical port number. *)
(** Whatever call of a step fails, the step ends in error. *)
Definition fails_to_error (e : pm_env) (s s' : pm) : Prop :=
  forall k, issued s s' k -> failed (reply e k) = true -> in_error_red s'.


(** *** Port status query *)

(** The part of the subdevice get_fport_status reads: the map from logical
    port number to fabric port, and the published status array behind the
    RCU pointer [port_status] (which may be NULL). *)
Record status_sd := mk_status_sd {
  lpn_fport_map : list (option nat);
  port_status : option (list fport_status)
}.

Definition get_fport_handle (sd : status_sd) (l : Z) : option nat :=
  if l <? PORT_COUNT then mjoin (lpn_fport_map sd !! Z.to_nat l) else None.

(** get_fport_status: the error code and the contents of the caller's
    buffer afterwards.  The read side of RCU takes no lock and writes
    nothing to the subdevice. *)
Definition get_fport_status (sd : status_sd) (l : Z) (status : fport_status)
    : Z * fport_status :=
  match get_fport_handle sd l with
  | None => (- EINVAL, status)
  | Some _ =>
    match port_status sd with
    | Some curr_status =>
      match curr_status !! Z.to_nat l with
      | Some st => (0, st)
      | None => (0, status)
      end
    | None => (- EINVAL, status)
    end
  end.

(** A port in INIT with a neighbor reported, on a mailbox whose calls all
    time out. *)
Definition witness_env : pm_env :=
  mk_env 0xA 0 (fun _ => None) false false (fun _ => (- ETIMEDOUT, 0)).

Definition witness_pm : pm :=
  mk_pm (mk_fport (mk_portinfo 0xB 1 8 8 8 8 8 8 0xB0) PM_PORT_STATE_INIT 3 1 IB_PORT_ARMED)
        (replicate 13 (mk_status FPORT_HEALTH_BLACK 0 FPORT_ERROR_NONE))
        (mk_fio false false false false) 0 [].

(** *** Quantities the further statements are written with *)

Definition isolated_ports (l : list fport) : Z :=
  foldr (fun q n => Z.b2z (is_isolated (state q)) + n) 0 l.

Definition all_succeed (e : pm_env) : Prop := forall k, failed (reply e k) = false.
(** [q'] is the port [q] but for its state and its CLEAR_ERROR control. *)
Definition same_wiring (q q' : fport) : Prop :=
  fport_portinfo q' = fport_portinfo q /\ lpn q' = lpn q /\ log_state q' = log_state q /\
  forall b, 0 <= b -> b <> PORT_CONTROL_CLEAR_ERROR ->
            test_bit b (controls q') = test_bit b (controls q).

End Port.
(** ** Mailbox (mbdb.c, ops.c)

    The state of one mailbox: the fields of [struct mbdb] the protocol
    reads and writes, the two status bits of the interrupt status register
    and the inbox control word register, the heap of pending-response
    records ([struct mbdb_ibox], by address), and logs of what the driver
    writes (control words to the outbox, bits to the partner-set register,
    traps dispatched to the port manager).  Interrupt enabling and the
    queueing of the inbox worker are left out: they decide when the worker
    runs, which the environment decides here.  [jiffies] is the kernel
    clock, advanced by the waits that time out. *)

Module Mbdb.
Import Cw.

Inductive mbdb_counters :=
  | POSTED_REQUESTS
  | NON_POSTED_REQUESTS
  | RECEIVED_REQUESTS
  | TIMEDOUT_REQUESTS
  | NON_ERROR_RESPONSES
  | ERROR_RESPONSES
  | UNMATCHED_RESPONSES
  | TIMEDOUT_RESPONSES.

#[global] Instance mbdb_counters_eq_dec : EqDecision mbdb_counters.
Proof. solve_decision. Defined.

(** The triggers the trap handlers of the port manager set. *)
Inductive pm_trigger_reasons := PSC_TRAP | LWD_TRAP | LQI_TRAP | QSFP_FAULT_TRAP.

Definition S_INT_STATUS_INBOX_FULL : Z := 6.
Definition S_INT_STATUS_OUTBOX_EMPTY : Z := 7.

(** struct mbdb_ibox; [ibox_cb] says whether a callback was given,
    [ibox_full] whether the completion was signalled, [ibox_work] whether
    the callback work was queued. *)
Record mbdb_ibox := mk_ibox {
  ibox_tid : Z;
  ibox_op_code : Z;
  ibox_cb : bool;
  ibox_rsp_len : Z;
  ibox_cw : Z;
  ibox_rsp_status : Z;
  ibox_full : bool;
  ibox_work : bool
}.

Record mbdb := mk_mbdb {
  stopping : bool;
  polling_mode : bool;
  hz : Z;
  pending_new_seq : bool;
  outbox_sem : nat;
  outbox_seqno : Z;
  inbox_seqno : Z;
  inbox_tid : Z;
  ibox_list : list nat;
  iboxes : gmap nat mbdb_ibox;
  next_ibox : nat;
  counters : mbdb_counters -> Z;
  outbox_empty_bit : bool;
  inbox_full_bit : bool;
  gp_inbox_cw : Z;
  outbox_written : list Z;
  partner_set : list Z;
  traps : list pm_trigger_reasons;
  jiffies : Z
}.

Definition set_stopping (v : bool) (m : mbdb) : mbdb :=
  mk_mbdb v (polling_mode m) (hz m) (pending_new_seq m) (outbox_sem m) (outbox_seqno m)
    (inbox_seqno m) (inbox_tid m) (ibox_list m) (iboxes m) (next_ibox m) (counters m)
    (outbox_empty_bit m) (inbox_full_bit m) (gp_inbox_cw m) (outbox_written m)
    (partner_set m) (traps m) (jiffies m).

Definition set_polling_mode (v : bool) (m : mbdb) : mbdb :=
  mk_mbdb (stopping m) v (hz m) (pending_new_seq m) (outbox_sem m) (outbox_seqno m)
    (inbox_seqno m) (inbox_tid m) (ibox_list m) (iboxes m) (next_ibox m) (counters m)
    (outbox_empty_bit m) (inbox_full_bit m) (gp_inbox_cw m) (outbox_written m)
    (partner_set m) (traps m) (jiffies m).

Definition set_hz (v : Z) (m : mbdb) : mbdb :=
  mk_mbdb (stopping m) (polling_mode m) v (pending_new_seq m) (outbox_sem m)
    (outbox_seqno m) (inbox_seqno m) (inbox_tid m) (ibox_list m) (iboxes m) (next_ibox m)
    (counters m) (outbox_empty_bit m) (inbox_full_bit m) (gp_inbox_cw m) (outbox_written
    m) (partner_set m) (traps m) (jiffies m).

Definition set_pending_new_seq (v : bool) (m : mbdb) : mbdb :=
  mk_mbdb (stopping m) (polling_mode m) (hz m) v (outbox_sem m) (outbox_seqno m)
    (inbox_seqno m) (inbox_tid m) (ibox_list m) (iboxes m) (next_ibox m) (counters m)
    (outbox_empty_bit m) (inbox_full_bit m) (gp_inbox_cw m) (outbox_written m)
    (partner_set m) (traps m) (jiffies m).

Definition set_outbox_sem (v : nat) (m : mbdb) : mbdb :=
  mk_mbdb (stopping m) (polling_mode m) (hz m) (pending_new_seq m) v (outbox_seqno m)
    (inbox_seqno m) (inbox_tid m) (ibox_list m) (iboxes m) (next_ibox m) (counters m)
    (outbox_empty_bit m) (inbox_full_bit m) (gp_inbox_cw m) (outbox_written m)
    (partner_set m) (traps m) (jiffies m).

Definition set_outbox_seqno (v : Z) (m : mbdb) : mbdb :=
  mk_mbdb (stopping m) (polling_mode m) (hz m) (pending_new_seq m) (outbox_sem m) v
    (inbox_seqno m) (inbox_tid m) (ibox_list m) (iboxes m) (next_ibox m) (counters m)
    (outbox_empty_bit m) (inbox_full_bit m) (gp_inbox_cw m) (outbox_written m)
    (partner_set m) (traps m) (jiffies m).

Definition set_inbox_seqno (v : Z) (m : mbdb) : mbdb :=
  mk_mbdb (stopping m) (polling_mode m) (hz m) (pending_new_seq m) (outbox_sem m)
    (outbox_seqno m) v (inbox_tid m) (ibox_list m) (iboxes m) (next_ibox m) (counters m)
    (outbox_empty_bit m) (inbox_full_bit m) (gp_inbox_cw m) (outbox_written m)
    (partner_set m) (traps m) (jiffies m).

Definition set_inbox_tid (v : Z) (m : mbdb) : mbdb :=
  mk_mbdb (stopping m) (polling_mode m) (hz m) (pending_new_seq m) (outbox_sem m)
    (outbox_seqno m) (inbox_seqno m) v (ibox_list m) (iboxes m) (next_ibox m) (counters m)
    (outbox_empty_bit m) (inbox_full_bit m) (gp_inbox_cw m) (outbox_written m)
    (partner_set m) (traps m) (jiffies m).

Definition set_ibox_list (v : list nat) (m : mbdb) : mbdb :=
  mk_mbdb (stopping m) (polling_mode m) (hz m) (pending_new_seq m) (outbox_sem m)
    (outbox_seqno m) (inbox_seqno m) (inbox_tid m) v (iboxes m) (next_ibox m) (counters m)
    (outbox_empty_bit m) (inbox_full_bit m) (gp_inbox_cw m) (outbox_written m)
    (partner_set m) (traps m) (jiffies m).

Definition set_iboxes (v : gmap nat mbdb_ibox) (m : mbdb) : mbdb :=
  mk_mbdb (stopping m) (polling_mode m) (hz m) (pending_new_seq m) (outbox_sem m)
    (outbox_seqno m) (inbox_seqno m) (inbox_tid m) (ibox_list m) v (next_ibox m) (counters
    m) (outbox_empty_bit m) (inbox_full_bit m) (gp_inbox_cw m) (outbox_written m)
    (partner_set m) (traps m) (jiffies m).

Definition set_next_ibox (v : nat) (m : mbdb) : mbdb :=
  mk_mbdb (stopping m) (polling_mode m) (hz m) (pending_new_seq m) (outbox_sem m)
    (outbox_seqno m) (inbox_seqno m) (inbox_tid m) (ibox_list m) (iboxes m) v (counters m)
    (outbox_empty_bit m) (inbox_full_bit m) (gp_inbox_cw m) (outbox_written m)
    (partner_set m) (traps m) (jiffies m).

Definition set_counters (v : mbdb_counters -> Z) (m : mbdb) : mbdb :=
  mk_mbdb (stopping m) (polling_mode m) (hz m) (pending_new_seq m) (outbox_sem m)
    (outbox_seqno m) (inbox_seqno m) (inbox_tid m) (ibox_list m) (iboxes m) (next_ibox m)
    v (outbox_empty_bit m) (inbox_full_bit m) (gp_inbox_cw m) (outbox_written m)
    (partner_set m) (traps m) (jiffies m).

Definition set_outbox_empty_bit (v : bool) (m : mbdb) : mbdb :=
  mk_mbdb (stopping m) (polling_mode m) (hz m) (pending_new_seq m) (outbox_sem m)
    (outbox_seqno m) (inbox_seqno m) (inbox_tid m) (ibox_list m) (iboxes m) (next_ibox m)
    (counters m) v (inbox_full_bit m) (gp_inbox_cw m) (outbox_written m) (partner_set m)
    (traps m) (jiffies m).

Definition set_inbox_full_bit (v : bool) (m : mbdb) : mbdb :=
  mk_mbdb (stopping m) (polling_mode m) (hz m) (pending_new_seq m) (outbox_sem m)
    (outbox_seqno m) (inbox_seqno m) (inbox_tid m) (ibox_list m) (iboxes m) (next_ibox m)
    (counters m) (outbox_empty_bit m) v (gp_inbox_cw m) (outbox_written m) (partner_set m)
    (traps m) (jiffies m).

Definition set_gp_inbox_cw (v : Z) (m : mbdb) : mbdb :=
  mk_mbdb (stopping m) (polling_mode m) (hz m) (pending_new_seq m) (outbox_sem m)
    (outbox_seqno m) (inbox_seqno m) (inbox_tid m) (ibox_list m) (iboxes m) (next_ibox m)
    (counters m) (outbox_empty_bit m) (inbox_full_bit m) v (outbox_written m) (partner_set
    m) (traps m) (jiffies m).

Definition set_outbox_written (v : list Z) (m : mbdb) : mbdb :=
  mk_mbdb (stopping m) (polling_mode m) (hz m) (pending_new_seq m) (outbox_sem m)
    (outbox_seqno m) (inbox_seqno m) (inbox_tid m) (ibox_list m) (iboxes m) (next_ibox m)
    (counters m) (outbox_empty_bit m) (inbox_full_bit m) (gp_inbox_cw m) v (partner_set m)
    (traps m) (jiffies m).

Definition set_partner_set (v : list Z) (m : mbdb) : mbdb :=
  mk_mbdb (stopping m) (polling_mode m) (hz m) (pending_new_seq m) (outbox_sem m)
    (outbox_seqno m) (inbox_seqno m) (inbox_tid m) (ibox_list m) (iboxes m) (next_ibox m)
    (counters m) (outbox_empty_bit m) (inbox_full_bit m) (gp_inbox_cw m) (outbox_written
    m) v (traps m) (jiffies m).

Definition set_traps (v : list pm_trigger_reasons) (m : mbdb) : mbdb :=
  mk_mbdb (stopping m) (polling_mode m) (hz m) (pending_new_seq m) (outbox_sem m)
    (outbox_seqno m) (inbox_seqno m) (inbox_tid m) (ibox_list m) (iboxes m) (next_ibox m)
    (counters m) (outbox_empty_bit m) (inbox_full_bit m) (gp_inbox_cw m) (outbox_written
    m) (partner_set m) v (jiffies m).

Definition set_jiffies (v : Z) (m : mbdb) : mbdb :=
  mk_mbdb (stopping m) (polling_mode m) (hz m) (pending_new_seq m) (outbox_sem m)
    (outbox_seqno m) (inbox_seqno m) (inbox_tid m) (ibox_list m) (iboxes m) (next_ibox m)
    (counters m) (outbox_empty_bit m) (inbox_full_bit m) (gp_inbox_cw m) (outbox_written
    m) (partner_set m) (traps m) v.

(** TIMEOUT: 10 * HZ jiffies. *)
Definition TIMEOUT (m : mbdb) : Z := 10 * hz m.

Definition count (c : mbdb_counters) (m : mbdb) : mbdb :=
  set_counters (fun c' => if decide (c' = c) then counters m c' + 1 else counters m c') m.

(** up() on the outbox semaphore, and down_killable() when it does not
    sleep: with the count at 0 the caller sleeps until another agent
    releases the semaphore, which a run of one caller renders as [None]. *)
Definition up (m : mbdb) : mbdb := set_outbox_sem (S (outbox_sem m)) m.

Definition down (m : mbdb) : option mbdb :=
  match outbox_sem m with
  | O => None
  | S n => Some (set_outbox_sem n m)
  end.

(** atomic_cmpxchg(&pending_new_seq, 1, 0) followed by up() when it
    returned 1. *)
Definition release_pending_new_seq (m : mbdb) : mbdb :=
  if pending_new_seq m then up (set_pending_new_seq false m) else m.

(** mbdb_int_ack_wr: the write clears the acknowledged status bit. *)
Definition mbdb_int_ack_wr (shift : Z) (m : mbdb) : mbdb :=
  if shift =? S_INT_STATUS_OUTBOX_EMPTY then set_outbox_empty_bit false m
  else if shift =? S_INT_STATUS_INBOX_FULL then set_inbox_full_bit false m
  else m.

(** mbdb_int_partner_set_wr *)
Definition mbdb_int_partner_set_wr (shift : Z) (m : mbdb) : mbdb :=
  set_partner_set (partner_set m ++ [shift]) m.

(** *** Pending-response records *)

Definition mbdb_ibox_tid (m : mbdb) (ibox : option nat) : Z :=
  match ibox with
  | Some a => default 0 (ibox_tid <$> iboxes m !! a)
  | None => 0
  end.

(** mbdb_ibox_acquire (the allocation is taken to succeed): no record for
    a posted request; otherwise a new record with the next transaction id,
    linked at the tail of the pending list. *)
Definition mbdb_ibox_acquire (op_code rsp_len : Z) (cb posted : bool) (m : mbdb)
    : option nat * mbdb :=
  if posted then (None, m)
  else
    let a := next_ibox m in
    let ibox := mk_ibox (inbox_tid m) op_code cb rsp_len 0 0 false false in
    let m := set_next_ibox (S a) m in
    let m := set_iboxes (<[a := ibox]> (iboxes m)) m in
    let m := set_inbox_tid (u32 (inbox_tid m + 1)) m in
    let m := set_ibox_list (ibox_list m ++ [a]) m in
    (Some a, m).

(** mbdb_ibox_release: kfree *)
Definition mbdb_ibox_release (a : nat) (m : mbdb) : mbdb :=
  set_iboxes (delete a (iboxes m)) m.

(** mbdb_op_build_cw_and_acquire_ibox *)
Definition mbdb_op_build_cw_and_acquire_ibox (op_code parm_len rsp_len : Z)
    (cb posted : bool) (m : mbdb) : option nat * Z * mbdb :=
  let '(ibox, m) := mbdb_ibox_acquire op_code rsp_len cb posted m in
  let cw := build_cw op_code MBOX_REQUEST
              (if posted then MBOX_NO_RESPONSE_REQUESTED else MBOX_RESPONSE_REQUESTED)
              0 (u16 parm_len) (mbdb_ibox_tid m ibox) in
  (ibox, cw, m).

Definition ibox_matches (m : mbdb) (tid op_code : Z) (a : nat) : bool :=
  match iboxes m !! a with
  | Some ibox => (ibox_tid ibox =? tid) && (ibox_op_code ibox =? op_code)
  | None => false
  end.

(** The walk of mbdb_find_ibox over the pending list: the first record
    with the transaction id and opcode is unlinked and returned. *)
Fixpoint find_and_unlink (matches : nat -> bool) (l : list nat) : option nat * list nat :=
  match l with
  | [] => (None, [])
  | a :: l' =>
    if matches a then (Some a, l')
    else let '(r, l'') := find_and_unlink matches l' in (r, a :: l'')
  end.

Definition mbdb_find_ibox (tid op_code : Z) (m : mbdb) : option nat * mbdb :=
  let '(r, l) := find_and_unlink (ibox_matches m tid op_code) (ibox_list m) in
  (r, set_ibox_list l m).

(** *** Outbox *)

(** mbdb_outbox_seqno *)
Definition mbdb_outbox_seqno (m : mbdb) : Z * mbdb :=
  (outbox_seqno m, set_outbox_seqno (mbdb_mbox_seqno_next (outbox_seqno m)) m).

(** mbdb_outbox_is_empty.  When the status bit is not set the caller waits
    up to TIMEOUT for the peer, by polling or on the completion the
    interrupt signals; [drains] is the time after which the peer empties
    the outbox, if it does so within TIMEOUT. *)
Definition mbdb_outbox_is_empty (drains : option Z) (m : mbdb) : Z * mbdb :=
  if stopping m then (- ENODEV, m)
  else if outbox_empty_bit m then (0, m)
  else
    match drains with
    | Some d => (0, set_jiffies (jiffies m + d) (set_outbox_empty_bit true m))
    | None => (- ETIMEDOUT, set_jiffies (jiffies m + TIMEOUT m) (count TIMEDOUT_REQUESTS m))
    end.

(** mbdb_outbox_acquire after down_killable has returned 0, up to the
    wait for the empty outbox: the error to return (with the semaphore
    released), if any. *)
Definition outbox_enter (drains : option Z) (cw : Z) (m : mbdb) : option Z * mbdb :=
  if stopping m then (Some (- ENODEV), up m)
  else
    let m := if mbdb_mbox_is_posted cw =? posted_val MBOX_NO_RESPONSE_REQUESTED
             then count POSTED_REQUESTS m else count NON_POSTED_REQUESTS m in
    let '(ret, m) := mbdb_outbox_is_empty drains m in
    if ret <? 0 then (Some ret, up m) else (None, m).

Definition is_reset_posted (cw : Z) : bool :=
  (mbdb_mbox_op_code cw =? MBOX_OP_CODE_RESET)
  && (mbdb_mbox_is_posted cw =? posted_val MBOX_NO_RESPONSE_REQUESTED).

(** FW_START, or a RESET that asks for a response. *)
Definition holds_outbox (cw : Z) : bool :=
  (mbdb_mbox_op_code cw =? MBOX_OP_CODE_FW_START)
  || ((mbdb_mbox_op_code cw =? MBOX_OP_CODE_RESET)
      && (mbdb_mbox_is_posted cw =? posted_val MBOX_RESPONSE_REQUESTED)).

(** The rest of mbdb_outbox_acquire: acknowledge outbox-empty, put the
    sequence number in the control word, reset the sequence numbers for a
    posted RESET, and mark the outbox held for FW_START and RESET. *)
Definition outbox_claim (cw : Z) (m : mbdb) : Z * mbdb :=
  let m := mbdb_int_ack_wr S_INT_STATUS_OUTBOX_EMPTY m in
  let '(seqno, m) := mbdb_outbox_seqno m in
  let cw := Z.lor cw (shl64 (Z.land seqno MBOX_CW_SEQ_NO_MASK) MBOX_CW_SEQ_NO_SHIFT) in
  let m := if is_reset_posted cw
           then set_outbox_seqno 0 (set_inbox_seqno 0 m) else m in
  let m := if holds_outbox cw then set_pending_new_seq true m else m in
  (cw, m).

(** mbdb_outbox_acquire: [inl err] for IOMEM_ERR_PTR(err), [inr cw] for
    the outbox address with the control word completed. *)
Definition mbdb_outbox_acquire (drains : option Z) (cw : Z) (m : mbdb)
    : option ((Z + Z) * mbdb) :=
  m ← down m;
  let '(err, m) := outbox_enter drains cw m in
  match err with
  | Some e => Some (inl e, m)
  | None => let '(cw, m) := outbox_claim cw m in Some (inr cw, m)
  end.

(** writeq(cw, &mbox_msg->cw) *)
Definition outbox_write (cw : Z) (m : mbdb) : mbdb :=
  set_outbox_written (outbox_written m ++ [cw]) m.

(** mbdb_outbox_release, in its two statements. *)
Definition outbox_signal (m : mbdb) : mbdb :=
  mbdb_int_partner_set_wr S_INT_STATUS_INBOX_FULL m.

Definition outbox_unlock (m : mbdb) : mbdb :=
  if pending_new_seq m then m else up m.

Definition mbdb_outbox_release (m : mbdb) : mbdb := outbox_unlock (outbox_signal m).

(** *** Inbox *)

(** The port manager's trap handlers: each sets its trigger. *)
Definition mbdb_ibox_handle_unmatched (op_code : Z) (m : mbdb) : mbdb :=
  if op_code =? MBOX_OP_CODE_LINK_MGR_PORT_STATE_CHANGE_TRAP_NOTIFICATION
  then set_traps (traps m ++ [PSC_TRAP]) m
  else if op_code =? MBOX_OP_CODE_LINK_MGR_PORT_LWD_TRAP_NOTIFICATION
  then set_traps (traps m ++ [LWD_TRAP]) m
  else if op_code =? MBOX_OP_CODE_LINK_MGR_PORT_LQI_TRAP_NOTIFICATION
  then set_traps (traps m ++ [LQI_TRAP]) m
  else if op_code =? MBOX_OP_CODE_QSFP_MGR_FAULT_TRAP_NOTIFICATION
  then set_traps (traps m ++ [QSFP_FAULT_TRAP]) m
  else m.

(** mbdb_seq_reset *)
Definition mbdb_seq_reset (cw : Z) (m : mbdb) : mbdb :=
  if negb (mbdb_mbox_op_code cw =? MBOX_OP_CODE_RESET)
     && negb (mbdb_mbox_op_code cw =? MBOX_OP_CODE_FW_START)
  then m
  else
    let m := if mbdb_mbox_rsp_status cw =? MBOX_RSP_STATUS_OK
             then set_outbox_seqno 0 (set_inbox_seqno 0 m) else m in
    release_pending_new_seq m.

(** mbdb_inbox_empty *)
Definition mbdb_inbox_empty (m : mbdb) : mbdb :=
  mbdb_int_partner_set_wr S_INT_STATUS_OUTBOX_EMPTY m.

(** The completion of a record found for a response. *)
Definition ibox_complete (cw : Z) (seq_no_error : bool) (ibox : mbdb_ibox) : mbdb_ibox :=
  mk_ibox (ibox_tid ibox) (ibox_op_code ibox) (ibox_cb ibox) (ibox_rsp_len ibox)
    cw (if seq_no_error then MBOX_RSP_STATUS_SEQ_NO_ERROR else mbdb_mbox_rsp_status cw)
    (if ibox_cb ibox then ibox_full ibox else true)
    (if ibox_cb ibox then true else ibox_work ibox).

(** mbdb_inbox_full_fn (the response bytes copied to the caller's buffer
    are not part of the state). *)
Definition mbdb_inbox_full_fn (m : mbdb) : mbdb :=
  if polling_mode m && negb (inbox_full_bit m) then m
  else
    let cw := gp_inbox_cw m in
    if cw =? 2 ^ 64 - 1 then mbdb_inbox_empty m
    else
      let m := mbdb_int_ack_wr S_INT_STATUS_INBOX_FULL m in
      let op_code := mbdb_mbox_op_code cw in
      let rsp_status := mbdb_mbox_rsp_status cw in
      let tid := mbdb_mbox_tid cw in
      let msg_type := mbdb_mbox_msg_type cw in
      let seq_no := mbdb_mbox_seq_no cw in
      let seq_no_error := mbdb_mbox_seqno_error seq_no (inbox_seqno m) in
      let m := set_inbox_seqno (mbdb_mbox_seqno_next seq_no) m in
      let '(ibox, m) :=
        if msg_type =? msg_type_val MBOX_RESPONSE
        then mbdb_find_ibox tid op_code m else (None, m) in
      match ibox with
      | None =>
        let m := if msg_type =? msg_type_val MBOX_RESPONSE
                 then count UNMATCHED_RESPONSES m else count RECEIVED_REQUESTS m in
        mbdb_inbox_empty (mbdb_ibox_handle_unmatched op_code m)
      | Some a =>
        let m := if rsp_status =? MBOX_RSP_STATUS_OK
                 then (if seq_no_error then count ERROR_RESPONSES m
                       else count NON_ERROR_RESPONSES m)
                 else count ERROR_RESPONSES m in
        let m := set_iboxes (alter (ibox_complete cw seq_no_error) a (iboxes m)) m in
        let m := mbdb_seq_reset cw m in
        mbdb_inbox_empty m
      end.

(** The peer raises inbox-full with a control word, and the worker runs. *)
Definition deliver (m : mbdb) (cw : Z) : mbdb :=
  mbdb_inbox_full_fn (set_gp_inbox_cw cw (set_inbox_full_bit true m)).

Definition is_reset_or_fw_start (op_code : Z) : bool :=
  (op_code =? MBOX_OP_CODE_FW_START) || (op_code =? MBOX_OP_CODE_RESET).

(** The branch of mbdb_ibox_wait taken when wait_for_completion_timeout
    returns 0. *)
Definition ibox_timed_out (a : nat) (m : mbdb) : mbdb :=
  let op_code := default 0 (ibox_op_code <$> iboxes m !! a) in
  let m := set_ibox_list (filter (fun b => b <> a) (ibox_list m)) m in
  let m := count TIMEDOUT_RESPONSES m in
  let m := set_jiffies (jiffies m + TIMEOUT m) m in
  if is_reset_or_fw_start op_code then release_pending_new_seq m else m.

(** mbdb_ibox_wait.  [inbox] is what arrives while the caller sleeps: the
    control words the peer delivers within TIMEOUT, each handled by the
    worker.  The value returned on completion is the time left, of which
    the caller reads the sign only. *)
Definition mbdb_ibox_wait (inbox : list Z) (a : nat) (m : mbdb) : Z * mbdb :=
  if stopping m then (- ENODEV, m)
  else
    let m := foldl deliver m inbox in
    if default false (ibox_full <$> iboxes m !! a) then (1, m)
    else (- ETIMEDOUT, ibox_timed_out a m).

(** What the peer does during one call. *)
Record peer := mk_peer {
  drains : option Z;
  inbox : list Z
}.

(** ops_execute: the value returned, the control word left in [*cw], and
    the mailbox.  This is the call of one caller with the worker running
    while the caller waits: the response is handled after both statements
    of mbdb_outbox_release.  A response handled between the two is among
    the interleavings of the callers running side by side below. *)
Definition ops_execute (fw : peer) (cw : Z) (ibox : option nat) (m : mbdb)
    : option (Z * Z * mbdb) :=
  '(r, m) ← mbdb_outbox_acquire (drains fw) cw m;
  match r with
  | inl err => Some (err, cw, m)
  | inr cw =>
    let m := outbox_write cw m in
    let m := mbdb_outbox_release m in
    match ibox with
    | None => Some (0, cw, m)
    | Some a =>
      if default false (ibox_cb <$> iboxes m !! a) then Some (0, cw, m)
      else
        let '(ret, m) := mbdb_ibox_wait (inbox fw) a m in
        let '(ret, cw) :=
          if ret >? 0
          then (default 0 (ibox_rsp_status <$> iboxes m !! a),
                default 0 (ibox_cw <$> iboxes m !! a))
          else (ret, cw) in
        Some (ret, cw, mbdb_ibox_release a m)
    end
  end.

(** A mailbox operation as the ops_* functions make it. *)
Definition ops_call (fw : peer) (op_code parm_len rsp_len : Z) (cb posted : bool)
    (m : mbdb) : option (Z * Z * mbdb) :=
  let '(ibox, cw, m) := mbdb_op_build_cw_and_acquire_ibox op_code parm_len rsp_len cb posted m in
  ops_execute fw cw ibox m.

(** create_mbdb, with an empty outbox. *)
Definition create_mbdb (polling : bool) (HZ : Z) : mbdb :=
  mk_mbdb false polling HZ false 1 0 0 0 [] ∅ 0 (fun _ => 0) true false 0 []
    [S_INT_STATUS_OUTBOX_EMPTY] [] 0.

(** The control word [cw] is a response to the request of record [a]. *)
Definition answers (m : mbdb) (a : nat) (cw : Z) : bool :=
  (mbdb_mbox_msg_type cw =? msg_type_val MBOX_RESPONSE)
  && ibox_matches m (mbdb_mbox_tid cw) (mbdb_mbox_op_code cw) a.

(** The allocator hands out addresses that are not linked. *)
Definition fresh_iboxes (m : mbdb) : Prop :=
  forall b, b ∈ ibox_list m -> (b < next_ibox m)%nat.

(** *** Callers running side by side

    Several callers inside ops_execute, the inbox worker and the peer, each
    taking one step at a time.  A caller's steps are the statements of
    mbdb_outbox_acquire, ops_execute, mbdb_outbox_release and
    mbdb_ibox_wait that touch the shared mailbox, in program order. *)

Inductive pc :=
  | AtDown
  | Locked
  | SeenEmpty
  | Claimed
  | Written
  | Signalled
  | Waiting
  | Returned (ret : Z).

Record caller := mk_caller {
  c_pc : pc;
  c_cw : Z;
  c_ibox : option nat
}.

(** [unread]: messages signalled to the peer that it has not taken yet. *)
Record system := mk_system {
  mb : mbdb;
  callers : list caller;
  unread : nat
}.

Inductive action :=
  | Call (op_code : Z) (cb posted : bool)
  | Down (t : nat)
  | TestEmpty (t : nat)
  | Claim (t : nat)
  | Write (t : nat)
  | Signal (t : nat)
  | Unlock (t : nat)
  | Complete (t : nat)
  | TimeOut (t : nat)
  | PeerRead
  | PeerSend (cw : Z)
  | Worker.

Definition at_pc (s : system) (t : nat) (want : pc) : option caller :=
  c ← callers s !! t;
  match c_pc c, want with
  | AtDown, AtDown | Locked, Locked | SeenEmpty, SeenEmpty | Claimed, Claimed
  | Written, Written | Signalled, Signalled | Waiting, Waiting => Some c
  | _, _ => None
  end.

Definition move (s : system) (t : nat) (c : caller) (m : mbdb) : system :=
  mk_system m (<[t := c]> (callers s)) (unread s).

Definition step (a : action) (s : system) : option system :=
  match a with
  | Call op_code cb posted =>
    let '(ibox, cw, m) := mbdb_op_build_cw_and_acquire_ibox op_code 0 0 cb posted (mb s) in
    Some (mk_system m (callers s ++ [mk_caller AtDown cw ibox]) (unread s))
  | Down t =>
    c ← at_pc s t AtDown;
    m ← down (mb s);
    Some (move s t (mk_caller Locked (c_cw c) (c_ibox c)) m)
  | TestEmpty t =>
    c ← at_pc s t Locked;
    let '(err, m) := outbox_enter None (c_cw c) (mb s) in
    Some (move s t (mk_caller (match err with Some e => Returned e | None => SeenEmpty end)
                              (c_cw c) (c_ibox c)) m)
  | Claim t =>
    c ← at_pc s t SeenEmpty;
    let '(cw, m) := outbox_claim (c_cw c) (mb s) in
    Some (move s t (mk_caller Claimed cw (c_ibox c)) m)
  | Write t =>
    c ← at_pc s t Claimed;
    Some (move s t (mk_caller Written (c_cw c) (c_ibox c)) (outbox_write (c_cw c) (mb s)))
  | Signal t =>
    c ← at_pc s t Written;
    Some (mk_system (outbox_signal (mb s))
                    (<[t := mk_caller Signalled (c_cw c) (c_ibox c)]> (callers s))
                    (S (unread s)))
  | Unlock t =>
    c ← at_pc s t Signalled;
    let waits := match c_ibox c with
                 | Some a => negb (default false (ibox_cb <$> iboxes (mb s) !! a))
                 | None => false
                 end in
    Some (move s t (mk_caller (if waits then Waiting else Returned 0) (c_cw c) (c_ibox c))
               (outbox_unlock (mb s)))
  | Complete t =>
    c ← at_pc s t Waiting;
    a ← c_ibox c;
    ibox ← iboxes (mb s) !! a;
    if ibox_full ibox
    then Some (move s t (mk_caller (Returned (ibox_rsp_status ibox)) (ibox_cw ibox) (c_ibox c))
                    (mbdb_ibox_release a (mb s)))
    else None
  | TimeOut t =>
    c ← at_pc s t Waiting;
    a ← c_ibox c;
    ibox ← iboxes (mb s) !! a;
    if ibox_full ibox then None
    else Some (move s t (mk_caller (Returned (- ETIMEDOUT)) (c_cw c) (c_ibox c))
                    (mbdb_ibox_release a (ibox_timed_out a (mb s))))
  | PeerRead =>
    match unread s with
    | O => None
    | S n => Some (mk_system (set_outbox_empty_bit true (mb s)) (callers s) n)
    end
  | PeerSend cw =>
    if inbox_full_bit (mb s) then None
    else Some (mk_system (set_gp_inbox_cw cw (set_inbox_full_bit true (mb s)))
                         (callers s) (unread s))
  | Worker => Some (mk_system (mbdb_inbox_full_fn (mb s)) (callers s) (unread s))
  end.

Fixpoint run (trace : list action) (s : system) : option system :=
  match trace with
  | [] => Some s
  | a :: trace' => s' ← step a s; run trace' s'
  end.

(** A caller between down_killable and the end of mbdb_outbox_release has
    the outbox. *)
Definition has_outbox (c : caller) : bool :=
  match c_pc c with
  | Locked | SeenEmpty | Claimed | Written | Signalled => true
  | _ => false
  end.

Definition holders (s : system) : nat := length (List.filter has_outbox (callers s)).

(** The reply of the peer to a request: same opcode and transaction id. *)
Definition response_to (cw seq_no status : Z) : Z :=
  Z.lor (build_cw (mbdb_mbox_op_code cw) MBOX_RESPONSE MBOX_RESPONSE_REQUESTED seq_no 0
                  (mbdb_mbox_tid cw))
        (shl64 (Z.land status MBOX_CW_RSP_STATUS_MASK) MBOX_CW_RSP_STATUS_SHIFT).

Definition fresh_system (polling : bool) (HZ : Z) : system :=
  mk_system (create_mbdb polling HZ) [] 0.

(** A FW_START whose reply is handled between the two statements of its
    mbdb_outbox_release, followed by two ordinary requests. *)
Definition fw_start_race : list action :=
  [ Call MBOX_OP_CODE_FW_START false false;
    Down 0; TestEmpty 0; Claim 0; Write 0; Signal 0;
    PeerRead;
    PeerSend (response_to (build_cw MBOX_OP_CODE_FW_START MBOX_REQUEST
                                    MBOX_RESPONSE_REQUESTED 0 0 0) 0 MBOX_RSP_STATUS_OK);
    Worker;
    Call MBOX_OP_CODE_NOOP false false;
    Down 1;
    Unlock 0;
    Call MBOX_OP_CODE_NOOP false false;
    Down 2;
    TestEmpty 1; TestEmpty 2;
    Claim 1; Claim 2;
    Write 1; Write 2 ].

(** *** Quantities the statements below are written with *)

Definition b2n (b : bool) : nat := if b then 1%nat else 0%nat.

(** The time the call spends waiting for the outbox. *)
Definition outbox_wait (m : mbdb) (fw : peer) : Z :=
  if outbox_empty_bit m then 0 else default 0 (drains fw).

(** The part of the mailbox the result of a call is stated on. *)
Definition view (m : mbdb) :=
  (stopping m, hz m, jiffies m, next_ibox m, ibox_list m, iboxes m,
   counters m TIMEDOUT_RESPONSES, outbox_sem m, pending_new_seq m).

(** A call that does not keep the outbox for its response: any opcode but
    FW_START, and RESET only as a posted request. *)
Definition ordinary (a : action) : Prop :=
  match a with
  | Call op_code cb posted =>
    0 <= op_code <= 255 /\ op_code <> MBOX_OP_CODE_FW_START /\
    (op_code = MBOX_OP_CODE_RESET -> posted = true)
  | _ => True
  end.

(** A caller that has not passed outbox_claim asks for no sequence reset. *)
Definition calm (c : caller) : Prop :=
  match c_pc c with
  | AtDown | Locked | SeenEmpty => holds_outbox (c_cw c) = false
  | _ => True
  end.

(** The state of the outbox lock between two steps: no sequence reset is
    pending, no caller will ask for one, and the count of the semaphore
    and the callers inside add up to one. *)
Definition lock_inv (s : system) : Prop :=
  (outbox_sem (mb s) + holders s = 1)%nat /\ pending_new_seq (mb s) = false /\
  Forall calm (callers s).

End Mbdb.
(** ** Programming the hardware (routing_io.c)

    The programming stage of a sweep for one subdevice.  Each mailbox
    operation it makes is recorded, in order, as a hardware write; the
    value the operation returns is given by the environment.  A table
    the code reads through a pointer is an [option]; reading through a
    NULL pointer has no result. *)

Module Io.
Import Uft.

Definition ROUTING_UFT_SIZE : Z := 48 * 1024.
Definition ROUTING_FID_BLOCK_SIZE : Z := 64.
Definition ROUTING_FID_CPORT_BASE : Z := ROUTING_FID_BLOCK_SIZE.
Definition ROUTING_FID_BLOCK_BASE : Z := 832.
Definition ROUTING_MAX_DEVICES : Z := 755.
Definition ROUTING_DPA_DFID_MAP_SHIFT : Z := 6.

Definition PORT_COUNT : Z := 13.
Definition PORT_CPORT_MASK : Z := 0x0001.
Definition PORT_BRIDGE_START : Z := 9.
Definition PORT_BRIDGE_END : Z := 12.
Definition PORT_BRIDGE_MASK : Z := 0x1e00.

Definition CSR_PORTS_BASE : Z := 0x10000000.
Definition CSR_PORT_OFFSET : Z := 0x400000.
Definition CSR_REGION1_OFFSET : Z := 0x20000000.
Definition CSR_FIDGEN_MASK_A : Z := 0.
Definition CSR_FIDGEN_LUT_BASE : Z := 0x10000.
Definition CSR_BT_PKG_ADDR_RANGE : Z := 0x30000 + 0x28.
(** GENMASK(18, 1) and GENMASK(29, 20) *)
Definition MASK_BT_PAR_BASE : Z := 0x7fffe.
Definition MASK_BT_PAR_RANGE : Z := 0x3ff00000.

Definition MBOX_PARAM_AREA_IN_BYTES : Z := 512 * 8 / 2 - 8.
Definition MBOX_WRITE_DATA_SIZE_IN_BYTES : Z := MBOX_PARAM_AREA_IN_BYTES - 8.
(** MBOX_PARAM_AREA_IN_BYTES - sizeof(struct mbdb_op_rpipe_set) *)
Definition MAX_UFT_ENTRIES : Z := MBOX_PARAM_AREA_IN_BYTES - 8.
Definition FIDGEN_BLOCK_SIZE : Z := 12.

Definition IB_PORT_INIT : Z := 2.
Definition IB_PORT_ACTIVE : Z := 4.

(** *** Tables *)

(** An xarray of blocks, indexed by DPA index. *)
Definition xarray : Type := gmap Z (list Z).

Definition xa_load (xa : xarray) (i : Z) : option (list Z) := xa !! i.

Definition index_le (x y : Z * list Z) : Prop := x.1 <= y.1.

#[global] Instance index_le_dec : RelDecision index_le.
Proof. intros x y. unfold index_le. apply Z_le_dec. Defined.

(** xa_for_each: the entries by increasing index. *)
Definition xa_for_each (xa : xarray) : list (Z * list Z) :=
  merge_sort index_le (map_to_list xa).

Record routing_uft := mk_uft {
  mgmt : list Z;
  bridges : xarray
}.

Record routing_fidgen := mk_fidgen {
  mask_a : Z;
  mask_b : Z;
  mask_d : Z;
  mask_h : Z;
  shift_a : Z;
  shift_b : Z;
  shift_h : Z;
  modulo : Z;
  map_size : Z;
  map : list Z
}.

Record mbdb_op_switchinfo := mk_switchinfo {
  guid : Z;
  num_ports : Z;
  slt_psc_ep0 : Z;
  routing_mode_supported : Z;
  routing_mode_enabled : Z;
  lft_top : Z
}.

Inductive routing_state := TILE_ROUTING_STATE_ERROR | TILE_ROUTING_STATE_VALID.

(** The subdevice as the programming stage reads and writes it.
    [fport_log_state lpn] is the log_state of the port get_fport_handle
    returns, if it returns one; [pkg_offset] and [pkg_size] are those of
    the device's platform data, [max_dpa_index] that of the topology. *)
Record fsubdev := mk_fsubdev {
  switchinfo : mbdb_op_switchinfo;
  fport_lpns : Z;
  bport_lpns : Z;
  fport_log_state : Z -> option Z;
  pkg_offset : Z;
  pkg_size : Z;
  max_dpa_index : Z;
  fid_base : Z;
  state : routing_state;
  uft : option routing_uft;
  uft_next : option routing_uft;
  fidgen : option routing_fidgen;
  fidgen_next : option routing_fidgen
}.

Definition set_switchinfo (si : mbdb_op_switchinfo) (sd : fsubdev) : fsubdev :=
  mk_fsubdev si (fport_lpns sd) (bport_lpns sd) (fport_log_state sd) (pkg_offset sd)
    (pkg_size sd) (max_dpa_index sd) (fid_base sd) (state sd) (uft sd) (uft_next sd)
    (fidgen sd) (fidgen_next sd).

Definition set_state (st : routing_state) (sd : fsubdev) : fsubdev :=
  mk_fsubdev (switchinfo sd) (fport_lpns sd) (bport_lpns sd) (fport_log_state sd)
    (pkg_offset sd) (pkg_size sd) (max_dpa_index sd) (fid_base sd) st (uft sd) (uft_next sd)
    (fidgen sd) (fidgen_next sd).

Definition set_tables (u u_next : option routing_uft) (g g_next : option routing_fidgen)
    (sd : fsubdev) : fsubdev :=
  mk_fsubdev (switchinfo sd) (fport_lpns sd) (bport_lpns sd) (fport_log_state sd)
    (pkg_offset sd) (pkg_size sd) (max_dpa_index sd) (fid_base sd) (state sd) u u_next
    g g_next.

(** *** Hardware writes *)

(** A mailbox operation of the programming stage, with what it sends:
    SWITCHINFO_SET, RPIPE_SET, CSR_RAW_WR (the data in 64-bit words) and
    LINK_MGR_PORT_LINK_STATE_SET. *)
Inductive hw_write :=
  | SwitchinfoSet (si : mbdb_op_switchinfo)
  | RpipeSet (port_mask start_index num_entries : Z) (rpipe_data : list Z)
  | CsrRawWrite (addr : Z) (data : list Z)
  | PortLinkStateSet (port new_state : Z).

(** The peer: the value the n-th operation of the run returns, and the
    switchinfo the firmware answers a SWITCHINFO_SET with. *)
Record io_env := mk_io_env {
  reply : nat -> Z;
  switchinfo_rsp : mbdb_op_switchinfo -> mbdb_op_switchinfo
}.

Record io_state := mk_io {
  io_sd : fsubdev;
  io_hw : list hw_write
}.

Definition M (A : Type) : Type := io_state -> option (A * io_state).

Definition ret {A} (a : A) : M A := fun s => Some (a, s).

Definition bind {A B} (m : M A) (k : A -> M B) : M B :=
  fun s => match m s with Some (a, s') => k a s' | None => None end.

Notation "'let!' x ':=' m 'in' k" := (bind m (fun x => k))
  (at level 10, x name, m at level 100, k at level 200).

Definition get_sd : M fsubdev := fun s => Some (io_sd s, s).

Definition put_sd (sd' : fsubdev) : M unit := fun s => Some (tt, mk_io sd' (io_hw s)).

(** [p->field] for a pointer [p]. *)
Definition deref {A} (p : option A) : M A :=
  fun s => match p with Some a => Some (a, s) | None => None end.

(** The request goes out and the environment gives the value returned. *)
Definition mbox (e : io_env) (w : hw_write) : M Z :=
  fun s => Some (reply e (length (io_hw s)), mk_io (io_sd s) (io_hw s ++ [w])).

(** [if (err) return err;] between two statements. *)
Definition and_then (m k : M Z) : M Z :=
  let! err := m in if err =? 0 then k else ret err.

(** A loop whose body returns an error code, left at the first error. *)
Fixpoint for_each {A} (l : list A) (body : A -> M Z) : M Z :=
  match l with
  | [] => ret 0
  | x :: l' => and_then (body x) (for_each l' body)
  end.

(** for_each_set_bit(bit, map, PORT_COUNT) *)
Definition for_each_set_bit (bitmap : Z) : list Z :=
  List.filter (Z.testbit bitmap) (seqZ 0 PORT_COUNT).

(** memcmp(a, b, n) == 0 *)
Definition memeq (a b : list Z) (n : Z) : bool :=
  bool_decide (take (Z.to_nat n) a = take (Z.to_nat n) b).

(** *** Mailbox operations (ops.c) *)

Definition ops_switchinfo_set (e : io_env) (req : mbdb_op_switchinfo) : M Z :=
  mbox e (SwitchinfoSet req).

Definition ops_rpipe_set (e : io_env) (port_mask start_index num_entries : Z)
    (rpipe_data : list Z) : M Z :=
  if 8 + num_entries >? MBOX_PARAM_AREA_IN_BYTES then ret (- EINVAL)
  else mbox e (RpipeSet port_mask start_index num_entries rpipe_data).

(** [data] holds [len / 8] words. *)
Definition ops_csr_raw_write (e : io_env) (addr : Z) (data : list Z) (len : Z) : M Z :=
  if len >? MBOX_WRITE_DATA_SIZE_IN_BYTES then ret (- EINVAL)
  else mbox e (CsrRawWrite addr data).

Definition ops_linkmgr_port_link_state_set (e : io_env) (port new_state : Z) : M Z :=
  mbox e (PortLinkStateSet port new_state).

(** *** The route pipe *)

Definition block_to_rpipe (block : list Z) (len : Z) : list Z :=
  (fun i =>
     let port := routing_uft_entry_get block i in
     if port =? ROUTING_UFT_INVALID_PORT4 then ROUTING_UFT_INVALID_PORT8 else port)
  <$> seqZ 0 len.

Definition rpipe_clear_block (e : io_env) (port_mask fid_base fid_range : Z) : M Z :=
  if fid_range >? MAX_UFT_ENTRIES then ret (- EINVAL)
  else ops_rpipe_set e port_mask fid_base fid_range
         (replicate (Z.to_nat fid_range) ROUTING_UFT_INVALID_PORT8).

Definition rpipe_write_block (e : io_env) (port_mask : Z) (block : list Z)
    (fid_base fid_range : Z) : M Z :=
  if fid_range >? MAX_UFT_ENTRIES then ret (- EINVAL)
  else ops_rpipe_set e port_mask fid_base fid_range (block_to_rpipe block fid_range).

Definition rpipe_bridge_changed (block_curr : list Z) (block_idx : Z)
    (uft_prev : option routing_uft) : bool :=
  match uft_prev with
  | None => true
  | Some prev =>
    match xa_load (bridges prev) block_idx with
    | None => true
    | Some block_prev => negb (memeq block_curr block_prev ROUTING_FID_BLOCK_SIZE)
    end
  end.

Definition rpipe_write_bridge_update (e : io_env) (port_mask : Z) : M Z :=
  let! sd := get_sd in
  let! next := deref (uft_next sd) in
  for_each (xa_for_each (bridges next)) (fun '(i, block) =>
    let base := u16 (ROUTING_FID_BLOCK_BASE + i * ROUTING_FID_BLOCK_SIZE) in
    if negb (rpipe_bridge_changed block i (uft sd)) then ret 0
    else rpipe_write_block e port_mask block base ROUTING_FID_BLOCK_SIZE).

Definition rpipe_write_bridge_remove (e : io_env) (port_mask : Z) : M Z :=
  let! sd := get_sd in
  let! curr := deref (uft sd) in
  let! next := deref (uft_next sd) in
  for_each (xa_for_each (bridges curr)) (fun '(i, _) =>
    match xa_load (bridges next) i with
    | Some _ => ret 0
    | None =>
      let base := u16 (ROUTING_FID_BLOCK_BASE + i * ROUTING_FID_BLOCK_SIZE) in
      rpipe_clear_block e port_mask base ROUTING_FID_BLOCK_SIZE
    end).

(** The mask is built as the code builds it: [port_mask |= lpn]. *)
Definition rpipe_port_mask (sd : fsubdev) : Z :=
  foldl (fun port_mask lpn =>
           match fport_log_state sd lpn with
           | Some log_state =>
             if log_state >=? IB_PORT_INIT then Z.lor port_mask lpn else port_mask
           | None => port_mask
           end)
        (Z.lor PORT_CPORT_MASK PORT_BRIDGE_MASK)
        (for_each_set_bit (fport_lpns sd)).

(** rpipe_write (the buffer allocation is taken to succeed) *)
Definition rpipe_write (e : io_env) : M Z :=
  let! sd := get_sd in
  let port_mask := rpipe_port_mask sd in
  let! next := deref (uft_next sd) in
  and_then (rpipe_write_block e port_mask (mgmt next) ROUTING_FID_CPORT_BASE
              ROUTING_MAX_DEVICES)
    (and_then (rpipe_write_bridge_update e port_mask)
       (match uft sd with
        | Some _ => rpipe_write_bridge_remove e port_mask
        | None => ret 0
        end)).

(** *** Bridge ports *)

Definition get_raw_port_base (port : Z) : Z :=
  let region := if (port >=? PORT_BRIDGE_START) && (port <=? PORT_BRIDGE_END)
                then CSR_REGION1_OFFSET else 0 in
  u32 (CSR_PORTS_BASE + (port - 1) * CSR_PORT_OFFSET + region).

(** FIELD_PREP(mask, val) for a mask whose lowest set bit is [shift]. *)
Definition FIELD_PREP (mask shift val : Z) : Z := Z.land (shl64 val shift) mask.

Definition fidgen_write_port_pkgaddr (e : io_env) (port_base : Z) : M Z :=
  let! sd := get_sd in
  let addr_csr := Z.lor (FIELD_PREP MASK_BT_PAR_BASE 1 (pkg_offset sd))
                        (FIELD_PREP MASK_BT_PAR_RANGE 20 (pkg_size sd)) in
  ops_csr_raw_write e (u32 (port_base + CSR_BT_PKG_ADDR_RANGE)) [addr_csr] 8.

Definition build_fidgen_block (sd : fsubdev) (fidgen : routing_fidgen) : list Z :=
  [ mask_a fidgen; shift_a fidgen; mask_b fidgen; shift_b fidgen; 0; 0;
    mask_h fidgen; shift_h fidgen; modulo fidgen;
    Z.shiftr (fid_base sd) ROUTING_DPA_DFID_MAP_SHIFT; mask_d fidgen; 0 ].

Definition fidgen_write_port (e : io_env) (port : Z) : M Z :=
  let! sd := get_sd in
  let port_base := get_raw_port_base port in
  let len := FIDGEN_BLOCK_SIZE * 8 in
  let! next := deref (fidgen_next sd) in
  let data_next := build_fidgen_block sd next in
  let delta := match fidgen sd with
               | Some curr => negb (memeq (build_fidgen_block sd curr) data_next
                                          FIDGEN_BLOCK_SIZE)
               | None => true
               end in
  and_then (if delta
            then ops_csr_raw_write e (u32 (port_base + CSR_FIDGEN_MASK_A)) data_next len
            else ret 0)
    (fidgen_write_port_pkgaddr e port_base).

Definition activate_port (e : io_env) (port : Z) : M Z :=
  ops_linkmgr_port_link_state_set e port IB_PORT_ACTIVE.

(** The loop of fidgen_write_port_table.  [data] and [data_next] are what
    is left of the two maps from the current position on; [remaining] is
    in bytes.  Each round takes at least eight bytes off [remaining], so
    [remaining / 8] rounds are enough. *)
Fixpoint lut_loop (e : io_env) (rounds : nat) (data : option (list Z))
    (data_next : list Z) (addr remaining : Z) : M Z :=
  match rounds with
  | O => ret 0
  | S rounds' =>
    if remaining =? 0 then ret 0
    else
      let len := Z.min remaining MBOX_WRITE_DATA_SIZE_IN_BYTES in
      let changed := match data with
                     | None => true
                     | Some d => negb (memeq d data_next (len / 8))
                     end in
      and_then (if changed
                then ops_csr_raw_write e addr (take (Z.to_nat (len / 8)) data_next) len
                else ret 0)
        (lut_loop e rounds' (drop (Z.to_nat (len / 8)) <$> data)
           (drop (Z.to_nat (len / 8)) data_next) (u32 (addr + len)) (remaining - len))
  end.

Definition fidgen_write_port_table (e : io_env) (port : Z) : M Z :=
  let! sd := get_sd in
  let addr := u32 (get_raw_port_base port + CSR_FIDGEN_LUT_BASE) in
  let! next := deref (fidgen_next sd) in
  let remaining := u32 ((max_dpa_index sd + 1) * 8) in
  lut_loop e (Z.to_nat (remaining / 8)) (map <$> fidgen sd) (map next) addr remaining.

Definition bridge_write (e : io_env) : M Z :=
  let! sd := get_sd in
  match fidgen_next sd with
  | None => ret (- EINVAL)
  | Some _ =>
    for_each (for_each_set_bit (bport_lpns sd)) (fun lpn =>
      and_then (fidgen_write_port e lpn)
        (and_then (fidgen_write_port_table e lpn) (activate_port e lpn)))
  end.

Definition switchinfo_write (e : io_env) : M Z :=
  let! sd := get_sd in
  let si := switchinfo sd in
  let si := mk_switchinfo (guid si) (num_ports si) (slt_psc_ep0 si)
              (routing_mode_supported si) (routing_mode_enabled si)
              (ROUTING_UFT_SIZE - 1) in
  let! err := ops_switchinfo_set e si in
  if err =? 0
  then let! _ := put_sd (set_switchinfo (switchinfo_rsp e si) sd) in ret 0
  else ret err.

(** Modelled from the spec: routing_update (routing_uft_update and
    routing_fidgen_update, in routing_topology.c): on success the next
    tables replace the current ones. *)
Definition routing_update (sd : fsubdev) : fsubdev :=
  set_tables (uft_next sd) None (fidgen_next sd) None sd.

(** Modelled from the spec: routing_sd_transition_error marks the
    subdevice in error. *)
Definition routing_sd_transition_error (sd : fsubdev) : fsubdev :=
  set_state TILE_ROUTING_STATE_ERROR sd.

Definition io_work_fn (e : io_env) : M unit :=
  let! err := and_then (switchinfo_write e) (and_then (rpipe_write e) (bridge_write e)) in
  let! sd := get_sd in
  if err =? 0 then put_sd (routing_update sd)
  else put_sd (routing_sd_transition_error sd).

(** *** The programming stage on one subdevice *)

(** The subdevice as the computing stage hands it over: [tables] are the
    tables unicast_route_src and map_addresses_for_sd have left in
    [uft_next] and [fidgen_next]. *)
Definition stage_next (tables : routing_uft * routing_fidgen) (sd : fsubdev)
    : fsubdev :=
  set_tables (uft sd) (Some tables.1) (fidgen sd) (Some tables.2) sd.

(** io_work_fn on a subdevice with the next tables [tables]: the
    subdevice afterwards and the hardware writes made. *)
Definition program_sd (e : io_env) (tables : routing_uft * routing_fidgen)
    (sd : fsubdev) : option (fsubdev * list hw_write) :=
  match io_work_fn e (mk_io (stage_next tables sd) []) with
  | Some (_, s) => Some (io_sd s, io_hw s)
  | None => None
  end.

(** The writes of a sweep that finds nothing to change: the switchinfo,
    the management block, and for each bridge port its package address
    range and its activation. *)
Definition mgmt_write (tables : routing_uft * routing_fidgen) (sd : fsubdev) : hw_write :=
  RpipeSet (rpipe_port_mask sd) ROUTING_FID_CPORT_BASE ROUTING_MAX_DEVICES
    (block_to_rpipe (mgmt tables.1) ROUTING_MAX_DEVICES).

Definition port_writes (sd : fsubdev) (lpn : Z) : list hw_write :=
  [ CsrRawWrite (u32 (get_raw_port_base lpn + CSR_BT_PKG_ADDR_RANGE))
      [Z.lor (FIELD_PREP MASK_BT_PAR_BASE 1 (pkg_offset sd))
             (FIELD_PREP MASK_BT_PAR_RANGE 20 (pkg_size sd))];
    PortLinkStateSet lpn IB_PORT_ACTIVE ].

Definition unchanged_writes (tables : routing_uft * routing_fidgen) (sd : fsubdev)
    : list hw_write :=
  let si := switchinfo sd in
  SwitchinfoSet (mk_switchinfo (guid si) (num_ports si) (slt_psc_ep0 si)
                   (routing_mode_supported si) (routing_mode_enabled si)
                   (ROUTING_UFT_SIZE - 1))
  :: mgmt_write tables sd
  :: mbind (port_writes sd) (for_each_set_bit (bport_lpns sd)).

(** The operations [ws] made one after the other, up to the first that
    fails. *)
Definition issue (e : io_env) (ws : list hw_write) : M Z := for_each ws (mbox e).

(** [b] is [a] but for its switchinfo. *)
Definition same_routing (a b : fsubdev) : Prop := b = set_switchinfo (switchinfo b) a.

(** A step that leaves all of the subdevice but its switchinfo as it was. *)
Definition keeps {A} (m : M A) : Prop :=
  forall s r s', m s = Some (r, s') -> same_routing (io_sd s) (io_sd s').

(** A subdevice with two bridge ports and routes to itself and to one
    neighbor, and a peer that accepts every operation. *)
Definition sample_tables : routing_uft * routing_fidgen :=
  (mk_uft (replicate 378 0xff) {[ 0 := replicate 32 0x9f; 1 := replicate 32 0x1f ]},
   mk_fidgen 0xfffffffff 0 0 0 36 0 0 0 2 [13; 14]).

Definition sample_sd : fsubdev :=
  mk_fsubdev (mk_switchinfo 0xA 13 0 0 0 0) 0x6 0x600
    (fun lpn => if (1 <=? lpn) && (lpn <=? 2) then Some IB_PORT_ACTIVE else None)
    0 8 1 832 TILE_ROUTING_STATE_VALID None None None None.

Definition accepting : io_env := mk_io_env (fun _ => 0) (fun si => si).

(** A step whose mailbox operations stop at the first that fails: a failed
    operation is the last one made, and its value is the value returned. *)
Definition halts_at_failure (e : io_env) (m : M Z) : Prop :=
  forall s r s', m s = Some (r, s') ->
    exists ws, io_hw s' = io_hw s ++ ws /\
      forall k, (k < length ws)%nat -> reply e (length (io_hw s) + k) <> 0 ->
        S k = length ws /\ r = reply e (length (io_hw s) + k).

(** A step that makes no mailbox operation. *)
Definition silent {A} (m : M A) : Prop :=
  forall s a s', m s = Some (a, s') -> io_hw s' = io_hw s.
(** The words a CSR write carries. *)
Definition csr_data (w : hw_write) : list Z :=
  match w with CsrRawWrite _ data => data | _ => [] end.

End Io.
(** ** Port manager: initial port state, port controls, status publication *)

Module Pm.
Import Port.

Definition PORT_FABRIC_START : Z := 1.
Definition PORT_FABRIC_COUNT : Z := 8.
Definition STL_PORT_TYPE_FIXED : Z := 2.
Definition STL_PORT_LINK_MODE_STL : Z := 4.
Definition ENOENT : Z := 2.
Definition EAGAIN : Z := 11.

(** enum pm_trigger_reasons, the bit the netlink commands set. *)
Definition NL_PM_CMD_EVENT : Z := 8.

(** An entry of [sd->portinfo.per_portinfo]: the two fields
    initial_port_state reads, and the fields the state machine reads. *)
Record link_portinfo := mk_link_portinfo {
  port_type : Z;
  port_link_mode_active : Z;
  pm_portinfo : portinfo
}.

(** The fields of [struct fsubdev] the port manager keeps.  A pointer to
    an element of [sd->port] is the element's index; [port_status] and
    [next_port_status] point into [_portstatus] and are the offset they
    point at, [None] for NULL.  [pm_work_pending] is set by queue_work. *)
Record fsubdev := mk_fsubdev {
  ok_to_schedule_pm_work : bool;
  pm_work_pending : bool;
  pm_triggers : Z;
  extended_port_cnt : Z;
  port_cnt : Z;
  port : list fport;
  lpn_fport_map : list (option nat);
  fport_lpns : Z;
  bport_lpns : Z;
  per_portinfo : list link_portinfo;
  _portstatus : list fport_status;
  port_status : option nat;
  next_port_status : option nat;
  max_lpn : Z
}.

Definition set_pm_work_pending (v : bool) (sd : fsubdev) : fsubdev :=
  mk_fsubdev (ok_to_schedule_pm_work sd) v (pm_triggers sd) (extended_port_cnt sd)
    (port_cnt sd) (port sd) (lpn_fport_map sd) (fport_lpns sd) (bport_lpns sd)
    (per_portinfo sd) (_portstatus sd) (port_status sd) (next_port_status sd) (max_lpn sd).

Definition set_pm_triggers (v : Z) (sd : fsubdev) : fsubdev :=
  mk_fsubdev (ok_to_schedule_pm_work sd) (pm_work_pending sd) v (extended_port_cnt sd)
    (port_cnt sd) (port sd) (lpn_fport_map sd) (fport_lpns sd) (bport_lpns sd)
    (per_portinfo sd) (_portstatus sd) (port_status sd) (next_port_status sd) (max_lpn sd).

Definition set_port_cnt (v : Z) (sd : fsubdev) : fsubdev :=
  mk_fsubdev (ok_to_schedule_pm_work sd) (pm_work_pending sd) (pm_triggers sd)
    (extended_port_cnt sd) v (port sd) (lpn_fport_map sd) (fport_lpns sd) (bport_lpns sd)
    (per_portinfo sd) (_portstatus sd) (port_status sd) (next_port_status sd) (max_lpn sd).

Definition set_port (v : list fport) (sd : fsubdev) : fsubdev :=
  mk_fsubdev (ok_to_schedule_pm_work sd) (pm_work_pending sd) (pm_triggers sd)
    (extended_port_cnt sd) (port_cnt sd) v (lpn_fport_map sd) (fport_lpns sd) (bport_lpns sd)
    (per_portinfo sd) (_portstatus sd) (port_status sd) (next_port_status sd) (max_lpn sd).

Definition set_lpn_fport_map (v : list (option nat)) (sd : fsubdev) : fsubdev :=
  mk_fsubdev (ok_to_schedule_pm_work sd) (pm_work_pending sd) (pm_triggers sd)
    (extended_port_cnt sd) (port_cnt sd) (port sd) v (fport_lpns sd) (bport_lpns sd)
    (per_portinfo sd) (_portstatus sd) (port_status sd) (next_port_status sd) (max_lpn sd).

Definition set_fport_lpns (v : Z) (sd : fsubdev) : fsubdev :=
  mk_fsubdev (ok_to_schedule_pm_work sd) (pm_work_pending sd) (pm_triggers sd)
    (extended_port_cnt sd) (port_cnt sd) (port sd) (lpn_fport_map sd) v (bport_lpns sd)
    (per_portinfo sd) (_portstatus sd) (port_status sd) (next_port_status sd) (max_lpn sd).

Definition set_bport_lpns (v : Z) (sd : fsubdev) : fsubdev :=
  mk_fsubdev (ok_to_schedule_pm_work sd) (pm_work_pending sd) (pm_triggers sd)
    (extended_port_cnt sd) (port_cnt sd) (port sd) (lpn_fport_map sd) (fport_lpns sd) v
    (per_portinfo sd) (_portstatus sd) (port_status sd) (next_port_status sd) (max_lpn sd).

Definition set_portstatus (v : list fport_status) (sd : fsubdev) : fsubdev :=
  mk_fsubdev (ok_to_schedule_pm_work sd) (pm_work_pending sd) (pm_triggers sd)
    (extended_port_cnt sd) (port_cnt sd) (port sd) (lpn_fport_map sd) (fport_lpns sd)
    (bport_lpns sd) (per_portinfo sd) v (port_status sd) (next_port_status sd) (max_lpn sd).

Definition set_port_status (v : option nat) (sd : fsubdev) : fsubdev :=
  mk_fsubdev (ok_to_schedule_pm_work sd) (pm_work_pending sd) (pm_triggers sd)
    (extended_port_cnt sd) (port_cnt sd) (port sd) (lpn_fport_map sd) (fport_lpns sd)
    (bport_lpns sd) (per_portinfo sd) (_portstatus sd) v (next_port_status sd) (max_lpn sd).

Definition set_next_port_status (v : option nat) (sd : fsubdev) : fsubdev :=
  mk_fsubdev (ok_to_schedule_pm_work sd) (pm_work_pending sd) (pm_triggers sd)
    (extended_port_cnt sd) (port_cnt sd) (port sd) (lpn_fport_map sd) (fport_lpns sd)
    (bport_lpns sd) (per_portinfo sd) (_portstatus sd) (port_status sd) v (max_lpn sd).

Definition set_max_lpn (v : Z) (sd : fsubdev) : fsubdev :=
  mk_fsubdev (ok_to_schedule_pm_work sd) (pm_work_pending sd) (pm_triggers sd)
    (extended_port_cnt sd) (port_cnt sd) (port sd) (lpn_fport_map sd) (fport_lpns sd)
    (bport_lpns sd) (per_portinfo sd) (_portstatus sd) (port_status sd) (next_port_status sd)
    v.

(** *** Initial state *)

(** The controls a fabric port starts with. *)
Definition initial_controls (port_manual_bringup : bool) (type : Z) : Z :=
  let c := 0 in
  let c := if (type =? STL_PORT_TYPE_FIXED) && negb port_manual_bringup
           then set_bit PORT_CONTROL_ENABLED c else c in
  set_bit PORT_CONTROL_ROUTABLE c.

(** The body of the loop of initial_port_state for logical port [i], with
    the local [port_cnt] (the pointer [p] is [&sd->port[port_cnt]]
    throughout): [inl err] for a return from inside the loop, [inr] the
    new [port_cnt] otherwise.  [None] stands for an access outside
    [per_portinfo] or [port], which the checks of initial_switchinfo_state
    and of the loop rule out.  The fields of [*p] the loop does not write
    keep their value; [port_cnt] stays below PORT_FABRIC_COUNT and fits
    the u8 it is stored in. *)
Definition initial_port (port_manual_bringup : bool) (i : Z) (port_cnt : Z) (sd : fsubdev)
    : option ((Z + Z) * fsubdev) :=
  curr_portinfo ← per_portinfo sd !! Z.to_nat i;
  let mode := port_link_mode_active curr_portinfo in
  let type := port_type curr_portinfo in
  if mode =? STL_PORT_LINK_MODE_STL then
    if port_cnt >=? PORT_FABRIC_COUNT then Some (inl (- ENOENT), sd)
    else
      let k := Z.to_nat port_cnt in
      p ← port sd !! k;
      let p := mk_fport (pm_portinfo curr_portinfo) PM_PORT_STATE_DISABLED
                        (initial_controls port_manual_bringup type) (u8 i) (log_state p) in
      let sd := set_port (<[k := p]> (port sd)) sd in
      let sd := set_max_lpn i sd in
      let port_cnt := port_cnt + 1 in
      let sd := set_port_cnt port_cnt sd in
      let sd := set_portstatus (alter set_health_black (Z.to_nat i) (_portstatus sd)) sd in
      let sd := set_fport_lpns (set_bit i (fport_lpns sd)) sd in
      let sd := set_lpn_fport_map (<[Z.to_nat i := Some k]> (lpn_fport_map sd)) sd in
      Some (inr port_cnt, sd)
  else Some (inr port_cnt, set_bport_lpns (set_bit i (bport_lpns sd)) sd).

Fixpoint initial_ports (port_manual_bringup : bool) (lpns : list Z) (port_cnt : Z)
    (sd : fsubdev) : option ((Z + Z) * fsubdev) :=
  match lpns with
  | [] => Some (inr port_cnt, sd)
  | i :: lpns' =>
    '(r, sd) ← initial_port port_manual_bringup i port_cnt sd;
    match r with
    | inl err => Some (inl err, sd)
    | inr port_cnt => initial_ports port_manual_bringup lpns' port_cnt sd
    end
  end.

(** [next[i] = init[i]] for the status arrays at offsets [next] and
    [init] of [_portstatus]. *)
Definition copy_status (next init : nat) (l : list fport_status) (i : Z) : list fport_status :=
  match l !! (init + Z.to_nat i)%nat with
  | Some st => <[(next + Z.to_nat i)%nat := st]> l
  | None => l
  end.

(** initial_port_state *)
Definition initial_port_state (port_manual_bringup : bool) (sd : fsubdev)
    : option (Z * fsubdev) :=
  let sd := set_max_lpn 0 sd in
  let sd := set_fport_lpns 0 sd in
  let sd := set_bport_lpns 0 sd in
  '(r, sd) ← initial_ports port_manual_bringup
               (seqZ PORT_FABRIC_START (extended_port_cnt sd - PORT_FABRIC_START)) 0 sd;
  match r with
  | inl err => Some (err, sd)
  | inr _ =>
    let sd := set_port_status (Some 0%nat) sd in
    let sd := set_next_port_status (Some (Z.to_nat PORT_COUNT)) sd in
    let sd := set_portstatus
                (foldl (copy_status (Z.to_nat PORT_COUNT) 0) (_portstatus sd)
                       (seqZ PORT_FABRIC_START (max_lpn sd + 1 - PORT_FABRIC_START))) sd in
    Some (0, sd)
  end.

(** What get_fport_status reads of the subdevice. *)
Definition status_view (sd : fsubdev) : status_sd :=
  mk_status_sd (lpn_fport_map sd) ((fun o => drop o (_portstatus sd)) <$> port_status sd).

(** *** Status publication *)

(** publish_status_updates: the two pointers are swapped, and the entries
    of the fabric ports copied to the array that has become the
    unpublished one.  [None] stands for the dereference of a NULL
    pointer. *)
Definition publish_status_updates (sd : fsubdev) : option fsubdev :=
  let old_unpublished := next_port_status sd in
  let sd := set_next_port_status (port_status sd) (set_port_status (next_port_status sd) sd) in
  let new_unpublished := next_port_status sd in
  if max_lpn sd <? PORT_FABRIC_START then Some sd
  else
    new ← new_unpublished;
    old ← old_unpublished;
    Some (set_portstatus
            (foldl (copy_status new old) (_portstatus sd)
                   (seqZ PORT_FABRIC_START (max_lpn sd + 1 - PORT_FABRIC_START))) sd).

(** *** Port controls *)

(** signal_pm_thread *)
Definition signal_pm_thread (event : Z) (sd : fsubdev) : Z * fsubdev :=
  let sd := set_pm_triggers (set_bit event (pm_triggers sd)) sd in
  if ok_to_schedule_pm_work sd then (0, set_pm_work_pending true sd) else (- EAGAIN, sd).

Definition with_controls (p : fport) (c : Z) : fport :=
  mk_fport (fport_portinfo p) (state p) c (lpn p) (log_state p).

(** test_and_set_bit(nr, p->controls) and test_and_clear_bit(nr,
    p->controls) for the port at index [k]: the old value of the bit. *)
Definition test_and_set_control (nr : Z) (k : nat) (sd : fsubdev) : bool * fsubdev :=
  match port sd !! k with
  | Some p => (test_bit nr (controls p),
               set_port (<[k := with_controls p (set_bit nr (controls p))]> (port sd)) sd)
  | None => (false, sd)
  end.

Definition test_and_clear_control (nr : Z) (k : nat) (sd : fsubdev) : bool * fsubdev :=
  match port sd !! k with
  | Some p => (test_bit nr (controls p),
               set_port (<[k := with_controls p (clear_bit nr (controls p))]> (port sd)) sd)
  | None => (false, sd)
  end.

(** The body of the loop of enable_fports, on [unchanged] and the
    subdevice. *)
Definition enable_fport (acc : bool * fsubdev) (lpn : Z) : bool * fsubdev :=
  let '(unchanged, sd) := acc in
  match get_fport_handle (status_view sd) lpn with
  | Some p =>
    let '(old, sd) := test_and_set_control PORT_CONTROL_ENABLED p sd in
    (unchanged && old, sd)
  | None => (unchanged, sd)
  end.

(** enable_fports *)
Definition enable_fports (lpnmask : Z) (sd : fsubdev) : Z * fsubdev :=
  let '(unchanged, sd) := foldl enable_fport (true, sd) (Io.for_each_set_bit lpnmask) in
  if unchanged then (0, sd) else signal_pm_thread NL_PM_CMD_EVENT sd.

(** The body of the loop of disable_fports, on [changed] and the
    subdevice. *)
Definition disable_fport (acc : bool * fsubdev) (lpn : Z) : bool * fsubdev :=
  let '(changed, sd) := acc in
  match get_fport_handle (status_view sd) lpn with
  | Some p =>
    let '(old, sd) := test_and_clear_control PORT_CONTROL_ENABLED p sd in
    (changed || old, sd)
  | None => (changed, sd)
  end.

(** disable_fports *)
Definition disable_fports (lpnmask : Z) (sd : fsubdev) : Z * fsubdev :=
  let '(changed, sd) := foldl disable_fport (false, sd) (Io.for_each_set_bit lpnmask) in
  if changed then signal_pm_thread NL_PM_CMD_EVENT sd else (0, sd).

(** *** Quantities the statements below are written with *)

(** The structure as allocated: the arrays have their declared sizes, and
    the map and the port count are zero. *)
Definition allocated (sd : fsubdev) : Prop :=
  length (port sd) = Z.to_nat PORT_FABRIC_COUNT /\
  length (per_portinfo sd) = Z.to_nat PORT_COUNT /\
  length (_portstatus sd) = Z.to_nat (2 * PORT_COUNT) /\
  lpn_fport_map sd = replicate (Z.to_nat PORT_COUNT) None /\
  port_cnt sd = 0.

(** The firmware reports logical port [l] in fabric (STL) link mode. *)
Definition is_fabric (pis : list link_portinfo) (l : Z) : bool :=
  match pis !! Z.to_nat l with
  | Some pi => port_link_mode_active pi =? STL_PORT_LINK_MODE_STL
  | None => false
  end.

(** The logical port numbers initial_port_state looks at, and those of
    them in fabric mode, in ascending order. *)
Definition scanned_lpns (sd : fsubdev) : list Z :=
  seqZ PORT_FABRIC_START (extended_port_cnt sd - PORT_FABRIC_START).

Definition stl_lpns (sd : fsubdev) : list Z :=
  filter (fun l => is_fabric (per_portinfo sd) l = true) (scanned_lpns sd).

(** The state of the loop of initial_port_state after the logical ports
    [done], of which [fl] are fabric ports, on the subdevice [sd0]. *)
Definition ports_inv (m : bool) (sd0 : fsubdev) (done fl : list Z) (cnt : Z) (sd : fsubdev)
    : Prop :=
  cnt = Z.of_nat (length fl) /\
  per_portinfo sd = per_portinfo sd0 /\
  extended_port_cnt sd = extended_port_cnt sd0 /\
  length (port sd) = length (port sd0) /\
  length (lpn_fport_map sd) = length (lpn_fport_map sd0) /\
  length (_portstatus sd) = length (_portstatus sd0) /\
  port_cnt sd = (if fl is [] then port_cnt sd0 else cnt) /\
  max_lpn sd = List.last fl 0 /\
  (forall k l, fl !! k = Some l ->
     lpn_fport_map sd !! Z.to_nat l = Some (Some k) /\
     _portstatus sd !! Z.to_nat l = Some (mk_status FPORT_HEALTH_BLACK 0 FPORT_ERROR_NONE) /\
     exists q pi, port sd !! k = Some q /\ per_portinfo sd0 !! Z.to_nat l = Some pi /\
       lpn q = l /\ state q = PM_PORT_STATE_DISABLED /\ fport_portinfo q = pm_portinfo pi /\
       controls q = initial_controls m (port_type pi)) /\
  (forall l, 0 <= l -> l ∉ fl -> lpn_fport_map sd !! Z.to_nat l = lpn_fport_map sd0 !! Z.to_nat l) /\
  (forall l, 0 <= l -> Z.testbit (fport_lpns sd) l = bool_decide (l ∈ fl)) /\
  (forall l, 0 <= l -> Z.testbit (bport_lpns sd) l = bool_decide (l ∈ done /\ l ∉ fl)).

(** Every entry of the map points into the port array. *)
Definition handles_valid (sd : fsubdev) : Prop :=
  forall lpn k, get_fport_handle (status_view sd) lpn = Some k -> (k < length (port sd))%nat.

(** The port at index [k] is the fabric port of one of [lpns]. *)
Definition selected (sd : fsubdev) (lpns : list Z) (k : nat) : Prop :=
  Exists (fun lpn => get_fport_handle (status_view sd) lpn = Some k) lpns.

#[global] Instance selected_dec sd lpns k : Decision (selected sd lpns k).
Proof. unfold selected. apply _. Defined.

(** A subdevice as allocated, whose firmware reports the logical ports 1
    to [n] in fabric mode and the others in bridge mode, all with fixed
    connectors; and the subdevice initial_port_state makes of one with
    eight fabric ports under manual bringup. *)
Definition sample_sd (n : Z) : fsubdev :=
  let pi := mk_portinfo 0 0 8 8 8 8 8 8 0xB0 in
  mk_fsubdev true false 0 PORT_COUNT 0
    (replicate 8 (mk_fport pi PM_PORT_STATE_DISABLED 0 0 0))
    (replicate 13 None) 0 0
    ((fun l => mk_link_portinfo STL_PORT_TYPE_FIXED
                 (if (1 <=? l) && (l <=? n) then STL_PORT_LINK_MODE_STL else 1) pi)
     <$> seqZ 0 PORT_COUNT)
    (replicate 26 (mk_status FPORT_HEALTH_RED 0 FPORT_ERROR_NONE))
    None None 0.

Definition sample_ready : fsubdev :=
  from_option snd (sample_sd 8) (initial_port_state true (sample_sd 8)).

End Pm.

(** ** The sweep (routing_logic.c, routing_engine.c)

    routing_logic_run and routing_sweep over the whole routable list.
    The fields of [struct fsubdev] that the neighbor, plane and cost
    stages use are those of [Topo.fsubdev]; the other fields the sweep
    uses are [routing_info], kept in a list beside the routable list, the
    entry of a subdevice at the position of the subdevice.  The
    programming stage sees a subdevice as [Io.fsubdev]. *)

Module Engine.
Import Uft.

Definition IAF_MAX_SUB_DEVS : Z := 2.
Definition ROUTING_MIN_DPA_PER_SD_ORDER : Z := 33.
Definition CSR_FIDGEN_LUT_INDEX_WIDTH : Z := 13.

(** [struct fdev] with its platform data: [sd_of] holds, for each element
    of [dev->sd], its position in the routable list if it is on the
    list. *)
Record fdev := mk_fdev {
  pd_index : Z;
  sd_cnt : Z;
  pkg_offset : Z;
  pkg_size : Z;
  sd_of : list (option nat)
}.

(** [fdev_of] is [sd->fdev] as a position in the device table, [sd_index]
    the value of sd_index(sd); then the fields of [sd->routing] that are
    not in [Topo.fsubdev], and what the programming stage reads besides. *)
Record routing_info := mk_info {
  fdev_of : nat;
  sd_index : Z;
  dpa_idx_base : Z;
  dpa_idx_range : Z;
  fid_group : Z;
  fid_mgmt : Z;
  fid_base : Z;
  uft : option Io.routing_uft;
  uft_next : option Io.routing_uft;
  fidgen : option Io.routing_fidgen;
  fidgen_next : option Io.routing_fidgen;
  switchinfo : Io.mbdb_op_switchinfo;
  bport_lpns : Z;
  fport_log_state : Z -> option Z
}.

(** The routable list with its planes, the routing data of the
    subdevices, the devices, and [topo->max_dpa_index]. *)
Record engine := mk_engine {
  fab : Topo.fabric;
  info : list routing_info;
  fdevs : list fdev;
  max_dpa_index : Z
}.

Definition set_fids (group mgmt base : Z) (r : routing_info) : routing_info :=
  mk_info (fdev_of r) (sd_index r) (dpa_idx_base r) (dpa_idx_range r) group mgmt base
    (uft r) (uft_next r) (fidgen r) (fidgen_next r) (switchinfo r) (bport_lpns r)
    (fport_log_state r).

Definition set_uft_next (u : option Io.routing_uft) (r : routing_info) : routing_info :=
  mk_info (fdev_of r) (sd_index r) (dpa_idx_base r) (dpa_idx_range r) (fid_group r)
    (fid_mgmt r) (fid_base r) (uft r) u (fidgen r) (fidgen_next r) (switchinfo r)
    (bport_lpns r) (fport_log_state r).

Definition set_fidgen_next (g : option Io.routing_fidgen) (r : routing_info)
    : routing_info :=
  mk_info (fdev_of r) (sd_index r) (dpa_idx_base r) (dpa_idx_range r) (fid_group r)
    (fid_mgmt r) (fid_base r) (uft r) (uft_next r) (fidgen r) g (switchinfo r)
    (bport_lpns r) (fport_log_state r).

Definition with_fab (f : Topo.fabric) (e : engine) : engine :=
  mk_engine f (info e) (fdevs e) (max_dpa_index e).

Definition with_info (l : list routing_info) (e : engine) : engine :=
  mk_engine (fab e) l (fdevs e) (max_dpa_index e).

Definition with_max_dpa_index (m : Z) (e : engine) : engine :=
  mk_engine (fab e) (info e) (fdevs e) m.

Definition update_info (e : engine) (h : nat) (g : routing_info -> routing_info) : engine :=
  with_info (alter g h (info e)) e.

(** The subdevices [routing_sd_iter(0)] and [routing_sd_next(sd, 0)]
    yield. *)
Definition walk (e : engine) : list nat := Topo.routing_sd_walk false (fab e).

(** *** routing_logic_run *)

(** fid_cport and fid_block_base *)
Definition fid_cport (fid_group : Z) : Z := u16 (Io.ROUTING_FID_CPORT_BASE + fid_group).

Definition fid_block_base (fid_group : Z) : Z :=
  u16 (Io.ROUTING_FID_BLOCK_BASE + Io.ROUTING_FID_BLOCK_SIZE * fid_group).

(** init: [sd_max] is a u16. *)
Definition init (e : engine) : engine :=
  with_max_dpa_index
    (foldl (fun m h =>
              match info e !! h with
              | Some r =>
                let sd_max := u16 (dpa_idx_base r + dpa_idx_range r - 1) in
                if m <? sd_max then sd_max else m
              | None => m
              end)
           0 (walk e))
    e.

(** assign_fid_sd and assign_fids *)
Definition assign_fid_sd (e : engine) (h : nat) : engine :=
  match info e !! h with
  | Some r =>
    match fdevs e !! fdev_of r with
    | Some dev =>
      let group := u16 (pd_index dev * IAF_MAX_SUB_DEVS + sd_index r) in
      update_info e h (set_fids group (fid_cport group) (fid_block_base group))
    | None => e
    end
  | None => e
  end.

Definition assign_fids (e : engine) : engine := foldl assign_fid_sd e (walk e).

(** Modelled from the spec: routing_uft_block_alloc, routing_uft_alloc and
    routing_uft_bridge_get are declared in routing_topology.h and defined
    outside the tree.  The forwarding table is a "sparse map from
    destination-FID block" to egress port: a block holds two 4-bit entries
    per byte and is allocated with every entry invalid; a table is
    allocated with its management block of ROUTING_MAX_DEVICES entries and
    no bridge block; the bridge block of a destination is allocated when
    absent.  rpipe_write_bridge_update takes the base FID of the block at
    index [i] to be ROUTING_FID_BLOCK_BASE + i * ROUTING_FID_BLOCK_SIZE,
    which is fid_block_base of the fid group [i], so the block of a
    destination is kept under the destination's fid group. *)
Definition routing_uft_block_alloc (len : Z) : list Z :=
  replicate (Z.to_nat ((len + 1) / 2)) 0xff.

Definition routing_uft_alloc : Io.routing_uft :=
  Io.mk_uft (routing_uft_block_alloc Io.ROUTING_MAX_DEVICES) ∅.

Definition routing_uft_bridge_get (uft : Io.routing_uft) (fid_group : Z) : list Z :=
  default (routing_uft_block_alloc Io.ROUTING_FID_BLOCK_SIZE) (Io.bridges uft !! fid_group).

(** The table after the management block and the bridge block of a
    destination have been written in place. *)
Definition uft_store (uft : Io.routing_uft) (fid_group : Z) (blocks : list Z * list Z)
    : Io.routing_uft :=
  Io.mk_uft blocks.1 (<[fid_group := blocks.2]> (Io.bridges uft)).

(** The loop of unicast_route_pair: the fabric ports of the source whose
    cached neighbor is a port of the destination, in ascending order. *)
Definition ports_toward (sd_src : Topo.fsubdev) (h_dst : nat) : list Z :=
  filter (fun lpn =>
            match Topo.neighbor_of_lpn sd_src lpn with
            | Some port_dst => bool_decide (port_dst.1 = h_dst)
            | None => false
            end = true)
         (Topo.fabric_lpns sd_src).

(** unicast_route_pair, with unicast_route_pair_via; [num_ports] is a
    u8. *)
Definition unicast_route_pair (uft : Io.routing_uft) (sd_src : Topo.fsubdev)
    (h_dst : nat) (r_dst : routing_info) : Io.routing_uft :=
  let ports := ports_toward sd_src h_dst in
  let num_ports := u8 (Z.of_nat (length ports)) in
  if num_ports =? 0 then uft
  else
    uft_store uft (fid_group r_dst)
      (Unicast.unicast_route_pair_via (Io.mgmt uft)
         (routing_uft_bridge_get uft (fid_group r_dst)) (fid_mgmt r_dst) ports num_ports).

(** unicast_route_local *)
Definition unicast_route_local (uft : Io.routing_uft) (r_src : routing_info)
    : Io.routing_uft :=
  uft_store uft (fid_group r_src)
    (Unicast.unicast_route_local (Io.mgmt uft)
       (routing_uft_bridge_get uft (fid_group r_src)) (fid_mgmt r_src) (fid_base r_src)).

(** unicast_route_src (the allocations are taken to succeed) *)
Definition unicast_route_src (e : engine) (h_src : nat) : engine :=
  match Topo.routable_list (fab e) !! h_src, info e !! h_src with
  | Some sd_src, Some r_src =>
    let uft :=
      foldl (fun uft h_dst =>
               if negb (Topo.routing_cost_lookup (fab e) h_src h_dst =? 1) then uft
               else
                 match info e !! h_dst with
                 | Some r_dst => unicast_route_pair uft sd_src h_dst r_dst
                 | None => uft
                 end)
            routing_uft_alloc (walk e) in
    update_info e h_src (set_uft_next (Some (unicast_route_local uft r_src)))
  | _, _ => e
  end.

(** unicast_routing *)
Definition unicast_routing (e : engine) : engine := foldl unicast_route_src e (walk e).

(** fidgen_alloc: kzalloc with [map_size], a u16, entries. *)
Definition fidgen_alloc (e : engine) : Io.routing_fidgen :=
  let map_size := u16 (max_dpa_index e + 1) in
  Io.mk_fidgen 0 0 0 0 0 0 0 0 map_size (replicate (Z.to_nat map_size) 0).

(** fidgen_init: GENMASK_ULL(13, 0) << 33, 33 | FIELD_PREP(GENMASK(6, 6), 1),
    GENMASK_ULL(63, 0), FIELD_GET(GENMASK_ULL(39, 0), ~0ull) and 7. *)
Definition fidgen_init (fidgen : Io.routing_fidgen) : Io.routing_fidgen :=
  Io.mk_fidgen
    (shl64 (2 ^ (CSR_FIDGEN_LUT_INDEX_WIDTH + 1) - 1) ROUTING_MIN_DPA_PER_SD_ORDER)
    (Io.mask_b fidgen)
    (2 ^ 40 - 1)
    (2 ^ 64 - 1)
    (u8 (Z.lor ROUTING_MIN_DPA_PER_SD_ORDER (Z.shiftl 1 6)))
    (Io.shift_b fidgen) (Io.shift_h fidgen)
    7
    (Io.map_size fidgen) (Io.map fidgen).

Definition set_map (m : list Z) (fidgen : Io.routing_fidgen) : Io.routing_fidgen :=
  Io.mk_fidgen (Io.mask_a fidgen) (Io.mask_b fidgen) (Io.mask_d fidgen) (Io.mask_h fidgen)
    (Io.shift_a fidgen) (Io.shift_b fidgen) (Io.shift_h fidgen) (Io.modulo fidgen)
    (Io.map_size fidgen) m.

(** set_dpa_lut on the map of the source; init has taken
    [max_dpa_index] over the same subdevices, so the indices are inside the
    map. *)
Definition set_dpa_lut (fidgen : Io.routing_fidgen) (r_dst : routing_info) (dfid : Z)
    : Io.routing_fidgen :=
  let start := dpa_idx_base r_dst in
  set_map (foldl (fun m i => <[Z.to_nat i := Z.shiftr dfid Io.ROUTING_DPA_DFID_MAP_SHIFT]> m)
                 (Io.map fidgen) (seqZ start (dpa_idx_range r_dst)))
          fidgen.

(** The loop of map_addresses_for_sd_dst over the subdevices of the
    destination's device: the base FID of the first that is not the
    destination, is not in error and is one hop from the source.  An
    element of [dev->sd] that is not on the routable list has no plane and
    is passed over. *)
Definition via_neighbor (e : engine) (h_src h_dst : nat) (dev_dst : fdev) : option Z :=
  let candidates :=
    omap (fun i => mjoin (sd_of dev_dst !! Z.to_nat i)) (seqZ 0 (sd_cnt dev_dst)) in
  match
    filter (fun neighbor =>
              neighbor <> h_dst /\
              from_option Topo.routing_sd_is_error true
                          (Topo.routable_list (fab e) !! neighbor) = false /\
              Topo.routing_cost_lookup (fab e) h_src neighbor = 1)
           candidates
  with
  | neighbor :: _ => fid_base <$> info e !! neighbor
  | [] => None
  end.

(** map_addresses_for_sd_dst *)
Definition map_addresses_for_sd_dst (e : engine) (h_src : nat) (r_src : routing_info)
    (fidgen : Io.routing_fidgen) (h_dst : nat) : Io.routing_fidgen :=
  match info e !! h_dst with
  | None => fidgen
  | Some r_dst =>
    if bool_decide (fdev_of r_src = fdev_of r_dst) then set_dpa_lut fidgen r_dst 0
    else if Topo.routing_cost_lookup (fab e) h_src h_dst =? 1
    then set_dpa_lut fidgen r_dst (fid_base r_dst)
    else
      match fdevs e !! fdev_of r_dst with
      | None => fidgen
      | Some dev_dst =>
        match via_neighbor e h_src h_dst dev_dst with
        | Some dfid => set_dpa_lut fidgen r_dst dfid
        | None => fidgen
        end
      end
  end.

(** map_addresses_for_sd (the allocation is taken to succeed) *)
Definition map_addresses_for_sd (e : engine) (h_src : nat) : engine :=
  match info e !! h_src with
  | Some r_src =>
    let fidgen :=
      foldl (map_addresses_for_sd_dst e h_src r_src) (fidgen_init (fidgen_alloc e))
            (walk e) in
    update_info e h_src (set_fidgen_next (Some fidgen))
  | None => e
  end.

(** map_addresses *)
Definition map_addresses (e : engine) : engine := foldl map_addresses_for_sd e (walk e).

(** routing_logic_run (plane_alloc is taken to succeed, so the value
    returned is 0) *)
Definition routing_logic_run (e : engine) : engine :=
  let e := init e in
  let e := with_fab (Topo.process_neighbors (walk e) (fab e)) e in
  let e := with_fab (Topo.build_planes (walk e) (fab e)) e in
  let e := assign_fids e in
  let e := with_fab (Topo.compute_costs (fab e)) e in
  let e := unicast_routing e in
  map_addresses e.

(** *** routing_io_run and routing_sweep *)

Definition io_state_of (st : Topo.fsubdev_routing_info_state) : Io.routing_state :=
  match st with
  | Topo.TILE_ROUTING_STATE_ERROR => Io.TILE_ROUTING_STATE_ERROR
  | Topo.TILE_ROUTING_STATE_VALID => Io.TILE_ROUTING_STATE_VALID
  end.

Definition topo_state_of (st : Io.routing_state) : Topo.fsubdev_routing_info_state :=
  match st with
  | Io.TILE_ROUTING_STATE_ERROR => Topo.TILE_ROUTING_STATE_ERROR
  | Io.TILE_ROUTING_STATE_VALID => Topo.TILE_ROUTING_STATE_VALID
  end.

(** The subdevice at [h] as io_work_fn reads it. *)
Definition io_view (e : engine) (h : nat) : option Io.fsubdev :=
  sd ← Topo.routable_list (fab e) !! h;
  r ← info e !! h;
  dev ← fdevs e !! fdev_of r;
  Some (Io.mk_fsubdev (switchinfo r) (Topo.fport_lpns sd) (bport_lpns r) (fport_log_state r)
          (pkg_offset dev) (pkg_size dev) (max_dpa_index e) (fid_base r)
          (io_state_of (Topo.routing_state sd))
          (uft r) (uft_next r) (fidgen r) (fidgen_next r)).

Definition set_routing_state (st : Topo.fsubdev_routing_info_state) (sd : Topo.fsubdev)
    : Topo.fsubdev :=
  Topo.mk_fsubdev (Topo.guid sd) (Topo.port sd) (Topo.lpn_fport_map sd) (Topo.fport_lpns sd)
    st (Topo.routing_plane_of sd) (Topo.routing_plane_index sd).

(** What io_work_fn has written of the subdevice at [h]: the switchinfo,
    the tables and the state. *)
Definition io_commit (e : engine) (h : nat) (sd' : Io.fsubdev) : engine :=
  let e :=
    update_info e h (fun r =>
      mk_info (fdev_of r) (sd_index r) (dpa_idx_base r) (dpa_idx_range r) (fid_group r)
        (fid_mgmt r) (fid_base r) (Io.uft sd') (Io.uft_next sd') (Io.fidgen sd')
        (Io.fidgen_next sd') (Io.switchinfo sd') (bport_lpns r) (fport_log_state r)) in
  with_fab (Topo.update_sd (fab e) h (set_routing_state (topo_state_of (Io.state sd')))) e.

(** io_work_fn for the subdevice at [h], against the mailbox of that
    subdevice: the engine afterwards and the hardware writes made. *)
Definition io_work (envs : nat -> Io.io_env) (e : engine) (h : nat)
    : option (engine * list Io.hw_write) :=
  sd ← io_view e h;
  '(_, s) ← Io.io_work_fn (envs h) (Io.mk_io sd []);
  Some (io_commit e h (Io.io_sd s), Io.io_hw s).

(** routing_io_run: one task per subdevice, each on its own subdevice and
    mailbox, and the wait for all of them.  (The traffic is paused around
    them.)  The writes are given subdevice by subdevice. *)
Fixpoint io_tasks (envs : nat -> Io.io_env) (hs : list nat) (e : engine)
    : option (engine * list (nat * list Io.hw_write)) :=
  match hs with
  | [] => Some (e, [])
  | h :: hs' =>
    '(e, hw) ← io_work envs e h;
    '(e, hws) ← io_tasks envs hs' e;
    Some (e, (h, hw) :: hws)
  end.

Definition routing_io_run (envs : nat -> Io.io_env) (e : engine)
    : option (engine * list (nat * list Io.hw_write)) :=
  io_tasks envs (walk e) e.

(** routing_sweep, as far as the tables go: routing_logic_run returns 0,
    then routing_io_run. *)
Definition routing_sweep (envs : nat -> Io.io_env) (e : engine)
    : option (engine * list (nat * list Io.hw_write)) :=
  routing_io_run envs (routing_logic_run e).

(** *** Quantities the statements on the sweep are written with *)

(** What routing_logic_run reads of the routing data of a subdevice:
    what it does not write itself, and the FIDs. *)
Definition ident (r : routing_info) : nat * Z * Z * Z :=
  (fdev_of r, sd_index r, dpa_idx_base r, dpa_idx_range r).

Definition key (r : routing_info) : nat * Z * Z * Z * (Z * Z * Z) :=
  (ident r, (fid_group r, fid_mgmt r, fid_base r)).

(** Two engines on which the table stages read the same. *)
Definition agree (e e' : engine) : Prop :=
  fab e' = fab e /\ fdevs e' = fdevs e /\ max_dpa_index e' = max_dpa_index e /\
  key <$> info e' = key <$> info e.

(** assign_fid_sd on the routing data of the subdevice. *)
Definition assign_fid_info (devs : list fdev) (r : routing_info) : routing_info :=
  match devs !! fdev_of r with
  | Some dev =>
    let group := u16 (pd_index dev * IAF_MAX_SUB_DEVS + sd_index r) in
    set_fids group (fid_cport group) (fid_block_base group) r
  | None => r
  end.

(** The stages of routing_logic_run before the tables. *)
Definition prepare (e : engine) : engine :=
  let e := init e in
  let e := with_fab (Topo.process_neighbors (walk e) (fab e)) e in
  let e := with_fab (Topo.build_planes (walk e) (fab e)) e in
  let e := assign_fids e in
  with_fab (Topo.compute_costs (fab e)) e.

(** The tables a subdevice has in use, and the tables computed for it. *)
Definition tables_in_use (e : engine) (h : nat)
    : option (Io.routing_uft * Io.routing_fidgen) :=
  r ← info e !! h; u ← uft r; g ← fidgen r; Some (u, g).

Definition tables_next (e : engine) (h : nat)
    : option (Io.routing_uft * Io.routing_fidgen) :=
  r ← info e !! h; u ← uft_next r; g ← fidgen_next r; Some (u, g).

(** What routing_logic_run leaves of the routing data of a subdevice. *)
Definition held (r : routing_info) :=
  (uft r, fidgen r, switchinfo r, bport_lpns r, fport_log_state r).

(** [sd'] is [sd] up to the routing state. *)
Definition same_but_state (sd sd' : Topo.fsubdev) : Prop :=
  sd' = set_routing_state (Topo.routing_state sd') sd.

(** *** Two devices cabled to each other *)

(** Two devices of one subdevice each, fabric port 1 of the one cabled to
    fabric port 1 of the other, both ports Active; each subdevice has the
    bridge ports 9 and 10.  Nothing is programmed yet. *)
Definition pair_sd (g n : Z) : Topo.fsubdev :=
  Topo.mk_fsubdev g [Topo.ROUTABLE_ACTIVE 1 n 1]
    (None :: Some 0%nat :: replicate 11 None) 2 Topo.TILE_ROUTING_STATE_VALID None 0.

Definition pair_info (d : nat) (g : Z) : routing_info :=
  mk_info d 0 (Z.of_nat d) 1 0 0 0 None None None None (Io.mk_switchinfo g 13 0 0 0 0) 0x600
    (fun lpn => if lpn =? 1 then Some Io.IB_PORT_ACTIVE else None).

Definition pair : engine :=
  mk_engine (Topo.mk_fabric [pair_sd 0xA 0xB; pair_sd 0xB 0xA] [])
    [pair_info 0 0xA; pair_info 1 0xB]
    [mk_fdev 0 1 0 8 [Some 0%nat]; mk_fdev 1 1 8 8 [Some 1%nat]]
    0.

Definition accepting (h : nat) : Io.io_env := Io.accepting.

End Engine.

(** ** Port status under RCU (port.c)

    get_fport_status against the port manager, statement by statement.
    The status arrays are the two halves of [_portstatus]; the port
    manager writes the unpublished half and publish_status_updates swaps
    the two pointers.  rcu_read_lock, rcu_dereference, rcu_read_unlock,
    rcu_swap_protected and synchronize_rcu are the kernel's and are taken
    by their contract: the read side takes no lock, and synchronize_rcu
    returns once every read-side critical section that was running when
    it was called has ended. *)

Module Publish.
Import Port Pm.

(** Where a caller of get_fport_status stands: before the test of
    get_fport_handle, before rcu_read_lock, before rcu_dereference, before
    the copy (with [curr_status]), before rcu_read_unlock (with [err]),
    and after the return. *)
Inductive reader_pc :=
  | AtCall
  | AtLock
  | AtDeref
  | AtCopy (curr_status : option nat)
  | AtUnlock (err : Z)
  | Done (err : Z).

(** A caller: [r_status] is the buffer [*status]. *)
Record reader := mk_reader {
  r_pc : reader_pc;
  r_lpn : Z;
  r_status : fport_status
}.

(** Where update_ports_work stands: in the state machines, which write
    [next_port_status]; in publish_status_updates after the swap; inside
    synchronize_rcu, waiting for the readers [waiting]; in the copy loop at
    index [i]. *)
Inductive writer_pc :=
  | Updating
  | Swapped (old_unpublished : option nat)
  | Syncing (old_unpublished : option nat) (waiting : list nat)
  | Copying (old_unpublished new_unpublished : option nat) (i : Z).

Record system := mk_system {
  sd : fsubdev;
  readers : list reader;
  writer : writer_pc
}.

Inductive action :=
  | Read (r : nat)
  | Store (lpn : Z) (st : fport_status)
  | Swap
  | SyncBegin
  | SyncEnd
  | Copy.

(** Between rcu_read_lock and rcu_read_unlock. *)
Definition inside (pc : reader_pc) : bool :=
  match pc with
  | AtDeref | AtCopy _ | AtUnlock _ => true
  | _ => false
  end.

(** The readers inside a read-side critical section. *)
Definition readers_inside (rs : list reader) : list nat :=
  filter (fun r => from_option (fun rd => inside (r_pc rd)) false (rs !! r) = true)
         (seq 0 (length rs)).

(** rcu_read_unlock ends the section of reader [r]. *)
Definition leave (r : nat) (w : writer_pc) : writer_pc :=
  match w with
  | Syncing old waiting => Syncing old (filter (fun x => x <> r) waiting)
  | _ => w
  end.

(** The next statement of get_fport_status for reader [r]. *)
Definition read_step (r : nat) (s : system) : option system :=
  rd ← readers s !! r;
  let go pc st w := Some (mk_system (sd s) (<[r := mk_reader pc (r_lpn rd) st]> (readers s)) w) in
  match r_pc rd with
  | AtCall =>
    match get_fport_handle (status_view (sd s)) (r_lpn rd) with
    | None => go (Done (- EINVAL)) (r_status rd) (writer s)
    | Some _ => go AtLock (r_status rd) (writer s)
    end
  | AtLock => go AtDeref (r_status rd) (writer s)
  | AtDeref => go (AtCopy (port_status (sd s))) (r_status rd) (writer s)
  | AtCopy (Some curr_status) =>
    go (AtUnlock 0)
       (default (r_status rd) (_portstatus (sd s) !! (curr_status + Z.to_nat (r_lpn rd))%nat))
       (writer s)
  | AtCopy None => go (AtUnlock (- EINVAL)) (r_status rd) (writer s)
  | AtUnlock err => go (Done err) (r_status rd) (leave r (writer s))
  | Done _ => None
  end.

(** The statements of the port manager.  [Store]: a state machine writes
    the entry of a logical port in the unpublished array.  [Swap]:
    rcu_swap_protected, with [old_unpublished] read before it.
    [SyncBegin], [SyncEnd]: the call of synchronize_rcu and its return.
    [Copy]: one round of the copy loop, or its end. *)
Definition step (a : action) (s : system) : option system :=
  match a with
  | Read r => read_step r s
  | Store lpn st =>
    match writer s with
    | Updating =>
      next ← next_port_status (sd s);
      if (0 <=? lpn) && (lpn <? PORT_COUNT)
      then Some (mk_system
                   (set_portstatus (<[(next + Z.to_nat lpn)%nat := st]> (_portstatus (sd s)))
                                   (sd s))
                   (readers s) Updating)
      else None
    | _ => None
    end
  | Swap =>
    match writer s with
    | Updating =>
      Some (mk_system
              (set_next_port_status (port_status (sd s))
                 (set_port_status (next_port_status (sd s)) (sd s)))
              (readers s) (Swapped (next_port_status (sd s))))
    | _ => None
    end
  | SyncBegin =>
    match writer s with
    | Swapped old => Some (mk_system (sd s) (readers s) (Syncing old (readers_inside (readers s))))
    | _ => None
    end
  | SyncEnd =>
    match writer s with
    | Syncing old [] =>
      Some (mk_system (sd s) (readers s)
              (Copying old (next_port_status (sd s)) PORT_FABRIC_START))
    | _ => None
    end
  | Copy =>
    match writer s with
    | Copying old new i =>
      if i <=? max_lpn (sd s) then
        new_unpublished ← new;
        old_unpublished ← old;
        Some (mk_system
                (set_portstatus (copy_status new_unpublished old_unpublished
                                             (_portstatus (sd s)) i) (sd s))
                (readers s) (Copying old new (i + 1)))
      else Some (mk_system (sd s) (readers s) Updating)
    | _ => None
    end
  end.

Fixpoint run (acts : list action) (s : system) : option system :=
  match acts with
  | [] => Some s
  | a :: acts' => s' ← step a s; run acts' s'
  end.

(** *** The state between two steps *)

(** The two pointers are NULL (before initial_port_state) or point at the
    two halves of [_portstatus]. *)
Definition pointers_ok (published unpublished : option nat) : Prop :=
  (published = None /\ unpublished = None) \/
  (published = Some 0%nat /\ unpublished = Some (Z.to_nat PORT_COUNT)) \/
  (published = Some (Z.to_nat PORT_COUNT) /\ unpublished = Some 0%nat).

Definition writer_ok (s : system) : Prop :=
  match writer s with
  | Copying old new i =>
    new = next_port_status (sd s) /\ PORT_FABRIC_START <= i
  | _ => True
  end.

(** A reader that holds a pointer holds the published array, or the array
    that was published until the swap the writer has not left yet. *)
Definition readers_ok (s : system) : Prop :=
  forall r rd a, readers s !! r = Some rd -> r_pc rd = AtCopy (Some a) ->
    port_status (sd s) = Some a \/
    (next_port_status (sd s) = Some a /\
     match writer s with
     | Swapped _ => True
     | Syncing _ waiting => r ∈ waiting
     | _ => False
     end).

Definition inv (s : system) : Prop :=
  length (_portstatus (sd s)) = Z.to_nat (2 * PORT_COUNT) /\
  max_lpn (sd s) < PORT_COUNT /\
  pointers_ok (port_status (sd s)) (next_port_status (sd s)) /\
  writer_ok s /\ readers_ok s.

(** The logical port number [l] has a fabric port: get_fport_handle does
    not return NULL. *)
Definition fabric_port (sd : fsubdev) (l : Z) : Prop :=
  0 <= l < PORT_COUNT /\ exists k, lpn_fport_map sd !! Z.to_nat l = Some (Some k).

(** What is known of the call of reader [r] (logical port [l], buffer
    [st0] at the call) in the state [s] reached from [s0] by [acts]: the
    pointer it holds was the published one at an earlier moment and the
    array behind it has not been written since; the result it has is that
    of get_fport_status at an earlier moment. *)
Definition progress (s0 : system) (r : nat) (l : Z) (st0 : fport_status)
    (acts : list action) (s : system) : Prop :=
  exists rd, readers s !! r = Some rd /\ r_lpn rd = l /\
  match r_pc rd with
  | AtCall => r_status rd = st0
  | AtLock | AtDeref =>
    r_status rd = st0 /\ is_Some (get_fport_handle (status_view (sd s)) l)
  | AtCopy c =>
    r_status rd = st0 /\ is_Some (get_fport_handle (status_view (sd s)) l) /\
    exists acts1 acts2 sm,
      acts = acts1 ++ acts2 /\ run acts1 s0 = Some sm /\ port_status (sd sm) = c /\
      forall a i, c = Some a -> (i < Z.to_nat PORT_COUNT)%nat ->
        _portstatus (sd s) !! (a + i)%nat = _portstatus (sd sm) !! (a + i)%nat
  | AtUnlock err | Done err =>
    exists acts1 acts2 sm,
      acts = acts1 ++ acts2 /\ run acts1 s0 = Some sm /\
      (err, r_status rd) = get_fport_status (status_view (sd sm)) l st0
  end.

(** A subdevice with eight fabric ports after initial_port_state, one
    caller asking for logical port 3, and the port manager in its state
    machines. *)
Definition sample : system :=
  mk_system sample_ready
    [mk_reader AtCall 3 (mk_status FPORT_HEALTH_RED 0 FPORT_ERROR_FAILED)] Updating.

End Publish.

(** * Properties *)

(** ** Bit arithmetic *)

Lemma land_ones_mod (x n : Z) : 0 <= n -> Z.land x (2 ^ n - 1) = x mod 2 ^ n.
Proof. intros. replace (2 ^ n - 1) with (Z.ones n) by (rewrite Z.ones_equiv; lia). apply Z.land_ones; lia. Qed.

Lemma land_mask x n m : 0 <= n -> m = 2 ^ n - 1 -> Z.land x m = x mod 2 ^ n.
Proof. intros ? ->. apply land_ones_mod; lia. Qed.

Lemma lor_disjoint_add (a b s : Z) :
  0 <= s -> 0 <= a < 2 ^ s -> Z.lor a (b * 2 ^ s) = a + b * 2 ^ s.
Proof.
  intros Hs Ha.
  assert (Hl : Z.land a (b * 2 ^ s) = 0).
  { apply Z.bits_inj'; intros i Hi. rewrite Z.land_spec, Z.bits_0.
    destruct (Z.lt_ge_cases i s).
    - rewrite <- Z.shiftl_mul_pow2 by lia. rewrite Z.shiftl_spec_low by lia.
      apply andb_false_r.
    - replace (Z.testbit a i) with false; [reflexivity|].
      symmetry. destruct (Z.eq_dec a 0) as [->|]; [apply Z.bits_0|].
      apply Z.bits_above_log2; [lia|].
      apply Z.log2_lt_pow2; try lia. assert (2^s <= 2^i) by (apply Z.pow_le_mono_r; lia). lia. }
  rewrite <- Z.lxor_lor by exact Hl. symmetry. apply Z.add_nocarry_lxor. exact Hl.
Qed.

Lemma mod_pow2_mod_pow2 x a b : 0 <= b <= a -> (x mod 2 ^ a) mod 2 ^ b = x mod 2 ^ b.
Proof.
  intros. apply Z.mod_mod_divide.
  exists (2 ^ (a - b)). rewrite <- Z.pow_add_r by lia. f_equal. lia.
Qed.

(** ** The control word *)

Module CwSpec.
Import Cw.

Lemma cw_field_bound cw s n : 0 <= n -> 0 <= cw_field cw s n < 2 ^ n.
Proof. intros. unfold cw_field. apply Z.mod_pos_bound. lia. Qed.


Lemma trunc_field w x s n :
  0 <= s -> 0 <= n <= w ->
  wrap w (Z.land (wrap w (shr64 x s)) (2 ^ n - 1)) = cw_field x s n.
Proof.
  intros Hs Hn. unfold wrap, shr64, cw_field.
  rewrite Z.shiftr_div_pow2 by lia. rewrite land_ones_mod by lia.
  rewrite (mod_pow2_mod_pow2 _ w n) by lia.
  rewrite Z.mod_small; [reflexivity|].
  pose proof (Z.mod_pos_bound (x / 2 ^ s) (2 ^ n) ltac:(lia)).
  assert (2 ^ n <= 2 ^ w) by (apply Z.pow_le_mono_r; lia). lia.
Qed.

Lemma plain_field x s n :
  0 <= s -> 0 <= n -> Z.land (shr64 x s) (2 ^ n - 1) = cw_field x s n.
Proof.
  intros. unfold shr64, cw_field. rewrite Z.shiftr_div_pow2 by lia.
  apply land_ones_mod; lia.
Qed.

Lemma decoders_fields cw :
  mbdb_mbox_op_code cw = cw_field cw 0 8 /\
  mbdb_mbox_msg_type cw = cw_field cw 8 1 /\
  mbdb_mbox_is_posted cw = cw_field cw 9 1 /\
  mbdb_mbox_seq_no cw = cw_field cw 10 6 /\
  mbdb_mbox_params_len cw = cw_field cw 16 12 /\
  mbdb_mbox_rsp_status cw = cw_field cw 28 4 /\
  mbdb_mbox_tid cw = cw_field cw 32 32.
Proof.
  repeat split.
  - apply (trunc_field 8 cw 0 8); lia.
  - apply (plain_field cw 8 1); lia.
  - apply (plain_field cw 9 1); lia.
  - apply (trunc_field 8 cw 10 6); lia.
  - apply (trunc_field 16 cw 16 12); lia.
  - apply (trunc_field 8 cw 28 4); lia.
  - apply (trunc_field 32 cw 32 32); lia.
Qed.

Lemma build_cw_sum op t p s l tid :
  0 <= op < 256 -> 0 <= s < 64 -> 0 <= l < 4096 -> 0 <= tid < 2 ^ 32 ->
  build_cw op t p s l tid =
    op + 2 ^ 8 * msg_type_val t + 2 ^ 9 * posted_val p + 2 ^ 10 * s + 2 ^ 16 * l + 2 ^ 32 * tid.
Proof.
  intros Hop Hs Hl Ht. unfold build_cw, shl64, u64, wrap.
  unfold MBOX_CW_OPCODE_MASK, MBOX_CW_OPCODE_SHIFT, MBOX_CW_IS_REQ_MASK, MBOX_CW_IS_REQ_SHIFT,
    MBOX_CW_POSTED_MASK, MBOX_CW_POSTED_SHIFT, MBOX_CW_SEQ_NO_MASK, MBOX_CW_SEQ_NO_SHIFT,
    MBOX_CW_PARAMS_LEN_MASK, MBOX_CW_PARAMS_LEN_SHIFT, MBOX_CW_TID_MASK, MBOX_CW_TID_SHIFT.
  rewrite (land_mask _ 8 255), !(land_mask _ 1 1), (land_mask _ 6 63),
    (land_mask _ 12 4095), (land_mask _ 32 4294967295) by (lia || reflexivity).
  rewrite !Z.shiftl_mul_pow2 by lia.
  assert (Ht' : 0 <= msg_type_val t < 2) by (destruct t; simpl; lia).
  assert (Hp' : 0 <= posted_val p < 2) by (destruct p; simpl; lia).
  rewrite (Z.mod_small op), (Z.mod_small (msg_type_val t)), (Z.mod_small (posted_val p)),
    (Z.mod_small s), (Z.mod_small l), (Z.mod_small tid) by lia.
  rewrite !Z.mod_small by lia.
  rewrite Z.pow_0_r, Z.mul_1_r. rewrite ?Z.mod_small by lia.
  rewrite (lor_disjoint_add op _ 8) by lia. rewrite (lor_disjoint_add _ _ 9) by lia.
  rewrite (lor_disjoint_add _ _ 10) by lia. rewrite (lor_disjoint_add _ _ 16) by lia.
  rewrite (lor_disjoint_add _ _ 32) by lia. lia.
Qed.

(** C3.  For every opcode in [0,255], message type, posted flag, sequence
    number in [0,63], parameter length in [0,4095] and 32-bit transaction
    id, the decoders applied to the word built by build_cw return exactly
    those fields; the response status of a built word is 0; and the word is
    laid out as opcode in bits [7:0], request/response in bit 8, posted flag
    in bit 9, sequence number in bits [15:10], parameter length in bits
    [27:16], response status in bits [31:28] and transaction id in bits
    [63:32]. *)
Theorem cw_roundtrip op t p s l tid :
  0 <= op <= 255 -> 0 <= s <= 63 -> 0 <= l <= 4095 -> 0 <= tid < 2 ^ 32 ->
  let cw := build_cw op t p s l tid in
  mbdb_mbox_op_code cw = op /\
  mbdb_mbox_msg_type cw = msg_type_val t /\
  mbdb_mbox_is_posted cw = posted_val p /\
  mbdb_mbox_seq_no cw = s /\
  mbdb_mbox_params_len cw = l /\
  mbdb_mbox_rsp_status cw = 0 /\
  mbdb_mbox_tid cw = tid /\
  0 <= cw < 2 ^ 64 /\
  cw = op + 2 ^ 8 * msg_type_val t + 2 ^ 9 * posted_val p + 2 ^ 10 * s
       + 2 ^ 16 * l + 2 ^ 28 * 0 + 2 ^ 32 * tid.
Proof.
  intros Hop Hs Hl Ht cw.
  assert (Hcw : cw = op + 2 ^ 8 * msg_type_val t + 2 ^ 9 * posted_val p + 2 ^ 10 * s
       + 2 ^ 16 * l + 2 ^ 32 * tid) by (apply build_cw_sum; lia).
  assert (Ht' : 0 <= msg_type_val t < 2) by (destruct t; simpl; lia).
  assert (Hp' : 0 <= posted_val p < 2) by (destruct p; simpl; lia).
  destruct (decoders_fields cw) as (-> & -> & -> & -> & -> & -> & ->).
  clearbody cw. subst cw. unfold cw_field.
  change (2 ^ 0) with 1. change (2 ^ 1) with 2. change (2 ^ 4) with 16. change (2 ^ 6) with 64.
  change (2 ^ 8) with 256. change (2 ^ 9) with 512.
  change (2 ^ 10) with 1024. change (2 ^ 12) with 4096. change (2 ^ 16) with 65536.
  change (2 ^ 28) with 268435456. change (2 ^ 32) with 4294967296 in *.
  change (2 ^ 64) with 18446744073709551616.
  repeat split; try lia.
  all: Z.to_euclidean_division_equations; lia.
Qed.

Lemma cw_roundtrip_witness :
  let cw := build_cw 60 MBOX_REQUEST MBOX_RESPONSE_REQUESTED 5 72 0xdeadbeef in
  mbdb_mbox_op_code cw = 60 /\
  mbdb_mbox_msg_type cw = msg_type_val MBOX_REQUEST /\
  mbdb_mbox_is_posted cw = posted_val MBOX_RESPONSE_REQUESTED /\
  mbdb_mbox_seq_no cw = 5 /\
  mbdb_mbox_params_len cw = 72 /\
  mbdb_mbox_rsp_status cw = 0 /\
  mbdb_mbox_tid cw = 0xdeadbeef /\
  0 <= cw < 2 ^ 64 /\
  cw = 60 + 2 ^ 8 * msg_type_val MBOX_REQUEST + 2 ^ 9 * posted_val MBOX_RESPONSE_REQUESTED
       + 2 ^ 10 * 5 + 2 ^ 16 * 72 + 2 ^ 28 * 0 + 2 ^ 32 * 0xdeadbeef.
Proof.
  apply (cw_roundtrip 60 MBOX_REQUEST MBOX_RESPONSE_REQUESTED 5 72 0xdeadbeef); lia.
Defined.

(** *** Decoding and encoding *)

Lemma cw_fields_sum cw :
  0 <= cw < 2 ^ 64 ->
  cw = cw_field cw 0 8 + 2 ^ 8 * cw_field cw 8 1 + 2 ^ 9 * cw_field cw 9 1
       + 2 ^ 10 * cw_field cw 10 6 + 2 ^ 16 * cw_field cw 16 12
       + 2 ^ 28 * cw_field cw 28 4 + 2 ^ 32 * cw_field cw 32 32.
Proof.
  intros H. unfold cw_field.
  change (2 ^ 0) with 1. change (2 ^ 1) with 2. change (2 ^ 4) with 16.
  change (2 ^ 6) with 64. change (2 ^ 8) with 256. change (2 ^ 9) with 512.
  change (2 ^ 10) with 1024. change (2 ^ 12) with 4096. change (2 ^ 16) with 65536.
  change (2 ^ 28) with 268435456. change (2 ^ 32) with 4294967296.
  change (2 ^ 64) with 18446744073709551616 in H.
  Z.to_euclidean_division_equations. lia.
Qed.

(** X1. The decoders of a control word lose nothing: for every 64-bit
    word, build_cw on the decoded opcode, message type, posted flag,
    sequence number, parameter length and transaction id, with the decoded
    response status put back at bit 28, is the word again. *)
Theorem cw_decode_encode (cw : Z) :
  0 <= cw < 2 ^ 64 ->
  exists t p,
    msg_type_val t = mbdb_mbox_msg_type cw /\
    posted_val p = mbdb_mbox_is_posted cw /\
    build_cw (mbdb_mbox_op_code cw) t p (mbdb_mbox_seq_no cw) (mbdb_mbox_params_len cw)
             (mbdb_mbox_tid cw)
      + 2 ^ 28 * mbdb_mbox_rsp_status cw = cw.
Proof.
  intros H.
  destruct (decoders_fields cw) as (-> & -> & -> & -> & -> & -> & ->).
  pose proof (cw_field_bound cw 8 1 ltac:(lia)) as H8.
  pose proof (cw_field_bound cw 9 1 ltac:(lia)) as H9.
  exists (if cw_field cw 8 1 =? 0 then MBOX_RESPONSE else MBOX_REQUEST),
         (if cw_field cw 9 1 =? 0 then MBOX_RESPONSE_REQUESTED else MBOX_NO_RESPONSE_REQUESTED).
  change (2 ^ 1) with 2 in H8, H9.
  assert (Ht : msg_type_val (if cw_field cw 8 1 =? 0 then MBOX_RESPONSE else MBOX_REQUEST)
               = cw_field cw 8 1).
  { destruct (Z.eqb_spec (cw_field cw 8 1) 0); simpl; lia. }
  assert (Hp : posted_val (if cw_field cw 9 1 =? 0 then MBOX_RESPONSE_REQUESTED
                           else MBOX_NO_RESPONSE_REQUESTED) = cw_field cw 9 1).
  { destruct (Z.eqb_spec (cw_field cw 9 1) 0); simpl; lia. }
  split; [exact Ht|]. split; [exact Hp|].
  rewrite build_cw_sum, Ht, Hp.
  - pose proof (cw_fields_sum cw H). lia.
  - apply (cw_field_bound cw 0 8); lia.
  - apply (cw_field_bound cw 10 6); lia.
  - apply (cw_field_bound cw 16 12); lia.
  - apply (cw_field_bound cw 32 32); lia.
Qed.

Lemma cw_decode_encode_witness :
  exists t p,
    msg_type_val t = mbdb_mbox_msg_type 0x500040305 /\
    posted_val p = mbdb_mbox_is_posted 0x500040305 /\
    build_cw (mbdb_mbox_op_code 0x500040305) t p (mbdb_mbox_seq_no 0x500040305)
             (mbdb_mbox_params_len 0x500040305) (mbdb_mbox_tid 0x500040305)
      + 2 ^ 28 * mbdb_mbox_rsp_status 0x500040305 = 0x500040305.
Proof. apply (cw_decode_encode 0x500040305). lia. Defined.

End CwSpec.
(** ** Forwarding-table nibbles *)

Module UftSpec.
Import Uft.

Lemma land_high_nibble b : Z.land b 0xf0 = ((b / 16) mod 16) * 2 ^ 4.
Proof.
  rewrite <- Z.shiftl_mul_pow2 by lia.
  change ((b / 16) mod 16) with ((b / 2 ^ 4) mod 2 ^ 4).
  rewrite <- (land_mask (b / 2 ^ 4) 4 15) by (lia || reflexivity).
  rewrite <- Z.shiftr_div_pow2 by lia.
  rewrite Z.shiftl_land. change (Z.shiftl 15 4) with 240.
  apply Z.bits_inj'; intros i Hi. rewrite !Z.land_spec.
  destruct (Z.lt_ge_cases i 4).
  - replace (Z.testbit 240 i) with false; [now rewrite !andb_false_r|].
    change 240 with (Z.shiftl 15 4). now rewrite Z.shiftl_spec_low by lia.
  - rewrite Z.shiftl_spec by lia. rewrite Z.shiftr_spec by lia.
    replace (i - 4 + 4) with i by lia. reflexivity.
Qed.

Lemma nibble_odd_byte b p :
  u8 (Z.lor (Z.land b 0xf0) (Z.land p 0xf)) = 16 * ((b / 16) mod 16) + p mod 16.
Proof.
  rewrite land_high_nibble, (land_mask p 4 15) by (lia || reflexivity).
  rewrite Z.lor_comm, lor_disjoint_add by (try apply Z.mod_pos_bound; lia).
  unfold u8, wrap. change (2 ^ 4) with 16. change (2 ^ 8) with 256.
  Z.to_euclidean_division_equations; lia.
Qed.

Lemma nibble_even_byte b p :
  u8 (Z.lor (Z.shiftl p 4) (Z.land b 0xf)) = 16 * (p mod 16) + b mod 16.
Proof.
  rewrite Z.shiftl_mul_pow2, (land_mask b 4 15) by (lia || reflexivity).
  rewrite Z.lor_comm, lor_disjoint_add by (try apply Z.mod_pos_bound; lia).
  unfold u8, wrap. change (2 ^ 4) with 16. change (2 ^ 8) with 256.
  Z.to_euclidean_division_equations; lia.
Qed.

Lemma nibble_get b odd :
  u8 (Z.land (Z.shiftr b (if odd : bool then 0 else 4)) 0xf) =
  if odd then b mod 16 else (b / 16) mod 16.
Proof.
  rewrite (land_mask _ 4 15) by (lia || reflexivity).
  unfold u8, wrap. destruct odd.
  - rewrite Z.shiftr_0_r. change (2 ^ 4) with 16. change (2 ^ 8) with 256.
    Z.to_euclidean_division_equations; lia.
  - rewrite Z.shiftr_div_pow2 by lia. change (2 ^ 4) with 16. change (2 ^ 8) with 256.
    Z.to_euclidean_division_equations; lia.
Qed.

Lemma byte_at_insert_eq block i v :
  (Z.to_nat i < length block)%nat -> byte_at (<[Z.to_nat i := v]> block) i = v.
Proof. intros. unfold byte_at. now rewrite list_lookup_insert_eq. Qed.

Lemma byte_at_insert_ne block i k v :
  0 <= i -> 0 <= k -> i <> k -> byte_at (<[Z.to_nat i := v]> block) k = byte_at block k.
Proof. intros. unfold byte_at. rewrite list_lookup_insert_ne by lia. reflexivity. Qed.

Lemma parity_odd x : negb (Z.land x 1 =? 0) = Z.odd x.
Proof.
  rewrite (land_mask x 1 1) by (lia || reflexivity). change (2 ^ 1) with 2.
  rewrite Zmod_odd. now destruct (Z.odd x).
Qed.

(** C9.  routing_uft_entry_set writes only the addressed nibble: reading
    offset [i] back gives [port & 0xF], and every other offset [j] reads
    what it read before. *)
Theorem uft_entry_set_frame (block : list Z) (i j port : Z) :
  0 <= i < 2 ^ 16 -> (Z.to_nat (i / 2) < length block)%nat -> 0 <= j ->
  routing_uft_entry_get (routing_uft_entry_set block i port) i = Z.land port 0xf /\
  (j <> i ->
   routing_uft_entry_get (routing_uft_entry_set block i port) j =
   routing_uft_entry_get block j).
Proof.
  intros Hi Hlen Hj.
  assert (Hidx : u16 (Z.shiftr i 1) = i / 2).
  { unfold u16, wrap. rewrite Z.shiftr_div_pow2 by lia. change (2 ^ 1) with 2.
    apply Z.mod_small. change (2 ^ 16) with 65536 in *. Z.to_euclidean_division_equations; lia. }
  assert (Hsh : forall x, Z.shiftr x 1 = x / 2).
  { intros x. rewrite Z.shiftr_div_pow2 by lia. reflexivity. }
  unfold routing_uft_entry_get, routing_uft_entry_set. cbv zeta.
  rewrite Hidx, !Hsh, !parity_odd.
  assert (Hi2 : 0 <= i / 2) by (Z.to_euclidean_division_equations; lia).
  assert (Hj2 : 0 <= j / 2) by (Z.to_euclidean_division_equations; lia).
  pose proof (Zmod_odd i) as Hoi. pose proof (Zmod_odd j) as Hoj.
  split; [|intros Hne].
  - destruct (Z.odd i) eqn:Eo; rewrite byte_at_insert_eq by exact Hlen.
    + rewrite (nibble_get _ true), nibble_odd_byte, (land_mask port 4 15) by (lia || reflexivity).
      change (2 ^ 4) with 16. Z.to_euclidean_division_equations; lia.
    + rewrite (nibble_get _ false), nibble_even_byte, (land_mask port 4 15) by (lia || reflexivity).
      change (2 ^ 4) with 16. Z.to_euclidean_division_equations; lia.
  - destruct (Z.eq_dec (i / 2) (j / 2)) as [Heq|Hneq].
    + rewrite <- Heq.
      assert (Hpar : Z.odd j = negb (Z.odd i)).
      { destruct (Z.odd i), (Z.odd j); try reflexivity; exfalso;
          Z.to_euclidean_division_equations; lia. }
      rewrite Hpar.
      destruct (Z.odd i) eqn:Eo; rewrite byte_at_insert_eq by exact Hlen.
      * rewrite !(nibble_get _ false), nibble_odd_byte.
        Z.to_euclidean_division_equations; lia.
      * rewrite !(nibble_get _ true), nibble_even_byte.
        Z.to_euclidean_division_equations; lia.
    + destruct (Z.odd i); rewrite byte_at_insert_ne by lia; reflexivity.
Qed.

Lemma uft_entry_set_frame_witness :
  routing_uft_entry_get (routing_uft_entry_set [0x12; 0x34; 0x56] 3 0xC) 3 = Z.land 0xC 0xf /\
  (2 <> 3 ->
   routing_uft_entry_get (routing_uft_entry_set [0x12; 0x34; 0x56] 3 0xC) 2 =
   routing_uft_entry_get [0x12; 0x34; 0x56] 2).
Proof.
  apply (uft_entry_set_frame [0x12; 0x34; 0x56] 3 2 0xC); [lia | vm_compute; lia | lia].
Defined.

End UftSpec.

(** ** The neighbor pass and the cost matrix *)

Module TopoSpec.
Import Topo.

Lemma find_guid_some g l h0 h :
  find_guid g l h0 = Some h ->
  exists sd, l !! (h - h0)%nat = Some sd /\ guid sd = g /\ (h0 <= h)%nat.
Proof.
  revert h0. induction l as [|sd l IH]; intros h0 H; simpl in H; [discriminate|].
  destruct (guid sd =? g) eqn:E.
  - injection H as <-. exists sd. rewrite Nat.sub_diag. split; [reflexivity|]. split; [lia|lia].
  - destruct (IH _ H) as (sd' & Hl & Hg & Hle). exists sd'.
    replace (h - h0)%nat with (S (h - S h0))%nat by lia. simpl. auto with lia.
Qed.

Lemma find_routable_sd_some f g h :
  find_routable_sd f g = Some h ->
  exists sd, routable_list f !! h = Some sd /\ guid sd = g.
Proof.
  intros H. destruct (find_guid_some _ _ _ _ H) as (sd & Hl & Hg & _).
  rewrite Nat.sub_0_r in Hl. eauto.
Qed.

Lemma neighbor_candidate_confirmed f h i sd_src port_src nb :
  routable_list f !! h = Some sd_src ->
  port sd_src !! i = Some port_src ->
  neighbor_candidate f sd_src port_src = Some nb ->
  confirmed f (h, i) nb.
Proof.
  intros Hsd Hp H. unfold neighbor_candidate in H.
  destruct (port_is_routable port_src) eqn:Hr; simpl in H; [|discriminate].
  destruct (portinfo_of port_src) as [pi|] eqn:Hpi; [|discriminate].
  destruct ((neighbor_guid pi =? 0) || (guid sd_src =? neighbor_guid pi)); [discriminate|].
  destruct (find_routable_sd f (neighbor_guid pi)) as [h_dst|] eqn:Hf; [|discriminate].
  destruct (find_routable_sd_some _ _ _ Hf) as (sd_dst & Hd & Hg).
  rewrite Hd in H.
  destruct (get_fport_handle sd_dst (neighbor_port_number pi)) as [i_dst|] eqn:Hh; [|discriminate].
  destruct (port sd_dst !! i_dst) as [port_dst|] eqn:Hpd; [|discriminate].
  destruct (port_is_routable port_dst) eqn:Hrd; simpl in H; [|discriminate].
  destruct (portinfo_of port_dst) as [pi_dst|] eqn:Hpid; [|discriminate].
  destruct (neighbor_guid pi_dst =? guid sd_src) eqn:E1; simpl in H; [|discriminate].
  destruct (neighbor_port_number pi_dst =? lpn port_src) eqn:E2; simpl in H; [|discriminate].
  injection H as <-.
  exists sd_src, port_src, pi, sd_dst, port_dst, pi_dst. simpl.
  repeat split; try assumption; lia.
Qed.

Lemma same_port_routable p q : same_port p q -> port_is_routable q = port_is_routable p.
Proof. intros (_ & Hs & Hc & _). unfold port_is_routable. now rewrite Hs, Hc. Qed.

Lemma same_sd_handle sd sd' l : same_sd sd sd' -> get_fport_handle sd' l = get_fport_handle sd l.
Proof. intros (_ & Hm & _). unfold get_fport_handle. now rewrite Hm. Qed.

Lemma same_sd_lpns sd sd' : same_sd sd sd' -> fabric_lpns sd' = fabric_lpns sd.
Proof. intros (_ & _ & Hm & _). unfold fabric_lpns. now rewrite Hm. Qed.

Lemma store_neighbor_sd f q n h sd :
  routable_list f !! h = Some sd ->
  exists sd', routable_list (store_neighbor f q n) !! h = Some sd' /\ same_sd sd sd' /\
    forall i p, port sd !! i = Some p ->
      exists p', port sd' !! i = Some p' /\ same_port p p' /\
        cached_neighbor p' = if decide ((h, i) = q) then n else cached_neighbor p.
Proof.
  intros Hsd. destruct q as [qh qi]. unfold store_neighbor, update_sd. simpl.
  destruct (decide (h = qh)) as [->|Hne].
  - rewrite list_lookup_alter_eq, Hsd. simpl. eexists. split; [reflexivity|].
    split; [repeat split|]. intros i p Hp. simpl.
    destruct (decide (i = qi)) as [->|Hni].
    + rewrite list_lookup_alter_eq, Hp. simpl. eexists. split; [reflexivity|].
      split; [repeat split|]. rewrite decide_True by reflexivity. reflexivity.
    + rewrite list_lookup_alter_ne by congruence. exists p. split; [assumption|].
      split; [repeat split|]. rewrite decide_False by congruence. reflexivity.
  - rewrite list_lookup_alter_ne by congruence. exists sd. split; [assumption|].
    split; [repeat split|]. intros i p Hp. exists p. split; [assumption|].
    split; [repeat split|]. rewrite decide_False by congruence. reflexivity.
Qed.

Lemma confirmed_store f q n src nb :
  confirmed f src nb -> confirmed (store_neighbor f q n) src nb.
Proof.
  intros (sd_src & port_src & pi & sd_dst & port_dst & pi_dst &
          H1 & H2 & H3 & H4 & H5 & H6 & H7 & H8 & H9 & H10 & H11 & H12).
  destruct (store_neighbor_sd f q n _ _ H1) as (sd_src' & G1 & S1 & P1).
  destruct (P1 _ _ H2) as (port_src' & G2 & S2 & _).
  destruct (store_neighbor_sd f q n _ _ H5) as (sd_dst' & G5 & S5 & P5).
  destruct (P5 _ _ H8) as (port_dst' & G8 & S8 & _).
  exists sd_src', port_src', pi, sd_dst', port_dst', pi_dst.
  rewrite (same_port_routable _ _ S2), (same_port_routable _ _ S8), (same_sd_handle _ _ _ S5).
  destruct S1 as (-> & _), S5 as (-> & _), S2 as (-> & _ & _ & ->), S8 as (-> & _).
  repeat split; assumption.
Qed.

Lemma port_ok_store_other f q n src :
  src <> q -> port_ok f src -> port_ok (store_neighbor f q n) src.
Proof.
  intros Hne Hok sd' p' nb Hsd' Hp' Hnb.
  destruct (routable_list f !! src.1) as [sd|] eqn:Hsd.
  2:{ destruct q as [qh qi]. unfold store_neighbor, update_sd in Hsd'. simpl in Hsd'.
      destruct (decide (src.1 = qh)) as [<-|].
      - rewrite list_lookup_alter_eq, Hsd in Hsd'. discriminate.
      - rewrite list_lookup_alter_ne, Hsd in Hsd' by congruence. discriminate. }
  destruct (store_neighbor_sd f q n _ _ Hsd) as (sd'' & G & S & P).
  rewrite G in Hsd'. injection Hsd' as <-.
  destruct (port sd !! src.2) as [p|] eqn:Hp.
  2:{ destruct q as [qh qi]. unfold store_neighbor, update_sd in G. simpl in G.
      destruct (decide (src.1 = qh)) as [E|].
      - rewrite <- E, list_lookup_alter_eq, Hsd in G. injection G as <-. simpl in Hp'.
        destruct (decide (src.2 = qi)) as [<-|].
        + rewrite list_lookup_alter_eq, Hp in Hp'. discriminate.
        + rewrite list_lookup_alter_ne, Hp in Hp' by congruence. discriminate.
      - rewrite list_lookup_alter_ne, Hsd in G by congruence. injection G as <-.
        rewrite Hp in Hp'. discriminate. }
  destruct (P _ _ Hp) as (p'' & G2 & S2 & C). rewrite G2 in Hp'. injection Hp' as <-.
  rewrite decide_False in C by (destruct src; simpl; exact Hne).
  apply confirmed_store. eapply Hok; eauto. congruence.
Qed.

Lemma port_ok_store_none f q src :
  port_ok f src -> port_ok (store_neighbor f q None) src.
Proof.
  intros Hok. destruct (decide (src = q)) as [->|Hne]; [|now apply port_ok_store_other].
  intros sd' p' nb Hsd' Hp' Hnb. exfalso.
  destruct q as [qh qi]. unfold store_neighbor, update_sd in Hsd'. simpl in *.
  rewrite list_lookup_alter_eq in Hsd'.
  destruct (routable_list f !! qh) as [sd|]; [|discriminate]. injection Hsd' as <-.
  simpl in Hp'. rewrite list_lookup_alter_eq in Hp'.
  destruct (port sd !! qi) as [p|]; [|discriminate]. injection Hp' as <-.
  simpl in Hnb. discriminate.
Qed.

Lemma port_ok_store_confirmed f q nb src :
  confirmed f q nb -> port_ok f src -> port_ok (store_neighbor f q (Some nb)) src.
Proof.
  intros Hc Hok. destruct (decide (src = q)) as [->|Hne]; [|now apply port_ok_store_other].
  intros sd' p' nb' Hsd' Hp' Hnb. apply confirmed_store.
  destruct q as [qh qi]. unfold store_neighbor, update_sd in Hsd'. simpl in *.
  rewrite list_lookup_alter_eq in Hsd'.
  destruct (routable_list f !! qh) as [sd|]; [|discriminate]. injection Hsd' as <-.
  simpl in Hp'. rewrite list_lookup_alter_eq in Hp'.
  destruct (port sd !! qi) as [p|]; [|discriminate]. injection Hp' as <-.
  simpl in Hnb. injection Hnb as <-. exact Hc.
Qed.

Lemma process_neighbor_ok f h i src :
  port_ok f src -> port_ok (process_neighbor f h i) src.
Proof.
  intros Hok. unfold process_neighbor.
  pose proof (port_ok_store_none f (h, i) src Hok) as H0.
  set (f0 := store_neighbor f (h, i) None) in *. cbv zeta.
  destruct (routable_list f0 !! h) as [sd|] eqn:Hsd; [|exact H0].
  destruct (port sd !! i) as [p|] eqn:Hp; [|exact H0].
  destruct (neighbor_candidate f0 sd p) as [nb|] eqn:Hn; [|exact H0].
  apply port_ok_store_confirmed; [|exact H0].
  eapply neighbor_candidate_confirmed; eauto.
Qed.

Lemma process_neighbor_establishes f h i : port_ok (process_neighbor f h i) (h, i).
Proof.
  unfold process_neighbor.
  assert (H0 : port_ok (store_neighbor f (h, i) None) (h, i)).
  { intros sd' p' nb Hsd' Hp' Hnb. exfalso.
    unfold store_neighbor, update_sd in Hsd'. simpl in *.
    rewrite list_lookup_alter_eq in Hsd'.
    destruct (routable_list f !! h) as [sd|]; [|discriminate]. injection Hsd' as <-.
    simpl in Hp'. rewrite list_lookup_alter_eq in Hp'.
    destruct (port sd !! i) as [p|]; [|discriminate]. injection Hp' as <-.
    simpl in Hnb. discriminate. }
  set (f0 := store_neighbor f (h, i) None) in *. cbv zeta.
  destruct (routable_list f0 !! h) as [sd|] eqn:Hsd; [|exact H0].
  destruct (port sd !! i) as [p|] eqn:Hp; [|exact H0].
  destruct (neighbor_candidate f0 sd p) as [nb|] eqn:Hn; [|exact H0].
  apply port_ok_store_confirmed; [|exact H0].
  eapply neighbor_candidate_confirmed; eauto.
Qed.

Lemma same_sd_refl sd : same_sd sd sd.
Proof. repeat split. Qed.

Lemma same_sd_trans a b c : same_sd a b -> same_sd b c -> same_sd a c.
Proof. intros (?&?&?&?) (?&?&?&?). repeat split; congruence. Qed.

Lemma same_fabric_refl f : same_fabric f f.
Proof. apply Forall_Forall2_diag, Forall_forall. intros. apply same_sd_refl. Qed.

Lemma same_fabric_trans a b c : same_fabric a b -> same_fabric b c -> same_fabric a c.
Proof.
  unfold same_fabric. intros H1 H2.
  eapply Forall2_trans; [|exact H1|exact H2]. intros; eapply same_sd_trans; eauto.
Qed.

Lemma same_fabric_store f q n : same_fabric f (store_neighbor f q n).
Proof.
  apply Forall2_same_length_lookup_2.
  - unfold store_neighbor, update_sd. simpl. now rewrite length_alter.
  - intros h sd sd' Hsd Hsd'.
    destruct (store_neighbor_sd f q n _ _ Hsd) as (sd'' & G & S & _). congruence.
Qed.

Lemma same_fabric_process_neighbor f h i : same_fabric f (process_neighbor f h i).
Proof.
  unfold process_neighbor.
  pose proof (same_fabric_store f (h, i) None) as H0.
  set (f0 := store_neighbor f (h, i) None) in *. cbv zeta.
  destruct (routable_list f0 !! h) as [sd|]; [|exact H0].
  destruct (port sd !! i) as [p|]; [|exact H0].
  destruct (neighbor_candidate f0 sd p) as [nb|]; [|exact H0].
  eapply same_fabric_trans; [exact H0|apply same_fabric_store].
Qed.

Lemma process_neighbors_sd_spec f h :
  same_fabric f (process_neighbors_sd f h) /\
  (forall src, port_ok f src -> port_ok (process_neighbors_sd f h) src) /\
  (forall sd l i, routable_list f !! h = Some sd -> l ∈ fabric_lpns sd ->
     get_fport_handle sd l = Some i -> port_ok (process_neighbors_sd f h) (h, i)).
Proof.
  unfold process_neighbors_sd. destruct (routable_list f !! h) as [sd|] eqn:Hsd.
  2:{ split; [apply same_fabric_refl|]. split; [auto|]. intros; discriminate. }
  set (step := fun (f : fabric) (l : Z) =>
                 match get_fport_handle sd l with
                 | Some i => process_neighbor f h i
                 | None => f
                 end).
  assert (Hstep_same : forall g l, same_fabric g (step g l)).
  { intros g l. unfold step. destruct (get_fport_handle sd l);
      [apply same_fabric_process_neighbor|apply same_fabric_refl]. }
  assert (Hstep_ok : forall g l src, port_ok g src -> port_ok (step g l) src).
  { intros g l src. unfold step. destruct (get_fport_handle sd l); [|auto].
    apply process_neighbor_ok. }
  assert (Hfold : forall ls g,
            same_fabric g (foldl step g ls) /\
            (forall src, port_ok g src -> port_ok (foldl step g ls) src) /\
            (forall l i, l ∈ ls -> get_fport_handle sd l = Some i ->
                         port_ok (foldl step g ls) (h, i))).
  { induction ls as [|l0 ls IH]; intros g; simpl.
    - split; [apply same_fabric_refl|]. split; [auto|]. intros l i Hin. inversion Hin.
    - destruct (IH (step g l0)) as (I1 & I2 & I3). split; [|split].
      + eapply same_fabric_trans; [apply Hstep_same|exact I1].
      + intros src Hok. apply I2, Hstep_ok, Hok.
      + intros l i Hin Hh. apply elem_of_cons in Hin as [->|Hin]; [|eauto].
        apply I2. unfold step. rewrite Hh. apply process_neighbor_establishes. }
  destruct (Hfold (fabric_lpns sd) f) as (F1 & F2 & F3).
  split; [exact F1|]. split; [exact F2|].
  intros sd0 l i [= <-] Hin Hh. eauto.
Qed.

Lemma process_neighbors_spec walk f :
  same_fabric f (process_neighbors walk f) /\
  (forall src, port_ok f src -> port_ok (process_neighbors walk f) src) /\
  (forall h sd l i, h ∈ walk -> routable_list f !! h = Some sd -> l ∈ fabric_lpns sd ->
     get_fport_handle sd l = Some i -> port_ok (process_neighbors walk f) (h, i)).
Proof.
  unfold process_neighbors, for_each_sd. revert f.
  induction walk as [|h0 walk IH]; intros f; simpl.
  - split; [apply same_fabric_refl|]. split; [auto|]. intros h sd l i Hin. inversion Hin.
  - destruct (process_neighbors_sd_spec f h0) as (S1 & S2 & S3).
    destruct (IH (process_neighbors_sd f h0)) as (I1 & I2 & I3).
    split; [|split].
    + eapply same_fabric_trans; eauto.
    + intros src Hok. apply I2, S2, Hok.
    + intros h sd l i Hin Hsd Hl Hh. apply elem_of_cons in Hin as [->|Hin].
      * apply I2. eapply S3; eauto.
      * destruct (Forall2_lookup_l _ _ _ _ _ S1 Hsd) as (sd' & Hsd' & Hs).
        eapply (I3 h sd' l i); eauto.
        -- now rewrite (same_sd_lpns _ _ Hs).
        -- now rewrite (same_sd_handle _ _ _ Hs).
Qed.

Lemma same_sd_error sd sd' : same_sd sd sd' -> routing_sd_is_error sd' = routing_sd_is_error sd.
Proof. intros (_ & _ & _ & H). unfold routing_sd_is_error. now rewrite H. Qed.

Lemma routing_sd_walk_elem f h sd :
  routable_list f !! h = Some sd -> routing_sd_is_error sd = false ->
  h ∈ routing_sd_walk false f.
Proof.
  intros Hsd He. unfold routing_sd_walk. apply list_elem_of_filter. split.
  - unfold routing_sd_visited. rewrite Hsd, He. reflexivity.
  - apply elem_of_seq. apply lookup_lt_Some in Hsd. lia.
Qed.

(** C7 (amended).  After the neighbor pass of a sweep, a fabric port of a
    subdevice that is not in the error state has a cached neighbor only if
    the neighbor subdevice is in the routable list under the GUID the port
    reports, the neighbor port is the one the port names, it is routable
    and link-active (state Active with the routable control), and its own
    report names this port's subdevice GUID and logical port number; the
    port itself is routable and Active.  So every Active port of such a
    subdevice that has a cached neighbor has the relationship confirmed
    from the other side. *)
Theorem process_neighbors_confirmed (f : fabric)
    (h i : nat) (l : Z) (sd : fsubdev) (p : fport) (nb : port_ptr) :
  routable_list (process_neighbors (routing_sd_walk false f) f) !! h = Some sd ->
  routing_sd_is_error sd = false ->
  l ∈ fabric_lpns sd -> get_fport_handle sd l = Some i ->
  port sd !! i = Some p ->
  cached_neighbor p = Some nb ->
  confirmed (process_neighbors (routing_sd_walk false f) f) (h, i) nb.
Proof.
  intros Hsd He Hl Hh Hp Hnb.
  destruct (process_neighbors_spec (routing_sd_walk false f) f) as (S1 & _ & S3).
  destruct (Forall2_lookup_r _ _ _ _ _ S1 Hsd) as (sd0 & Hsd0 & Hs).
  assert (Hok : port_ok (process_neighbors (routing_sd_walk false f) f) (h, i)).
  { eapply (S3 h sd0 l i); eauto.
    - apply (routing_sd_walk_elem f h sd0 Hsd0). now rewrite <- (same_sd_error _ _ Hs).
    - now rewrite <- (same_sd_lpns _ _ Hs).
    - now rewrite <- (same_sd_handle _ _ _ Hs). }
  eapply Hok; eauto.
Qed.

Lemma process_neighbors_confirmed_witness :
  confirmed (process_neighbors (routing_sd_walk false ring) ring) (0, 0)%nat (1, 1)%nat.
Proof.
  eapply (process_neighbors_confirmed ring 0 0 1).
  - vm_compute. reflexivity.
  - vm_compute. reflexivity.
  - vm_compute. apply list_elem_of_here.
  - vm_compute. reflexivity.
  - vm_compute. reflexivity.
  - vm_compute. reflexivity.
Defined.

(** C7 (as stated).  The pass leaves out the subdevices in the error
    state.  On [stale] the Active fabric port 1 of the first subdevice
    still has its cached neighbor after the pass, and the neighbor port is
    not Active: the relationship is not confirmed. *)
Lemma stale_neighbor_survives :
  exists sd p,
    routable_list (process_neighbors (routing_sd_walk false stale) stale) !! 0%nat = Some sd /\
    1 ∈ fabric_lpns sd /\ get_fport_handle sd 1 = Some 0%nat /\
    port sd !! 0%nat = Some p /\
    state p = PM_PORT_STATE_ACTIVE /\ port_is_routable p = true /\
    cached_neighbor p = Some (1, 0)%nat /\
    ~ confirmed (process_neighbors (routing_sd_walk false stale) stale) (0, 0)%nat (1, 0)%nat.
Proof.
  eexists _, _. split; [vm_compute; reflexivity|].
  split; [vm_compute; apply list_elem_of_here|].
  split; [reflexivity|]. split; [reflexivity|]. split; [reflexivity|].
  split; [reflexivity|]. split; [reflexivity|].
  intros (sd_src & port_src & pi & sd_dst & port_dst & pi_dst & _ & _ & _ & _ & Hd & _ & _
          & Hpd & Hr & _).
  vm_compute in Hd. injection Hd as <-. vm_compute in Hpd. injection Hpd as <-.
  vm_compute in Hr. discriminate Hr.
Qed.

(** *** The cost matrix on the ring *)

(** The wrap in the relaxation: with cost[ik] = c finite and cost[kj]
    infinite, the 16-bit sum is c - 1, which replaces any larger cost[ij]. *)
Lemma relax_j_wraps n k i j cost c :
  j <> k -> cost_at cost (i * n + k) = c -> 0 < c < ROUTING_COST_INFINITE ->
  cost_at cost (k * n + j) = ROUTING_COST_INFINITE ->
  c - 1 < cost_at cost (i * n + j) ->
  relax_j n k i cost j =
    cost_set (cost_set cost (i * n + j) (c - 1)) (j * n + i) (c - 1).
Proof.
  intros Hjk Hik Hc Hkj Hij. unfold relax_j. cbv zeta.
  destruct (Z.eqb_spec j k); [contradiction|].
  rewrite Hik, Hkj.
  assert (Hv : u16 (c + ROUTING_COST_INFINITE) = c - 1).
  { unfold u16, wrap, ROUTING_COST_INFINITE in *. change (2 ^ 16) with 65536.
    Z.to_euclidean_division_equations; lia. }
  rewrite Hv. destruct (Z.gtb_spec (cost_at cost (i * n + j)) (c - 1)); [reflexivity|lia].
Qed.

(** C1.  On the ring A-B-C-D-A the sweep puts the four subdevices in one
    plane, in the order A, B, D, C, and the relaxed matrix reads
    cost(A,C) = 1 and cost(B,C) = 0 where the hop distances are 2 and 1;
    cost(A,B) = 1 and cost(A,A) = 0 as expected, and the matrix is
    symmetric. *)
Theorem ring_cost_diverges :
  let f := sweep_costs ring in
  (plane_list f = [mk_plane 0 4 [ring_A; ring_B; ring_D; ring_C]
                     [0; 1; 1; 1;  1; 0; 0; 0;  1; 0; 0; 0;  1; 0; 0; 0]]) /\
  routing_cost_lookup f ring_A ring_C = 1 /\
  routing_cost_lookup f ring_B ring_C = 0 /\
  routing_cost_lookup f ring_A ring_B = 1 /\
  routing_cost_lookup f ring_A ring_A = 0 /\
  (forall x y, x ∈ [ring_A; ring_B; ring_C; ring_D] -> y ∈ [ring_A; ring_B; ring_C; ring_D] ->
     routing_cost_lookup f x y = routing_cost_lookup f y x).
Proof.
  repeat split; try (vm_compute; reflexivity).
  intros x y Hx Hy.
  repeat (apply elem_of_cons in Hx as [->|Hx]); try (now apply elem_of_nil in Hx);
  repeat (apply elem_of_cons in Hy as [->|Hy]); try (now apply elem_of_nil in Hy);
  vm_compute; reflexivity.
Qed.

(** *** The relaxation on a symmetric matrix *)

Lemma idx_inj n a b i j :
  0 <= a -> 0 <= i -> 0 <= b < n -> 0 <= j < n -> a * n + b = i * n + j -> a = i /\ b = j.
Proof. intros. assert (a = i) by nia. subst. lia. Qed.

Lemma idx_range n a b : 0 <= a < n -> 0 <= b < n -> 0 <= a * n + b < n * n.
Proof. intros. nia. Qed.

Lemma cost_at_set c idx v idx' :
  0 <= idx -> 0 <= idx' -> (Z.to_nat idx < length c)%nat ->
  cost_at (cost_set c idx v) idx' = if idx' =? idx then v else cost_at c idx'.
Proof.
  intros H1 H2 H3. unfold cost_at, cost_set.
  destruct (Z.eqb_spec idx' idx) as [->|Hne].
  - now rewrite list_lookup_insert_eq.
  - rewrite list_lookup_insert_ne by lia. reflexivity.
Qed.

Lemma relaxed_refl n c : cost_symmetric n c -> relaxed n c c.
Proof. intros H. repeat split; auto; intros; lia. Qed.

Lemma relaxed_trans n a b c : relaxed n a b -> relaxed n b c -> relaxed n a c.
Proof.
  intros (L1 & S1 & M1 & D1) (L2 & S2 & M2 & D2). repeat split.
  - congruence.
  - exact S2.
  - intros x y Hx Hy. specialize (M1 x y Hx Hy). specialize (M2 x y Hx Hy). lia.
  - intros x Hx. rewrite D2, D1 by lia. reflexivity.
Qed.

Lemma relax_j_relaxed n k i j c :
  length c = Z.to_nat (n * n) -> cost_symmetric n c ->
  0 <= i < n -> 0 <= j < n -> i <> j ->
  relaxed n c (relax_j n k i c j).
Proof.
  intros Hlen Hsym Hi Hj Hij. unfold relax_j.
  destruct (j =? k); [now apply relaxed_refl|]. cbv zeta.
  set (value := u16 _).
  destruct (Z.gtb_spec (cost_at c (i * n + j)) value) as [Hgt|]; [|now apply relaxed_refl].
  pose proof (idx_range n i j Hi Hj) as Rij. pose proof (idx_range n j i Hj Hi) as Rji.
  assert (Hget : forall a b, 0 <= a < n -> 0 <= b < n ->
            cost_at (cost_set (cost_set c (i * n + j) value) (j * n + i) value) (a * n + b) =
            if ((a =? i) && (b =? j)) || ((a =? j) && (b =? i)) then value
            else cost_at c (a * n + b)).
  { intros a b Ha Hb. pose proof (idx_range n a b Ha Hb) as Rab.
    rewrite !cost_at_set; unfold cost_set; rewrite ?length_insert; try lia.
    destruct (Z.eqb_spec (a * n + b) (j * n + i)) as [E|E].
    - apply idx_inj in E as [-> ->]; try lia.
      rewrite !Z.eqb_refl. now rewrite orb_true_r.
    - destruct (Z.eqb_spec (a * n + b) (i * n + j)) as [E'|E'].
      + apply idx_inj in E' as [-> ->]; try lia. now rewrite !Z.eqb_refl.
      + destruct (Z.eqb_spec a i), (Z.eqb_spec b j), (Z.eqb_spec a j), (Z.eqb_spec b i);
          subst; try reflexivity; try contradiction. }
  repeat split.
  - unfold cost_set. now rewrite !length_insert.
  - intros a b Ha Hb. rewrite !Hget by lia.
    destruct (Z.eqb_spec a i), (Z.eqb_spec b j), (Z.eqb_spec a j), (Z.eqb_spec b i);
      subst; cbn; try reflexivity; try lia; now apply Hsym.
  - intros a b Ha Hb. rewrite Hget by lia.
    destruct (Z.eqb_spec a i), (Z.eqb_spec b j), (Z.eqb_spec a j), (Z.eqb_spec b i);
      subst; cbn; try lia.
    rewrite (Hsym j i) by lia. lia.
  - intros a Ha. rewrite Hget by lia.
    destruct (Z.eqb_spec a i), (Z.eqb_spec a j); subst; cbn; try lia; reflexivity.
Qed.

Lemma relaxed_length n c c' : relaxed n c c' -> length c' = length c.
Proof. now intros (? & _). Qed.

Lemma relaxed_sym n c c' : relaxed n c c' -> cost_symmetric n c'.
Proof. now intros (_ & ? & _). Qed.

(** A loop whose every round relaxes the matrix relaxes it. *)
Lemma foldl_relaxed n (step : list Z -> Z -> list Z) (l : list Z) (P : Z -> Prop) c :
  length c = Z.to_nat (n * n) -> cost_symmetric n c ->
  (forall c x, length c = Z.to_nat (n * n) -> cost_symmetric n c -> P x ->
               relaxed n c (step c x)) ->
  Forall P l ->
  relaxed n c (foldl step c l).
Proof.
  intros Hlen Hsym Hstep Hl. revert c Hlen Hsym.
  induction Hl as [|x l Hx Hl IH]; intros c Hlen Hsym; [now apply relaxed_refl|].
  cbn [foldl]. pose proof (Hstep c x Hlen Hsym Hx) as H1.
  eapply relaxed_trans; [exact H1|]. apply IH.
  - rewrite (relaxed_length _ _ _ H1). exact Hlen.
  - exact (relaxed_sym _ _ _ H1).
Qed.

Lemma Forall_seqZ (P : Z -> Prop) m len :
  (forall x, m <= x < m + len -> P x) -> Forall P (seqZ m len).
Proof.
  intros H. apply Forall_forall. intros x Hx. apply elem_of_seqZ in Hx. apply H. lia.
Qed.

Lemma relax_i_relaxed n k i c :
  length c = Z.to_nat (n * n) -> cost_symmetric n c -> 0 <= i < n ->
  relaxed n c (relax_i n k c i).
Proof.
  intros Hlen Hsym Hi. unfold relax_i.
  destruct (i =? k); [now apply relaxed_refl|].
  destruct (_ =? ROUTING_COST_INFINITE); [now apply relaxed_refl|].
  apply (foldl_relaxed n _ _ (fun j => i < j < n)); auto.
  - intros c' j Hl' Hs' Hj. apply relax_j_relaxed; auto; lia.
  - apply Forall_seqZ. intros; lia.
Qed.

Lemma relax_k_relaxed n k c :
  length c = Z.to_nat (n * n) -> cost_symmetric n c -> relaxed n c (relax_k n c k).
Proof.
  intros Hlen Hsym. unfold relax_k.
  apply (foldl_relaxed n _ _ (fun i => 0 <= i < n)); auto.
  - intros c' i Hl' Hs' Hi. now apply relax_i_relaxed.
  - apply Forall_seqZ. intros; lia.
Qed.

(** X2. The relaxation of compute_cost_for_plane keeps what a symmetric
    matrix has: the relaxed matrix has the same size, is symmetric, has no
    entry above the entry it started from, and has the diagonal it
    started from. *)
Theorem floyd_warshall_relaxed (n : Z) (cost : list Z) :
  length cost = Z.to_nat (n * n) -> cost_symmetric n cost ->
  relaxed n cost (floyd_warshall n cost).
Proof.
  intros Hlen Hsym. unfold floyd_warshall.
  apply (foldl_relaxed n _ _ (fun _ => True)); auto.
  - intros c' k Hl' Hs' _. now apply relax_k_relaxed.
  - apply Forall_seqZ. auto.
Qed.

Lemma floyd_warshall_relaxed_witness :
  relaxed 3 [0; 1; 0xffff; 1; 0; 1; 0xffff; 1; 0]
          (floyd_warshall 3 [0; 1; 0xffff; 1; 0; 1; 0xffff; 1; 0]).
Proof.
  apply (floyd_warshall_relaxed 3 [0; 1; 0xffff; 1; 0; 1; 0xffff; 1; 0]).
  - reflexivity.
  - intros a b Ha Hb.
    assert (Ea : a = 0 \/ a = 1 \/ a = 2) by lia.
    assert (Eb : b = 0 \/ b = 1 \/ b = 2) by lia.
    destruct Ea as [->|[->| ->]], Eb as [->|[->| ->]]; reflexivity.
Defined.

(** *** The neighbor pass leaves no confirmed neighbor out *)


Lemma same_port_refl p : same_port p p.
Proof. repeat split. Qed.

Lemma same_wires_sd_refl sd : same_wires_sd sd sd.
Proof.
  split; [apply same_sd_refl|]. apply Forall_Forall2_diag, Forall_forall.
  intros. apply same_port_refl.
Qed.

Lemma same_wires_refl f : same_wires f f.
Proof. apply Forall_Forall2_diag, Forall_forall. intros. apply same_wires_sd_refl. Qed.

Lemma same_wires_trans a b c : same_wires a b -> same_wires b c -> same_wires a c.
Proof.
  unfold same_wires. intros H1 H2. eapply Forall2_trans; [|exact H1|exact H2].
  intros x y z [S1 P1] [S2 P2]. split; [eapply same_sd_trans; eauto|].
  eapply Forall2_trans; [|exact P1|exact P2].
  intros p q r (?&?&?&?) (?&?&?&?). repeat split; congruence.
Qed.

Lemma same_wires_store f q n : same_wires f (store_neighbor f q n).
Proof.
  apply Forall2_same_length_lookup_2.
  - unfold store_neighbor, update_sd. simpl. now rewrite length_alter.
  - intros h sd sd' Hsd Hsd'.
    destruct (store_neighbor_sd f q n _ _ Hsd) as (sd'' & G & S & P).
    assert (sd'' = sd') as -> by congruence. split; [exact S|].
    apply Forall2_same_length_lookup_2.
    + destruct q as [qh qi]. unfold store_neighbor, update_sd in G. simpl in G.
      destruct (decide (h = qh)) as [->|Hne].
      * rewrite list_lookup_alter_eq, Hsd in G. injection G as <-. simpl.
        now rewrite length_alter.
      * rewrite list_lookup_alter_ne, Hsd in G by congruence. now injection G as <-.
    + intros i p p' Hp Hp'. destruct (P _ _ Hp) as (p'' & G2 & S2 & _). congruence.
Qed.

Lemma find_guid_same g l l' :
  Forall2 same_wires_sd l l' -> forall h, find_guid g l' h = find_guid g l h.
Proof.
  induction 1 as [|sd sd' l l' [(Hg & _) _] _ IH]; intros h; [reflexivity|].
  cbn [find_guid]. rewrite Hg. destruct (guid sd =? g); [reflexivity|apply IH].
Qed.

(** The checks of process_neighbor do not read cached neighbors. *)
Lemma neighbor_candidate_same f f' sd sd' p p' :
  same_wires f f' -> guid sd' = guid sd -> same_port p p' ->
  neighbor_candidate f' sd' p' = neighbor_candidate f sd p.
Proof.
  intros Hw Hg Hp. unfold neighbor_candidate.
  rewrite (same_port_routable _ _ Hp). destruct Hp as (-> & _ & _ & ->). rewrite Hg.
  destruct (negb (port_is_routable p)); [reflexivity|].
  destruct (portinfo_of p) as [pi|]; [|reflexivity].
  destruct ((neighbor_guid pi =? 0) || (guid sd =? neighbor_guid pi)); [reflexivity|].
  unfold find_routable_sd. rewrite (find_guid_same _ _ _ Hw).
  destruct (find_guid (neighbor_guid pi) (routable_list f) 0) as [h_dst|]; [|reflexivity].
  destruct (routable_list f !! h_dst) as [sd_dst|] eqn:Hd.
  2:{ destruct (routable_list f' !! h_dst) as [sd_dst'|] eqn:Hd'; [|reflexivity].
      destruct (Forall2_lookup_r _ _ _ _ _ Hw Hd') as (x & Hx & _). congruence. }
  destruct (Forall2_lookup_l _ _ _ _ _ Hw Hd) as (sd_dst' & -> & Hs & Hps).
  rewrite (same_sd_handle _ _ _ Hs).
  destruct (get_fport_handle sd_dst (neighbor_port_number pi)) as [i_dst|]; [|reflexivity].
  destruct (port sd_dst !! i_dst) as [port_dst|] eqn:Hpd.
  2:{ destruct (port sd_dst' !! i_dst) as [port_dst'|] eqn:Hpd'; [|reflexivity].
      destruct (Forall2_lookup_r _ _ _ _ _ Hps Hpd') as (x & Hx & _). congruence. }
  destruct (Forall2_lookup_l _ _ _ _ _ Hps Hpd) as (port_dst' & -> & Hpp).
  rewrite (same_port_routable _ _ Hpp). destruct Hpp as (-> & _). reflexivity.
Qed.

Lemma neighbor_set_store_other f q n src :
  src <> q -> neighbor_set f src -> neighbor_set (store_neighbor f q n) src.
Proof.
  intros Hne Hset sd' p' Hsd' Hp'.
  pose proof (same_wires_store f q n) as Hw.
  destruct (Forall2_lookup_r _ _ _ _ _ Hw Hsd') as (sd & Hsd & Hs & Hps).
  destruct (Forall2_lookup_r _ _ _ _ _ Hps Hp') as (p & Hp & Hpp).
  destruct (store_neighbor_sd f q n _ _ Hsd) as (sd'' & G & _ & P).
  assert (sd'' = sd') as -> by congruence.
  destruct (P _ _ Hp) as (p'' & G2 & _ & C). assert (p'' = p') as -> by congruence.
  rewrite decide_False in C by (destruct src; simpl; exact Hne).
  rewrite C, (Hset sd p Hsd Hp). symmetry.
  apply neighbor_candidate_same; [exact Hw|apply Hs|exact Hpp].
Qed.

Lemma stored_neighbor f q n sd' p' :
  routable_list (store_neighbor f q n) !! q.1 = Some sd' -> port sd' !! q.2 = Some p' ->
  cached_neighbor p' = n.
Proof.
  destruct q as [qh qi]. unfold store_neighbor, update_sd. simpl.
  rewrite list_lookup_alter_eq. destruct (routable_list f !! qh) as [sd|]; [|discriminate].
  intros [= <-]. simpl. rewrite list_lookup_alter_eq.
  destruct (port sd !! qi) as [p|]; [|discriminate]. now intros [= <-].
Qed.

Lemma process_neighbor_sets f h i : neighbor_set (process_neighbor f h i) (h, i).
Proof.
  unfold process_neighbor. set (f0 := store_neighbor f (h, i) None). cbv zeta.
  destruct (routable_list f0 !! h) as [sd|] eqn:Hsd.
  2:{ intros sd' p' Hsd'. cbn [fst snd] in Hsd'. congruence. }
  destruct (port sd !! i) as [p|] eqn:Hp.
  2:{ intros sd' p' Hsd' Hp'. cbn [fst snd] in *. congruence. }
  destruct (neighbor_candidate f0 sd p) as [nb|] eqn:Hn.
  - intros sd' p' Hsd' Hp'.
    rewrite (stored_neighbor f0 (h, i) (Some nb) sd' p' Hsd' Hp').
    pose proof (same_wires_store f0 (h, i) (Some nb)) as Hw.
    destruct (Forall2_lookup_l _ _ _ _ _ Hw Hsd) as (sd2 & Hsd2 & Hs & Hps).
    cbn [fst snd] in Hsd'. assert (sd2 = sd') as -> by congruence.
    destruct (Forall2_lookup_l _ _ _ _ _ Hps Hp) as (p2 & Hp2 & Hpp).
    cbn [fst snd] in Hp'. assert (p2 = p') as -> by congruence.
    transitivity (neighbor_candidate f0 sd p); [now symmetry|].
    symmetry. apply neighbor_candidate_same; [exact Hw|apply Hs|exact Hpp].
  - intros sd' p' Hsd' Hp'. cbn [fst snd] in Hsd', Hp'.
    assert (sd' = sd) as -> by congruence. assert (p' = p) as -> by congruence.
    rewrite Hn. exact (stored_neighbor f (h, i) None sd p Hsd Hp).
Qed.

Lemma process_neighbor_keeps_set f h i src :
  neighbor_set f src -> neighbor_set (process_neighbor f h i) src.
Proof.
  intros Hset. destruct (decide (src = (h, i))) as [->|Hne]; [apply process_neighbor_sets|].
  unfold process_neighbor.
  pose proof (neighbor_set_store_other f (h, i) None src Hne Hset) as H0.
  set (f0 := store_neighbor f (h, i) None) in *. cbv zeta.
  destruct (routable_list f0 !! h) as [sd|]; [|exact H0].
  destruct (port sd !! i) as [p|]; [|exact H0].
  destruct (neighbor_candidate f0 sd p) as [nb|]; [|exact H0].
  now apply neighbor_set_store_other.
Qed.

Lemma process_neighbors_sd_sets f h :
  (forall src, neighbor_set f src -> neighbor_set (process_neighbors_sd f h) src) /\
  (forall sd l i, routable_list f !! h = Some sd -> l ∈ fabric_lpns sd ->
     get_fport_handle sd l = Some i -> neighbor_set (process_neighbors_sd f h) (h, i)).
Proof.
  unfold process_neighbors_sd. destruct (routable_list f !! h) as [sd|] eqn:Hsd.
  2:{ split; [auto|]. intros; discriminate. }
  set (step := fun (f : fabric) (l : Z) =>
                 match get_fport_handle sd l with
                 | Some i => process_neighbor f h i
                 | None => f
                 end).
  assert (Hstep : forall g l src, neighbor_set g src -> neighbor_set (step g l) src).
  { intros g l src. unfold step. destruct (get_fport_handle sd l); [|auto].
    apply process_neighbor_keeps_set. }
  assert (Hfold : forall ls g,
            (forall src, neighbor_set g src -> neighbor_set (foldl step g ls) src) /\
            (forall l i, l ∈ ls -> get_fport_handle sd l = Some i ->
                         neighbor_set (foldl step g ls) (h, i))).
  { induction ls as [|l0 ls IH]; intros g; simpl.
    - split; [auto|]. intros l i Hin. inversion Hin.
    - destruct (IH (step g l0)) as (I2 & I3). split.
      + intros src Hok. apply I2, Hstep, Hok.
      + intros l i Hin Hh. apply elem_of_cons in Hin as [->|Hin]; [|eauto].
        apply I2. unfold step. rewrite Hh. apply process_neighbor_sets. }
  destruct (Hfold (fabric_lpns sd) f) as (F2 & F3).
  split; [exact F2|]. intros sd0 l i [= <-] Hin Hh. eauto.
Qed.

Lemma process_neighbors_sets walk f :
  (forall src, neighbor_set f src -> neighbor_set (process_neighbors walk f) src) /\
  (forall h sd l i, h ∈ walk -> routable_list f !! h = Some sd -> l ∈ fabric_lpns sd ->
     get_fport_handle sd l = Some i -> neighbor_set (process_neighbors walk f) (h, i)).
Proof.
  unfold process_neighbors, for_each_sd. revert f.
  induction walk as [|h0 walk IH]; intros f; simpl.
  - split; [auto|]. intros h sd l i Hin. inversion Hin.
  - destruct (process_neighbors_sd_sets f h0) as (S2 & S3).
    destruct (process_neighbors_sd_spec f h0) as (S1 & _).
    destruct (IH (process_neighbors_sd f h0)) as (I2 & I3).
    split.
    + intros src Hok. apply I2, S2, Hok.
    + intros h sd l i Hin Hsd Hl Hh. apply elem_of_cons in Hin as [->|Hin].
      * apply I2. eapply S3; eauto.
      * destruct (Forall2_lookup_l _ _ _ _ _ S1 Hsd) as (sd' & Hsd' & Hs).
        eapply (I3 h sd' l i); eauto.
        -- now rewrite (same_sd_lpns _ _ Hs).
        -- now rewrite (same_sd_handle _ _ _ Hs).
Qed.

(** X3. After the neighbor pass over the subdevices [walk], the cached
    neighbor of every fabric port of a visited subdevice is exactly the
    port that passes the checks of process_neighbor on the fabric as the
    pass leaves it, and NULL when no port passes them: no later step of
    the pass invalidates an earlier one, and no confirmed neighbor is left
    out. *)
Theorem process_neighbors_complete (walk : list nat) (f : fabric)
    (h i : nat) (l : Z) (sd : fsubdev) (p : fport) :
  let f' := process_neighbors walk f in
  h ∈ walk ->
  routable_list f' !! h = Some sd ->
  l ∈ fabric_lpns sd -> get_fport_handle sd l = Some i ->
  port sd !! i = Some p ->
  cached_neighbor p = neighbor_candidate f' sd p.
Proof.
  intros f' Hin Hsd Hl Hh Hp.
  destruct (process_neighbors_spec walk f) as (S1 & _).
  destruct (process_neighbors_sets walk f) as (_ & S3).
  destruct (Forall2_lookup_r _ _ _ _ _ S1 Hsd) as (sd0 & Hsd0 & Hs).
  assert (Hset : neighbor_set f' (h, i)).
  { eapply (S3 h sd0 l i); eauto.
    - now rewrite <- (same_sd_lpns _ _ Hs).
    - now rewrite <- (same_sd_handle _ _ _ Hs). }
  exact (Hset sd p Hsd Hp).
Qed.

Lemma process_neighbors_complete_witness :
  let f' := process_neighbors [0; 1; 2; 3]%nat ring in
  exists sd p,
    routable_list f' !! 0%nat = Some sd /\ port sd !! 0%nat = Some p /\
    cached_neighbor p = neighbor_candidate f' sd p.
Proof.
  intros f'.
  destruct (routable_list f' !! 0%nat) as [sd|] eqn:Hsd; [|vm_compute in Hsd; discriminate Hsd].
  destruct (port sd !! 0%nat) as [p|] eqn:Hp.
  2:{ vm_compute in Hsd. injection Hsd as <-. vm_compute in Hp. discriminate Hp. }
  exists sd, p. split; [reflexivity|]. split; [exact Hp|].
  apply (process_neighbors_complete [0; 1; 2; 3]%nat ring 0 0 1 sd p).
  - apply list_elem_of_here.
  - exact Hsd.
  - vm_compute in Hsd. injection Hsd as <-. vm_compute. apply list_elem_of_here.
  - vm_compute in Hsd. injection Hsd as <-. vm_compute. reflexivity.
  - exact Hp.
Defined.

(** ** The stages of routing_logic_run on the routable list, run again *)

(** *** Lists altered in place *)

Lemma alter_fix {A} (g : A -> A) (i : nat) (l : list A) :
  (forall x, l !! i = Some x -> g x = x) -> alter g i l = l.
Proof.
  intros H. apply list_eq. intros k. destruct (decide (k = i)) as [->|Hne].
  - rewrite list_lookup_alter_eq. destruct (l !! i) as [x|] eqn:E; [|reflexivity].
    cbn. f_equal. now apply H.
  - now rewrite list_lookup_alter_ne.
Qed.

Lemma alter_alter {A} (g g' : A -> A) (i : nat) (l : list A) :
  alter g' i (alter g i l) = alter (g' ∘ g) i l.
Proof.
  apply list_eq. intros k. destruct (decide (k = i)) as [->|Hne].
  - rewrite !list_lookup_alter_eq. now destruct (l !! i).
  - now rewrite !list_lookup_alter_ne.
Qed.

Lemma alter_ext_at {A} (g g' : A -> A) (i : nat) (l : list A) :
  (forall x, l !! i = Some x -> g x = g' x) -> alter g i l = alter g' i l.
Proof.
  intros H. apply list_eq. intros k. destruct (decide (k = i)) as [->|Hne].
  - rewrite !list_lookup_alter_eq. destruct (l !! i) as [x|] eqn:E; [|reflexivity].
    cbn. f_equal. now apply H.
  - now rewrite !list_lookup_alter_ne.
Qed.

(** A function applied in place at each index of [hs], when applying it
    twice is applying it once. *)
Lemma foldl_alter_lookup {A} (g : A -> A) (hs : list nat) (l : list A) (k : nat) :
  (forall x, g (g x) = g x) ->
  foldl (fun l h => alter g h l) l hs !! k =
  (if bool_decide (k ∈ hs) then g else id) <$> l !! k.
Proof.
  intros Hg. revert l. induction hs as [|h hs IH]; intros l; cbn [foldl].
  - rewrite bool_decide_eq_false_2 by apply not_elem_of_nil. now destruct (l !! k).
  - rewrite IH. destruct (decide (k = h)) as [->|Hne].
    + rewrite list_lookup_alter_eq. rewrite (bool_decide_eq_true_2 (h ∈ h :: hs)) by left.
      destruct (l !! h) as [x|]; [|now destruct (bool_decide _)].
      cbn. destruct (bool_decide (h ∈ hs)); cbn; [now rewrite Hg|reflexivity].
    + rewrite list_lookup_alter_ne by auto.
      assert (E : bool_decide (k ∈ h :: hs) = bool_decide (k ∈ hs)).
      { apply bool_decide_ext. rewrite elem_of_cons. tauto. }
      now rewrite E.
Qed.

Lemma fabric_eta f : mk_fabric (routable_list f) (plane_list f) = f.
Proof. now destruct f. Qed.

Lemma update_sd_fix f h g :
  (forall sd, routable_list f !! h = Some sd -> g sd = sd) -> update_sd f h g = f.
Proof.
  intros H. unfold update_sd, with_sds. rewrite alter_fix by exact H. apply fabric_eta.
Qed.

(** *** The neighbor pass on neighbors that are set *)

Lemma set_cached_neighbor_same p : set_cached_neighbor p (cached_neighbor p) = p.
Proof. now destruct p. Qed.

Lemma set_port_same sd : set_port sd (port sd) = sd.
Proof. now destruct sd. Qed.

Lemma store_neighbor_same f h i n :
  (forall sd p, routable_list f !! h = Some sd -> port sd !! i = Some p ->
                cached_neighbor p = n) ->
  store_neighbor f (h, i) n = f.
Proof.
  intros H. unfold store_neighbor. cbn [fst snd]. apply update_sd_fix. intros sd Hsd.
  rewrite alter_fix; [apply set_port_same|].
  intros p Hp. rewrite <- (H sd p Hsd Hp). apply set_cached_neighbor_same.
Qed.

Lemma store_neighbor_twice f q n n' :
  store_neighbor (store_neighbor f q n) q n' = store_neighbor f q n'.
Proof.
  unfold store_neighbor, update_sd, with_sds. cbn [routable_list plane_list].
  rewrite alter_alter. f_equal. apply alter_ext_at. intros sd _. cbn.
  unfold set_port. cbn. f_equal. rewrite alter_alter. apply alter_ext_at. now intros p _.
Qed.

Lemma process_neighbor_fixed f h i :
  neighbor_set f (h, i) -> process_neighbor f h i = f.
Proof.
  intros Hset. unfold process_neighbor. set (f0 := store_neighbor f (h, i) None). cbv zeta.
  destruct (routable_list f0 !! h) as [sd0|] eqn:Hsd0.
  2:{ apply store_neighbor_same. intros sd p Hsd.
      pose proof (same_wires_store f (h, i) None) as Hw.
      destruct (Forall2_lookup_l _ _ _ _ _ Hw Hsd) as (sd' & Hsd' & _). fold f0 in Hsd'.
      congruence. }
  pose proof (same_wires_store f (h, i) None) as Hw. fold f0 in Hw.
  destruct (Forall2_lookup_r _ _ _ _ _ Hw Hsd0) as (sd & Hsd & Hs & Hps).
  destruct (port sd0 !! i) as [p0|] eqn:Hp0.
  2:{ apply store_neighbor_same. intros sd1 p Hsd1 Hp. assert (sd1 = sd) as -> by congruence.
      destruct (Forall2_lookup_l _ _ _ _ _ Hps Hp) as (p' & Hp' & _). congruence. }
  destruct (Forall2_lookup_r _ _ _ _ _ Hps Hp0) as (p & Hp & Hpp).
  assert (Hc : neighbor_candidate f0 sd0 p0 = cached_neighbor p).
  { rewrite (Hset sd p Hsd Hp). apply neighbor_candidate_same; [exact Hw|apply Hs|exact Hpp]. }
  rewrite Hc.
  assert (Hany : forall n, cached_neighbor p = n -> store_neighbor f (h, i) n = f).
  { intros n <-. apply store_neighbor_same. intros sd1 p1 Hsd1 Hp1. congruence. }
  destruct (cached_neighbor p) as [nb|] eqn:En.
  - unfold f0. rewrite store_neighbor_twice. now apply Hany.
  - now apply Hany.
Qed.

Lemma process_neighbors_sd_fixed f h :
  (forall sd l i, routable_list f !! h = Some sd -> l ∈ fabric_lpns sd ->
     get_fport_handle sd l = Some i -> neighbor_set f (h, i)) ->
  process_neighbors_sd f h = f.
Proof.
  intros H. unfold process_neighbors_sd.
  destruct (routable_list f !! h) as [sd|] eqn:Hsd; [|reflexivity].
  specialize (H sd).
  induction (fabric_lpns sd) as [|l ls IH]; [reflexivity|]. cbn [foldl].
  assert (E : match get_fport_handle sd l with
              | Some i => process_neighbor f h i
              | None => f
              end = f).
  { destruct (get_fport_handle sd l) as [i|] eqn:Hh; [|reflexivity].
    apply process_neighbor_fixed. eapply H; eauto. left. }
  rewrite E. apply IH. intros l' i Hsd' Hin. apply H; auto. now right.
Qed.

Lemma process_neighbors_fixed walk f :
  (forall h sd l i, h ∈ walk -> routable_list f !! h = Some sd -> l ∈ fabric_lpns sd ->
     get_fport_handle sd l = Some i -> neighbor_set f (h, i)) ->
  process_neighbors walk f = f.
Proof.
  intros H. unfold process_neighbors, for_each_sd.
  induction walk as [|h walk IH]; [reflexivity|]. cbn [foldl].
  rewrite process_neighbors_sd_fixed.
  - apply IH. intros h' sd l i Hin. apply H. now right.
  - intros sd l i. apply H. left.
Qed.

(** *** What the stages leave as it was *)

Section frame.
Variable R : fsubdev -> fsubdev -> Prop.
Hypothesis R_refl : forall sd, R sd sd.
Hypothesis R_trans : forall a b c, R a b -> R b c -> R a c.

Lemma sd_rel_refl f : sd_rel R f f.
Proof. apply Forall_Forall2_diag, Forall_forall. auto. Qed.

Lemma sd_rel_trans a b c : sd_rel R a b -> sd_rel R b c -> sd_rel R a c.
Proof.
  unfold sd_rel. intros H1 H2. eapply Forall2_trans; [|exact H1|exact H2]. exact R_trans.
Qed.

Lemma rel_alter (l : list fsubdev) h g :
  (forall sd, R sd (g sd)) -> Forall2 R l (alter g h l).
Proof.
  intros Hg. apply Forall2_same_length_lookup_2; [now rewrite length_alter|].
  intros k a b Ha Hb. destruct (decide (k = h)) as [->|Hne].
  - rewrite list_lookup_alter_eq, Ha in Hb. injection Hb as <-. apply Hg.
  - rewrite list_lookup_alter_ne, Ha in Hb by auto. injection Hb as <-. apply R_refl.
Qed.

Lemma sd_rel_update f h g : (forall sd, R sd (g sd)) -> sd_rel R f (update_sd f h g).
Proof. intros Hg. apply rel_alter, Hg. Qed.

Lemma sd_rel_foldl {A} (step : fabric -> A -> fabric) (l : list A) f :
  (forall g x, sd_rel R g (step g x)) -> sd_rel R f (foldl step f l).
Proof.
  intros H. revert f. induction l as [|x l IH]; intros f; [apply sd_rel_refl|].
  cbn [foldl]. eapply sd_rel_trans; [apply H|apply IH].
Qed.

Section ports.
Hypothesis R_port : forall sd ports, R sd (set_port sd ports).

Lemma sd_rel_store f q n : sd_rel R f (store_neighbor f q n).
Proof. apply sd_rel_update. intros sd. apply R_port. Qed.

Lemma sd_rel_process_neighbor f h i : sd_rel R f (process_neighbor f h i).
Proof.
  unfold process_neighbor. cbv zeta.
  pose proof (sd_rel_store f (h, i) None) as H0.
  destruct (routable_list _ !! h) as [sd|]; [|exact H0].
  destruct (port sd !! i) as [p|]; [|exact H0].
  destruct (neighbor_candidate _ sd p); [|exact H0].
  eapply sd_rel_trans; [exact H0|apply sd_rel_store].
Qed.

Lemma sd_rel_process_neighbors walk f : sd_rel R f (process_neighbors walk f).
Proof.
  apply sd_rel_foldl. intros g h. unfold process_neighbors_sd.
  destruct (routable_list g !! h) as [sd|]; [|apply sd_rel_refl].
  apply sd_rel_foldl. intros g' l.
  destruct (get_fport_handle sd l); [apply sd_rel_process_neighbor|apply sd_rel_refl].
Qed.
End ports.

Section planes.
Hypothesis R_plane : forall sd p, R sd (set_plane sd p).
Hypothesis R_index : forall sd i, R sd (set_plane_index sd i).

Lemma sd_rel_destroy f : sd_rel R f (destroy_planes f).
Proof.
  unfold destroy_planes. change (sd_rel R f (foldl plane_release_sds f (plane_list f))).
  apply sd_rel_foldl. intros g pl. apply sd_rel_foldl. intros g' h.
  apply sd_rel_update. intros sd. eapply R_trans; [apply R_plane|apply R_index].
Qed.

Lemma sd_rel_entry pl f queue h :
  sd_rel R f (propagate_plane_entry pl (f, queue) h).1.
Proof.
  unfold propagate_plane_entry.
  destruct (routable_list f !! h) as [sd|]; [|apply sd_rel_refl]. cbv zeta.
  set (f1 := update_plane _ _ _).
  assert (H1 : sd_rel R f f1).
  { unfold f1, sd_rel, update_plane, with_planes, update_sd, with_sds.
    cbn [routable_list]. apply rel_alter. intros sd0. apply R_index. }
  clearbody f1. revert f1 H1. generalize queue.
  induction (fabric_lpns sd) as [|l ls IH]; intros q f1 H1; [exact H1|].
  cbn [foldl]. destruct (neighbor_of_lpn sd l) as [pn|]; [|now apply IH].
  destruct (routable_list f1 !! pn.1) as [sdn|]; [|now apply IH].
  destruct (_ || _); [now apply IH|].
  apply IH. eapply sd_rel_trans; [exact H1|]. apply sd_rel_update. intros sd0. apply R_plane.
Qed.

Lemma sd_rel_loop fuel pl st : sd_rel R st.1 (propagate_loop fuel pl st).
Proof.
  revert st. induction fuel as [|fuel IH]; intros [f q]; [apply sd_rel_refl|].
  cbn [propagate_loop fst snd]. destruct q as [|h q]; [apply sd_rel_refl|].
  eapply sd_rel_trans; [apply (sd_rel_entry pl f q h)|apply IH].
Qed.

Lemma sd_rel_build_step f h :
  sd_rel R f
    match routable_list f !! h with
    | None => f
    | Some sd =>
      match routing_plane_of sd with
      | Some _ => f
      | None =>
        let '(f, pl) := plane_alloc f in
        let f := update_sd f h (fun sd => set_plane sd (Some pl)) in
        propagate_plane f pl h
      end
    end.
Proof.
  destruct (routable_list f !! h) as [sd|]; [|apply sd_rel_refl].
  destruct (routing_plane_of sd); [apply sd_rel_refl|].
  unfold plane_alloc, propagate_plane.
  eapply sd_rel_trans; [|apply sd_rel_loop]. cbn [fst].
  unfold sd_rel, update_sd, with_sds, with_planes. cbn [routable_list].
  apply rel_alter. intros sd0. apply R_plane.
Qed.

Lemma sd_rel_build_planes walk f : sd_rel R f (build_planes walk f).
Proof.
  unfold build_planes, for_each_sd.
  eapply sd_rel_trans; [apply sd_rel_destroy|].
  apply sd_rel_foldl. intros g h. apply sd_rel_build_step.
Qed.

Lemma sd_rel_topology_stages walk f :
  (forall sd ports, R sd (set_port sd ports)) ->
  sd_rel R f (compute_costs (build_planes walk (process_neighbors walk f))).
Proof.
  intros R_port. eapply sd_rel_trans; [apply sd_rel_process_neighbors, R_port|].
  apply (sd_rel_build_planes walk).
Qed.
End planes.
End frame.

Lemma same_state_refl sd : same_state sd sd.
Proof. reflexivity. Qed.

Lemma same_state_trans a b c : same_state a b -> same_state b c -> same_state a c.
Proof. unfold same_state. congruence. Qed.

Lemma same_but_plane_trans a b c :
  same_but_plane a b -> same_but_plane b c -> same_but_plane a c.
Proof. unfold same_but_plane. congruence. Qed.

Lemma same_plane_trans a b c : same_plane a b -> same_plane b c -> same_plane a c.
Proof. unfold same_plane. intros [? ?] [? ?]. split; congruence. Qed.

(** The walk depends on the states only. *)
Lemma walk_same_state all f f' :
  sd_rel same_state f f' -> routing_sd_walk all f' = routing_sd_walk all f.
Proof.
  intros H. unfold routing_sd_walk. rewrite <- (Forall2_length _ _ _ H).
  apply list_filter_iff. intros h. unfold routing_sd_visited.
  destruct (routable_list f !! h) as [sd|] eqn:E.
  - destruct (Forall2_lookup_l _ _ _ _ _ H E) as (sd' & -> & Hs).
    unfold routing_sd_is_error. now rewrite Hs.
  - assert (routable_list f' !! h = None) as ->; [|reflexivity].
    apply lookup_ge_None. rewrite <- (Forall2_length _ _ _ H). now apply lookup_ge_None.
Qed.

Lemma same_but_plane_map f f' :
  sd_rel same_but_plane f f' ->
  reset_plane <$> routable_list f' = reset_plane <$> routable_list f.
Proof.
  unfold sd_rel. generalize (routable_list f), (routable_list f').
  induction 1 as [|a b l l' Hab _ IH]; [reflexivity|]. cbn. now rewrite Hab, IH.
Qed.


(** *** Planes: what build_planes leaves *)

Lemma reset_plane_twice sd : reset_plane (reset_plane sd) = reset_plane sd.
Proof. reflexivity. Qed.

Lemma reset_plane_fix sd :
  routing_plane_of sd = None -> routing_plane_index sd = 0 -> reset_plane sd = sd.
Proof. destruct sd. cbn. now intros -> ->. Qed.

Lemma release_sds_list hs f :
  routable_list (foldl (fun f h => update_sd f h (fun sd => set_plane_index (set_plane sd None) 0))
                       f hs)
  = foldl (fun l h => alter reset_plane h l) (routable_list f) hs.
Proof.
  revert f. induction hs as [|h hs IH]; intros f; [reflexivity|]. cbn [foldl]. now rewrite IH.
Qed.

Lemma destroy_planes_list pls f :
  routable_list (foldl plane_release_sds f pls)
  = foldl (fun l h => alter reset_plane h l) (routable_list f) (mjoin (sd_list <$> pls)).
Proof.
  revert f. induction pls as [|pl pls IH]; intros f; [reflexivity|].
  cbn [foldl fmap list_fmap mjoin list_join]. rewrite foldl_app, IH. f_equal.
  apply release_sds_list.
Qed.

Lemma destroy_planes_linked f :
  planes_linked f -> destroy_planes f = mk_fabric (reset_plane <$> routable_list f) [].
Proof.
  intros Hl. unfold destroy_planes, with_planes. f_equal.
  rewrite destroy_planes_list. apply list_eq. intros k.
  rewrite foldl_alter_lookup by apply reset_plane_twice. rewrite list_lookup_fmap.
  destruct (routable_list f !! k) as [sd|] eqn:E; [|now destruct (bool_decide _)].
  cbn. destruct (bool_decide _) eqn:Ek; [reflexivity|]. f_equal. symmetry.
  apply bool_decide_eq_false_1 in Ek. specialize (Hl k sd E).
  destruct (routing_plane_of sd) as [p|] eqn:Ep; [|now apply reset_plane_fix].
  destruct Hl as (plane & Hp & Hin). destruct Ek.
  apply list_elem_of_join. exists (sd_list plane). split; [exact Hin|].
  apply list_elem_of_fmap. exists plane. split; [reflexivity|].
  eapply list_elem_of_lookup_2; eauto.
Qed.

Lemma filter_alter_same {A} (P : A -> Prop) `{forall x, Decision (P x)} (u : A -> A) h l :
  (forall x, P (u x) <-> P x) -> length (filter P (alter u h l)) = length (filter P l).
Proof.
  intros Hu. revert h. induction l as [|x l IH]; intros h; [reflexivity|].
  destruct h as [|h]; cbn [alter list_alter]; rewrite !filter_cons.
  - destruct (decide (P (u x))), (decide (P x)); try reflexivity; exfalso; firstorder.
  - change (list_alter u h l) with (alter u h l).
    destruct (decide (P x)); cbn [length]; now rewrite IH.
Qed.

Lemma filter_alter_less {A} (P : A -> Prop) `{forall x, Decision (P x)} (u : A -> A) h l x :
  l !! h = Some x -> P x -> ~ P (u x) ->
  S (length (filter P (alter u h l))) = length (filter P l).
Proof.
  revert h. induction l as [|y l IH]; intros h Hx Hp Hn; [discriminate|].
  destruct h as [|h]; cbn [alter list_alter]; rewrite !filter_cons.
  - injection Hx as ->. rewrite decide_False, decide_True by assumption. reflexivity.
  - change (list_alter u h l) with (alter u h l).
    destruct (decide (P y)); cbn [length]; now rewrite (IH h Hx Hp Hn).
Qed.

Lemma unassigned_le f : (unassigned f <= length (routable_list f))%nat.
Proof. unfold unassigned. apply length_filter. Qed.

(** A round of the work queue keeps the state of the queue; what it adds
    to the queue it takes off the subdevices without a plane. *)
Lemma entry_inv pl f q h :
  queue_inv pl f (h :: q) ->
  queue_inv pl (propagate_plane_entry pl (f, q) h).1 (propagate_plane_entry pl (f, q) h).2 /\
  (length (propagate_plane_entry pl (f, q) h).2
   + unassigned (propagate_plane_entry pl (f, q) h).1
   = length q + unassigned f)%nat.
Proof.
  intros (Hd & Hc & Hb).
  destruct (Hc h ltac:(left)) as (sd & Hsd & Hpl).
  unfold propagate_plane_entry. rewrite Hsd. cbv zeta. rewrite Hpl. cbn [default from_option id].
  set (n := default 0 _).
  set (f3 := update_plane (update_sd (update_plane f pl (fun p => add_sd p h)) h
                                     (fun sd => set_plane_index sd (u16 n)))
                          pl (fun p => set_num_subdevs p (u16 (n + 1)))).
  assert (Hsds : routable_list f3 = alter (fun sd => set_plane_index sd (u16 n)) h (routable_list f))
    by reflexivity.
  assert (Hpls : plane_list f3
                 = alter (fun p => set_num_subdevs p (u16 (n + 1))) pl
                         (alter (fun p => add_sd p h) pl (plane_list f))) by reflexivity.
  assert (Hlist : forall p plane k, plane_list f !! p = Some plane -> k ∈ sd_list plane ->
            exists plane', plane_list f3 !! p = Some plane' /\ k ∈ sd_list plane').
  { intros p plane k Hp Hk. rewrite Hpls. destruct (decide (p = pl)) as [->|Hne].
    - rewrite !list_lookup_alter_eq, Hp. cbn. eexists. split; [reflexivity|].
      cbn. apply elem_of_app. now left.
    - rewrite !list_lookup_alter_ne, Hp by auto. eauto. }
  assert (Hh : exists plane', plane_list f3 !! pl = Some plane' /\ h ∈ sd_list plane').
  { destruct (lookup_lt_is_Some_2 _ _ Hd) as [plane Hp]. rewrite Hpls.
    rewrite !list_lookup_alter_eq, Hp. cbn. eexists. split; [reflexivity|].
    cbn. apply elem_of_app. right. left. }
  assert (H3 : queue_inv pl f3 q).
  { split; [now rewrite Hpls, !length_alter|]. split.
    - intros k Hk. destruct (Hc k ltac:(now right)) as (sdk & Hsdk & Hplk).
      rewrite Hsds. destruct (decide (k = h)) as [->|Hne].
      + rewrite list_lookup_alter_eq, Hsdk. cbn. eauto.
      + rewrite list_lookup_alter_ne by auto. eauto.
    - intros k sdk. rewrite Hsds. destruct (decide (k = h)) as [->|Hne].
      + rewrite list_lookup_alter_eq, Hsd. cbn. intros [= <-]. cbn. rewrite Hpl. now left.
      + rewrite list_lookup_alter_ne by auto. intros Hk. specialize (Hb k sdk Hk).
        destruct (routing_plane_of sdk) as [p|]; [|exact Hb].
        destruct Hb as [(plane & Hp & Hin)|[-> Hin]]; [left; eauto|].
        right. split; [reflexivity|]. apply elem_of_cons in Hin as [->|Hin]; [congruence|exact Hin]. }
  assert (U3 : unassigned f3 = unassigned f).
  { unfold unassigned. rewrite Hsds. apply filter_alter_same. now intros []. }
  rewrite <- U3. clearbody f3. clear Hsds Hpls Hlist Hh U3 Hb Hc Hd n.
  revert f3 H3. generalize q.
  induction (fabric_lpns sd) as [|l ls IH]; intros q0 g Hg; [now split|].
  cbn [foldl]. destruct (neighbor_of_lpn sd l) as [pn|]; [|now apply IH].
  destruct (routable_list g !! pn.1) as [sdn|] eqn:Hn; [|now apply IH].
  destruct (routing_sd_is_error sdn || bool_decide (is_Some (routing_plane_of sdn))) eqn:Ec;
    [now apply IH|].
  apply orb_false_iff in Ec as [_ Ec]. apply bool_decide_eq_false_1 in Ec.
  assert (Hnone : routing_plane_of sdn = None).
  { destruct (routing_plane_of sdn); [destruct Ec; eauto|reflexivity]. }
  set (g' := update_sd g pn.1 (fun sd => set_plane sd (Some pl))).
  assert (Hg' : queue_inv pl g' (q0 ++ [pn.1])).
  { destruct Hg as (Hd & Hc & Hb). split; [exact Hd|]. split.
    - intros k Hk. unfold g', update_sd, with_sds. cbn [routable_list].
      destruct (decide (k = pn.1)) as [->|Hne].
      + rewrite list_lookup_alter_eq, Hn. cbn. eauto.
      + rewrite list_lookup_alter_ne by auto. apply Hc.
        apply elem_of_app in Hk as [Hk|Hk]; [exact Hk|].
        apply list_elem_of_singleton in Hk. congruence.
    - intros k sdk. unfold g', update_sd, with_sds. cbn [routable_list plane_list].
      destruct (decide (k = pn.1)) as [->|Hne].
      + rewrite list_lookup_alter_eq, Hn. cbn. intros [= <-]. cbn. right.
        split; [reflexivity|]. apply elem_of_app. right. left.
      + rewrite list_lookup_alter_ne by auto. intros Hk. specialize (Hb k sdk Hk).
        destruct (routing_plane_of sdk) as [p|]; [|exact Hb].
        destruct Hb as [Hb|[-> Hin]]; [now left|]. right. split; [reflexivity|].
        apply elem_of_app. now left. }
  destruct (IH (q0 ++ [pn.1]) g' Hg') as [I1 I2]. split; [exact I1|].
  rewrite I2, length_app. cbn [length].
  assert (S (unassigned g') = unassigned g).
  { unfold unassigned, g', update_sd, with_sds. cbn [routable_list].
    eapply filter_alter_less; eauto. }
  lia.
Qed.

Lemma queue_inv_nil pl f : queue_inv pl f [] -> planes_linked f.
Proof.
  intros (_ & _ & Hb) h sd Hsd. specialize (Hb h sd Hsd).
  destruct (routing_plane_of sd); [|exact Hb].
  destruct Hb as [Hb|[_ Hin]]; [exact Hb|]. inversion Hin.
Qed.

Lemma propagate_loop_linked fuel pl f q :
  queue_inv pl f q -> (length q + unassigned f <= fuel)%nat ->
  planes_linked (propagate_loop fuel pl (f, q)).
Proof.
  revert f q. induction fuel as [|fuel IH]; intros f q Hq Hm.
  - destruct q; [|cbn in Hm; lia]. now apply (queue_inv_nil pl).
  - cbn [propagate_loop fst snd]. destruct q as [|h q]; [now apply (queue_inv_nil pl)|].
    destruct (entry_inv pl f q h Hq) as [Hq' Hm'].
    destruct (propagate_plane_entry pl (f, q) h) as [f' q']. cbn [fst snd] in *.
    apply IH; [exact Hq'|]. cbn [length] in Hm. lia.
Qed.

Lemma build_step_linked f h :
  planes_linked f ->
  planes_linked
    match routable_list f !! h with
    | None => f
    | Some sd =>
      match routing_plane_of sd with
      | Some _ => f
      | None =>
        let '(f, pl) := plane_alloc f in
        let f := update_sd f h (fun sd => set_plane sd (Some pl)) in
        propagate_plane f pl h
      end
    end.
Proof.
  intros Hl. destruct (routable_list f !! h) as [sd|] eqn:Hsd; [|exact Hl].
  destruct (routing_plane_of sd) eqn:Hpl; [exact Hl|].
  unfold plane_alloc, propagate_plane. set (pl := length (plane_list f)).
  set (g := update_sd _ h _).
  apply propagate_loop_linked.
  - split; [|split].
    + unfold g, update_sd, with_sds, with_planes. cbn [plane_list].
      rewrite length_app. cbn. lia.
    + intros k Hk. apply list_elem_of_singleton in Hk as ->.
      unfold g, update_sd, with_sds, with_planes. cbn [routable_list].
      rewrite list_lookup_alter_eq, Hsd. cbn. eauto.
    + intros k sdk. unfold g, update_sd, with_sds, with_planes. cbn [routable_list plane_list].
      destruct (decide (k = h)) as [->|Hne].
      * rewrite list_lookup_alter_eq, Hsd. cbn. intros [= <-]. cbn. right.
        split; [reflexivity|left].
      * rewrite list_lookup_alter_ne by auto. intros Hk. specialize (Hl k sdk Hk).
        destruct (routing_plane_of sdk) as [p|]; [|exact Hl].
        destruct Hl as (plane & Hp & Hin). left. exists plane. split; [|exact Hin].
        rewrite lookup_app_l; [exact Hp|]. now apply lookup_lt_Some in Hp.
  - cbn [length]. pose proof (unassigned_le g). lia.
Qed.

Lemma build_planes_linked walk f : planes_linked f -> planes_linked (build_planes walk f).
Proof.
  intros Hl. unfold build_planes, for_each_sd.
  rewrite (destroy_planes_linked f Hl).
  assert (H0 : planes_linked (mk_fabric (reset_plane <$> routable_list f) [])).
  { intros h sd. cbn [routable_list]. rewrite list_lookup_fmap.
    destruct (routable_list f !! h); [|discriminate]. cbn. now intros [= <-]. }
  revert H0. generalize (mk_fabric (reset_plane <$> routable_list f) []).
  induction walk as [|h walk IH]; intros g Hg; [exact Hg|].
  cbn [foldl]. apply IH. now apply build_step_linked.
Qed.

Lemma compute_costs_linked f : planes_linked f -> planes_linked (compute_costs f).
Proof.
  intros Hl h sd Hsd. specialize (Hl h sd Hsd).
  destruct (routing_plane_of sd) as [p|]; [|exact Hl].
  destruct Hl as (plane & Hp & Hin). exists (compute_cost_for_plane f plane).
  split; [|exact Hin]. unfold compute_costs, with_planes. cbn [plane_list].
  rewrite list_lookup_fmap, Hp. reflexivity.
Qed.

Lemma plane_list_process_neighbors walk f :
  plane_list (process_neighbors walk f) = plane_list f.
Proof.
  unfold process_neighbors, for_each_sd. revert f.
  induction walk as [|h walk IH]; intros f; [reflexivity|]. cbn [foldl]. rewrite IH.
  unfold process_neighbors_sd. destruct (routable_list f !! h) as [sd|]; [|reflexivity].
  generalize f. induction (fabric_lpns sd) as [|l ls IHl]; intros g; [reflexivity|].
  cbn [foldl]. rewrite IHl. destruct (get_fport_handle sd l); [|reflexivity].
  unfold process_neighbor. cbv zeta.
  destruct (routable_list _ !! h) as [sd0|]; [|reflexivity].
  destruct (port sd0 !! _); [|reflexivity].
  destruct (neighbor_candidate _ _ _); reflexivity.
Qed.

Lemma process_neighbors_linked walk f :
  planes_linked f -> planes_linked (process_neighbors walk f).
Proof.
  intros Hl h sd' Hsd'.
  pose proof (sd_rel_process_neighbors same_plane ltac:(now split) same_plane_trans
                ltac:(now split) walk f) as Hr.
  destruct (Forall2_lookup_r _ _ _ _ _ Hr Hsd') as (sd & Hsd & Hp & Hi).
  specialize (Hl h sd Hsd). rewrite Hp, Hi, plane_list_process_neighbors. exact Hl.
Qed.

Lemma topology_stages_linked f : planes_linked f -> planes_linked (topology_stages f).
Proof.
  intros Hl. unfold topology_stages.
  apply compute_costs_linked, build_planes_linked, process_neighbors_linked, Hl.
Qed.

(** *** The stages run again *)

Lemma same_but_plane_refl sd : same_but_plane sd sd.
Proof. reflexivity. Qed.

Lemma same_but_plane_wires sd sd' : same_but_plane sd sd' -> same_wires_sd sd sd'.
Proof.
  unfold same_but_plane, reset_plane. destruct sd, sd'. cbn. intros [= -> -> -> -> ->].
  split; [now repeat split|]. apply Forall_Forall2_diag, Forall_forall. intros p _.
  apply same_port_refl.
Qed.

Lemma same_but_plane_port sd sd' : same_but_plane sd sd' -> port sd' = port sd.
Proof. unfold same_but_plane, reset_plane. destruct sd, sd'. cbn. now intros [= -> -> -> -> ->]. Qed.

Lemma sd_rel_impl (R R' : fsubdev -> fsubdev -> Prop) f f' :
  (forall a b, R a b -> R' a b) -> sd_rel R f f' -> sd_rel R' f f'.
Proof. intros H H0. unfold sd_rel in *. eapply Forall2_impl; eauto. Qed.

Lemma build_costs_same_but_plane walk f :
  sd_rel same_but_plane f (compute_costs (build_planes walk f)).
Proof.
  apply (sd_rel_build_planes same_but_plane same_but_plane_refl same_but_plane_trans);
    reflexivity.
Qed.

Lemma topology_stages_walk f :
  routing_sd_walk false (topology_stages f) = routing_sd_walk false f.
Proof.
  apply walk_same_state. unfold topology_stages.
  apply (sd_rel_topology_stages same_state same_state_refl same_state_trans);
    reflexivity.
Qed.

(** The three stages have nothing left to do on the fabric they leave. *)
Lemma topology_stages_twice f :
  planes_linked f -> topology_stages (topology_stages f) = topology_stages f.
Proof.
  intros Hl. unfold topology_stages at 1. rewrite topology_stages_walk.
  set (w := routing_sd_walk false f). unfold topology_stages. fold w.
  set (f1 := process_neighbors w f). set (f3 := compute_costs (build_planes w f1)).
  pose proof (build_costs_same_but_plane w f1) as H13. fold f3 in H13.
  assert (Hw : same_wires f1 f3) by exact (sd_rel_impl _ _ _ _ same_but_plane_wires H13).
  assert (Hfix : process_neighbors w f3 = f3).
  { apply process_neighbors_fixed. intros h sd3 l i Hin Hsd3 Hlpn Hh sd3' p Hsd3' Hp.
    cbn [fst snd] in *. assert (sd3' = sd3) as -> by congruence.
    destruct (Forall2_lookup_r _ _ _ _ _ H13 Hsd3) as (sd1 & Hsd1 & Hr).
    destruct (process_neighbors_spec w f) as (S1 & _). fold f1 in S1.
    destruct (Forall2_lookup_r _ _ _ _ _ S1 Hsd1) as (sd0 & Hsd0 & Hs0).
    destruct (Forall2_lookup_l _ _ _ _ _ Hw Hsd1) as (sd3' & Hsd3'' & Hs13 & _).
    assert (sd3' = sd3) as -> by congruence.
    destruct (process_neighbors_sets w f) as (_ & Hset). fold f1 in Hset.
    assert (Hns : neighbor_set f1 (h, i)).
    { apply (Hset h sd0 l i Hin Hsd0).
      - rewrite <- (same_sd_lpns _ _ Hs0), <- (same_sd_lpns _ _ Hs13). exact Hlpn.
      - rewrite <- (same_sd_handle _ _ l Hs0), <- (same_sd_handle _ _ l Hs13). exact Hh. }
    rewrite (same_but_plane_port _ _ Hr) in Hp.
    rewrite (Hns sd1 p Hsd1 Hp). symmetry.
    apply neighbor_candidate_same; [exact Hw| |apply same_port_refl].
    now destruct Hs13 as (? & _). }
  rewrite Hfix. f_equal. unfold build_planes. f_equal.
  assert (L1 : planes_linked f1) by now apply process_neighbors_linked.
  assert (L3 : planes_linked f3) by now apply compute_costs_linked, build_planes_linked.
  rewrite (destroy_planes_linked _ L1), (destroy_planes_linked _ L3). f_equal.
  now apply same_but_plane_map.
Qed.

End TopoSpec.

(** ** The port state machine *)

Module PortSpec.
Import Port.

Ltac pcbn := cbn -[port_in_error port_activate port_arm port_isolate port_disable
  neighbor_normal set_active_health valid_neighbor test_bit link_quality fls Z.testbit].

Lemma status_alter (l : list fport_status) (i : nat) (f : fport_status -> fport_status) :
  (i < length l)%nat -> exists st, alter f i l !! i = Some (f st).
Proof.
  intros H. destruct (lookup_lt_is_Some_2 l i H) as [st Hst].
  exists st. now rewrite list_lookup_alter_eq, Hst.
Qed.

Lemma port_in_error_spec e s :
  status_in_range s ->
  in_error_red (port_in_error e s) /\
  lpn (p (port_in_error e s)) = lpn (p s) /\
  length (next_port_status (port_in_error e s)) = length (next_port_status s) /\
  length (calls (port_in_error e s)) = S (length (calls s)).
Proof.
  intros Hr. unfold status_in_range in Hr. unfold port_in_error, in_error_red, status_at.
  destruct (is_isolated (state (p s))); cbn;
    rewrite length_alter, length_app; cbn;
    (split; [split; [reflexivity|]|split; [reflexivity|split; [reflexivity|lia]]]);
    destruct (status_alter (next_port_status s) _ (set_health_red FPORT_ERROR_FAILED) Hr)
      as [st ->]; reflexivity.
Qed.

Ltac in_error_tac e :=
  match goal with
  | |- context [port_in_error e ?s] =>
      let H := fresh in
      assert (H : status_in_range s) by (unfold status_in_range in *; cbn; rewrite ?length_alter; assumption);
      destruct (port_in_error_spec e s H) as (? & ? & ? & ?)
  end.

Lemma port_disable_fail e s :
  status_in_range s -> failed (reply e (length (calls s))) = true ->
  in_error_red (port_disable e s).
Proof.
  intros Hr Hf. unfold port_disable.
  destruct (is_isolated (state (p s))); pcbn; rewrite Hf; in_error_tac e; assumption.
Qed.

Lemma port_enable_polling_fail e s :
  status_in_range s -> failed (reply e (length (calls s))) = true ->
  in_error_red (port_enable_polling e s).
Proof. intros Hr Hf. unfold port_enable_polling. pcbn. rewrite Hf. in_error_tac e; assumption. Qed.

Lemma port_isolate_fail e s :
  status_in_range s -> failed (reply e (length (calls s))) = true ->
  in_error_red (port_isolate e s).
Proof. intros Hr Hf. unfold port_isolate. pcbn. rewrite Hf. in_error_tac e; assumption. Qed.

Lemma port_deisolate_fail e s :
  status_in_range s -> failed (reply e (length (calls s))) = true ->
  in_error_red (port_deisolate e s).
Proof. intros Hr Hf. unfold port_deisolate. pcbn. rewrite Hf. in_error_tac e; assumption. Qed.

Lemma port_activate_fail e s :
  status_in_range s -> failed (reply e (length (calls s))) = true ->
  in_error_red (port_activate e s).
Proof. intros Hr Hf. unfold port_activate. pcbn. rewrite Hf. in_error_tac e; assumption. Qed.

Lemma port_arm_fail e s :
  status_in_range s -> failed (reply e (length (calls s))) = true ->
  in_error_red (port_arm e s).
Proof. intros Hr Hf. unfold port_arm. pcbn. rewrite Hf. in_error_tac e; assumption. Qed.

Lemma port_arm_activate_fail e s :
  status_in_range s -> failed (reply e (length (calls s))) = false ->
  neighbor_normal (oldr_nn_lqi (fport_portinfo (p s))) = true ->
  failed (reply e (S (length (calls s)))) = true ->
  in_error_red (port_arm e s).
Proof.
  intros Hr Hf Hn Hf2. unfold port_arm. pcbn. rewrite Hf. pcbn. rewrite Hn.
  apply port_activate_fail.
  - exact Hr.
  - cbn. rewrite length_app. cbn. now rewrite Nat.add_1_r.
Qed.

Lemma no_call_fails_to_error e s s' :
  length (calls s') = length (calls s) -> fails_to_error e s s'.
Proof. intros H k [H1 H2]. lia. Qed.

Lemma in_error_fails_to_error e s s' : in_error_red s' -> fails_to_error e s s'.
Proof. intros H k _ _. exact H. Qed.

Lemma one_call_fails_to_error e s s' :
  length (calls s') = S (length (calls s)) ->
  failed (reply e (length (calls s))) = false -> fails_to_error e s s'.
Proof.
  intros H Hf k [H1 H2] Hk. assert (k = length (calls s)) as -> by lia. congruence.
Qed.

Lemma port_in_error_fails e s : status_in_range s -> fails_to_error e s (port_in_error e s).
Proof. intros Hr. apply in_error_fails_to_error, port_in_error_spec, Hr. Qed.

Ltac one_call e s :=
  destruct (failed (reply e (length (calls s)))) eqn:Hf;
  [ apply in_error_fails_to_error
  | apply one_call_fails_to_error; [|exact Hf] ].

Lemma port_disable_fails e s : status_in_range s -> fails_to_error e s (port_disable e s).
Proof.
  intros Hr. one_call e s; [now apply port_disable_fail|].
  unfold port_disable. destruct (is_isolated (state (p s))); pcbn; rewrite Hf; pcbn;
    rewrite length_app; cbn; lia.
Qed.

Lemma port_enable_polling_fails e s :
  status_in_range s -> fails_to_error e s (port_enable_polling e s).
Proof.
  intros Hr. one_call e s; [now apply port_enable_polling_fail|].
  unfold port_enable_polling. pcbn. rewrite Hf. pcbn. rewrite length_app; cbn; lia.
Qed.

Lemma port_isolate_fails e s : status_in_range s -> fails_to_error e s (port_isolate e s).
Proof.
  intros Hr. one_call e s; [now apply port_isolate_fail|].
  unfold port_isolate. pcbn. rewrite Hf. pcbn. rewrite length_app; cbn; lia.
Qed.

Lemma port_deisolate_fails e s : status_in_range s -> fails_to_error e s (port_deisolate e s).
Proof.
  intros Hr. one_call e s; [now apply port_deisolate_fail|].
  unfold port_deisolate. pcbn. rewrite Hf. pcbn. rewrite length_app; cbn; lia.
Qed.

Lemma set_active_health_calls s : calls (set_active_health s) = calls s.
Proof. unfold set_active_health. repeat (destruct (_ : bool)); reflexivity. Qed.

Lemma port_activate_fails e s : status_in_range s -> fails_to_error e s (port_activate e s).
Proof.
  intros Hr. one_call e s; [now apply port_activate_fail|].
  unfold port_activate. pcbn. rewrite Hf. pcbn. rewrite set_active_health_calls. pcbn.
  rewrite length_app; cbn; lia.
Qed.

Lemma port_activate_calls e s :
  status_in_range s -> (length (calls s) < length (calls (port_activate e s)))%nat.
Proof.
  intros Hr. unfold port_activate. pcbn. destruct (failed _).
  - in_error_tac e. match goal with H : length (calls _) = _ |- _ => rewrite H end.
    pcbn. rewrite length_app. lia.
  - pcbn. rewrite set_active_health_calls. pcbn. rewrite length_app. cbn. lia.
Qed.

Lemma port_arm_fails e s : status_in_range s -> fails_to_error e s (port_arm e s).
Proof.
  intros Hr. destruct (failed (reply e (length (calls s)))) eqn:Hf.
  - now apply in_error_fails_to_error, port_arm_fail.
  - unfold port_arm. pcbn. rewrite Hf. pcbn.
    destruct (neighbor_normal _).
    + match goal with |- fails_to_error _ _ (port_activate e ?t) => set (s1 := t) end.
      assert (Hr1 : status_in_range s1) by exact Hr.
      intros k [H1 H2] Hk.
      destruct (decide (k = length (calls s))) as [->|Hne]; [congruence|].
      apply (port_activate_fails e s1 Hr1 k); [|exact Hk].
      split; [|exact H2]. subst s1. cbn. rewrite length_app. cbn. lia.
    + apply one_call_fails_to_error; [|exact Hf]. cbn. rewrite length_app. cbn. lia.
Qed.

Lemma port_arm_or_isolate_fails e s :
  status_in_range s -> fails_to_error e s (port_arm_or_isolate e s).
Proof.
  intros Hr. unfold port_arm_or_isolate. destruct (valid_neighbor e s);
    [now apply port_arm_fails|now apply port_isolate_fails].
Qed.

Lemma fails_to_error_shift e s0 s s' :
  calls s0 = calls s -> fails_to_error e s s' -> fails_to_error e s0 s'.
Proof. intros Hc H k Hk. apply H. unfold issued in *. now rewrite <- Hc. Qed.

Lemma in_error_red_routing_changed s : in_error_red s -> in_error_red (set_routing_changed s).
Proof. intros H. exact H. Qed.

Lemma port_rearm_fails e s : status_in_range s -> fails_to_error e s (port_rearm e s).
Proof.
  intros Hr. unfold port_rearm.
  eapply fails_to_error_shift; [|apply port_arm_fails].
  - reflexivity.
  - unfold status_in_range in *. cbn. now rewrite length_alter.
Qed.

(** Every arm of the dispatcher. *)
Lemma kick_fsm_fails e s : status_in_range s -> fails_to_error e s (kick_fsm e s).
Proof.
  intros Hr. unfold kick_fsm.
  destruct (state (p s)) eqn:Hst.
  - unfold fsm_DISABLED. destruct (enabled s);
      [now apply port_enable_polling_fails|now apply no_call_fails_to_error].
  - unfold fsm_ENABLED. destruct (enabled s); cbn [negb]; [|now apply port_disable_fails].
    destruct (log_state (p s) =? IB_PORT_DOWN); [now apply no_call_fails_to_error|].
    destruct (log_state (p s) =? IB_PORT_INIT);
      [now apply port_arm_or_isolate_fails|now apply port_in_error_fails].
  - unfold fsm_IN_ERROR. destruct (test_bit _ _); now apply no_call_fails_to_error.
  - unfold fsm_ISOLATED. destruct (enabled s); cbn [negb]; [|now apply port_disable_fails].
    destruct (deisolating (fio s));
      [now apply port_deisolate_fails|now apply no_call_fails_to_error].
  - unfold fsm_RECHECK. destruct (enabled s); cbn [negb]; [|now apply port_disable_fails].
    destruct (log_state (p s) =? IB_PORT_DOWN); [now apply no_call_fails_to_error|].
    destruct (log_state (p s) =? IB_PORT_INIT);
      [now apply port_arm_or_isolate_fails|now apply port_in_error_fails].
  - unfold fsm_INIT. destruct (enabled s); cbn [negb]; [|now apply port_disable_fails].
    destruct (log_state (p s) =? IB_PORT_DOWN); [now apply no_call_fails_to_error|].
    destruct (log_state (p s) =? IB_PORT_INIT); [now apply port_rearm_fails|].
    destruct (neighbor_normal _);
      [now apply port_activate_fails|now apply no_call_fails_to_error].
  - unfold fsm_ACTIVE. destruct (enabled s); cbn [negb]; [|now apply port_disable_fails].
    destruct (log_state (p s) =? IB_PORT_DOWN); [now apply no_call_fails_to_error|].
    destruct (log_state (p s) =? IB_PORT_INIT).
    + unfold port_rearm_active. intros k Hk Hf.
      apply in_error_red_routing_changed. apply (port_rearm_fails e s Hr k); assumption.
    + apply no_call_fails_to_error. apply (f_equal (@length _)), set_active_health_calls.
Qed.

(** C8.  When the mailbox call of a transition (disable, enable-polling,
    isolate, deisolate, arm, activate) returns an error or an operation
    error, the port ends in InError with Red health and reason FAILED; the
    same holds for whichever call of an FSM step fails, the activate inside
    an arm included.  The actions return nothing to the pass.  A port in
    InError stays there, unchanged, unless the clear-error control bit is
    set, and then it goes to Disabled. *)
Theorem failed_call_drives_in_error (e : pm_env) (s : pm) :
  status_in_range s ->
  (failed (reply e (length (calls s))) = true ->
     in_error_red (port_disable e s) /\ in_error_red (port_enable_polling e s) /\
     in_error_red (port_isolate e s) /\ in_error_red (port_deisolate e s) /\
     in_error_red (port_arm e s) /\ in_error_red (port_activate e s)) /\
  (forall k, issued s (kick_fsm e s) k -> failed (reply e k) = true ->
     in_error_red (kick_fsm e s)) /\
  (state (p s) = PM_PORT_STATE_IN_ERROR ->
     (test_bit PORT_CONTROL_CLEAR_ERROR (controls (p s)) = false -> kick_fsm e s = s) /\
     (state (p (kick_fsm e s)) <> PM_PORT_STATE_IN_ERROR ->
        test_bit PORT_CONTROL_CLEAR_ERROR (controls (p s)) = true /\
        state (p (kick_fsm e s)) = PM_PORT_STATE_DISABLED)).
Proof.
  intros Hr. split; [|split].
  - intros Hf. repeat split;
      first [ now apply port_disable_fail | now apply port_enable_polling_fail
            | now apply port_isolate_fail | now apply port_deisolate_fail
            | now apply port_arm_fail | now apply port_activate_fail ].
  - apply kick_fsm_fails, Hr.
  - intros Hst. unfold kick_fsm. rewrite Hst. unfold fsm_IN_ERROR.
    destruct (test_bit PORT_CONTROL_CLEAR_ERROR (controls (p s))) eqn:Hc.
    + split; [discriminate|]. intros _. split; reflexivity.
    + split; [reflexivity|]. intros H. congruence.
Qed.

Lemma failed_call_drives_in_error_witness :
  in_error_red (port_activate witness_env witness_pm) /\
  in_error_red (kick_fsm witness_env witness_pm).
Proof.
  assert (Hr : status_in_range witness_pm) by (vm_compute; lia).
  destruct (failed_call_drives_in_error witness_env witness_pm Hr) as (H1 & H2 & _).
  split.
  - apply H1. reflexivity.
  - apply (H2 0%nat); [vm_compute; lia | reflexivity].
Defined.

(** *** The count of isolated ports, health, controls *)


(** set_active_health writes the port's status entry and nothing else. *)
Lemma set_active_health_frame s :
  p (set_active_health s) = p s /\ fio (set_active_health s) = fio s /\
  isolated_port_cnt (set_active_health s) = isolated_port_cnt s /\
  calls (set_active_health s) = calls s.
Proof.
  unfold set_active_health, with_status.
  repeat match goal with |- context [if ?c then _ else _] => destruct c end; cbn; auto.
Qed.

(** The isolated ports counted beside the port of the step. *)
Local Abbreviation elsewhere s :=
  (isolated_port_cnt s - Z.b2z (is_isolated (state (p s)))).

Ltac act_cbn :=
  cbn [p state controls lpn log_state fport_portinfo next_port_status fio
       isolated_port_cnt calls is_isolated negb Z.b2z fst snd
       mbox atomic_dec_isolated atomic_inc_isolated with_status set_routing_changed
       set_rescan_needed set_request_deisolation set_fio set_isolated_port_cnt
       set_controls set_state].

Lemma elsewhere_in_error e s : elsewhere (port_in_error e s) = elsewhere s.
Proof. unfold port_in_error. destruct (is_isolated (state (p s))); act_cbn; lia. Qed.

Lemma elsewhere_active_health s : elsewhere (set_active_health s) = elsewhere s.
Proof. destruct (set_active_health_frame s) as (-> & _ & -> & _). reflexivity. Qed.

Section Succeed.
Context (e : pm_env) (Hok : all_succeed e).

Lemma elsewhere_disable s : elsewhere (port_disable e s) = elsewhere s.
Proof.
  unfold port_disable. destruct (is_isolated (state (p s))) eqn:E; act_cbn;
    rewrite Hok; act_cbn; lia.
Qed.

Lemma elsewhere_enable_polling s :
  is_isolated (state (p s)) = false -> elsewhere (port_enable_polling e s) = elsewhere s.
Proof. intros E. unfold port_enable_polling. act_cbn. rewrite Hok, E. act_cbn. lia. Qed.

Lemma elsewhere_isolate s :
  is_isolated (state (p s)) = false -> elsewhere (port_isolate e s) = elsewhere s.
Proof. intros E. unfold port_isolate. act_cbn. rewrite Hok, E. act_cbn. lia. Qed.

Lemma elsewhere_deisolate s :
  is_isolated (state (p s)) = true -> elsewhere (port_deisolate e s) = elsewhere s.
Proof. intros E. unfold port_deisolate. act_cbn. rewrite Hok, E. act_cbn. lia. Qed.

Lemma elsewhere_activate s :
  is_isolated (state (p s)) = false -> elsewhere (port_activate e s) = elsewhere s.
Proof.
  intros E. unfold port_activate. act_cbn. rewrite Hok, E. act_cbn.
  rewrite elsewhere_active_health. act_cbn. lia.
Qed.

Lemma elsewhere_arm s :
  is_isolated (state (p s)) = false -> elsewhere (port_arm e s) = elsewhere s.
Proof.
  intros E. unfold port_arm. act_cbn. rewrite Hok. act_cbn.
  destruct (neighbor_normal _); [rewrite elsewhere_activate by reflexivity|];
    act_cbn; rewrite E; act_cbn; lia.
Qed.

(** With every mailbox call answered without error, a step of a port's
    state machine changes the count of isolated ports by what the port
    itself adds to it. *)
Lemma elsewhere_kick_fsm s : elsewhere (kick_fsm e s) = elsewhere s.
Proof.
  unfold kick_fsm, fsm_DISABLED, fsm_ENABLED, fsm_IN_ERROR, fsm_ISOLATED, fsm_RECHECK,
    fsm_INIT, fsm_ACTIVE, port_retry_active, port_rearm_active, port_rearm, port_retry,
    port_arm_or_isolate.
  destruct (state (p s)) eqn:Est;
    repeat match goal with |- context [if ?c then _ else _] => destruct c end;
    act_cbn;
    rewrite ?elsewhere_disable, ?elsewhere_in_error, ?elsewhere_active_health,
      ?elsewhere_enable_polling, ?elsewhere_isolate, ?elsewhere_deisolate,
      ?elsewhere_activate, ?elsewhere_arm by (act_cbn; rewrite ?Est; reflexivity);
    act_cbn; rewrite ?Est; act_cbn; try reflexivity; try lia.
Qed.

Lemma isolated_ports_insert (l : list fport) (i : nat) (q q' : fport) :
  l !! i = Some q ->
  isolated_ports (<[i := q']> l) =
  isolated_ports l - Z.b2z (is_isolated (state q)) + Z.b2z (is_isolated (state q')).
Proof.
  revert i. induction l as [|a l IH]; intros [|i] H; try discriminate.
  - injection H as ->. unfold isolated_ports. cbn [foldr]. cbn. lia.
  - change (<[S i := q']> (a :: l)) with (a :: <[i := q']> l).
    unfold isolated_ports in *. cbn [foldr]. rewrite (IH i H). lia.
Qed.

Lemma kick_port_isolated sd i :
  sd_isolated_port_cnt (kick_port e sd i) - isolated_ports (port (kick_port e sd i)) =
  sd_isolated_port_cnt sd - isolated_ports (port sd).
Proof.
  unfold kick_port. destruct (port sd !! i) as [q|] eqn:Hq; [|reflexivity].
  cbn [port sd_isolated_port_cnt].
  rewrite (isolated_ports_insert _ _ q) by exact Hq.
  pose proof (elsewhere_kick_fsm
                (mk_pm q (sd_next_port_status sd) (sd_fio sd) (sd_isolated_port_cnt sd)
                       (sd_calls sd))) as H.
  cbn [p isolated_port_cnt] in H. lia.
Qed.

Lemma foldl_kick_port_isolated sd (l : list nat) :
  sd_isolated_port_cnt (foldl (kick_port e) sd l)
    - isolated_ports (port (foldl (kick_port e) sd l)) =
  sd_isolated_port_cnt sd - isolated_ports (port sd).
Proof.
  revert sd. induction l as [|i l IH]; intros sd; [reflexivity|].
  cbn [foldl]. rewrite IH. apply kick_port_isolated.
Qed.

End Succeed.
(** X4. While every mailbox call is answered without error, a pass of
    kick_fsms keeps the count of isolated ports in step with the ports of
    the subdevice: the count changes by exactly the change in the number of
    the subdevice's ports that are in ISOLATED. *)
Theorem kick_fsms_isolated_count (e : pm_env) (sd : pm_sd) :
  all_succeed e ->
  sd_isolated_port_cnt (kick_fsms e sd) - isolated_ports (port (kick_fsms e sd)) =
  sd_isolated_port_cnt sd - isolated_ports (port sd).
Proof. intros Hok. apply foldl_kick_port_isolated, Hok. Qed.

Lemma status_at_alter (l : list fport_status) (i : Z) (f : fport_status -> fport_status) :
  status_at (alter f (Z.to_nat i) l) i = f <$> status_at l i.
Proof. unfold status_at. apply list_lookup_alter_eq. Qed.

Lemma status_at_alter_ne (l : list fport_status) (i j : Z) (f : fport_status -> fport_status) :
  Z.to_nat j <> Z.to_nat i ->
  status_at (alter f (Z.to_nat i) l) j = status_at l j.
Proof. intros H. unfold status_at. now apply list_lookup_alter_ne. Qed.

(** X5. set_active_health classifies an active port from its portinfo
    alone.  The port's unpublished status becomes GREEN with no issue when
    the link quality indicator is at least 4, the active link width reaches
    the enabled one (by highest set bit) with both downgrade widths equal
    to it, and the active link speed is not above the enabled one (by
    highest set bit); otherwise it becomes YELLOW with exactly the issue
    bits LQI, LWD and RATE of the tests that failed.  The error reason is
    cleared, the issues recorded before are forgotten, and no other entry
    of the status array changes. *)
Theorem set_active_health_classifies (s : pm) :
  status_in_range s ->
  let pi := fport_portinfo (p s) in
  let lqi := link_quality (oldr_nn_lqi pi) <? 4 in
  let lwd := (fls (link_width_active pi) <? fls (link_width_enabled pi))
             || negb (link_width_downgrade_rx_active pi =? link_width_active pi)
             || negb (link_width_downgrade_tx_active pi =? link_width_active pi) in
  let rate := fls (link_speed_enabled pi) <? fls (link_speed_active pi) in
  let s' := set_active_health s in
  status_at (next_port_status s') (lpn (p s)) =
    Some (mk_status (if lqi || lwd || rate then FPORT_HEALTH_YELLOW else FPORT_HEALTH_GREEN)
                    (Z.b2z lqi + 2 * Z.b2z lwd + 4 * Z.b2z rate) FPORT_ERROR_NONE) /\
  (forall l, Z.to_nat l <> Z.to_nat (lpn (p s)) ->
             status_at (next_port_status s') l = status_at (next_port_status s) l) /\
  length (next_port_status s') = length (next_port_status s).
Proof.
  intros Hr pi lqi lwd rate s'. subst s'. unfold set_active_health. fold pi.
  change (link_quality (oldr_nn_lqi pi) <? 4) with lqi.
  change ((fls (link_width_active pi) <? fls (link_width_enabled pi))
          || negb (link_width_downgrade_rx_active pi =? link_width_active pi)
          || negb (link_width_downgrade_tx_active pi =? link_width_active pi)) with lwd.
  change (fls (link_speed_enabled pi) <? fls (link_speed_active pi)) with rate.
  destruct (lookup_lt_is_Some_2 _ _ Hr) as [st Hst]. fold (status_at (next_port_status s) (lpn (p s))) in Hst.
  destruct lqi, lwd, rate; unfold with_status; act_cbn;
    rewrite ?status_at_alter, Hst, ?length_alter;
    (split; [reflexivity|split; [|reflexivity]]);
    intros l Hl; rewrite ?status_at_alter_ne by exact Hl; reflexivity.
Qed.

Lemma set_active_health_classifies_witness :
  status_at (next_port_status (set_active_health witness_pm)) 1 =
  Some (mk_status FPORT_HEALTH_GREEN 0 FPORT_ERROR_NONE).
Proof.
  destruct (set_active_health_classifies witness_pm) as (H & _).
  - vm_compute. lia.
  - exact H.
Defined.

Lemma kick_fsms_isolated_count_witness :
  let e := mk_env 0xA 0 (fun _ => None) false false (fun _ => (0, 0)) in
  let sd := mk_pm_sd [mk_fport (mk_portinfo 0xB 1 8 8 8 8 8 8 0xB0) PM_PORT_STATE_ENABLED 3 1
                               IB_PORT_INIT]
                     (replicate 13 (mk_status FPORT_HEALTH_BLACK 0 FPORT_ERROR_NONE))
                     (mk_fio false false false false) 0 [] in
  sd_isolated_port_cnt (kick_fsms e sd) - isolated_ports (port (kick_fsms e sd)) =
  sd_isolated_port_cnt sd - isolated_ports (port sd).
Proof.
  intros e sd. apply (kick_fsms_isolated_count e sd). intros k. reflexivity.
Defined.

(** X6. A port whose ENABLED control is clear is taken out of service by
    the next step of its state machine from every state but DISABLED and
    IN_ERROR: when the one mailbox call the step makes (physical state
    DISABLED) succeeds, the port is DISABLED, its unpublished health is
    BLACK with no issue and no error, a routing change is requested, and
    the count of isolated ports goes down by one exactly when the port was
    ISOLATED. *)
Theorem cleared_enable_disables (e : pm_env) (s : pm) :
  enabled s = false ->
  state (p s) <> PM_PORT_STATE_DISABLED -> state (p s) <> PM_PORT_STATE_IN_ERROR ->
  failed (reply e (length (calls s))) = false ->
  status_in_range s ->
  let s' := kick_fsm e s in
  state (p s') = PM_PORT_STATE_DISABLED /\
  calls s' = calls s ++ [ops_linkmgr_port_maj_phystate_set (lpn (p s)) IB_PORT_PHYS_DISABLED] /\
  status_at (next_port_status s') (lpn (p s)) =
    Some (mk_status FPORT_HEALTH_BLACK 0 FPORT_ERROR_NONE) /\
  routing_changed (fio s') = true /\
  isolated_port_cnt s' = isolated_port_cnt s - Z.b2z (is_isolated (state (p s))).
Proof.
  intros He Hd Hi Hf Hr s'. subst s'.
  destruct (lookup_lt_is_Some_2 _ _ Hr) as [st Hst].
  fold (status_at (next_port_status s) (lpn (p s))) in Hst.
  assert (H : kick_fsm e s = port_disable e s).
  { unfold kick_fsm, fsm_ENABLED, fsm_ISOLATED, fsm_RECHECK, fsm_INIT, fsm_ACTIVE.
    rewrite He. destruct (state (p s)); try reflexivity; contradiction. }
  rewrite H. unfold port_disable.
  destruct (is_isolated (state (p s))); act_cbn; rewrite Hf; act_cbn;
    rewrite status_at_alter, Hst; repeat split; lia.
Qed.

Lemma cleared_enable_disables_witness :
  let e := mk_env 0xA 0 (fun _ => None) false false (fun _ => (0, 0)) in
  let s := mk_pm (mk_fport (mk_portinfo 0xB 1 8 8 8 8 8 8 0xB0) PM_PORT_STATE_ACTIVE 2 1
                           IB_PORT_ACTIVE)
                 (replicate 13 (mk_status FPORT_HEALTH_GREEN 0 FPORT_ERROR_NONE))
                 (mk_fio false false false false) 0 [] in
  state (p (kick_fsm e s)) = PM_PORT_STATE_DISABLED /\
  calls (kick_fsm e s) = [ops_linkmgr_port_maj_phystate_set 1 IB_PORT_PHYS_DISABLED] /\
  routing_changed (fio (kick_fsm e s)) = true.
Proof.
  intros e s.
  destruct (cleared_enable_disables e s) as (H1 & H2 & _ & H4 & _).
  - reflexivity.
  - discriminate.
  - discriminate.
  - reflexivity.
  - vm_compute. lia.
  - split; [exact H1|]. split; [exact H2|exact H4].
Defined.

(** X7. When the mailbox call that disables or deisolates an ISOLATED
    port fails, the port goes to IN_ERROR and the count of isolated ports
    goes down by two: once in port_disable or port_deisolate before the
    call, and once more in port_in_error, which still finds the port in
    ISOLATED. *)
Theorem isolated_failure_counted_twice (e : pm_env) (s : pm) :
  state (p s) = PM_PORT_STATE_ISOLATED ->
  enabled s = false \/ deisolating (fio s) = true ->
  failed (reply e (length (calls s))) = true ->
  let s' := kick_fsm e s in
  state (p s') = PM_PORT_STATE_IN_ERROR /\
  isolated_port_cnt s' = isolated_port_cnt s - 2.
Proof.
  intros Hst Hc Hf s'. subst s'. unfold kick_fsm, fsm_ISOLATED. rewrite Hst.
  unfold port_disable, port_deisolate, port_in_error. rewrite Hst.
  destruct (enabled s); cbn [negb]; [destruct Hc as [Hc|Hc]; [discriminate|]; rewrite Hc|];
    act_cbn; rewrite Hf; act_cbn; rewrite Hst; act_cbn; split; (reflexivity || lia).
Qed.

Lemma isolated_failure_counted_twice_witness :
  let s := mk_pm (mk_fport (mk_portinfo 0xA 1 8 8 8 8 8 8 0xB0) PM_PORT_STATE_ISOLATED 2 1
                           IB_PORT_DOWN)
                 (replicate 13 (mk_status FPORT_HEALTH_RED 0 FPORT_ERROR_ISOLATED))
                 (mk_fio false false false false) 1 [] in
  state (p (kick_fsm witness_env s)) = PM_PORT_STATE_IN_ERROR /\
  isolated_port_cnt (kick_fsm witness_env s) = -1.
Proof.
  intros s. apply (isolated_failure_counted_twice witness_env s).
  - reflexivity.
  - left. reflexivity.
  - reflexivity.
Defined.

(** What the state machine reads of a port and does not write. *)
Local Abbreviation wiring q := (fport_portinfo q, lpn q, log_state q, controls q).

Lemma wiring_in_error e s : wiring (p (port_in_error e s)) = wiring (p s).
Proof. unfold port_in_error. destruct (is_isolated _); reflexivity. Qed.

Ltac wiring_tac e :=
  act_cbn;
  repeat match goal with
         | |- context [if ?c then _ else _] => destruct c
         end;
  rewrite ?wiring_in_error; act_cbn;
  rewrite ?(proj1 (set_active_health_frame _)); reflexivity.

Lemma wiring_disable e s : wiring (p (port_disable e s)) = wiring (p s).
Proof. unfold port_disable. wiring_tac e. Qed.
Lemma wiring_enable_polling e s : wiring (p (port_enable_polling e s)) = wiring (p s).
Proof. unfold port_enable_polling. wiring_tac e. Qed.
Lemma wiring_isolate e s : wiring (p (port_isolate e s)) = wiring (p s).
Proof. unfold port_isolate. wiring_tac e. Qed.
Lemma wiring_deisolate e s : wiring (p (port_deisolate e s)) = wiring (p s).
Proof. unfold port_deisolate. wiring_tac e. Qed.
Lemma wiring_activate e s : wiring (p (port_activate e s)) = wiring (p s).
Proof. unfold port_activate. wiring_tac e. Qed.
Lemma wiring_arm e s : wiring (p (port_arm e s)) = wiring (p s).
Proof.
  unfold port_arm. act_cbn.
  repeat match goal with |- context [if ?c then _ else _] => destruct c end;
    rewrite ?wiring_in_error, ?wiring_activate; reflexivity.
Qed.

Lemma wiring_kick_fsm e s :
  let q := p s in let q' := p (kick_fsm e s) in
  fport_portinfo q' = fport_portinfo q /\ lpn q' = lpn q /\ log_state q' = log_state q /\
  (controls q' = controls q \/
   state q = PM_PORT_STATE_IN_ERROR /\ state q' = PM_PORT_STATE_DISABLED /\
   controls q' = clear_bit PORT_CONTROL_CLEAR_ERROR (controls q)).
Proof.
  cbv zeta.
  assert (H : forall s', wiring (p s') = wiring (p s) ->
    fport_portinfo (p s') = fport_portinfo (p s) /\ lpn (p s') = lpn (p s) /\
    log_state (p s') = log_state (p s) /\
    (controls (p s') = controls (p s) \/
     state (p s) = PM_PORT_STATE_IN_ERROR /\ state (p s') = PM_PORT_STATE_DISABLED /\
     controls (p s') = clear_bit PORT_CONTROL_CLEAR_ERROR (controls (p s)))).
  { intros s' E. injection E as -> -> -> ->. auto. }
  unfold kick_fsm, fsm_DISABLED, fsm_ENABLED, fsm_IN_ERROR, fsm_ISOLATED, fsm_RECHECK,
    fsm_INIT, fsm_ACTIVE, port_retry_active, port_rearm_active, port_rearm, port_retry,
    port_arm_or_isolate.
  destruct (state (p s)) eqn:Est;
    repeat match goal with |- context [if ?c then _ else _] => destruct c end;
    try (apply H; act_cbn;
         rewrite ?wiring_disable, ?wiring_in_error, ?wiring_enable_polling, ?wiring_isolate,
           ?wiring_deisolate, ?wiring_activate, ?wiring_arm,
           ?(proj1 (set_active_health_frame _)); reflexivity).
  act_cbn. repeat split. right. auto.
Qed.

Lemma same_wiring_refl q : same_wiring q q.
Proof. unfold same_wiring. auto. Qed.

Lemma same_wiring_trans q1 q2 q3 : same_wiring q1 q2 -> same_wiring q2 q3 -> same_wiring q1 q3.
Proof.
  intros (A1 & A2 & A3 & A4) (B1 & B2 & B3 & B4). unfold same_wiring.
  repeat split; try congruence. intros b Hb Hn. now rewrite B4, A4.
Qed.

Lemma test_clear_bit (n b c : Z) :
  0 <= n -> 0 <= b -> b <> n -> test_bit b (clear_bit n c) = test_bit b c.
Proof.
  intros Hn Hb Hne. unfold test_bit, clear_bit.
  rewrite Z.ldiff_spec, Z.shiftl_spec by lia.
  replace (Z.testbit 1 (b - n)) with false; [now rewrite andb_true_r|].
  destruct (Z.ltb_spec b n) as [Hlt|Hge]; [now rewrite Z.testbit_neg_r by lia|].
  symmetry. apply (Z.bits_above_log2 1 (b - n)); [lia|]. cbn. lia.
Qed.

Lemma same_wiring_kick_fsm e s : same_wiring (p s) (p (kick_fsm e s)).
Proof.
  destruct (wiring_kick_fsm e s) as (H1 & H2 & H3 & H4). unfold same_wiring.
  repeat split; try assumption. intros b Hb Hn.
  destruct H4 as [->|(_ & _ & ->)]; [reflexivity|].
  apply test_clear_bit; [unfold PORT_CONTROL_CLEAR_ERROR; lia|assumption..].
Qed.

Lemma kick_port_same_wiring e sd j :
  length (port (kick_port e sd j)) = length (port sd) /\
  forall i q, port sd !! i = Some q ->
    exists q', port (kick_port e sd j) !! i = Some q' /\ same_wiring q q'.
Proof.
  unfold kick_port. destruct (port sd !! j) as [qj|] eqn:Hj.
  - cbn [port]. rewrite length_insert. split; [reflexivity|]. intros i q Hi.
    destruct (decide (i = j)) as [->|Hne].
    + rewrite list_lookup_insert_eq by (eapply lookup_lt_Some; eassumption).
      eexists; split; [reflexivity|].
      assert (q = qj) as -> by congruence.
      apply (same_wiring_kick_fsm e (mk_pm qj _ _ _ _)).
    + rewrite list_lookup_insert_ne by congruence.
      exists q. split; [assumption|apply same_wiring_refl].
  - split; [reflexivity|]. intros i q Hi. exists q. split; [assumption|apply same_wiring_refl].
Qed.

Lemma foldl_kick_port_same_wiring e (l : list nat) sd :
  length (port (foldl (kick_port e) sd l)) = length (port sd) /\
  forall i q, port sd !! i = Some q ->
    exists q', port (foldl (kick_port e) sd l) !! i = Some q' /\ same_wiring q q'.
Proof.
  revert sd. induction l as [|j l IH]; intros sd.
  - split; [reflexivity|]. intros i q Hi. exists q. split; [assumption|apply same_wiring_refl].
  - cbn [foldl]. destruct (IH (kick_port e sd j)) as [IH1 IH2].
    destruct (kick_port_same_wiring e sd j) as [K1 K2].
    split; [congruence|]. intros i q Hi.
    destruct (K2 i q Hi) as (q1 & Hq1 & R1). destruct (IH2 i q1 Hq1) as (q2 & Hq2 & R2).
    exists q2. split; [assumption|]. eapply same_wiring_trans; eassumption.
Qed.

(** X8. A pass of kick_fsms over a subdevice keeps every port in its place
    in the port array with its logical port number, portinfo and logical
    state as read, and writes no control bit but CLEAR_ERROR: the ENABLED
    and ROUTABLE controls are left to their owners whatever the mailbox
    answers. *)
Theorem kick_fsms_keeps_ports (e : pm_env) (sd : pm_sd) :
  length (port (kick_fsms e sd)) = length (port sd) /\
  forall i q, port sd !! i = Some q ->
    exists q', port (kick_fsms e sd) !! i = Some q' /\
      fport_portinfo q' = fport_portinfo q /\ lpn q' = lpn q /\
      log_state q' = log_state q /\
      test_bit PORT_CONTROL_ENABLED (controls q') = test_bit PORT_CONTROL_ENABLED (controls q) /\
      test_bit PORT_CONTROL_ROUTABLE (controls q') = test_bit PORT_CONTROL_ROUTABLE (controls q).
Proof.
  destruct (foldl_kick_port_same_wiring e (seq 0 (length (port sd))) sd) as [H1 H2].
  split; [exact H1|]. intros i q Hi. destruct (H2 i q Hi) as (q' & Hq' & A & B & C & D).
  exists q'. repeat split; try assumption; apply D; unfold PORT_CONTROL_ENABLED,
    PORT_CONTROL_ROUTABLE, PORT_CONTROL_CLEAR_ERROR; lia.
Qed.

End PortSpec.
(** ** The mailbox *)

Module MbdbSpec.
Import Cw Mbdb.

Ltac mb_simpl :=
  cbn [stopping polling_mode hz pending_new_seq outbox_sem outbox_seqno inbox_seqno inbox_tid ibox_list iboxes next_ibox counters outbox_empty_bit inbox_full_bit gp_inbox_cw outbox_written partner_set traps jiffies
       set_stopping set_polling_mode set_hz set_pending_new_seq set_outbox_sem set_outbox_seqno set_inbox_seqno set_inbox_tid set_ibox_list set_iboxes
       set_next_ibox set_counters set_outbox_empty_bit set_inbox_full_bit set_gp_inbox_cw set_outbox_written set_partner_set set_traps set_jiffies
       up count mbdb_int_partner_set_wr outbox_write outbox_signal mbdb_ibox_release fst snd].

Ltac mb_simpl_in H :=
  cbn [stopping polling_mode hz pending_new_seq outbox_sem outbox_seqno inbox_seqno inbox_tid ibox_list iboxes next_ibox counters outbox_empty_bit inbox_full_bit gp_inbox_cw outbox_written partner_set traps jiffies
       set_stopping set_polling_mode set_hz set_pending_new_seq set_outbox_sem set_outbox_seqno set_inbox_seqno set_inbox_tid set_ibox_list set_iboxes
       set_next_ibox set_counters set_outbox_empty_bit set_inbox_full_bit set_gp_inbox_cw set_outbox_written set_partner_set set_traps set_jiffies
       up count mbdb_int_partner_set_wr outbox_write outbox_signal mbdb_ibox_release fst snd] in H.

Lemma find_and_unlink_none f l l' :
  find_and_unlink f l = (None, l') -> l' = l /\ forall a, a ∈ l -> f a = false.
Proof.
  revert l'. induction l as [|a l IH]; intros l' H; simpl in H.
  - injection H as <-. split; [reflexivity|]. intros a Ha. inversion Ha.
  - destruct (f a) eqn:Hf; [discriminate|].
    destruct (find_and_unlink f l) as [r l''] eqn:E. injection H as -> <-.
    destruct (IH _ eq_refl) as [-> Hall]. split; [reflexivity|].
    intros b Hb. apply elem_of_cons in Hb as [->|Hb]; auto.
Qed.

Lemma find_and_unlink_some f l l' a :
  find_and_unlink f l = (Some a, l') ->
  exists l1 l2, l = l1 ++ a :: l2 /\ l' = l1 ++ l2 /\ f a = true /\
                forall b, b ∈ l1 -> f b = false.
Proof.
  revert l'. induction l as [|b l IH]; intros l' H; simpl in H; [discriminate|].
  destruct (f b) eqn:Hf.
  - injection H as -> <-. exists [], l. repeat split; auto. intros c Hc. inversion Hc.
  - destruct (find_and_unlink f l) as [r l''] eqn:E. injection H as -> <-.
    destruct (IH _ eq_refl) as (l1 & l2 & -> & -> & Ha & Hall).
    exists (b :: l1), l2. repeat split; auto.
    intros c Hc. apply elem_of_cons in Hc as [->|Hc]; auto.
Qed.

Lemma find_and_unlink_sub f l r l' :
  find_and_unlink f l = (r, l') -> forall b, b ∈ l' -> b ∈ l.
Proof.
  destruct r as [a|]; intros H b Hb.
  - destruct (find_and_unlink_some _ _ _ _ H) as (l1 & l2 & -> & -> & _).
    rewrite elem_of_app in *. rewrite elem_of_cons. tauto.
  - destruct (find_and_unlink_none _ _ _ H) as [-> _]. exact Hb.
Qed.

Lemma filter_ne_absent (a : nat) (l : list nat) :
  a ∉ l -> filter (fun b => b <> a) l = l.
Proof.
  induction l as [|b l IH]; intros H; [reflexivity|].
  rewrite not_elem_of_cons in H. destruct H as [Hne Hl].
  rewrite filter_cons_True by congruence. now rewrite IH.
Qed.

Lemma find_and_unlink_nodup f l l' a :
  NoDup l -> find_and_unlink f l = (Some a, l') ->
  a ∈ l /\ (a ∉ l') /\ l' = filter (fun b => b <> a) l.
Proof.
  intros Hnd H. destruct (find_and_unlink_some _ _ _ _ H) as (l1 & l2 & -> & -> & _ & _).
  apply NoDup_app in Hnd as (Hn1 & Hdis & Hn2). apply NoDup_cons in Hn2 as [Ha2 Hn2].
  assert (Ha1 : a ∉ l1). { intros Hin. apply (Hdis a Hin). apply list_elem_of_here. }
  split; [|split].
  - apply elem_of_app. right. apply list_elem_of_here.
  - rewrite elem_of_app. tauto.
  - rewrite filter_app, filter_cons_False by tauto.
    now rewrite !filter_ne_absent.
Qed.

Lemma response_not_read_timeout cw :
  mbdb_mbox_msg_type cw = msg_type_val MBOX_RESPONSE -> (cw =? 2 ^ 64 - 1) = false.
Proof.
  intros H. destruct (Z.eqb_spec cw (2 ^ 64 - 1)) as [->|]; [|reflexivity].
  vm_compute in H. discriminate.
Qed.

Lemma mbdb_find_ibox_list tid op m :
  mbdb_find_ibox tid op m =
    ((find_and_unlink (ibox_matches m tid op) (ibox_list m)).1,
     set_ibox_list (find_and_unlink (ibox_matches m tid op) (ibox_list m)).2 m).
Proof. unfold mbdb_find_ibox. now destruct (find_and_unlink _ _). Qed.

(** The worker never links a record. *)
Lemma inbox_fn_list_sub m b : b ∈ ibox_list (mbdb_inbox_full_fn m) -> b ∈ ibox_list m.
Proof.
  unfold mbdb_inbox_full_fn.
  destruct (polling_mode m && negb (inbox_full_bit m)); [auto|].
  destruct (gp_inbox_cw m =? 2 ^ 64 - 1); [auto|]. cbv zeta.
  destruct (mbdb_mbox_msg_type (gp_inbox_cw m) =? msg_type_val MBOX_RESPONSE).
  - rewrite mbdb_find_ibox_list.
    match goal with |- context [find_and_unlink ?f ?l] =>
      pose proof (find_and_unlink_sub f l) as Hsub; destruct (find_and_unlink f l) as [r l'] end.
    specialize (Hsub r l' eq_refl b). cbn [fst snd].
    destruct r as [a|].
    + unfold mbdb_seq_reset, release_pending_new_seq, mbdb_int_ack_wr.
      repeat match goal with |- context [if ?c then _ else _] => destruct c end; cbn; intros H;
        apply Hsub in H; exact H.
    + unfold mbdb_ibox_handle_unmatched.
      repeat match goal with |- context [if ?c then _ else _] => destruct c end; cbn; intros H;
        apply Hsub in H; exact H.
  - unfold mbdb_ibox_handle_unmatched.
    repeat match goal with |- context [if ?c then _ else _] => destruct c end; cbn; auto.
Qed.

Lemma deliver_list_sub cws m b : b ∈ ibox_list (foldl deliver m cws) -> b ∈ ibox_list m.
Proof.
  revert m. induction cws as [|cw cws IH]; intros m H; [exact H|].
  simpl in H. apply IH in H. unfold deliver in H. apply inbox_fn_list_sub in H. exact H.
Qed.

Lemma mbdb_find_ibox_elem tid op m a :
  (mbdb_find_ibox tid op m).1 = Some a -> a ∈ ibox_list m.
Proof.
  rewrite mbdb_find_ibox_list. cbn [fst].
  destruct (find_and_unlink _ _) as [r l'] eqn:E. cbn. intros ->.
  destruct (find_and_unlink_some _ _ _ _ E) as (l1 & l2 & -> & _).
  apply elem_of_app. right. apply list_elem_of_here.
Qed.

(** C6.  A received response is handed to at most one waiter.  When a
    record on the pending list has its transaction id and opcode,
    mbdb_find_ibox unlinks that record, the response is stored in it and
    in no other record, nothing is counted as unmatched, and no later
    message, whatever its transaction id and opcode, finds the record
    again.  When no record matches, UNMATCHED_RESPONSES goes up by one,
    the list and the records are as they were, and a trap opcode sets the
    trigger of its handler. *)
Theorem response_delivered_once (m : mbdb) (cw : Z) :
  mbdb_mbox_msg_type cw = msg_type_val MBOX_RESPONSE ->
  NoDup (ibox_list m) ->
  let m' := deliver m cw in
  let op_code := mbdb_mbox_op_code cw in
  match (mbdb_find_ibox (mbdb_mbox_tid cw) op_code m).1 with
  | Some a =>
    ibox_matches m (mbdb_mbox_tid cw) op_code a = true /\
    a ∈ ibox_list m /\
    ibox_list m' = filter (fun b => b <> a) (ibox_list m) /\
    (exists seq_no_error, iboxes m' = alter (ibox_complete cw seq_no_error) a (iboxes m)) /\
    (forall b, b <> a -> iboxes m' !! b = iboxes m !! b) /\
    counters m' UNMATCHED_RESPONSES = counters m UNMATCHED_RESPONSES /\
    traps m' = traps m /\
    (forall cws tid op, (mbdb_find_ibox tid op (foldl deliver m' cws)).1 <> Some a)
  | None =>
    counters m' UNMATCHED_RESPONSES = counters m UNMATCHED_RESPONSES + 1 /\
    ibox_list m' = ibox_list m /\
    iboxes m' = iboxes m /\
    traps m' = traps (mbdb_ibox_handle_unmatched op_code m) /\
    (op_code = MBOX_OP_CODE_LINK_MGR_PORT_STATE_CHANGE_TRAP_NOTIFICATION ->
       traps m' = traps m ++ [PSC_TRAP]) /\
    (op_code = MBOX_OP_CODE_LINK_MGR_PORT_LWD_TRAP_NOTIFICATION ->
       traps m' = traps m ++ [LWD_TRAP]) /\
    (op_code = MBOX_OP_CODE_LINK_MGR_PORT_LQI_TRAP_NOTIFICATION ->
       traps m' = traps m ++ [LQI_TRAP]) /\
    (op_code = MBOX_OP_CODE_QSFP_MGR_FAULT_TRAP_NOTIFICATION ->
       traps m' = traps m ++ [QSFP_FAULT_TRAP])
  end.
Proof.
  intros Hty Hnd m' op_code. subst m'.
  unfold deliver, mbdb_inbox_full_fn.
  cbn [polling_mode inbox_full_bit gp_inbox_cw set_gp_inbox_cw set_inbox_full_bit].
  rewrite andb_false_r, (response_not_read_timeout _ Hty). cbv zeta.
  rewrite Hty, Z.eqb_refl.
  rewrite !mbdb_find_ibox_list. cbn [fst snd].
  change (ibox_matches ?x (mbdb_mbox_tid cw) (mbdb_mbox_op_code cw))
    with (ibox_matches m (mbdb_mbox_tid cw) (mbdb_mbox_op_code cw)).
  cbn [ibox_list set_inbox_seqno mbdb_int_ack_wr set_inbox_full_bit set_gp_inbox_cw].
  fold op_code.
  change (ibox_list (mbdb_int_ack_wr S_INT_STATUS_INBOX_FULL ?x)) with (ibox_list m).
  destruct (find_and_unlink (ibox_matches m (mbdb_mbox_tid cw) op_code) (ibox_list m))
    as [[a|] l'] eqn:E; cbn [fst snd].
  - destruct (find_and_unlink_some _ _ _ _ E) as (l1 & l2 & _ & _ & Hm & _).
    destruct (find_and_unlink_nodup _ _ _ _ Hnd E) as (Hin & Hnin & Hl').
    assert (Hlist : forall x, ibox_list x = l' ->
                    forall cws tid op, (mbdb_find_ibox tid op (foldl deliver x cws)).1 <> Some a).
    { intros x Hx cws tid op Hf. apply mbdb_find_ibox_elem, deliver_list_sub in Hf.
      rewrite Hx in Hf. contradiction. }
    split; [exact Hm|]. split; [exact Hin|].
    unfold mbdb_seq_reset, release_pending_new_seq.
    repeat match goal with |- context [if ?c then _ else _] => destruct c end;
      cbn; (split; [exact Hl'|]); (split; [eexists; reflexivity|]);
      (split; [intros b Hb; now rewrite lookup_alter_ne by congruence|]);
      (split; [try reflexivity; now destruct (decide _)|]);
      (split; [reflexivity|]); apply Hlist; reflexivity.
  - destruct (find_and_unlink_none _ _ _ E) as [-> _]. clearbody op_code.
    unfold mbdb_ibox_handle_unmatched.
    repeat match goal with |- context [if ?c then _ else _] => destruct c eqn:? end;
      cbn; rewrite ?decide_True by reflexivity;
      repeat split; try reflexivity; intros Hop; exfalso; rewrite Hop in *;
      repeat match goal with
             | H : (_ =? _) = _ |- _ => vm_compute in H; try discriminate H; clear H
             end.
Qed.


(** *** A call that is never answered *)



(** What the worker leaves alone, and what it does to the semaphore. *)
Lemma inbox_fn_frame m :
  let m' := mbdb_inbox_full_fn m in
  stopping m' = stopping m /\ hz m' = hz m /\ jiffies m' = jiffies m /\
  next_ibox m' = next_ibox m /\
  counters m' TIMEDOUT_RESPONSES = counters m TIMEDOUT_RESPONSES /\
  (outbox_sem m' + b2n (pending_new_seq m') = outbox_sem m + b2n (pending_new_seq m))%nat /\
  (pending_new_seq m = false -> pending_new_seq m' = false).
Proof.
  unfold mbdb_inbox_full_fn.
  destruct (polling_mode m && negb (inbox_full_bit m)); [cbn; tauto|].
  destruct (gp_inbox_cw m =? 2 ^ 64 - 1); [cbn; tauto|]. cbv zeta.
  destruct (mbdb_mbox_msg_type (gp_inbox_cw m) =? msg_type_val MBOX_RESPONSE).
  - rewrite mbdb_find_ibox_list.
    destruct (find_and_unlink _ _) as [[a|] l']; cbn [fst snd].
    + unfold mbdb_seq_reset, release_pending_new_seq.
      repeat match goal with |- context [if ?c then _ else _] => destruct c eqn:? end;
        cbn in *; repeat split; try reflexivity; try congruence; try lia;
        try (destruct (pending_new_seq m); cbn in *; congruence || lia).
    + unfold mbdb_ibox_handle_unmatched.
      repeat match goal with |- context [if ?c then _ else _] => destruct c end;
        cbn; repeat split; try reflexivity; auto.
  - unfold mbdb_ibox_handle_unmatched.
    repeat match goal with |- context [if ?c then _ else _] => destruct c end;
      cbn; repeat split; try reflexivity; auto.
Qed.

Lemma answers_lookup m m' a cw :
  iboxes m' !! a = iboxes m !! a -> answers m' a cw = answers m a cw.
Proof. intros H. unfold answers, ibox_matches. now rewrite H. Qed.

(** A message that does not answer [a] leaves [a] linked and untouched. *)
Lemma inbox_fn_keeps m a :
  a ∈ ibox_list m -> answers m a (gp_inbox_cw m) = false ->
  a ∈ ibox_list (mbdb_inbox_full_fn m) /\
  iboxes (mbdb_inbox_full_fn m) !! a = iboxes m !! a.
Proof.
  intros Hin Hans. unfold mbdb_inbox_full_fn.
  destruct (polling_mode m && negb (inbox_full_bit m)); [auto|].
  destruct (gp_inbox_cw m =? 2 ^ 64 - 1); [auto|]. cbv zeta.
  unfold answers in Hans.
  destruct (mbdb_mbox_msg_type (gp_inbox_cw m) =? msg_type_val MBOX_RESPONSE).
  - simpl in Hans. rewrite mbdb_find_ibox_list.
    change (ibox_matches ?x (mbdb_mbox_tid (gp_inbox_cw m)) (mbdb_mbox_op_code (gp_inbox_cw m)))
      with (ibox_matches m (mbdb_mbox_tid (gp_inbox_cw m)) (mbdb_mbox_op_code (gp_inbox_cw m))).
    change (ibox_list (set_inbox_seqno ?v (mbdb_int_ack_wr S_INT_STATUS_INBOX_FULL m)))
      with (ibox_list m).
    destruct (find_and_unlink _ _) as [[b|] l'] eqn:E; cbn [fst snd].
    + destruct (find_and_unlink_some _ _ _ _ E) as (l1 & l2 & Hl & -> & Hb & _).
      assert (Hne : b <> a) by (intros ->; congruence).
      assert (Hin' : a ∈ l1 ++ l2).
      { rewrite Hl in Hin. rewrite elem_of_app in *. rewrite elem_of_cons in Hin.
        destruct Hin as [?|[?|?]]; [tauto|congruence|tauto]. }
      unfold mbdb_seq_reset, release_pending_new_seq.
      repeat match goal with |- context [if ?c then _ else _] => destruct c end;
        cbn; (split; [exact Hin'|]); now rewrite lookup_alter_ne.
    + destruct (find_and_unlink_none _ _ _ E) as [-> _].
      unfold mbdb_ibox_handle_unmatched.
      repeat match goal with |- context [if ?c then _ else _] => destruct c end; cbn; auto.
  - unfold mbdb_ibox_handle_unmatched.
    repeat match goal with |- context [if ?c then _ else _] => destruct c end; cbn; auto.
Qed.

Lemma deliver_frame m cw :
  let m' := deliver m cw in
  stopping m' = stopping m /\ hz m' = hz m /\ jiffies m' = jiffies m /\
  next_ibox m' = next_ibox m /\
  counters m' TIMEDOUT_RESPONSES = counters m TIMEDOUT_RESPONSES /\
  (outbox_sem m' + b2n (pending_new_seq m') = outbox_sem m + b2n (pending_new_seq m))%nat /\
  (pending_new_seq m = false -> pending_new_seq m' = false).
Proof. exact (inbox_fn_frame (set_gp_inbox_cw cw (set_inbox_full_bit true m))). Qed.

Lemma deliver_unanswered cws m a :
  a ∈ ibox_list m -> Forall (fun cw => answers m a cw = false) cws ->
  let m' := foldl deliver m cws in
  a ∈ ibox_list m' /\ iboxes m' !! a = iboxes m !! a /\
  stopping m' = stopping m /\ hz m' = hz m /\ jiffies m' = jiffies m /\
  next_ibox m' = next_ibox m /\
  counters m' TIMEDOUT_RESPONSES = counters m TIMEDOUT_RESPONSES /\
  (outbox_sem m' + b2n (pending_new_seq m') = outbox_sem m + b2n (pending_new_seq m))%nat /\
  (pending_new_seq m = false -> pending_new_seq m' = false) /\
  (forall b, b ∈ ibox_list m' -> b ∈ ibox_list m).
Proof.
  revert m. induction cws as [|cw cws IH]; intros m Hin Hall; simpl.
  - repeat split; auto.
  - apply Forall_cons in Hall as [Hcw Hall].
    set (m0 := set_gp_inbox_cw cw (set_inbox_full_bit true m)).
    assert (Hk : a ∈ ibox_list (deliver m cw) /\ iboxes (deliver m cw) !! a = iboxes m !! a).
    { apply (inbox_fn_keeps m0 a); [exact Hin|exact Hcw]. }
    destruct Hk as [Hin1 Hlk1].
    destruct (deliver_frame m cw) as (F1 & F2 & F3 & F4 & F5 & F6 & F7).
    destruct (IH (deliver m cw) Hin1) as (I1 & I2 & I3 & I4 & I5 & I6 & I7 & I8 & I9 & I10).
    { eapply Forall_impl; [exact Hall|]. intros c Hc. cbn in Hc.
      now rewrite (answers_lookup m (deliver m cw) a c Hlk1). }
    repeat split; try congruence; try lia; auto.
    intros b Hb. apply I10 in Hb. unfold deliver in Hb. now apply inbox_fn_list_sub in Hb.
Qed.

(** The control word after mbdb_outbox_acquire has put the sequence number
    in. *)
Lemma claimed_cw op t p s l tid :
  Z.lor (build_cw op t p 0 l tid)
        (shl64 (Z.land s MBOX_CW_SEQ_NO_MASK) MBOX_CW_SEQ_NO_SHIFT) =
  build_cw op t p s l tid.
Proof.
  unfold build_cw.
  change (shl64 (Z.land 0 MBOX_CW_SEQ_NO_MASK) MBOX_CW_SEQ_NO_SHIFT) with 0.
  apply Z.bits_inj'; intros i Hi. rewrite !Z.lor_spec, Z.bits_0. btauto.
Qed.

Lemma build_cw_masked op t p s l tid :
  build_cw op t p s l tid =
  build_cw (op mod 2 ^ 8) t p (s mod 2 ^ 6) (l mod 2 ^ 12) (tid mod 2 ^ 32).
Proof.
  unfold build_cw, MBOX_CW_OPCODE_MASK, MBOX_CW_SEQ_NO_MASK, MBOX_CW_PARAMS_LEN_MASK,
    MBOX_CW_TID_MASK.
  rewrite !(land_mask _ 8 255), !(land_mask _ 6 63), !(land_mask _ 12 4095),
    !(land_mask _ 32 4294967295) by (lia || reflexivity).
  now rewrite !Z.mod_mod by lia.
Qed.

Lemma claimed_cw_decodes op p s l tid :
  0 <= op <= 255 ->
  let cw := Z.lor (build_cw op MBOX_REQUEST p 0 l tid)
                  (shl64 (Z.land s MBOX_CW_SEQ_NO_MASK) MBOX_CW_SEQ_NO_SHIFT) in
  mbdb_mbox_op_code cw = op /\ mbdb_mbox_is_posted cw = posted_val p.
Proof.
  intros Hop cw. subst cw. rewrite claimed_cw, build_cw_masked.
  pose proof (Z.mod_pos_bound s (2 ^ 6) ltac:(lia)) as Hs.
  pose proof (Z.mod_pos_bound l (2 ^ 12) ltac:(lia)) as Hl.
  pose proof (Z.mod_pos_bound tid (2 ^ 32) ltac:(lia)) as Ht.
  rewrite (Z.mod_small op) by lia.
  rewrite CwSpec.build_cw_sum by lia.
  destruct (CwSpec.decoders_fields
              (op + 2 ^ 8 * msg_type_val MBOX_REQUEST + 2 ^ 9 * posted_val p
               + 2 ^ 10 * (s mod 2 ^ 6) + 2 ^ 16 * (l mod 2 ^ 12) + 2 ^ 32 * (tid mod 2 ^ 32)))
    as (-> & _ & -> & _).
  assert (Hp : 0 <= posted_val p < 2) by (destruct p; simpl; lia).
  unfold cw_field. simpl msg_type_val.
  generalize dependent (s mod 2 ^ 6). generalize dependent (l mod 2 ^ 12).
  generalize dependent (tid mod 2 ^ 32). intros t' Ht l' Hl s' Hs.
  change (2 ^ 0) with 1. change (2 ^ 1) with 2. change (2 ^ 6) with 64 in *.
  change (2 ^ 8) with 256. change (2 ^ 9) with 512. change (2 ^ 10) with 1024.
  change (2 ^ 12) with 4096 in *. change (2 ^ 16) with 65536.
  change (2 ^ 32) with 4294967296 in *.
  split; Z.to_euclidean_division_equations; lia.
Qed.

Lemma holds_outbox_non_posted cw op :
  mbdb_mbox_op_code cw = op -> mbdb_mbox_is_posted cw = posted_val MBOX_RESPONSE_REQUESTED ->
  holds_outbox cw = is_reset_or_fw_start op /\ is_reset_posted cw = false.
Proof.
  intros <- Hp. unfold holds_outbox, is_reset_or_fw_start, is_reset_posted. rewrite Hp.
  simpl. rewrite andb_true_r, andb_false_r. auto.
Qed.

Lemma enter_ok mA fw cw :
  stopping mA = false ->
  (outbox_empty_bit mA = true \/ is_Some (drains fw)) ->
  exists mE, outbox_enter (drains fw) cw mA = (None, mE) /\
    view mE = (false, hz mA, jiffies mA + outbox_wait mA fw, next_ibox mA, ibox_list mA,
               iboxes mA, counters mA TIMEDOUT_RESPONSES, outbox_sem mA, pending_new_seq mA).
Proof.
  intros A1 Hdrain. unfold outbox_enter, mbdb_outbox_is_empty, outbox_wait, view. rewrite A1.
  destruct (mbdb_mbox_is_posted cw =? _); mb_simpl; rewrite A1;
    (destruct (outbox_empty_bit mA) eqn:Hb;
     [ eexists; split; [reflexivity|]; mb_simpl; rewrite A1, Z.add_0_r;
       now destruct (decide _)
     | destruct Hdrain as [?|[d Hd]]; [congruence|]; rewrite Hd;
       eexists; split; [reflexivity|]; mb_simpl; rewrite A1; now destruct (decide _) ]).
Qed.

Lemma claim_view cw mE :
  exists cw' mC, outbox_claim cw mE = (cw', mC) /\
    cw' = Z.lor cw (shl64 (Z.land (outbox_seqno mE) MBOX_CW_SEQ_NO_MASK) MBOX_CW_SEQ_NO_SHIFT) /\
    view mC = (stopping mE, hz mE, jiffies mE, next_ibox mE, ibox_list mE, iboxes mE,
               counters mE TIMEDOUT_RESPONSES, outbox_sem mE,
               if holds_outbox cw' then true else pending_new_seq mE).
Proof.
  unfold outbox_claim, mbdb_outbox_seqno, mbdb_int_ack_wr, view. cbv zeta.
  rewrite Z.eqb_refl. mb_simpl. eexists _, _. split; [reflexivity|]. split; [reflexivity|].
  destruct (is_reset_posted _), (holds_outbox _); reflexivity.
Qed.

Lemma release_view cw mC :
  view (mbdb_outbox_release (outbox_write cw mC)) =
    (stopping mC, hz mC, jiffies mC, next_ibox mC, ibox_list mC, iboxes mC,
     counters mC TIMEDOUT_RESPONSES,
     if pending_new_seq mC then outbox_sem mC else S (outbox_sem mC),
     pending_new_seq mC).
Proof.
  unfold mbdb_outbox_release, outbox_unlock, outbox_signal, outbox_write,
    mbdb_int_partner_set_wr, view. mb_simpl.
  destruct (pending_new_seq mC) eqn:Hp; mb_simpl; rewrite ?Hp; reflexivity.
Qed.

Lemma timed_out_view a mW ibox :
  iboxes mW !! a = Some ibox ->
  view (mbdb_ibox_release a (ibox_timed_out a mW)) =
    (stopping mW, hz mW, jiffies mW + 10 * hz mW, next_ibox mW,
     filter (fun b => b <> a) (ibox_list mW), delete a (iboxes mW),
     counters mW TIMEDOUT_RESPONSES + 1,
     if is_reset_or_fw_start (ibox_op_code ibox) && pending_new_seq mW
     then S (outbox_sem mW) else outbox_sem mW,
     if is_reset_or_fw_start (ibox_op_code ibox) then false else pending_new_seq mW).
Proof.
  intros Hlk. unfold ibox_timed_out, release_pending_new_seq, view, TIMEOUT. cbv zeta.
  mb_simpl. rewrite Hlk. cbn [fmap option_fmap option_map default from_option id].
  destruct (is_reset_or_fw_start (ibox_op_code ibox)); mb_simpl.
  - destruct (pending_new_seq mW) eqn:Hp; mb_simpl; rewrite ?Hp;
      rewrite ?decide_True by reflexivity; reflexivity.
  - rewrite ?decide_True by reflexivity. reflexivity.
Qed.

Lemma execute_times_out (mA : mbdb) (fw : peer) (op l tid : Z) (a : nat) (ibox : mbdb_ibox) :
  0 <= op <= 255 ->
  stopping mA = false -> outbox_sem mA = 1%nat -> pending_new_seq mA = false ->
  a ∈ ibox_list mA -> iboxes mA !! a = Some ibox ->
  ibox_cb ibox = false -> ibox_full ibox = false -> ibox_op_code ibox = op ->
  (outbox_empty_bit mA = true \/ is_Some (drains fw)) ->
  Forall (fun cw => answers mA a cw = false) (inbox fw) ->
  exists cw m',
    ops_execute fw (build_cw op MBOX_REQUEST MBOX_RESPONSE_REQUESTED 0 l tid) (Some a) mA
      = Some (- ETIMEDOUT, cw, m') /\
    jiffies m' = jiffies mA + outbox_wait mA fw + 10 * hz mA /\
    (forall b, b ∈ ibox_list m' -> b ∈ ibox_list mA /\ b <> a) /\
    iboxes m' !! a = None /\
    counters m' TIMEDOUT_RESPONSES = counters mA TIMEDOUT_RESPONSES + 1 /\
    stopping m' = false /\ outbox_sem m' = 1%nat /\ pending_new_seq m' = false /\
    next_ibox m' = next_ibox mA.
Proof.
  intros Hop A1 A2 A3 Hin Hlk Hcb Hfull Hopc Hdrain Hall.
  set (cw0 := build_cw op MBOX_REQUEST MBOX_RESPONSE_REQUESTED 0 l tid).
  unfold ops_execute, mbdb_outbox_acquire, down. rewrite A2. cbn [mbind option_bind].
  destruct (enter_ok (set_outbox_sem 0 mA) fw cw0 A1 Hdrain) as (mE & -> & VE).
  destruct (claim_view cw0 mE) as (cw1 & mC & -> & Hcw1 & VC).
  cbn [mbind option_bind].
  destruct (claimed_cw_decodes op MBOX_RESPONSE_REQUESTED (outbox_seqno mE) l tid Hop)
    as [Hop1 Hp1].
  fold cw0 in Hop1, Hp1. rewrite <- Hcw1 in Hop1, Hp1.
  destruct (holds_outbox_non_posted cw1 op Hop1 Hp1) as [Hho _].
  pose proof (release_view cw1 mC) as VR.
  set (mR := mbdb_outbox_release (outbox_write cw1 mC)) in *.
  unfold view in VE, VC, VR. mb_simpl_in VE.
  injection VE as E1 E2 E3 E4 E5 E6 E7 E8 E9.
  injection VC as C1 C2 C3 C4 C5 C6 C7 C8 C9.
  injection VR as R1 R2 R3 R4 R5 R6 R7 R8 R9.
  assert (HlkR : iboxes mR !! a = Some ibox) by congruence.
  rewrite HlkR. cbn [fmap option_fmap option_map default from_option id]. rewrite Hcb.
  unfold mbdb_ibox_wait. rewrite R1, C1, E1.
  assert (HinR : a ∈ ibox_list mR) by congruence.
  assert (HallR : Forall (fun cw => answers mR a cw = false) (inbox fw)).
  { eapply Forall_impl; [exact Hall|]. cbn. intros c Hc.
    rewrite (answers_lookup mA mR a c); [exact Hc|congruence]. }
  destruct (deliver_unanswered (inbox fw) mR a HinR HallR)
    as (W1 & W2 & W3 & W4 & W5 & W6 & W7 & W8 & W9 & W10).
  set (mW := foldl deliver mR (inbox fw)) in *.
  assert (HlkW : iboxes mW !! a = Some ibox) by congruence.
  rewrite HlkW. cbn [fmap option_fmap option_map default from_option id]. rewrite Hfull.
  cbn [Z.gtb Z.compare ETIMEDOUT Z.opp].
  pose proof (timed_out_view a mW ibox HlkW) as VT.
  set (m' := mbdb_ibox_release a (ibox_timed_out a mW)) in *.
  unfold view in VT. injection VT as T1 T2 T3 T4 T5 T6 T7 T8 T9.
  exists cw1, m'. split; [reflexivity|].
  subst m'. mb_simpl.
  assert (Hsem : (outbox_sem mW + b2n (pending_new_seq mW) = 1)%nat).
  { rewrite W8, R8, R9, C8, C9, E8, E9. cbn [outbox_sem set_outbox_sem].
    rewrite A3. destruct (holds_outbox cw1); reflexivity. }
  assert (Hpw : is_reset_or_fw_start op = false -> pending_new_seq mW = false).
  { intros Hf. apply W9. rewrite R9, C9, E9, Hho, Hf. exact A3. }
  rewrite Hopc in T8, T9.
  split.
  { rewrite T3, W5, W4, R3, R2, C3, C2, E3, E2. unfold outbox_wait. cbn. lia. }
  split.
  { intros b Hb. rewrite T5 in Hb. apply list_elem_of_filter in Hb as [Hne Hb].
    split; [|exact Hne]. rewrite <- E5, <- C5, <- R5. now apply W10. }
  split; [apply lookup_delete_eq|].
  split; [rewrite T7, W7; congruence|].
  split; [congruence|].
  split.
  { rewrite T8. destruct (is_reset_or_fw_start op) eqn:Hr.
    - destruct (pending_new_seq mW); cbn in *; lia.
    - rewrite (Hpw eq_refl) in Hsem. cbn in *. lia. }
  split; [|congruence].
  rewrite T9. destruct (is_reset_or_fw_start op) eqn:Hr; auto.
Qed.

Lemma ops_execute_is_Some fw cw ibox m :
  (0 < outbox_sem m)%nat -> is_Some (ops_execute fw cw ibox m).
Proof.
  intros Hs. unfold ops_execute, mbdb_outbox_acquire, down.
  destruct (outbox_sem m) as [|n]; [lia|]. cbn [mbind option_bind].
  destruct (outbox_enter _ _ _) as [[e|] mE]; cbn [mbind option_bind]; [eauto|].
  destruct (outbox_claim _ _) as [cw' mC]. cbn [mbind option_bind].
  destruct ibox as [a|]; [|eauto].
  destruct (default false _); [eauto|].
  destruct (mbdb_ibox_wait _ _ _) as [ret mW].
  destruct (if ret >? 0 then _ else _); eauto.
Qed.

Lemma ops_call_is_Some fw op parm rsp cb posted m :
  (0 < outbox_sem m)%nat -> is_Some (ops_call fw op parm rsp cb posted m).
Proof.
  intros Hs. unfold ops_call, mbdb_op_build_cw_and_acquire_ibox, mbdb_ibox_acquire.
  destruct posted; apply ops_execute_is_Some; exact Hs.
Qed.

(** C4 (amended). A non-posted call without a callback that is sent and
    never answered returns -ETIMEDOUT once TIMEOUT = 10 * HZ has passed
    after the send: its pending-response record is off the pending list
    and freed, the TIMEDOUT_RESPONSES counter is one higher, and the outbox
    semaphore is free again (also for RESET and FW_START, whose pending
    sequence reset is released), so the next call of any kind enters. *)
Theorem sync_call_times_out (m : mbdb) (fw : peer) (op_code parm_len rsp_len : Z) :
  0 <= op_code <= 255 ->
  stopping m = false -> outbox_sem m = 1%nat -> pending_new_seq m = false ->
  fresh_iboxes m ->
  (outbox_empty_bit m = true \/ is_Some (drains fw)) ->
  Forall (fun cw => negb ((mbdb_mbox_msg_type cw =? msg_type_val MBOX_RESPONSE)
                          && (mbdb_mbox_tid cw =? inbox_tid m)
                          && (mbdb_mbox_op_code cw =? op_code)) = true) (inbox fw) ->
  exists cw m',
    ops_call fw op_code parm_len rsp_len false false m = Some (- ETIMEDOUT, cw, m') /\
    jiffies m' = jiffies m + outbox_wait m fw + TIMEOUT m /\
    (next_ibox m ∉ ibox_list m') /\ iboxes m' !! next_ibox m = None /\
    (forall b, b ∈ ibox_list m' -> b ∈ ibox_list m) /\
    counters m' TIMEDOUT_RESPONSES = counters m TIMEDOUT_RESPONSES + 1 /\
    stopping m' = false /\ outbox_sem m' = 1%nat /\ pending_new_seq m' = false /\
    fresh_iboxes m' /\
    (forall fw' op' parm' rsp' cb' posted',
        is_Some (ops_call fw' op' parm' rsp' cb' posted' m')).
Proof.
  intros Hop A1 A2 A3 Hfresh Hdrain Hall.
  unfold ops_call, mbdb_op_build_cw_and_acquire_ibox, mbdb_ibox_acquire, mbdb_ibox_tid.
  cbv zeta. mb_simpl. rewrite lookup_insert_eq.
  cbn [fmap option_fmap option_map default from_option id ibox_tid].
  set (a := next_ibox m).
  set (ib := mk_ibox (inbox_tid m) op_code false rsp_len 0 0 false false).
  set (mA := set_ibox_list _ _).
  assert (HlA : ibox_list mA = ibox_list m ++ [a]) by reflexivity.
  assert (HkA : iboxes mA !! a = Some ib) by (subst mA; mb_simpl; apply lookup_insert_eq).
  assert (HallA : Forall (fun cw => answers mA a cw = false) (inbox fw)).
  { eapply Forall_impl; [exact Hall|]. cbn beta. intros c Hc.
    unfold answers, ibox_matches. rewrite HkA. subst ib. cbn [ibox_tid ibox_op_code].
    rewrite (Z.eqb_sym (inbox_tid m)), (Z.eqb_sym op_code), andb_assoc.
    now apply negb_true_iff. }
  destruct (execute_times_out mA fw op_code (u16 parm_len) (inbox_tid m) a ib Hop)
    as (cw & m' & Hex & Hj & Hl & Hk & Hc & Hs & Hsem & Hp & Hn); try reflexivity;
    try assumption.
  { rewrite HlA. apply elem_of_app. right. apply list_elem_of_here. }
  exists cw, m'. split; [exact Hex|].
  assert (Hsub : forall b, b ∈ ibox_list m' -> b ∈ ibox_list m).
  { intros b Hb. apply Hl in Hb as [Hb Hne]. rewrite HlA in Hb.
    apply elem_of_app in Hb as [Hb|Hb]; [exact Hb|]. apply list_elem_of_singleton in Hb.
    contradiction. }
  split; [exact Hj|].
  split; [intros Hb; now apply Hl in Hb as [_ Hne]|].
  split; [exact Hk|].
  split; [exact Hsub|].
  split; [exact Hc|].
  split; [exact Hs|].
  split; [exact Hsem|].
  split; [exact Hp|].
  split.
  { intros b Hb. rewrite Hn. apply Hsub, Hfresh in Hb. subst mA. mb_simpl. lia. }
  intros. apply ops_call_is_Some. lia.
Qed.

Lemma sync_call_times_out_witness :
  exists cw m',
    ops_call (mk_peer None []) MBOX_OP_CODE_FW_START 0 0 false false (create_mbdb false 250)
      = Some (- ETIMEDOUT, cw, m') /\
    jiffies m' = 2500 /\ ibox_list m' = [] /\ outbox_sem m' = 1%nat.
Proof.
  destruct (sync_call_times_out (create_mbdb false 250) (mk_peer None [])
              MBOX_OP_CODE_FW_START 0 0)
    as (cw & m' & H1 & H2 & _ & _ & H5 & _ & _ & H8 & _).
  - vm_compute. split; discriminate.
  - reflexivity.
  - reflexivity.
  - reflexivity.
  - intros b Hb. vm_compute in Hb. inversion Hb.
  - left. reflexivity.
  - constructor.
  - exists cw, m'. split; [exact H1|]. split; [exact H2|]. split; [|exact H8].
    destruct (ibox_list m') as [|b l]; [reflexivity|].
    specialize (H5 b (list_elem_of_here _ _)). vm_compute in H5. inversion H5.
Defined.

(** C4 (as stated).  A non-posted call made with a completion callback
    does not wait: ops_execute returns 0 as soon as the request is
    written, whether or not a response ever arrives.  Its record stays on
    the pending list, no time passes and nothing is counted as timed out. *)
Lemma async_call_never_times_out :
  exists cw m',
    ops_call (mk_peer None []) MBOX_OP_CODE_NOOP 0 0 true false (create_mbdb false 250)
      = Some (0, cw, m') /\
    mbdb_mbox_is_posted cw = posted_val MBOX_RESPONSE_REQUESTED /\
    ibox_list m' = [0%nat] /\ is_Some (iboxes m' !! 0%nat) /\
    counters m' TIMEDOUT_RESPONSES = 0 /\ jiffies m' = 0.
Proof.
  eexists _, _. split; [vm_compute; reflexivity|].
  repeat split; try reflexivity. vm_compute. eauto.
Qed.

(** C5.  The outbox semaphore does not keep FW_START exclusive.  When the
    reply to a FW_START is handled between the two statements of its
    mbdb_outbox_release, mbdb_seq_reset clears pending_new_seq and raises
    the semaphore, and the caller, finding pending_new_seq clear, raises
    it again.  Two later callers then both pass down_killable: both are
    inside the outbox at once and both write a non-posted request, the
    second over the first. *)
Theorem fw_start_race_two_holders (polling : bool) :
  exists s cw1 cw2 a1 a2,
    run fw_start_race (fresh_system polling 250) = Some s /\
    callers s !! 1%nat = Some (mk_caller Written cw1 (Some a1)) /\
    callers s !! 2%nat = Some (mk_caller Written cw2 (Some a2)) /\
    a1 <> a2 /\
    mbdb_mbox_is_posted cw1 = posted_val MBOX_RESPONSE_REQUESTED /\
    mbdb_mbox_is_posted cw2 = posted_val MBOX_RESPONSE_REQUESTED /\
    holders s = 2%nat /\
    outbox_sem (mb s) = 0%nat /\
    (exists cw0, outbox_written (mb s) = [cw0; cw1; cw2]) /\
    ibox_list (mb s) = [a1; a2].
Proof.
  destruct polling;
    (eexists _, _, _, _, _; split; [vm_compute; reflexivity|];
     repeat split; try reflexivity; [discriminate | eexists; reflexivity]).
Qed.

Lemma response_delivered_once_witness :
  let m := (mbdb_op_build_cw_and_acquire_ibox MBOX_OP_CODE_NOOP 0 0 false false
              (create_mbdb false 250)).2 in
  let cw := response_to (build_cw MBOX_OP_CODE_NOOP MBOX_REQUEST MBOX_RESPONSE_REQUESTED
                                  0 0 0) 0 MBOX_RSP_STATUS_OK in
  ibox_list (deliver m cw) = [] /\
  forall cws tid op, (mbdb_find_ibox tid op (foldl deliver (deliver m cw) cws)).1 <> Some 0%nat.
Proof.
  intros m cw.
  assert (Hty : mbdb_mbox_msg_type cw = msg_type_val MBOX_RESPONSE) by (vm_compute; reflexivity).
  assert (Hnd : NoDup (ibox_list m)).
  { change (ibox_list m) with [0%nat]. apply NoDup_singleton. }
  pose proof (response_delivered_once m cw Hty Hnd) as H. cbv zeta in H.
  change (mbdb_find_ibox (mbdb_mbox_tid cw) (mbdb_mbox_op_code cw) m).1 with (Some 0%nat) in H.
  destruct H as (_ & _ & Hl & _ & _ & _ & _ & Hno).
  split; [|exact Hno]. rewrite Hl. reflexivity.
Defined.

(** *** Further properties of a call *)

(** X9. On a stopping mailbox a call returns -ENODEV before anything is
    counted or sent, and gives the semaphore back; the pending-response
    record a non-posted call has acquired by then stays on the pending
    list. *)
Theorem call_on_stopping_mailbox (fw : peer) (op_code parm_len rsp_len : Z)
    (cb posted : bool) (m : mbdb) :
  stopping m = true -> (0 < outbox_sem m)%nat ->
  exists cw m',
    ops_call fw op_code parm_len rsp_len cb posted m = Some (- ENODEV, cw, m') /\
    outbox_written m' = outbox_written m /\ partner_set m' = partner_set m /\
    outbox_sem m' = outbox_sem m /\ counters m' = counters m /\
    jiffies m' = jiffies m /\ outbox_seqno m' = outbox_seqno m /\
    (posted = true -> ibox_list m' = ibox_list m /\ iboxes m' = iboxes m) /\
    (posted = false ->
       ibox_list m' = ibox_list m ++ [next_ibox m] /\
       is_Some (iboxes m' !! next_ibox m)).
Proof.
  intros Hs Hsem.
  unfold ops_call, mbdb_op_build_cw_and_acquire_ibox, mbdb_ibox_acquire, ops_execute,
    mbdb_outbox_acquire, down, outbox_enter.
  destruct (outbox_sem m) as [|n] eqn:En; [lia|].
  destruct posted; cbv zeta; mb_simpl; rewrite En; cbn [mbind option_bind]; mb_simpl;
    rewrite Hs; cbn [mbind option_bind]; eexists _, _; (split; [reflexivity|]); mb_simpl;
    repeat (split; [reflexivity|]); (split; [intros; try discriminate; auto|]);
    intros; try discriminate.
  split; [reflexivity|]. rewrite lookup_insert_eq. eauto.
Qed.

Lemma call_on_stopping_mailbox_witness :
  exists cw m',
    ops_call (mk_peer None []) MBOX_OP_CODE_NOOP 0 0 false false
      (set_stopping true (create_mbdb false 250)) = Some (- ENODEV, cw, m') /\
    outbox_written m' = [] /\ outbox_sem m' = 1%nat /\ ibox_list m' = [0%nat].
Proof.
  destruct (call_on_stopping_mailbox (mk_peer None []) MBOX_OP_CODE_NOOP 0 0 false false
              (set_stopping true (create_mbdb false 250)))
    as (cw & m' & H1 & H2 & _ & H4 & _ & _ & _ & _ & H9).
  - reflexivity.
  - vm_compute. lia.
  - exists cw, m'. split; [exact H1|]. split; [exact H2|]. split; [exact H4|].
    exact (proj1 (H9 eq_refl)).
Defined.

Lemma built_cw_posted op_code p l t :
  0 <= op_code <= 255 ->
  mbdb_mbox_op_code (build_cw op_code MBOX_REQUEST p 0 l t) = op_code /\
  mbdb_mbox_is_posted (build_cw op_code MBOX_REQUEST p 0 l t) = posted_val p.
Proof.
  intros Hop. pose proof (claimed_cw_decodes op_code p 0 l t Hop) as H.
  cbv zeta in H. now rewrite claimed_cw in H.
Qed.

Lemma enter_timeout cw m :
  stopping m = false -> outbox_empty_bit m = false ->
  outbox_enter None cw m =
  (Some (- ETIMEDOUT),
   up (set_jiffies (jiffies m + TIMEOUT m)
         (count TIMEDOUT_REQUESTS
            (count (if mbdb_mbox_is_posted cw =? posted_val MBOX_NO_RESPONSE_REQUESTED
                    then POSTED_REQUESTS else NON_POSTED_REQUESTS) m)))).
Proof.
  intros Hs He. unfold outbox_enter, mbdb_outbox_is_empty. rewrite Hs.
  destruct (mbdb_mbox_is_posted cw =? _); mb_simpl; rewrite Hs, He; reflexivity.
Qed.

(** X10. When the peer does not empty the outbox within TIMEOUT, a call
    returns -ETIMEDOUT after TIMEOUT: the request is counted as posted or
    non-posted and as a timed-out request, nothing is written to the
    outbox, no sequence number is used, and the semaphore is given
    back. *)
Theorem call_outbox_never_empty (fw : peer) (op_code parm_len rsp_len : Z)
    (cb posted : bool) (m : mbdb) :
  0 <= op_code <= 255 ->
  stopping m = false -> (0 < outbox_sem m)%nat ->
  outbox_empty_bit m = false -> drains fw = None ->
  exists cw m',
    ops_call fw op_code parm_len rsp_len cb posted m = Some (- ETIMEDOUT, cw, m') /\
    jiffies m' = jiffies m + TIMEOUT m /\
    counters m' TIMEDOUT_REQUESTS = counters m TIMEDOUT_REQUESTS + 1 /\
    counters m' (if posted then POSTED_REQUESTS else NON_POSTED_REQUESTS) =
      counters m (if posted then POSTED_REQUESTS else NON_POSTED_REQUESTS) + 1 /\
    outbox_written m' = outbox_written m /\ partner_set m' = partner_set m /\
    outbox_seqno m' = outbox_seqno m /\ outbox_sem m' = outbox_sem m.
Proof.
  intros Hop Hs Hsem He Hd.
  unfold ops_call, mbdb_op_build_cw_and_acquire_ibox, mbdb_ibox_acquire, ops_execute,
    mbdb_outbox_acquire, down.
  destruct (outbox_sem m) as [|n] eqn:En; [lia|].
  destruct posted; cbv zeta; mb_simpl; rewrite En, Hd; cbn [mbind option_bind];
    rewrite enter_timeout by assumption;
    rewrite (proj2 (built_cw_posted op_code _ _ _ Hop)); cbn [posted_val Z.eqb Pos.eqb];
    cbn [mbind option_bind]; eexists _, _; (split; [reflexivity|]); mb_simpl;
    unfold TIMEOUT; mb_simpl; repeat split.
Qed.

Lemma call_outbox_never_empty_witness :
  exists cw m',
    ops_call (mk_peer None []) MBOX_OP_CODE_NOOP 0 0 false true
      (set_outbox_empty_bit false (create_mbdb false 250)) = Some (- ETIMEDOUT, cw, m') /\
    jiffies m' = 2500 /\ outbox_written m' = [] /\ outbox_sem m' = 1%nat.
Proof.
  destruct (call_outbox_never_empty (mk_peer None []) MBOX_OP_CODE_NOOP 0 0 false true
              (set_outbox_empty_bit false (create_mbdb false 250)))
    as (cw & m' & H1 & H2 & _ & _ & H5 & _ & _ & H8).
  - vm_compute. split; discriminate.
  - reflexivity.
  - vm_compute. lia.
  - reflexivity.
  - reflexivity.
  - exists cw, m'. split; [exact H1|]. split; [exact H2|]. split; [exact H5|exact H8].
Defined.

Lemma enter_pass fw cw m :
  stopping m = false ->
  (outbox_empty_bit m = true \/ is_Some (drains fw)) ->
  outbox_enter (drains fw) cw m =
  (None,
   let m1 := count (if mbdb_mbox_is_posted cw =? posted_val MBOX_NO_RESPONSE_REQUESTED
                    then POSTED_REQUESTS else NON_POSTED_REQUESTS) m in
   if outbox_empty_bit m then m1
   else set_jiffies (jiffies m + default 0 (drains fw)) (set_outbox_empty_bit true m1)).
Proof.
  intros Hs Hd. unfold outbox_enter, mbdb_outbox_is_empty. rewrite Hs.
  destruct (mbdb_mbox_is_posted cw =? _); mb_simpl; rewrite Hs;
    (destruct (outbox_empty_bit m); [reflexivity|]);
    (destruct Hd as [?|[d Hd]]; [discriminate|]); rewrite Hd; reflexivity.
Qed.

(** X11. A posted call is fire-and-forget: no pending-response record is
    made, the request is written with the posted flag, the mailbox's
    sequence number and transaction id 0, the peer is signalled, and the
    call returns 0 with the semaphore free, without reading the inbox.  A
    posted RESET sets both sequence numbers to 0 at once; any other opcode
    advances the outbox sequence number by one modulo 64. *)
Theorem posted_call_sent (fw : peer) (op_code parm_len rsp_len : Z) (cb : bool) (m : mbdb) :
  0 <= op_code <= 255 -> op_code <> MBOX_OP_CODE_FW_START ->
  stopping m = false -> outbox_sem m = 1%nat -> pending_new_seq m = false ->
  (outbox_empty_bit m = true \/ is_Some (drains fw)) ->
  let cw := build_cw op_code MBOX_REQUEST MBOX_NO_RESPONSE_REQUESTED (outbox_seqno m)
                     (u16 parm_len) 0 in
  exists m',
    ops_call fw op_code parm_len rsp_len cb true m = Some (0, cw, m') /\
    outbox_written m' = outbox_written m ++ [cw] /\
    partner_set m' = partner_set m ++ [S_INT_STATUS_INBOX_FULL] /\
    ibox_list m' = ibox_list m /\ iboxes m' = iboxes m /\ inbox_tid m' = inbox_tid m /\
    counters m' POSTED_REQUESTS = counters m POSTED_REQUESTS + 1 /\
    outbox_seqno m' = (if op_code =? MBOX_OP_CODE_RESET then 0
                       else mbdb_mbox_seqno_next (outbox_seqno m)) /\
    inbox_seqno m' = (if op_code =? MBOX_OP_CODE_RESET then 0 else inbox_seqno m) /\
    outbox_sem m' = 1%nat /\ pending_new_seq m' = false /\ outbox_empty_bit m' = false.
Proof.
  intros Hop Hfw Hs Hsem Hp Hd cw.
  unfold ops_call, mbdb_op_build_cw_and_acquire_ibox, mbdb_ibox_acquire, ops_execute,
    mbdb_outbox_acquire, down, mbdb_ibox_tid. cbv zeta. rewrite Hsem. cbn [mbind option_bind].
  rewrite enter_pass by (mb_simpl; assumption). cbv zeta. cbn [mbind option_bind].
  destruct (built_cw_posted op_code MBOX_NO_RESPONSE_REQUESTED (u16 parm_len) 0 Hop)
    as [Ho1 Hp1].
  rewrite Hp1. cbn [posted_val Z.eqb Pos.eqb].
  assert (Hc : mbdb_mbox_op_code cw = op_code /\
               mbdb_mbox_is_posted cw = posted_val MBOX_NO_RESPONSE_REQUESTED).
  { pose proof (claimed_cw_decodes op_code MBOX_NO_RESPONSE_REQUESTED (outbox_seqno m)
                  (u16 parm_len) 0 Hop) as H. cbv zeta in H. now rewrite claimed_cw in H. }
  destruct Hc as [Hc1 Hc2].
  assert (Hr : is_reset_posted cw = (op_code =? MBOX_OP_CODE_RESET)).
  { unfold is_reset_posted. rewrite Hc1, Hc2. now rewrite Z.eqb_refl, andb_true_r. }
  assert (Hh : holds_outbox cw = false).
  { unfold holds_outbox. rewrite Hc1, Hc2. cbn [posted_val Z.eqb Pos.eqb].
    rewrite andb_false_r, orb_false_r. now apply Z.eqb_neq. }
  unfold outbox_claim, mbdb_outbox_seqno, mbdb_int_ack_wr. cbv zeta.
  rewrite Z.eqb_refl. rewrite claimed_cw.
  unfold mbdb_outbox_release, outbox_unlock, outbox_signal, outbox_write.
  mb_simpl. destruct (outbox_empty_bit m) eqn:He; mb_simpl; fold cw; rewrite Hr, Hh;
    destruct (op_code =? MBOX_OP_CODE_RESET);
    mb_simpl; rewrite ?Hp; mb_simpl;
    (eexists; split; [reflexivity|]); mb_simpl; rewrite ?Hp; mb_simpl; repeat split;
    exact Hp.
Qed.

Lemma posted_call_sent_witness :
  exists m',
    ops_call (mk_peer None []) MBOX_OP_CODE_NOOP 0 0 false true (create_mbdb false 250) =
      Some (0, build_cw MBOX_OP_CODE_NOOP MBOX_REQUEST MBOX_NO_RESPONSE_REQUESTED 0 0 0, m') /\
    ibox_list m' = [] /\ outbox_seqno m' = 1 /\ outbox_sem m' = 1%nat.
Proof.
  destruct (posted_call_sent (mk_peer None []) MBOX_OP_CODE_NOOP 0 0 false
              (create_mbdb false 250))
    as (m' & H1 & _ & _ & H4 & _ & _ & _ & H8 & _ & H10 & _).
  - vm_compute. split; discriminate.
  - discriminate.
  - reflexivity.
  - reflexivity.
  - reflexivity.
  - left. reflexivity.
  - exists m'. split; [exact H1|]. split; [exact H4|]. split; [exact H8|exact H10].
Defined.

(** mbdb_ibox_handle_unmatched sets a trigger and nothing else. *)
Lemma handle_unmatched_traps op m :
  exists t, mbdb_ibox_handle_unmatched op m = set_traps t m.
Proof.
  unfold mbdb_ibox_handle_unmatched.
  repeat match goal with |- context [if ?c then _ else _] => destruct c end;
    try (eexists; reflexivity).
  exists (traps m). now destruct m.
Qed.

(** X12. A request from the peer completes no pending-response record,
    whatever transaction id and opcode it carries: the pending list and
    the records are as they were, RECEIVED_REQUESTS alone is counted, a
    trap opcode sets its trigger, the expected sequence number follows the
    one received, and the inbox is acknowledged and handed back to the
    peer. *)
Theorem request_received (m : mbdb) (cw : Z) :
  mbdb_mbox_msg_type cw = msg_type_val MBOX_REQUEST -> cw <> 2 ^ 64 - 1 ->
  let m' := deliver m cw in
  ibox_list m' = ibox_list m /\ iboxes m' = iboxes m /\
  counters m' RECEIVED_REQUESTS = counters m RECEIVED_REQUESTS + 1 /\
  (forall c, c <> RECEIVED_REQUESTS -> counters m' c = counters m c) /\
  traps m' = traps (mbdb_ibox_handle_unmatched (mbdb_mbox_op_code cw) m) /\
  inbox_seqno m' = mbdb_mbox_seqno_next (mbdb_mbox_seq_no cw) /\
  inbox_full_bit m' = false /\
  partner_set m' = partner_set m ++ [S_INT_STATUS_OUTBOX_EMPTY] /\
  outbox_sem m' = outbox_sem m /\ pending_new_seq m' = pending_new_seq m.
Proof.
  intros Hty Hne m'. subst m'. unfold deliver, mbdb_inbox_full_fn. mb_simpl.
  rewrite andb_false_r.
  destruct (Z.eqb_spec cw (2 ^ 64 - 1)) as [|_]; [contradiction|]. cbv zeta.
  rewrite Hty. cbn [msg_type_val Z.eqb Pos.eqb].
  unfold mbdb_inbox_empty, mbdb_int_ack_wr.
  cbn [S_INT_STATUS_INBOX_FULL S_INT_STATUS_OUTBOX_EMPTY Z.eqb Pos.eqb].
  match goal with |- context [mbdb_ibox_handle_unmatched ?op ?x] =>
    destruct (handle_unmatched_traps op x) as [t Ht];
    destruct (handle_unmatched_traps op m) as [t' Ht'];
    assert (Htt : t = t') by
      (revert Ht Ht'; unfold mbdb_ibox_handle_unmatched;
       repeat match goal with |- context [if ?c then _ else _] => destruct c end;
       mb_simpl; intros H1 H2; apply (f_equal traps) in H1, H2; mb_simpl_in H1;
       mb_simpl_in H2; congruence);
    rewrite Ht, Ht'
  end.
  subst t'. mb_simpl. repeat split.
  intros c Hc. destruct (decide (c = RECEIVED_REQUESTS)); [contradiction|reflexivity].
Qed.

Lemma request_received_witness :
  let cw := build_cw MBOX_OP_CODE_LINK_MGR_PORT_STATE_CHANGE_TRAP_NOTIFICATION MBOX_REQUEST
              MBOX_NO_RESPONSE_REQUESTED 5 0 7 in
  let m' := deliver (create_mbdb false 250) cw in
  ibox_list m' = [] /\ traps m' = [PSC_TRAP] /\ inbox_seqno m' = 6.
Proof.
  intros cw m'.
  destruct (request_received (create_mbdb false 250) cw)
    as (H1 & _ & _ & _ & H5 & H6 & _).
  - reflexivity.
  - discriminate.
  - split; [exact H1|]. split; [exact H5|exact H6].
Defined.

(** *** The outbox lock under interleaving *)

Lemma seq_no_low_bits cw x i :
  0 <= i < 10 ->
  Z.testbit (Z.lor cw (shl64 x MBOX_CW_SEQ_NO_SHIFT)) i = Z.testbit cw i.
Proof.
  intros Hi. rewrite Z.lor_spec. unfold shl64, u64, wrap, MBOX_CW_SEQ_NO_SHIFT.
  rewrite Z.mod_pow2_bits_low by lia. rewrite Z.shiftl_spec_low by lia. apply orb_false_r.
Qed.

Lemma op_code_low_bits cw cw' :
  (forall i, 0 <= i < 10 -> Z.testbit cw' i = Z.testbit cw i) ->
  mbdb_mbox_op_code cw' = mbdb_mbox_op_code cw /\
  mbdb_mbox_is_posted cw' = mbdb_mbox_is_posted cw.
Proof.
  intros H. unfold mbdb_mbox_op_code, mbdb_mbox_is_posted, shr64, u8, wrap,
    MBOX_CW_OPCODE_SHIFT, MBOX_CW_OPCODE_MASK, MBOX_CW_POSTED_SHIFT, MBOX_CW_POSTED_MASK.
  rewrite !Z.shiftr_0_r. split.
  - f_equal. f_equal. apply Z.bits_inj'; intros i Hi.
    destruct (Z.lt_ge_cases i 8).
    + rewrite !Z.mod_pow2_bits_low by lia. apply H. lia.
    + rewrite !Z.mod_pow2_bits_high by lia. reflexivity.
  - apply Z.bits_inj'; intros i Hi. rewrite !Z.land_spec, !Z.shiftr_spec by lia.
    destruct (Z.eq_dec i 0) as [->|Hne].
    + rewrite H by lia. reflexivity.
    + replace (Z.testbit 1 i) with false; [now rewrite !andb_false_r|].
      symmetry. apply Z.bits_above_log2; simpl; lia.
Qed.

Lemma holds_outbox_claimed cw x :
  holds_outbox (Z.lor cw (shl64 x MBOX_CW_SEQ_NO_SHIFT)) = holds_outbox cw.
Proof.
  unfold holds_outbox.
  destruct (op_code_low_bits cw _ (seq_no_low_bits cw x)) as [-> ->]. reflexivity.
Qed.

Lemma ordinary_built op_code len tid (posted : bool) :
  0 <= op_code <= 255 -> op_code <> MBOX_OP_CODE_FW_START ->
  (op_code = MBOX_OP_CODE_RESET -> posted = true) ->
  holds_outbox (build_cw op_code MBOX_REQUEST
                  (if posted then MBOX_NO_RESPONSE_REQUESTED else MBOX_RESPONSE_REQUESTED)
                  0 len tid) = false.
Proof.
  intros Hop Hfw Hr.
  rewrite <- (holds_outbox_claimed _ (Z.land 0 MBOX_CW_SEQ_NO_MASK)).
  destruct (claimed_cw_decodes op_code
              (if posted then MBOX_NO_RESPONSE_REQUESTED else MBOX_RESPONSE_REQUESTED)
              0 len tid Hop) as [E1 E2].
  unfold holds_outbox. rewrite E1, E2.
  destruct (Z.eqb_spec op_code MBOX_OP_CODE_FW_START); [contradiction|].
  destruct (Z.eqb_spec op_code MBOX_OP_CODE_RESET) as [E|]; [|reflexivity].
  rewrite (Hr E). reflexivity.
Qed.

Lemma holders_app cs c : length (List.filter has_outbox (cs ++ [c])) =
  (length (List.filter has_outbox cs) + b2n (has_outbox c))%nat.
Proof.
  rewrite List.filter_app, length_app. cbn [List.filter]. now destruct (has_outbox c).
Qed.

Lemma holders_insert cs t c c' :
  cs !! t = Some c ->
  (length (List.filter has_outbox (<[t := c']> cs)) + b2n (has_outbox c) =
   length (List.filter has_outbox cs) + b2n (has_outbox c'))%nat.
Proof.
  revert t. induction cs as [|x cs IH]; intros [|t] H; try discriminate.
  - injection H as ->. cbn [insert list_insert List.filter].
    destruct (has_outbox c), (has_outbox c'); cbn [length b2n]; lia.
  - change (<[S t := c']> (x :: cs)) with (x :: <[t := c']> cs). cbn [List.filter].
    specialize (IH t H). destruct (has_outbox x); cbn [length]; lia.
Qed.

Lemma at_pc_Some s t want c :
  at_pc s t want = Some c -> callers s !! t = Some c /\ c_pc c = want.
Proof.
  unfold at_pc. destruct (callers s !! t) as [c'|]; [|discriminate]. cbn [mbind option_bind].
  destruct (c_pc c') eqn:E, want; intros H; try discriminate; injection H as <-; auto.
Qed.

Lemma calm_at cs t c want :
  Forall calm cs -> cs !! t = Some c -> c_pc c = want ->
  match want with
  | AtDown | Locked | SeenEmpty => holds_outbox (c_cw c) = false
  | _ => True
  end.
Proof.
  intros H El Epc. pose proof (proj1 (Forall_lookup _ _) H t c El) as Hc.
  unfold calm in Hc. now rewrite Epc in Hc.
Qed.

Lemma inbox_fn_lock m :
  pending_new_seq m = false ->
  outbox_sem (mbdb_inbox_full_fn m) = outbox_sem m /\
  pending_new_seq (mbdb_inbox_full_fn m) = false.
Proof.
  intros Hp. destruct (inbox_fn_frame m) as (_ & _ & _ & _ & _ & H & H').
  specialize (H' Hp). rewrite Hp, H' in H. cbn [b2n] in H. split; [lia|exact H'].
Qed.

Lemma timed_out_lock a m :
  pending_new_seq m = false ->
  outbox_sem (ibox_timed_out a m) = outbox_sem m /\
  pending_new_seq (ibox_timed_out a m) = false.
Proof.
  intros Hp. unfold ibox_timed_out, release_pending_new_seq. cbv zeta.
  destruct (is_reset_or_fw_start _); mb_simpl; rewrite ?Hp; mb_simpl; auto.
Qed.

Lemma enter_lock cw m :
  pending_new_seq (outbox_enter None cw m).2 = pending_new_seq m /\
  outbox_sem (outbox_enter None cw m).2 =
    match (outbox_enter None cw m).1 with
    | Some _ => S (outbox_sem m)
    | None => outbox_sem m
    end.
Proof.
  unfold outbox_enter, mbdb_outbox_is_empty.
  destruct (stopping m) eqn:Hs; [split; reflexivity|].
  destruct (mbdb_mbox_is_posted cw =? _); mb_simpl; rewrite Hs;
    destruct (outbox_empty_bit m); split; reflexivity.
Qed.

Lemma claim_lock cw m :
  holds_outbox cw = false ->
  pending_new_seq (outbox_claim cw m).2 = pending_new_seq m /\
  outbox_sem (outbox_claim cw m).2 = outbox_sem m /\
  holds_outbox (outbox_claim cw m).1 = false.
Proof.
  intros Hc. unfold outbox_claim, mbdb_outbox_seqno, mbdb_int_ack_wr.
  cbn [Z.eqb S_INT_STATUS_OUTBOX_EMPTY Pos.eqb]. cbv zeta. cbn [fst snd].
  rewrite holds_outbox_claimed, Hc.
  destruct (is_reset_posted _); mb_simpl; auto.
Qed.

Lemma step_lock_inv a s s' :
  ordinary a -> step a s = Some s' -> lock_inv s -> lock_inv s'.
Proof.
  intros Ho Hstep (Hsum & Hp & Hc). unfold lock_inv, holders in *.
  destruct a as [op cb posted|t|t|t|t|t|t|t|t| |cw| ]; cbn [step] in Hstep.
  - (* Call *)
    destruct Ho as (Hop & Hfw & Hr).
    unfold mbdb_op_build_cw_and_acquire_ibox in Hstep.
    destruct (mbdb_ibox_acquire op 0 cb posted (mb s)) as [ibox mA] eqn:EA.
    injection Hstep as <-. cbn [mb callers].
    assert (HA : outbox_sem mA = outbox_sem (mb s) /\ pending_new_seq mA = pending_new_seq (mb s)).
    { unfold mbdb_ibox_acquire in EA. destruct posted; injection EA as <- <-; mb_simpl; auto. }
    destruct HA as [-> ->]. rewrite holders_app. cbn [has_outbox c_pc b2n].
    split; [lia|]. split; [exact Hp|].
    apply Forall_app. split; [exact Hc|]. constructor; [|constructor].
    unfold calm. cbn [c_pc c_cw]. now apply ordinary_built.
  - (* Down *)
    destruct (at_pc s t AtDown) as [c|] eqn:E; [|discriminate]. cbn [mbind option_bind] in Hstep.
    apply at_pc_Some in E as [El Epc].
    unfold down in Hstep. destruct (outbox_sem (mb s)) as [|n] eqn:En; [discriminate|].
    cbn [mbind option_bind] in Hstep. injection Hstep as <-. unfold move. cbn [mb callers].
    pose proof (holders_insert (callers s) t c (mk_caller Locked (c_cw c) (c_ibox c)) El) as Hh.
    unfold has_outbox in Hh at 2 4. rewrite Epc in Hh. cbn [c_pc b2n] in Hh. mb_simpl.
    split; [lia|]. split; [exact Hp|].
    apply Forall_insert; [exact Hc|]. unfold calm. cbn [c_pc c_cw].
    try (destruct err; [exact I|]). exact (calm_at _ _ _ _ Hc El Epc).
  - (* TestEmpty *)
    destruct (at_pc s t Locked) as [c|] eqn:E; [|discriminate]. cbn [mbind option_bind] in Hstep.
    apply at_pc_Some in E as [El Epc].
    destruct (enter_lock (c_cw c) (mb s)) as [Hp' Hs'].
    destruct (outbox_enter None (c_cw c) (mb s)) as [err m'] eqn:EE. cbn [fst snd] in *.
    injection Hstep as <-. unfold move. cbn [mb callers].
    pose proof (holders_insert (callers s) t c
                  (mk_caller (match err with Some e => Returned e | None => SeenEmpty end)
                             (c_cw c) (c_ibox c)) El) as Hh.
    unfold has_outbox in Hh at 2 4. rewrite Epc in Hh. cbn [c_pc b2n] in Hh.
    split; [destruct err; cbn [b2n] in Hh; lia|]. split; [congruence|].
    apply Forall_insert; [exact Hc|]. unfold calm. cbn [c_pc c_cw].
    try (destruct err; [exact I|]). exact (calm_at _ _ _ _ Hc El Epc).
  - (* Claim *)
    destruct (at_pc s t SeenEmpty) as [c|] eqn:E; [|discriminate]. cbn [mbind option_bind] in Hstep.
    apply at_pc_Some in E as [El Epc].
    pose proof (calm_at _ _ _ _ Hc El Epc) as Hcc. cbn beta iota in Hcc.
    destruct (claim_lock (c_cw c) (mb s) Hcc) as (Hp' & Hs' & Hc').
    destruct (outbox_claim (c_cw c) (mb s)) as [cw' m'] eqn:EE. cbn [fst snd] in *.
    injection Hstep as <-. unfold move. cbn [mb callers].
    pose proof (holders_insert (callers s) t c (mk_caller Claimed cw' (c_ibox c)) El) as Hh.
    unfold has_outbox in Hh at 2 4. rewrite Epc in Hh. cbn [c_pc b2n] in Hh.
    split; [lia|]. split; [congruence|].
    apply Forall_insert; [exact Hc|exact I].
  - (* Write *)
    destruct (at_pc s t Claimed) as [c|] eqn:E; [|discriminate]. cbn [mbind option_bind] in Hstep.
    apply at_pc_Some in E as [El Epc].
    injection Hstep as <-. unfold move. cbn [mb callers]. mb_simpl.
    pose proof (holders_insert (callers s) t c (mk_caller Written (c_cw c) (c_ibox c)) El) as Hh.
    unfold has_outbox in Hh at 2 4. rewrite Epc in Hh. cbn [c_pc b2n] in Hh.
    split; [lia|]. split; [exact Hp|].
    apply Forall_insert; [exact Hc|]. unfold calm. cbn [c_pc].
    try (destruct (match c_ibox c with Some _ => _ | None => _ end)); exact I.
  - (* Signal *)
    destruct (at_pc s t Written) as [c|] eqn:E; [|discriminate]. cbn [mbind option_bind] in Hstep.
    apply at_pc_Some in E as [El Epc].
    injection Hstep as <-. cbn [mb callers]. mb_simpl.
    pose proof (holders_insert (callers s) t c (mk_caller Signalled (c_cw c) (c_ibox c)) El) as Hh.
    unfold has_outbox in Hh at 2 4. rewrite Epc in Hh. cbn [c_pc b2n] in Hh.
    split; [lia|]. split; [exact Hp|].
    apply Forall_insert; [exact Hc|]. unfold calm. cbn [c_pc].
    try (destruct (match c_ibox c with Some _ => _ | None => _ end)); exact I.
  - (* Unlock *)
    destruct (at_pc s t Signalled) as [c|] eqn:E; [|discriminate]. cbn [mbind option_bind] in Hstep.
    apply at_pc_Some in E as [El Epc].
    injection Hstep as <-. unfold move, outbox_unlock. cbn [mb callers]. rewrite Hp. mb_simpl.
    set (c' := mk_caller _ _ _).
    pose proof (holders_insert (callers s) t c c' El) as Hh.
    assert (Hn : has_outbox c' = false) by (subst c'; unfold has_outbox; cbn [c_pc];
      now destruct (match c_ibox c with Some _ => _ | None => _ end)).
    unfold has_outbox in Hh at 2. rewrite Epc, Hn in Hh. cbn [b2n] in Hh.
    split; [lia|]. split; [exact Hp|].
    apply Forall_insert; [exact Hc|]. unfold calm. cbn [c_pc].
    try (destruct (match c_ibox c with Some _ => _ | None => _ end)); exact I.
  - (* Complete *)
    destruct (at_pc s t Waiting) as [c|] eqn:E; [|discriminate]. cbn [mbind option_bind] in Hstep.
    apply at_pc_Some in E as [El Epc].
    destruct (c_ibox c) as [a|]; [|discriminate]. cbn [mbind option_bind] in Hstep.
    destruct (iboxes (mb s) !! a) as [ibox|]; [|discriminate]. cbn [mbind option_bind] in Hstep.
    destruct (ibox_full ibox); [|discriminate].
    injection Hstep as <-. unfold move. cbn [mb callers]. mb_simpl.
    set (c' := mk_caller _ _ _).
    pose proof (holders_insert (callers s) t c c' El) as Hh.
    unfold has_outbox in Hh at 2 4. rewrite Epc in Hh. cbn [c_pc c' b2n] in Hh.
    split; [lia|]. split; [exact Hp|].
    apply Forall_insert; [exact Hc|exact I].
  - (* TimeOut *)
    destruct (at_pc s t Waiting) as [c|] eqn:E; [|discriminate]. cbn [mbind option_bind] in Hstep.
    apply at_pc_Some in E as [El Epc].
    destruct (c_ibox c) as [a|]; [|discriminate]. cbn [mbind option_bind] in Hstep.
    destruct (iboxes (mb s) !! a) as [ibox|]; [|discriminate]. cbn [mbind option_bind] in Hstep.
    destruct (ibox_full ibox); [discriminate|].
    injection Hstep as <-. unfold move. cbn [mb callers].
    destruct (timed_out_lock a (mb s) Hp) as [Hs' Hp']. mb_simpl. rewrite Hs', Hp'.
    set (c' := mk_caller _ _ _).
    pose proof (holders_insert (callers s) t c c' El) as Hh.
    unfold has_outbox in Hh at 2 4. rewrite Epc in Hh. cbn [c_pc c' b2n] in Hh.
    split; [lia|]. split; [reflexivity|].
    apply Forall_insert; [exact Hc|exact I].
  - (* PeerRead *)
    destruct (unread s); [discriminate|]. injection Hstep as <-. cbn [mb callers]. mb_simpl. auto.
  - (* PeerSend *)
    destruct (inbox_full_bit (mb s)); [discriminate|]. injection Hstep as <-.
    cbn [mb callers]. mb_simpl. auto.
  - (* Worker *)
    injection Hstep as <-. cbn [mb callers].
    destruct (inbox_fn_lock (mb s) Hp) as [-> ->]. auto.
Qed.

Lemma run_lock_inv trace s s' :
  Forall ordinary trace -> run trace s = Some s' -> lock_inv s -> lock_inv s'.
Proof.
  revert s. induction trace as [|a trace IH]; intros s Ho Hrun Hi.
  - injection Hrun as <-. exact Hi.
  - cbn [run] in Hrun. destruct (step a s) as [s1|] eqn:E; [|discriminate].
    cbn [mbind option_bind] in Hrun. inversion Ho; subst.
    eapply IH; eauto using step_lock_inv.
Qed.

(** X13. As long as no FW_START and no RESET that asks for a response is
    issued, the outbox is held by one caller at a time under every
    interleaving of the callers, the peer and the inbox worker: after any
    run from a new mailbox the count of the semaphore and the number of
    callers between down_killable and the end of mbdb_outbox_release add up
    to one, and no sequence reset is pending. *)
Theorem outbox_held_by_one (polling : bool) (HZ : Z) (trace : list action) (s : system) :
  Forall ordinary trace ->
  run trace (fresh_system polling HZ) = Some s ->
  (outbox_sem (mb s) + holders s = 1)%nat /\ (holders s <= 1)%nat /\
  pending_new_seq (mb s) = false.
Proof.
  intros Ho Hrun.
  assert (H0 : lock_inv (fresh_system polling HZ)).
  { split; [reflexivity|]. split; [reflexivity|]. constructor. }
  destruct (run_lock_inv _ _ _ Ho Hrun H0) as (H1 & H2 & _).
  split; [exact H1|]. split; [lia|exact H2].
Qed.

(** Two NOOP requests side by side: the second caller cannot pass
    down_killable while the first is inside, and passes once the first has
    released the outbox. *)
Lemma outbox_held_by_one_witness :
  exists s,
    run [ Call MBOX_OP_CODE_NOOP false false; Call MBOX_OP_CODE_NOOP false false;
          Down 0; TestEmpty 0; Claim 0; Write 0; Signal 0; PeerRead; Unlock 0;
          Down 1; TestEmpty 1 ] (fresh_system false 250) = Some s /\
    (outbox_sem (mb s) + holders s = 1)%nat /\ (holders s <= 1)%nat /\
    pending_new_seq (mb s) = false.
Proof.
  eexists. split; [vm_compute; reflexivity|].
  apply (outbox_held_by_one false 250
           [ Call MBOX_OP_CODE_NOOP false false; Call MBOX_OP_CODE_NOOP false false;
             Down 0; TestEmpty 0; Claim 0; Write 0; Signal 0; PeerRead; Unlock 0;
             Down 1; TestEmpty 1 ]).
  - repeat constructor; unfold MBOX_OP_CODE_NOOP, MBOX_OP_CODE_FW_START, MBOX_OP_CODE_RESET;
      try lia; discriminate.
  - vm_compute. reflexivity.
Defined.

Lemma find_and_unlink_last (f : nat -> bool) (l : list nat) (a : nat) :
  Forall (fun b => f b = false) l -> f a = true ->
  find_and_unlink f (l ++ [a]) = (Some a, l).
Proof.
  intros Hl Ha. induction Hl as [|b l Hb Hl IH]; cbn.
  - now rewrite Ha.
  - now rewrite Hb, IH.
Qed.

(** The worker on the response to the last record of the pending list,
    when no record before it has the transaction id and opcode. *)
Lemma inbox_fn_match m l a ib :
  inbox_full_bit m = true -> gp_inbox_cw m <> 2 ^ 64 - 1 ->
  mbdb_mbox_msg_type (gp_inbox_cw m) = msg_type_val MBOX_RESPONSE ->
  ibox_list m = l ++ [a] ->
  Forall (fun b => ibox_matches m (mbdb_mbox_tid (gp_inbox_cw m))
                     (mbdb_mbox_op_code (gp_inbox_cw m)) b = false) l ->
  iboxes m !! a = Some ib ->
  ibox_tid ib = mbdb_mbox_tid (gp_inbox_cw m) ->
  ibox_op_code ib = mbdb_mbox_op_code (gp_inbox_cw m) ->
  let cw := gp_inbox_cw m in
  let err := mbdb_mbox_seqno_error (mbdb_mbox_seq_no cw) (inbox_seqno m) in
  mbdb_inbox_full_fn m =
  mbdb_inbox_empty
    (mbdb_seq_reset cw
       (set_iboxes (<[a := ibox_complete cw err ib]> (iboxes m))
          (count (if (mbdb_mbox_rsp_status cw =? MBOX_RSP_STATUS_OK) && negb err
                  then NON_ERROR_RESPONSES else ERROR_RESPONSES)
             (set_ibox_list l
                (set_inbox_seqno (mbdb_mbox_seqno_next (mbdb_mbox_seq_no cw))
                   (set_inbox_full_bit false m)))))).
Proof.
  intros Hfull Hne Hty Hlist Hl Hlk Htid Hop cw err.
  unfold mbdb_inbox_full_fn. rewrite Hfull, andb_false_r.
  destruct (Z.eqb_spec (gp_inbox_cw m) (2 ^ 64 - 1)) as [|_]; [contradiction|].
  cbv zeta. rewrite Hty, Z.eqb_refl.
  unfold mbdb_int_ack_wr.
  cbn [S_INT_STATUS_INBOX_FULL S_INT_STATUS_OUTBOX_EMPTY Z.eqb Pos.eqb].
  rewrite mbdb_find_ibox_list. mb_simpl.
  assert (Hm : forall b, ibox_matches
            (set_inbox_seqno (mbdb_mbox_seqno_next (mbdb_mbox_seq_no (gp_inbox_cw m)))
               (set_inbox_full_bit false m))
            (mbdb_mbox_tid (gp_inbox_cw m)) (mbdb_mbox_op_code (gp_inbox_cw m)) b =
          ibox_matches m (mbdb_mbox_tid (gp_inbox_cw m)) (mbdb_mbox_op_code (gp_inbox_cw m)) b)
    by reflexivity.
  rewrite Hlist, (find_and_unlink_last _ l a).
  2:{ eapply Forall_impl; [exact Hl|]. intros b Hb. now rewrite Hm. }
  2:{ rewrite Hm. unfold ibox_matches. rewrite Hlk, Htid, Hop. now rewrite !Z.eqb_refl. }
  cbn [fst snd]. fold cw. fold err.
  assert (Halter : alter (ibox_complete cw err) a (iboxes m)
                   = <[a := ibox_complete cw err ib]> (iboxes m)).
  { apply map_eq. intros b. destruct (decide (b = a)) as [->|Hb].
    - now rewrite lookup_alter_eq, lookup_insert_eq, Hlk.
    - now rewrite lookup_alter_ne, lookup_insert_ne by congruence. }
  destruct (mbdb_mbox_rsp_status cw =? MBOX_RSP_STATUS_OK), err; cbn [andb negb];
    mb_simpl; rewrite Halter; reflexivity.
Qed.

(** X14. A call that asks for a response and is answered.  From an idle
    mailbox whose outbox is empty or is emptied in time, when the peer
    sends the response that carries the request's transaction id and
    opcode (an opcode other than FW_START and RESET) and no older pending
    record has them, the call returns the status of the response, or
    SEQ_NO_ERROR when the sequence number of the response is not the one
    expected, together with the control word of the response.  The
    pending-response record is unlinked and freed, the request is counted
    as non-posted and the response as an error or a non-error response,
    nothing is counted as timed out, the expected inbox sequence number
    follows the one received, the outbox sequence number and the
    transaction id advance by one, the peer is signalled inbox-full and
    then outbox-empty, no time is spent beyond the wait for the outbox, and
    the semaphore is free again. *)
Theorem sync_call_answered (fw : peer) (op_code parm_len rsp_len rsp : Z) (m : mbdb) :
  0 <= op_code <= 255 ->
  op_code <> MBOX_OP_CODE_FW_START -> op_code <> MBOX_OP_CODE_RESET ->
  stopping m = false -> outbox_sem m = 1%nat -> pending_new_seq m = false ->
  (outbox_empty_bit m = true \/ is_Some (drains fw)) ->
  fresh_iboxes m ->
  Forall (fun b => ibox_matches m (inbox_tid m) op_code b = false) (ibox_list m) ->
  inbox fw = [rsp] -> rsp <> 2 ^ 64 - 1 ->
  mbdb_mbox_msg_type rsp = msg_type_val MBOX_RESPONSE ->
  mbdb_mbox_tid rsp = inbox_tid m -> mbdb_mbox_op_code rsp = op_code ->
  let err := mbdb_mbox_seqno_error (mbdb_mbox_seq_no rsp) (inbox_seqno m) in
  let status := if err then MBOX_RSP_STATUS_SEQ_NO_ERROR else mbdb_mbox_rsp_status rsp in
  exists m',
    ops_call fw op_code parm_len rsp_len false false m = Some (status, rsp, m') /\
    ibox_list m' = ibox_list m /\ iboxes m' = delete (next_ibox m) (iboxes m) /\
    inbox_tid m' = u32 (inbox_tid m + 1) /\
    inbox_seqno m' = mbdb_mbox_seqno_next (mbdb_mbox_seq_no rsp) /\
    outbox_seqno m' = mbdb_mbox_seqno_next (outbox_seqno m) /\
    counters m' NON_POSTED_REQUESTS = counters m NON_POSTED_REQUESTS + 1 /\
    counters m' TIMEDOUT_RESPONSES = counters m TIMEDOUT_RESPONSES /\
    (let c := if (mbdb_mbox_rsp_status rsp =? MBOX_RSP_STATUS_OK) && negb err
              then NON_ERROR_RESPONSES else ERROR_RESPONSES in
     counters m' c = counters m c + 1) /\
    jiffies m' = jiffies m + outbox_wait m fw /\
    partner_set m' = partner_set m ++ [S_INT_STATUS_INBOX_FULL; S_INT_STATUS_OUTBOX_EMPTY] /\
    outbox_sem m' = 1%nat /\ pending_new_seq m' = false.
Proof.
  intros Hop Hfw Hrs Hs Hsem Hp Hd Hfresh Hnone Hin Hne Hty Htid Hopc err status.
  unfold ops_call, mbdb_op_build_cw_and_acquire_ibox, mbdb_ibox_acquire, ops_execute,
    mbdb_outbox_acquire, down, mbdb_ibox_tid. cbv zeta. mb_simpl. rewrite Hsem.
  cbn [mbind option_bind].
  rewrite lookup_insert_eq. cbn [fmap option_fmap option_map default ibox_tid].
  change (id (inbox_tid m)) with (inbox_tid m).
  rewrite enter_pass by (mb_simpl; assumption). cbv zeta. cbn [mbind option_bind].
  destruct (built_cw_posted op_code MBOX_RESPONSE_REQUESTED (u16 parm_len) (inbox_tid m) Hop)
    as [Ho1 Hp1].
  rewrite Hp1. cbn [posted_val Z.eqb Pos.eqb].
  set (cw := build_cw op_code MBOX_REQUEST MBOX_RESPONSE_REQUESTED (outbox_seqno m)
                      (u16 parm_len) (inbox_tid m)).
  assert (Hc : mbdb_mbox_op_code cw = op_code /\
               mbdb_mbox_is_posted cw = posted_val MBOX_RESPONSE_REQUESTED).
  { pose proof (claimed_cw_decodes op_code MBOX_RESPONSE_REQUESTED (outbox_seqno m)
                  (u16 parm_len) (inbox_tid m) Hop) as H. cbv zeta in H.
    now rewrite claimed_cw in H. }
  destruct Hc as [Hc1 Hc2].
  assert (Hr : is_reset_posted cw = false).
  { unfold is_reset_posted. rewrite Hc1, Hc2. cbn [posted_val Z.eqb Pos.eqb].
    now rewrite andb_false_r. }
  assert (Hh : holds_outbox cw = false).
  { unfold holds_outbox. rewrite Hc1, Hc2.
    apply Z.eqb_neq in Hfw, Hrs. now rewrite Hfw, Hrs. }
  unfold outbox_claim, mbdb_outbox_seqno, mbdb_int_ack_wr. cbv zeta.
  rewrite Z.eqb_refl. rewrite claimed_cw.
  unfold mbdb_outbox_release, outbox_unlock, outbox_signal, outbox_write, mbdb_ibox_wait.
  rewrite Hin. unfold outbox_wait. mb_simpl.
  destruct (outbox_empty_bit m) eqn:He; mb_simpl; fold cw; rewrite Hr, Hh; mb_simpl;
    rewrite ?Hp; mb_simpl; cbn [mbind option_bind]; mb_simpl; rewrite ?Hp; mb_simpl;
    rewrite lookup_insert_eq;
    cbn [fmap option_fmap option_map default ibox_cb]; rewrite Hs; cbn [foldl];
    unfold deliver; change (id false) with false; cbv iota;
    (match goal with |- context [mbdb_inbox_full_fn ?x] =>
       rewrite (inbox_fn_match x (ibox_list m) (next_ibox m)
                  (mk_ibox (inbox_tid m) op_code false rsp_len 0 0 false false));
       [|first [ reflexivity | exact Hne | exact Hty | symmetry; assumption
               | mb_simpl; apply lookup_insert_eq | idtac ]..]
     end);
    try (apply Forall_forall; intros b Hb; unfold ibox_matches; mb_simpl;
         rewrite lookup_insert_ne by (specialize (Hfresh b Hb); lia);
         rewrite Forall_forall in Hnone; specialize (Hnone b Hb);
         unfold ibox_matches in Hnone; rewrite Htid, Hopc; exact Hnone);
    mb_simpl; unfold mbdb_seq_reset, mbdb_inbox_empty; rewrite Hopc;
    apply Z.eqb_neq in Hfw, Hrs; rewrite Hfw, Hrs; cbn [negb andb]; mb_simpl;
    rewrite lookup_insert_eq;
    cbn [fmap option_fmap option_map default from_option id ibox_complete ibox_full ibox_cb
         ibox_rsp_status ibox_cw];
    change (1 >? 0) with true; cbv iota; mb_simpl; rewrite lookup_insert_eq;
    cbn [fmap option_fmap option_map default from_option id ibox_complete ibox_full ibox_cb
         ibox_rsp_status ibox_cw];
    (eexists; split; [reflexivity|]); mb_simpl; fold err;
    rewrite !delete_insert_eq;
    destruct (mbdb_mbox_rsp_status rsp =? MBOX_RSP_STATUS_OK), err; cbn [andb negb];
    repeat match goal with |- context [decide (?a = ?b)] =>
      destruct (decide (a = b)); try discriminate; try congruence end;
    repeat split; try reflexivity; try lia; try exact Hp;
    now rewrite <- app_assoc.
Qed.

Lemma sync_call_answered_witness :
  let rsp := response_to (build_cw MBOX_OP_CODE_NOOP MBOX_REQUEST MBOX_RESPONSE_REQUESTED
                                   0 0 0) 0 MBOX_RSP_STATUS_OK in
  exists m',
    ops_call (mk_peer None [rsp]) MBOX_OP_CODE_NOOP 0 0 false false (create_mbdb false 250) =
      Some (MBOX_RSP_STATUS_OK, rsp, m') /\
    ibox_list m' = [] /\ iboxes m' = ∅ /\ inbox_seqno m' = 1 /\ outbox_sem m' = 1%nat.
Proof.
  intros rsp.
  destruct (sync_call_answered (mk_peer None [rsp]) MBOX_OP_CODE_NOOP 0 0 rsp
              (create_mbdb false 250))
    as (m' & H1 & H2 & H3 & _ & H5 & _ & _ & _ & _ & _ & _ & H12 & _).
  - vm_compute. split; discriminate.
  - discriminate.
  - discriminate.
  - reflexivity.
  - reflexivity.
  - reflexivity.
  - left. reflexivity.
  - intros b Hb. vm_compute in Hb. inversion Hb.
  - constructor.
  - reflexivity.
  - discriminate.
  - reflexivity.
  - reflexivity.
  - reflexivity.
  - exists m'. split; [exact H1|]. split; [exact H2|]. split; [exact H3|].
    split; [exact H5|exact H12].
Defined.

End MbdbSpec.
(** ** Programming the hardware *)

Module IoSpec.
Import Uft Io.

(** *** The monad *)

Lemma and_then_eq (m k : M Z) s :
  and_then m k s =
  match m s with
  | Some (err, s') => if err =? 0 then k s' else Some (err, s')
  | None => None
  end.
Proof.
  unfold and_then, bind. destruct (m s) as [[err s']|]; [|reflexivity].
  destruct (err =? 0); reflexivity.
Qed.

Lemma and_then_congr (m1 m2 k1 k2 : M Z) s :
  m1 s = m2 s ->
  (forall s', m2 s = Some (0, s') -> k1 s' = k2 s') ->
  and_then m1 k1 s = and_then m2 k2 s.
Proof.
  intros Hm Hk. rewrite !and_then_eq, Hm.
  destruct (m2 s) as [[err s']|]; [|reflexivity].
  destruct (Z.eqb_spec err 0) as [->|]; [|reflexivity]. now apply Hk.
Qed.

Lemma and_then_ret0_l (k : M Z) s : and_then (ret 0) k s = k s.
Proof. reflexivity. Qed.

Lemma and_then_ret0_r (m : M Z) s : and_then m (ret 0) s = m s.
Proof.
  rewrite and_then_eq. destruct (m s) as [[err s']|]; [|reflexivity].
  destruct (Z.eqb_spec err 0) as [->|]; reflexivity.
Qed.

Lemma and_then_assoc (a b c : M Z) s :
  and_then (and_then a b) c s = and_then a (and_then b c) s.
Proof.
  rewrite !and_then_eq. destruct (a s) as [[err s']|]; [|reflexivity].
  destruct (Z.eqb_spec err 0) as [->|Hne].
  - now rewrite and_then_eq.
  - destruct (Z.eqb_spec err 0); [contradiction|reflexivity].
Qed.

Lemma for_each_noop {A} (l : list A) (body : A -> M Z) s :
  (forall x, x ∈ l -> body x s = Some (0, s)) -> for_each l body s = Some (0, s).
Proof.
  induction l as [|x l IH]; intros H; [reflexivity|].
  cbn [for_each]. rewrite and_then_eq, (H x) by apply list_elem_of_here.
  cbn. apply IH. intros y Hy. apply H. now apply list_elem_of_further.
Qed.

(** *** Operations in sequence *)

Lemma issue_cons e w ws s : issue e (w :: ws) s = and_then (mbox e w) (issue e ws) s.
Proof. reflexivity. Qed.

Lemma issue_app e ws1 ws2 s :
  issue e (ws1 ++ ws2) s = and_then (issue e ws1) (issue e ws2) s.
Proof.
  revert s. induction ws1 as [|w ws1 IH]; intros s; [reflexivity|].
  cbn [app]. change (issue e (w :: ws1)) with (and_then (mbox e w) (issue e ws1)).
  rewrite issue_cons, and_then_assoc.
  apply and_then_congr; [reflexivity|]. intros s' _. apply IH.
Qed.

Lemma issue_run e ws s :
  exists r n,
    issue e ws s = Some (r, mk_io (io_sd s) (io_hw s ++ take n ws)) /\
    (r = 0 -> take n ws = ws) /\
    ((forall k, reply e k = 0) -> r = 0).
Proof.
  revert s. induction ws as [|w ws IH]; intros s.
  - exists 0, 0%nat. cbn. rewrite app_nil_r. destruct s; auto.
  - rewrite issue_cons, and_then_eq. unfold mbox at 1.
    destruct (Z.eqb_spec (reply e (length (io_hw s))) 0) as [E|E].
    + destruct (IH (mk_io (io_sd s) (io_hw s ++ [w]))) as (r & n & -> & H1 & H2).
      exists r, (S n). cbn [io_sd io_hw take]. rewrite <- app_assoc. cbn [app].
      split; [reflexivity|]. split; [|exact H2]. intros Hr. now rewrite H1.
    + exists (reply e (length (io_hw s))), 1%nat. cbn [take].
      split; [reflexivity|]. split; [contradiction|]. intros H. now rewrite H in E.
Qed.

(** *** Tables that did not change *)

Lemma xa_for_each_lookup (xa : xarray) i b : (i, b) ∈ xa_for_each xa -> xa !! i = Some b.
Proof.
  unfold xa_for_each. rewrite merge_sort_Permutation. apply elem_of_map_to_list.
Qed.

Lemma memeq_refl a n : memeq a a n = true.
Proof. unfold memeq. now apply bool_decide_eq_true. Qed.

Lemma bridge_update_noop e mask s u :
  uft (io_sd s) = Some u -> uft_next (io_sd s) = Some u ->
  rpipe_write_bridge_update e mask s = Some (0, s).
Proof.
  intros Hu Hn. unfold rpipe_write_bridge_update, bind, get_sd, deref. rewrite Hn.
  apply for_each_noop. intros [i b] Hin. apply xa_for_each_lookup in Hin.
  unfold rpipe_bridge_changed, xa_load. rewrite Hu, Hin, memeq_refl. reflexivity.
Qed.

Lemma bridge_remove_noop e mask s u :
  uft (io_sd s) = Some u -> uft_next (io_sd s) = Some u ->
  rpipe_write_bridge_remove e mask s = Some (0, s).
Proof.
  intros Hu Hn. unfold rpipe_write_bridge_remove, bind, get_sd, deref. rewrite Hu, Hn.
  apply for_each_noop. intros [i b] Hin. apply xa_for_each_lookup in Hin.
  unfold xa_load. rewrite Hin. reflexivity.
Qed.

Lemma lut_loop_noop e rounds d addr remaining s :
  lut_loop e rounds (Some d) d addr remaining s = Some (0, s).
Proof.
  revert d addr remaining. induction rounds as [|rounds IH]; intros d addr remaining;
    [reflexivity|].
  cbn [lut_loop]. destruct (remaining =? 0); [reflexivity|].
  cbv zeta. rewrite memeq_refl. cbn [negb]. rewrite and_then_ret0_l. apply IH.
Qed.

Lemma rpipe_write_unchanged e s u :
  uft (io_sd s) = Some u -> uft_next (io_sd s) = Some u ->
  rpipe_write e s =
  mbox e (RpipeSet (rpipe_port_mask (io_sd s)) ROUTING_FID_CPORT_BASE ROUTING_MAX_DEVICES
            (block_to_rpipe (mgmt u) ROUTING_MAX_DEVICES)) s.
Proof.
  intros Hu Hn. unfold rpipe_write, bind at 1, get_sd. unfold bind at 1, deref. rewrite Hn, Hu.
  unfold rpipe_write_block, ops_rpipe_set.
  change (ROUTING_MAX_DEVICES >? MAX_UFT_ENTRIES) with false.
  change (8 + ROUTING_MAX_DEVICES >? MBOX_PARAM_AREA_IN_BYTES) with false. cbv iota.
  etransitivity; [|apply and_then_ret0_r].
  apply and_then_congr; [reflexivity|]. intros s' Hs'.
  assert (Hsd : io_sd s' = io_sd s) by (unfold mbox in Hs'; now inversion Hs').
  rewrite and_then_eq, (bridge_update_noop e _ s' u) by (now rewrite Hsd). cbn.
  apply (bridge_remove_noop e _ s' u); now rewrite Hsd.
Qed.

Lemma bridge_port_unchanged e s g lpn :
  fidgen (io_sd s) = Some g -> fidgen_next (io_sd s) = Some g ->
  and_then (fidgen_write_port e lpn)
    (and_then (fidgen_write_port_table e lpn) (activate_port e lpn)) s =
  issue e (port_writes (io_sd s) lpn) s.
Proof.
  intros Hg Hn. unfold port_writes. rewrite !issue_cons.
  apply and_then_congr.
  - unfold fidgen_write_port, bind, get_sd, deref. rewrite Hn, Hg. cbv zeta.
    rewrite memeq_refl. cbn [negb]. rewrite and_then_ret0_l. reflexivity.
  - intros s' Hs'.
    assert (Hsd : io_sd s' = io_sd s) by (unfold mbox in Hs'; now inversion Hs').
    rewrite and_then_eq.
    assert (Ht : fidgen_write_port_table e lpn s' = Some (0, s')).
    { unfold fidgen_write_port_table, bind, get_sd, deref. rewrite Hsd, Hn, Hg.
      apply lut_loop_noop. }
    rewrite Ht.
    change (activate_port e lpn s' =
            and_then (mbox e (PortLinkStateSet lpn IB_PORT_ACTIVE)) (ret 0) s').
    symmetry. apply and_then_ret0_r.
Qed.

Lemma issue_sd e ws s r s' : issue e ws s = Some (r, s') -> io_sd s' = io_sd s.
Proof.
  destruct (issue_run e ws s) as (r' & n & -> & _). now inversion 1.
Qed.

Lemma bridge_write_unchanged e s g :
  fidgen (io_sd s) = Some g -> fidgen_next (io_sd s) = Some g ->
  bridge_write e s =
  issue e (mbind (port_writes (io_sd s)) (for_each_set_bit (bport_lpns (io_sd s)))) s.
Proof.
  intros Hg Hn. unfold bridge_write, bind, get_sd. rewrite Hn.
  generalize (for_each_set_bit (bport_lpns (io_sd s))). intros l.
  remember (io_sd s) as sd0 eqn:Hsd. revert s Hsd Hg Hn.
  induction l as [|lpn l IH]; intros s Hsd Hg Hn; [reflexivity|].
  cbn [for_each mbind list_bind]. rewrite issue_app.
  apply and_then_congr.
  - subst sd0. now apply bridge_port_unchanged with g.
  - intros s' Hs'. apply issue_sd in Hs'. apply IH; congruence.
Qed.

Lemma programming_unchanged e s u g :
  uft (io_sd s) = Some u -> uft_next (io_sd s) = Some u ->
  fidgen (io_sd s) = Some g -> fidgen_next (io_sd s) = Some g ->
  and_then (rpipe_write e) (bridge_write e) s =
  issue e (mgmt_write (u, g) (io_sd s)
           :: mbind (port_writes (io_sd s)) (for_each_set_bit (bport_lpns (io_sd s)))) s.
Proof.
  intros Hu Hun Hg Hgn. rewrite issue_cons. apply and_then_congr.
  - now apply rpipe_write_unchanged.
  - intros s' Hs'.
    assert (Hsd : io_sd s' = io_sd s) by (unfold mbox in Hs'; now inversion Hs').
    rewrite <- Hsd. apply bridge_write_unchanged with g; now rewrite Hsd.
Qed.

(** *** What the programming stage leaves alone *)

Lemma same_routing_refl a : same_routing a a.
Proof. now destruct a. Qed.

Lemma same_routing_trans a b c : same_routing a b -> same_routing b c -> same_routing a c.
Proof. unfold same_routing. intros -> ->. reflexivity. Qed.

Lemma keeps_ret {A} (a : A) : keeps (ret a).
Proof. intros s r s'. inversion 1. apply same_routing_refl. Qed.

Lemma keeps_bind {A B} (m : M A) (k : A -> M B) :
  keeps m -> (forall a, keeps (k a)) -> keeps (bind m k).
Proof.
  intros Hm Hk s r s'. unfold bind. destruct (m s) as [[a s1]|] eqn:E; [|discriminate].
  intros H. eapply same_routing_trans; [eapply Hm, E | eapply Hk, H].
Qed.

Lemma keeps_get_sd : keeps get_sd.
Proof. intros s r s'. inversion 1. apply same_routing_refl. Qed.

Lemma keeps_deref {A} (p : option A) : keeps (deref p).
Proof. intros s r s'. unfold deref. destruct p; inversion 1. apply same_routing_refl. Qed.

Lemma keeps_mbox e w : keeps (mbox e w).
Proof. intros s r s'. inversion 1. apply same_routing_refl. Qed.

Lemma keeps_and_then (m k : M Z) : keeps m -> keeps k -> keeps (and_then m k).
Proof.
  intros Hm Hk. apply keeps_bind; [exact Hm|]. intros err.
  destruct (err =? 0); [exact Hk | apply keeps_ret].
Qed.

Lemma keeps_for_each {A} (l : list A) (body : A -> M Z) :
  (forall x, keeps (body x)) -> keeps (for_each l body).
Proof.
  intros Hb. induction l as [|x l IH]; [apply keeps_ret|].
  apply keeps_and_then; [apply Hb | exact IH].
Qed.

Lemma keeps_ops_rpipe_set e mask start n data : keeps (ops_rpipe_set e mask start n data).
Proof. unfold ops_rpipe_set. destruct (_ >? _); [apply keeps_ret | apply keeps_mbox]. Qed.

Lemma keeps_ops_csr_raw_write e addr data len : keeps (ops_csr_raw_write e addr data len).
Proof. unfold ops_csr_raw_write. destruct (_ >? _); [apply keeps_ret | apply keeps_mbox]. Qed.

Lemma keeps_rpipe_write_block e mask block base range :
  keeps (rpipe_write_block e mask block base range).
Proof.
  unfold rpipe_write_block. destruct (_ >? _); [apply keeps_ret | apply keeps_ops_rpipe_set].
Qed.

Lemma keeps_rpipe_clear_block e mask base range : keeps (rpipe_clear_block e mask base range).
Proof.
  unfold rpipe_clear_block. destruct (_ >? _); [apply keeps_ret | apply keeps_ops_rpipe_set].
Qed.

Lemma keeps_rpipe_write e : keeps (rpipe_write e).
Proof.
  unfold rpipe_write. apply keeps_bind; [apply keeps_get_sd|]. intros sd.
  apply keeps_bind; [apply keeps_deref|]. intros next.
  apply keeps_and_then; [apply keeps_rpipe_write_block|].
  apply keeps_and_then.
  - unfold rpipe_write_bridge_update. apply keeps_bind; [apply keeps_get_sd|]. intros sd'.
    apply keeps_bind; [apply keeps_deref|]. intros next'.
    apply keeps_for_each. intros [i block].
    destruct (negb _); [apply keeps_ret | apply keeps_rpipe_write_block].
  - destruct (uft sd); [|apply keeps_ret].
    unfold rpipe_write_bridge_remove. apply keeps_bind; [apply keeps_get_sd|]. intros sd'.
    apply keeps_bind; [apply keeps_deref|]. intros curr.
    apply keeps_bind; [apply keeps_deref|]. intros next'.
    apply keeps_for_each. intros [i block].
    destruct (xa_load _ _); [apply keeps_ret | apply keeps_rpipe_clear_block].
Qed.

Lemma keeps_lut_loop e rounds data data_next addr remaining :
  keeps (lut_loop e rounds data data_next addr remaining).
Proof.
  revert data data_next addr remaining.
  induction rounds as [|rounds IH]; intros data data_next addr remaining; [apply keeps_ret|].
  cbn [lut_loop]. destruct (remaining =? 0); [apply keeps_ret|].
  apply keeps_and_then; [|apply IH].
  destruct (match data with Some _ => _ | None => _ end);
    [apply keeps_ops_csr_raw_write | apply keeps_ret].
Qed.

Lemma keeps_bridge_write e : keeps (bridge_write e).
Proof.
  unfold bridge_write. apply keeps_bind; [apply keeps_get_sd|]. intros sd.
  destruct (fidgen_next sd); [|apply keeps_ret].
  apply keeps_for_each. intros lpn. apply keeps_and_then; [|apply keeps_and_then].
  - unfold fidgen_write_port. apply keeps_bind; [apply keeps_get_sd|]. intros sd'.
    apply keeps_bind; [apply keeps_deref|]. intros next.
    apply keeps_and_then.
    + destruct (match fidgen sd' with Some _ => _ | None => _ end);
        [apply keeps_ops_csr_raw_write | apply keeps_ret].
    + unfold fidgen_write_port_pkgaddr. apply keeps_bind; [apply keeps_get_sd|]. intros sd''.
      apply keeps_ops_csr_raw_write.
  - unfold fidgen_write_port_table. apply keeps_bind; [apply keeps_get_sd|]. intros sd'.
    apply keeps_bind; [apply keeps_deref|]. intros next. apply keeps_lut_loop.
  - apply keeps_mbox.
Qed.

Lemma keeps_switchinfo_write e : keeps (switchinfo_write e).
Proof.
  intros s r s'. unfold switchinfo_write, bind, get_sd, ops_switchinfo_set, mbox, put_sd, ret.
  destruct (_ =? 0); inversion 1; cbn; [reflexivity | apply same_routing_refl].
Qed.

Lemma keeps_programming e :
  keeps (and_then (switchinfo_write e) (and_then (rpipe_write e) (bridge_write e))).
Proof.
  apply keeps_and_then; [apply keeps_switchinfo_write|].
  apply keeps_and_then; [apply keeps_rpipe_write | apply keeps_bridge_write].
Qed.

(** A sweep that leaves the subdevice valid has put the computed tables
    in use. *)
Lemma sweep_valid_tables e tables sd sd1 hw1 :
  program_sd e tables sd = Some (sd1, hw1) ->
  state sd1 = TILE_ROUTING_STATE_VALID ->
  uft sd1 = Some tables.1 /\ fidgen sd1 = Some tables.2.
Proof.
  unfold program_sd, io_work_fn, bind.
  destruct (and_then _ _ _) as [[err s']|] eqn:E; [|discriminate].
  apply keeps_programming in E. cbn [io_sd] in E. unfold get_sd, put_sd.
  destruct (err =? 0); intros H Hv; inversion H; subst; clear H.
  - cbn [io_sd]. rewrite E. split; reflexivity.
  - discriminate Hv.
Qed.

Lemma switchinfo_write_eq e s :
  switchinfo_write e s =
  let si := mk_switchinfo (guid (switchinfo (io_sd s))) (num_ports (switchinfo (io_sd s)))
              (slt_psc_ep0 (switchinfo (io_sd s)))
              (routing_mode_supported (switchinfo (io_sd s)))
              (routing_mode_enabled (switchinfo (io_sd s))) (ROUTING_UFT_SIZE - 1) in
  let r := reply e (length (io_hw s)) in
  Some (r, mk_io (if r =? 0 then set_switchinfo (switchinfo_rsp e si) (io_sd s) else io_sd s)
                 (io_hw s ++ [SwitchinfoSet si])).
Proof.
  unfold switchinfo_write, bind, get_sd, ops_switchinfo_set, mbox, put_sd, ret. cbv zeta.
  cbn [io_sd io_hw]. destruct (Z.eqb_spec (reply e (length (io_hw s))) 0) as [->|]; reflexivity.
Qed.

(** A sweep over tables that are the ones in use. *)
Lemma sweep_unchanged e tables sd1 :
  uft sd1 = Some tables.1 -> fidgen sd1 = Some tables.2 ->
  exists sd2 hw2,
    program_sd e tables sd1 = Some (sd2, hw2) /\
    uft sd2 = Some tables.1 /\ fidgen sd2 = Some tables.2 /\
    hw2 `prefix_of` unchanged_writes tables sd1 /\
    ((forall n, reply e n = 0) ->
       hw2 = unchanged_writes tables sd1 /\ state sd2 = state sd1).
Proof.
  intros Hu Hg. destruct tables as [u g]. cbn [fst snd] in *.
  unfold program_sd, io_work_fn. unfold bind at 1.
  rewrite and_then_eq, switchinfo_write_eq. cbv zeta.
  set (sdL := stage_next (u, g) sd1). cbn [io_sd io_hw length app].
  unfold unchanged_writes.
  change (switchinfo sd1) with (switchinfo sdL).
  set (w0 := SwitchinfoSet _).
  destruct (Z.eqb_spec (reply e 0%nat) 0) as [E0|E0].
  - set (sdS := set_switchinfo _ sdL).
    rewrite (programming_unchanged e (mk_io sdS [w0]) u g)
      by first [exact Hu | exact Hg | reflexivity].
    destruct (issue_run e (mgmt_write (u, g) sdS
                :: mbind (port_writes sdS) (for_each_set_bit (bport_lpns sdS)))
                (mk_io sdS [w0])) as (r & n & Hrun & Hfull & Hok).
    cbn [io_sd io_hw] in Hrun |- *. rewrite Hrun.
    unfold bind, get_sd, put_sd. cbn [io_sd io_hw].
    destruct (Z.eqb_spec r 0) as [Hr|Hr].
    + eexists _, _. split; [reflexivity|]. cbn [fst snd].
      rewrite Hfull by exact Hr.
      split; [reflexivity|]. split; [reflexivity|].
      split; [reflexivity|]. intros _. split; reflexivity.
    + eexists _, _. split; [reflexivity|]. cbn [fst snd].
      split; [exact Hu|]. split; [exact Hg|].
      split; [apply prefix_cons, prefix_take|]. intros H. now specialize (Hok H).
  - unfold bind, get_sd, put_sd. cbn [io_sd io_hw].
    destruct (Z.eqb_spec (reply e 0%nat) 0) as [|_]; [contradiction|].
    eexists _, _. split; [reflexivity|].
    split; [exact Hu|]. split; [exact Hg|].
    split; [apply prefix_cons, prefix_nil|]. intros H. now rewrite H in E0.
Qed.

(** *** The port mask *)


Lemma small_high_bits (x b : Z) : 0 <= x < 16 -> 4 <= b -> Z.testbit x b = false.
Proof.
  intros Hx Hb. destruct (Z.eq_dec x 0) as [->|Hne]; [apply Z.bits_0|].
  apply Z.bits_above_log2; [lia|].
  assert (Z.log2 x < 4) by (apply Z.log2_lt_pow2; lia). lia.
Qed.

Lemma for_each_set_bit_range bitmap lpn :
  In lpn (for_each_set_bit bitmap) -> 0 <= lpn < PORT_COUNT.
Proof.
  unfold for_each_set_bit. rewrite filter_In. intros [H _].
  apply list_elem_of_In, elem_of_seqZ in H. lia.
Qed.

(** X15. The port mask rpipe_write sends with its routing blocks takes in
    the number of each live fabric port, not the port's bit: above bit 3
    it is the mask of the CPORT and the bridge ports, whatever fabric
    ports the subdevice has and whatever their states. *)
Theorem rpipe_port_mask_high_bits (sd : fsubdev) (b : Z) :
  4 <= b ->
  Z.testbit (rpipe_port_mask sd) b = Z.testbit (Z.lor PORT_CPORT_MASK PORT_BRIDGE_MASK) b.
Proof.
  intros Hb. unfold rpipe_port_mask.
  generalize (Z.lor PORT_CPORT_MASK PORT_BRIDGE_MASK) as acc.
  pose proof (for_each_set_bit_range (fport_lpns sd)) as Hr.
  induction (for_each_set_bit (fport_lpns sd)) as [|lpn l IH]; intros acc; [reflexivity|].
  cbn [foldl]. rewrite IH by (intros x Hx; apply Hr; now right).
  destruct (fport_log_state sd lpn) as [ls|]; [|reflexivity].
  destruct (ls >=? IB_PORT_INIT); [|reflexivity].
  rewrite Z.lor_spec, (small_high_bits lpn b); [apply orb_false_r| |exact Hb].
  specialize (Hr lpn (or_introl eq_refl)). unfold PORT_COUNT in Hr. lia.
Qed.

Lemma rpipe_port_mask_high_bits_witness :
  Z.testbit (rpipe_port_mask sample_sd) 5 = Z.testbit (Z.lor PORT_CPORT_MASK PORT_BRIDGE_MASK) 5.
Proof. apply (rpipe_port_mask_high_bits sample_sd 5). lia. Defined.

(** *** No operation after a failed one *)

Lemma halts_ret e r : halts_at_failure e (ret r).
Proof.
  intros s r' s'. inversion 1. subst. exists []. split; [now rewrite app_nil_r|].
  intros k Hk. inversion Hk.
Qed.

Lemma halts_mbox e w : halts_at_failure e (mbox e w).
Proof.
  intros s r s'. inversion 1. subst. cbn [io_hw]. exists [w]. split; [reflexivity|].
  intros k Hk _. cbn [length] in *. assert (k = 0%nat) as -> by lia.
  now rewrite Nat.add_0_r.
Qed.

Lemma halts_bind {A} e (m : M A) (k : A -> M Z) :
  silent m -> (forall a, halts_at_failure e (k a)) -> halts_at_failure e (bind m k).
Proof.
  intros Hm Hk s r s'. unfold bind. destruct (m s) as [[a s1]|] eqn:E; [|discriminate].
  intros H. rewrite <- (Hm _ _ _ E). exact (Hk a s1 r s' H).
Qed.

Lemma silent_get_sd : silent get_sd.
Proof. intros s a s'. now inversion 1. Qed.

Lemma silent_deref {A} (p : option A) : silent (deref p).
Proof. intros s a s'. unfold deref. destruct p; now inversion 1. Qed.

Lemma halts_and_then e (m k : M Z) :
  halts_at_failure e m -> halts_at_failure e k -> halts_at_failure e (and_then m k).
Proof.
  intros Hm Hk s r s'. unfold and_then, bind.
  destruct (m s) as [[err s1]|] eqn:E; [|discriminate].
  destruct (Hm _ _ _ E) as (ws1 & H1 & F1).
  destruct (Z.eqb_spec err 0) as [->|Hne].
  - intros H. destruct (Hk _ _ _ H) as (ws2 & H2 & F2).
    exists (ws1 ++ ws2). split; [now rewrite H2, H1, app_assoc|].
    intros k0 Hk0 Hr. rewrite length_app in *.
    destruct (Nat.lt_ge_cases k0 (length ws1)) as [Hlt|Hge].
    + destruct (F1 k0 Hlt Hr) as [_ Hz]. congruence.
    + rewrite H1, length_app in F2.
      destruct (F2 (k0 - length ws1)%nat) as [Hl Hv]; [lia| |].
      * now replace (length (io_hw s) + length ws1 + (k0 - length ws1))%nat
          with (length (io_hw s) + k0)%nat by lia.
      * split; [lia|]. rewrite Hv. f_equal. lia.
  - inversion 1. subst. exists ws1. split; [assumption|exact F1].
Qed.

Lemma halts_for_each {A} e (l : list A) (body : A -> M Z) :
  (forall x, halts_at_failure e (body x)) -> halts_at_failure e (for_each l body).
Proof.
  intros Hb. induction l as [|x l IH]; [apply halts_ret|].
  apply halts_and_then; [apply Hb | exact IH].
Qed.

Lemma halts_ops_rpipe_set e mask start n data :
  halts_at_failure e (ops_rpipe_set e mask start n data).
Proof. unfold ops_rpipe_set. destruct (_ >? _); [apply halts_ret | apply halts_mbox]. Qed.

Lemma halts_ops_csr_raw_write e addr data len :
  halts_at_failure e (ops_csr_raw_write e addr data len).
Proof. unfold ops_csr_raw_write. destruct (_ >? _); [apply halts_ret | apply halts_mbox]. Qed.

Lemma halts_rpipe_write_block e mask block base range :
  halts_at_failure e (rpipe_write_block e mask block base range).
Proof.
  unfold rpipe_write_block. destruct (_ >? _); [apply halts_ret | apply halts_ops_rpipe_set].
Qed.

Lemma halts_rpipe_clear_block e mask base range :
  halts_at_failure e (rpipe_clear_block e mask base range).
Proof.
  unfold rpipe_clear_block. destruct (_ >? _); [apply halts_ret | apply halts_ops_rpipe_set].
Qed.

Lemma halts_rpipe_write e : halts_at_failure e (rpipe_write e).
Proof.
  unfold rpipe_write. apply halts_bind; [apply silent_get_sd|]. intros sd.
  apply halts_bind; [apply silent_deref|]. intros next.
  apply halts_and_then; [apply halts_rpipe_write_block|].
  apply halts_and_then.
  - unfold rpipe_write_bridge_update. apply halts_bind; [apply silent_get_sd|]. intros sd'.
    apply halts_bind; [apply silent_deref|]. intros next'.
    apply halts_for_each. intros [i block].
    destruct (negb _); [apply halts_ret | apply halts_rpipe_write_block].
  - destruct (uft sd); [|apply halts_ret].
    unfold rpipe_write_bridge_remove. apply halts_bind; [apply silent_get_sd|]. intros sd'.
    apply halts_bind; [apply silent_deref|]. intros curr.
    apply halts_bind; [apply silent_deref|]. intros next'.
    apply halts_for_each. intros [i block].
    destruct (xa_load _ _); [apply halts_ret | apply halts_rpipe_clear_block].
Qed.

Lemma halts_lut_loop e rounds data data_next addr remaining :
  halts_at_failure e (lut_loop e rounds data data_next addr remaining).
Proof.
  revert data data_next addr remaining.
  induction rounds as [|rounds IH]; intros data data_next addr remaining; [apply halts_ret|].
  cbn [lut_loop]. destruct (remaining =? 0); [apply halts_ret|].
  apply halts_and_then; [|apply IH].
  destruct (match data with Some _ => _ | None => _ end);
    [apply halts_ops_csr_raw_write | apply halts_ret].
Qed.

Lemma halts_bridge_write e : halts_at_failure e (bridge_write e).
Proof.
  unfold bridge_write. apply halts_bind; [apply silent_get_sd|]. intros sd.
  destruct (fidgen_next sd); [|apply halts_ret].
  apply halts_for_each. intros lpn. apply halts_and_then; [|apply halts_and_then].
  - unfold fidgen_write_port. apply halts_bind; [apply silent_get_sd|]. intros sd'.
    apply halts_bind; [apply silent_deref|]. intros next.
    apply halts_and_then.
    + destruct (match fidgen sd' with Some _ => _ | None => _ end);
        [apply halts_ops_csr_raw_write | apply halts_ret].
    + unfold fidgen_write_port_pkgaddr. apply halts_bind; [apply silent_get_sd|]. intros sd''.
      apply halts_ops_csr_raw_write.
  - unfold fidgen_write_port_table. apply halts_bind; [apply silent_get_sd|]. intros sd'.
    apply halts_bind; [apply silent_deref|]. intros next. apply halts_lut_loop.
  - apply halts_mbox.
Qed.

Lemma halts_switchinfo_write e : halts_at_failure e (switchinfo_write e).
Proof.
  intros s r s'. unfold switchinfo_write, bind, get_sd, ops_switchinfo_set, mbox, put_sd, ret.
  destruct (Z.eqb_spec (reply e (length (io_hw s))) 0) as [Hz|Hnz]; inversion 1; subst;
    cbn [io_hw]; (eexists [_]; split; [reflexivity|]); intros k Hk Hr;
    cbn [length] in Hk; assert (k = 0%nat) as -> by lia; rewrite Nat.add_0_r in *;
    [congruence | auto].
Qed.

Lemma halts_programming e :
  halts_at_failure e
    (and_then (switchinfo_write e) (and_then (rpipe_write e) (bridge_write e))).
Proof.
  apply halts_and_then; [apply halts_switchinfo_write|].
  apply halts_and_then; [apply halts_rpipe_write | apply halts_bridge_write].
Qed.

(** X16. The programming stage of a sweep makes no mailbox operation after
    one that failed, and a failed operation fails the sweep: the
    subdevice is put in the error state and keeps the tables it had. *)
Theorem sweep_stops_at_failed_operation (e : io_env) (tables : routing_uft * routing_fidgen)
    (sd sd' : fsubdev) (hw : list hw_write) (k : nat) :
  program_sd e tables sd = Some (sd', hw) ->
  (k < length hw)%nat -> reply e k <> 0 ->
  S k = length hw /\
  state sd' = TILE_ROUTING_STATE_ERROR /\ uft sd' = uft sd /\ fidgen sd' = fidgen sd.
Proof.
  unfold program_sd, io_work_fn, bind. intros H Hk Hr.
  destruct (and_then _ _ _) as [[err s1]|] eqn:E; [|discriminate].
  destruct (halts_programming e _ _ _ E) as (ws & Hws & F).
  cbn [io_hw app length Nat.add] in Hws, F.
  pose proof (keeps_programming e _ _ _ E) as Hkeep. cbn [io_sd] in Hkeep.
  unfold get_sd, put_sd in H.
  assert (Hhw : hw = ws).
  { destruct (err =? 0); injection H as _ <-; cbn [io_hw]; exact Hws. }
  subst hw. destruct (F k Hk Hr) as [Hl Herr]. split; [exact Hl|].
  destruct (Z.eqb_spec err 0) as [Hz|_]; [congruence|].
  injection H as <- _. cbn [io_sd]. rewrite Hkeep. repeat split.
Qed.

Lemma sweep_stops_at_failed_operation_witness :
  let e := mk_io_env (fun k => if (k =? 1)%nat then - EINVAL else 0) (fun si => si) in
  exists sd' hw,
    program_sd e sample_tables sample_sd = Some (sd', hw) /\
    length hw = 2%nat /\ state sd' = TILE_ROUTING_STATE_ERROR /\ uft sd' = None.
Proof.
  intros e.
  destruct (program_sd e sample_tables sample_sd) as [[sd' hw]|] eqn:E;
    [|vm_compute in E; discriminate E].
  assert (Hl : length hw = 2%nat) by (vm_compute in E; injection E as _ <-; reflexivity).
  destruct (sweep_stops_at_failed_operation e sample_tables sample_sd sd' hw 1 E)
    as (_ & H2 & H3 & _).
  - rewrite Hl. lia.
  - vm_compute. discriminate.
  - exists sd', hw. split; [reflexivity|]. split; [exact Hl|]. split; [exact H2|exact H3].
Defined.

(** *** The lookup table of a bridge port *)

Lemma lut_loop_first_write e rounds : forall data_next addr remaining s,
  (forall k, reply e k = 0) ->
  0 <= addr < 2 ^ 32 -> 0 <= remaining -> remaining mod 8 = 0 ->
  (Z.to_nat (remaining / 8) <= rounds)%nat ->
  (Z.to_nat (remaining / 8) <= length data_next)%nat ->
  exists ws,
    lut_loop e rounds None data_next addr remaining s =
      Some (0, mk_io (io_sd s) (io_hw s ++ ws)) /\
    mjoin (csr_data <$> ws) = take (Z.to_nat (remaining / 8)) data_next /\
    forall k w, ws !! k = Some w ->
      exists data, w = CsrRawWrite (u32 (addr + Z.of_nat k * MBOX_WRITE_DATA_SIZE_IN_BYTES)) data /\
                   (0 < length data <= 254)%nat.
Proof.
  induction rounds as [|rounds IH]; intros dn addr remaining s Hok Ha Hr Hm Hrounds Hlen.
  - assert (remaining = 0) as -> by (Z.to_euclidean_division_equations; lia).
    exists []. cbn [lut_loop]. unfold ret. rewrite app_nil_r. destruct s.
    split; [reflexivity|]. split; [reflexivity|]. intros k w H. inversion H.
  - cbn [lut_loop]. destruct (Z.eqb_spec remaining 0) as [->|Hne].
    + exists []. unfold ret. rewrite app_nil_r. destruct s.
      split; [reflexivity|]. split; [reflexivity|]. intros k w H. inversion H.
    + set (len := Z.min remaining MBOX_WRITE_DATA_SIZE_IN_BYTES).
      assert (Hlen8 : len mod 8 = 0 /\ 8 <= len <= 2032 /\ len <= remaining).
      { unfold len, MBOX_WRITE_DATA_SIZE_IN_BYTES, MBOX_PARAM_AREA_IN_BYTES.
        change (512 * 8 / 2 - 8 - 8) with 2032.
        destruct (Z.min_spec remaining 2032) as [[? ->]|[? ->]];
          Z.to_euclidean_division_equations; lia. }
      destruct Hlen8 as (Hl8 & Hlr & Hlrem).
      unfold and_then at 1. unfold bind, ops_csr_raw_write.
      destruct (Z.gtb_spec len MBOX_WRITE_DATA_SIZE_IN_BYTES) as [Hgt|_].
      { unfold MBOX_WRITE_DATA_SIZE_IN_BYTES, MBOX_PARAM_AREA_IN_BYTES in Hgt.
        change (512 * 8 / 2 - 8 - 8) with 2032 in Hgt. lia. }
      unfold mbox. rewrite Hok. cbn [Z.eqb fmap option_fmap option_map].
      destruct (IH (drop (Z.to_nat (len / 8)) dn) (u32 (addr + len)) (remaining - len)
                  (mk_io (io_sd s) (io_hw s ++
                     [CsrRawWrite addr (take (Z.to_nat (len / 8)) dn)])) Hok)
        as (ws & E & Hdata & Haddr).
      { unfold u32, wrap. apply Z.mod_pos_bound. lia. }
      { lia. }
      { Z.to_euclidean_division_equations; lia. }
      { Z.to_euclidean_division_equations; lia. }
      { rewrite length_drop. Z.to_euclidean_division_equations; lia. }
      rewrite E. cbn [io_sd io_hw]. rewrite <- app_assoc.
      exists (CsrRawWrite addr (take (Z.to_nat (len / 8)) dn) :: ws).
      split; [reflexivity|]. split.
      * change (take (Z.to_nat (len / 8)) dn ++ mjoin (csr_data <$> ws) =
                take (Z.to_nat (remaining / 8)) dn).
        rewrite Hdata, take_take_drop. f_equal.
        Z.to_euclidean_division_equations; lia.
      * intros [|k] w Hw.
        -- injection Hw as <-. eexists. split.
           ++ f_equal. cbn [Z.of_nat]. rewrite Z.mul_0_l, Z.add_0_r.
              unfold u32, wrap. symmetry. apply Z.mod_small. lia.
           ++ rewrite length_take. Z.to_euclidean_division_equations; lia.
        -- cbn [lookup list_lookup app] in Hw.
           destruct (Haddr k w Hw) as (data & -> & Hd).
           assert (Hfull : len = MBOX_WRITE_DATA_SIZE_IN_BYTES).
           { destruct (Z.eq_dec (remaining - len) 0) as [Hz|Hnz].
             - exfalso. rewrite Hz in E. apply lookup_lt_Some in Hw.
               destruct rounds; cbn [lut_loop] in E; unfold ret in E;
                 injection E as E; apply (f_equal length) in E;
                 rewrite !length_app in E; cbn [length] in *; lia.
             - unfold len in *. lia. }
           exists data. split; [|exact Hd]. f_equal. rewrite Hfull.
           unfold u32, wrap. rewrite Zplus_mod_idemp_l. f_equal. lia.
Qed.

(** X17. The first programming of a bridge port (no fidgen in use yet)
    writes the whole lookup table when every operation succeeds:
    fidgen_write_port_table makes CSR writes whose data, put end to end,
    are the first max_dpa_index + 1 words of the new map; each write
    carries between 1 and 254 words, and the k-th goes to the base address
    of the table plus k times the full write size, modulo 2^32. *)
Theorem lut_written_whole (e : io_env) (port : Z) (s : io_state) (next : routing_fidgen) :
  (forall k, reply e k = 0) ->
  fidgen (io_sd s) = None -> fidgen_next (io_sd s) = Some next ->
  0 <= max_dpa_index (io_sd s) -> (max_dpa_index (io_sd s) + 1) * 8 < 2 ^ 32 ->
  (Z.to_nat (max_dpa_index (io_sd s) + 1) <= length (map next))%nat ->
  exists ws,
    fidgen_write_port_table e port s = Some (0, mk_io (io_sd s) (io_hw s ++ ws)) /\
    mjoin (csr_data <$> ws) = take (Z.to_nat (max_dpa_index (io_sd s) + 1)) (map next) /\
    forall k w, ws !! k = Some w ->
      exists data,
        w = CsrRawWrite (u32 (get_raw_port_base port + CSR_FIDGEN_LUT_BASE
                              + Z.of_nat k * MBOX_WRITE_DATA_SIZE_IN_BYTES)) data /\
        (0 < length data <= 254)%nat.
Proof.
  intros Hok Hf Hn Hm0 Hm Hlen.
  unfold fidgen_write_port_table, bind, get_sd, deref. rewrite Hn, Hf.
  cbn [fmap option_fmap option_map].
  assert (Hu : u32 ((max_dpa_index (io_sd s) + 1) * 8) = (max_dpa_index (io_sd s) + 1) * 8)
    by (unfold u32, wrap; apply Z.mod_small; lia).
  rewrite Hu.
  assert (Hd : (max_dpa_index (io_sd s) + 1) * 8 / 8 = max_dpa_index (io_sd s) + 1)
    by (apply Z.div_mul; lia).
  destruct (lut_loop_first_write e (Z.to_nat ((max_dpa_index (io_sd s) + 1) * 8 / 8))
              (map next) (u32 (get_raw_port_base port + CSR_FIDGEN_LUT_BASE))
              ((max_dpa_index (io_sd s) + 1) * 8) s Hok) as (ws & E & Hdata & Haddr).
  { unfold u32, wrap. apply Z.mod_pos_bound. lia. }
  { lia. } { apply Z.mod_mul. lia. } { lia. } { rewrite Hd. exact Hlen. }
  exists ws. split; [exact E|]. split; [now rewrite Hdata, Hd|].
  intros k w Hw. destruct (Haddr k w Hw) as (data & -> & Hdl). exists data.
  split; [|exact Hdl]. f_equal. unfold u32, wrap. now rewrite Zplus_mod_idemp_l.
Qed.

Lemma lut_written_whole_witness :
  let s := mk_io (stage_next sample_tables sample_sd) [] in
  exists ws,
    fidgen_write_port_table accepting 9 s = Some (0, mk_io (io_sd s) (io_hw s ++ ws)) /\
    mjoin (csr_data <$> ws) = [13; 14].
Proof.
  intros s.
  destruct (lut_written_whole accepting 9 s sample_tables.2) as (ws & H1 & H2 & _).
  - intros k. reflexivity.
  - reflexivity.
  - reflexivity.
  - vm_compute. discriminate.
  - vm_compute. reflexivity.
  - vm_compute. lia.
  - exists ws. split; [exact H1|exact H2].
Defined.

End IoSpec.
(** ** Unicast routes (routing_logic.c) *)

Module UnicastSpec.
Import Uft UftSpec Unicast.

Lemma entry_set_length block i port :
  length (routing_uft_entry_set block i port) = length block.
Proof.
  unfold routing_uft_entry_set. cbv zeta.
  destruct (negb _); apply length_insert.
Qed.

Lemma entry_get_set block i j port :
  0 <= i < 2 ^ 16 -> (Z.to_nat (i / 2) < length block)%nat -> 0 <= j ->
  routing_uft_entry_get (routing_uft_entry_set block i port) j =
  if j =? i then port mod 16 else routing_uft_entry_get block j.
Proof.
  intros Hi Hlen Hj.
  assert (Hidx : u16 (Z.shiftr i 1) = i / 2).
  { unfold u16, wrap. rewrite Z.shiftr_div_pow2 by lia. change (2 ^ 1) with 2.
    apply Z.mod_small. change (2 ^ 16) with 65536 in *. Z.to_euclidean_division_equations; lia. }
  assert (Hsh : forall x, Z.shiftr x 1 = x / 2).
  { intros x. rewrite Z.shiftr_div_pow2 by lia. reflexivity. }
  unfold routing_uft_entry_get, routing_uft_entry_set. cbv zeta.
  rewrite Hidx, !Hsh, !parity_odd.
  assert (Hi2 : 0 <= i / 2) by (Z.to_euclidean_division_equations; lia).
  assert (Hj2 : 0 <= j / 2) by (Z.to_euclidean_division_equations; lia).
  pose proof (Zmod_odd i) as Hoi. pose proof (Zmod_odd j) as Hoj.
  destruct (Z.eqb_spec j i) as [->|Hne].
  - destruct (Z.odd i) eqn:Eo; rewrite byte_at_insert_eq by exact Hlen.
    + rewrite (nibble_get _ true), nibble_odd_byte.
      Z.to_euclidean_division_equations; lia.
    + rewrite (nibble_get _ false), nibble_even_byte.
      Z.to_euclidean_division_equations; lia.
  - destruct (Z.eq_dec (i / 2) (j / 2)) as [Heq|Hneq].
    + rewrite <- Heq.
      assert (Hpar : Z.odd j = negb (Z.odd i)).
      { destruct (Z.odd i), (Z.odd j); try reflexivity; exfalso;
          Z.to_euclidean_division_equations; lia. }
      rewrite Hpar.
      destruct (Z.odd i) eqn:Eo; rewrite byte_at_insert_eq by exact Hlen.
      * rewrite !(nibble_get _ false), nibble_odd_byte.
        Z.to_euclidean_division_equations; lia.
      * rewrite !(nibble_get _ true), nibble_even_byte.
        Z.to_euclidean_division_equations; lia.
    + destruct (Z.odd i); rewrite byte_at_insert_ne by lia; reflexivity.
Qed.

Lemma seqZ_snoc (k : nat) : seqZ 0 (Z.of_nat (S k)) = seqZ 0 (Z.of_nat k) ++ [Z.of_nat k].
Proof.
  replace (Z.of_nat (S k)) with (Z.of_nat k + 1) by lia.
  rewrite seqZ_app by lia. reflexivity.
Qed.

Lemma is_host_fid_odd fid : is_host_fid fid = Z.odd fid.
Proof. apply parity_odd. Qed.

(** The block and the counter after the first [k] rounds of the loop of
    unicast_route_pair_via. *)
Lemma route_pair_rounds ports num_ports block (k : nat) :
  0 < num_ports -> (32 <= length block)%nat -> (k <= 64)%nat ->
  let st := foldl (route_pair_fid ports num_ports) (block, 0) (seqZ 0 (Z.of_nat k)) in
  length st.1 = length block /\
  st.2 = (Z.of_nat k + 1) / 2 /\
  forall f, 0 <= f < 64 ->
    routing_uft_entry_get st.1 f =
    if f <? Z.of_nat k
    then if Z.odd f then 15
         else default 0 (ports !! Z.to_nat ((f / 2) mod num_ports)) mod 16
    else routing_uft_entry_get block f.
Proof.
  intros Hn Hlen. induction k as [|k IH]; intros Hk.
  - cbv zeta. change (Z.of_nat 0) with 0. change (seqZ 0 0) with (@nil Z). cbn [foldl fst snd].
    split; [reflexivity|]. split; [reflexivity|]. intros f Hf.
    destruct (Z.ltb_spec f 0); [lia|reflexivity].
  - cbv zeta. rewrite seqZ_snoc, foldl_app. cbn [foldl].
    destruct (IH ltac:(lia)) as (IL & IM & IE). clear IH.
    destruct (foldl _ _ _) as [b m]. cbn [fst snd] in *.
    unfold route_pair_fid. rewrite is_host_fid_odd.
    assert (Hin : (Z.to_nat (Z.of_nat k / 2) < length b)%nat)
      by (rewrite IL; Z.to_euclidean_division_equations; lia).
    pose proof (Zmod_odd (Z.of_nat k)) as Hodd.
    destruct (Z.odd (Z.of_nat k)) eqn:Ek; cbn [fst snd].
    + split; [now rewrite entry_set_length|].
      split; [rewrite IM; Z.to_euclidean_division_equations; lia|].
      intros f Hf. rewrite entry_get_set by (change (2 ^ 16) with 65536; lia).
      specialize (IE f Hf).
      destruct (Z.eqb_spec f (Z.of_nat k)) as [->|Hne].
      * destruct (Z.ltb_spec (Z.of_nat k) (Z.of_nat (S k))); [|lia]. rewrite Ek. reflexivity.
      * rewrite IE.
        destruct (Z.ltb_spec f (Z.of_nat k)), (Z.ltb_spec f (Z.of_nat (S k)));
          try lia; reflexivity.
    + split; [now rewrite entry_set_length|].
      split.
      { rewrite IM. unfold u16, wrap. change (2 ^ 16) with 65536.
        Z.to_euclidean_division_equations; lia. }
      intros f Hf. rewrite entry_get_set by (change (2 ^ 16) with 65536; lia).
      specialize (IE f Hf).
      destruct (Z.eqb_spec f (Z.of_nat k)) as [->|Hne].
      * destruct (Z.ltb_spec (Z.of_nat k) (Z.of_nat (S k))); [|lia]. rewrite Ek.
        rewrite IM.
        replace ((Z.of_nat k + 1) / 2) with (Z.of_nat k / 2)
          by (Z.to_euclidean_division_equations; lia).
        reflexivity.
      * rewrite IE.
        destruct (Z.ltb_spec f (Z.of_nat k)), (Z.ltb_spec f (Z.of_nat (S k)));
          try lia; reflexivity.
Qed.

(** X18. unicast_route_pair_via spreads the destination's FIDs over the
    egress ports in turn: in the bridge block every odd (host) FID is
    invalid and the even FID 2k goes out of ports[k % num_ports]; the
    management FID of the destination goes out of ports[0]. *)
Theorem route_pair_round_robin (mgmt block : list Z) (fid_mgmt : Z) (ports : list Z)
    (num_ports : Z) :
  0 < num_ports -> (32 <= length block)%nat ->
  let off := fid_mgmt - ROUTING_FID_CPORT_BASE in
  0 <= off -> (Z.to_nat (off / 2) < length mgmt)%nat -> off < 2 ^ 16 ->
  let r := unicast_route_pair_via mgmt block fid_mgmt ports num_ports in
  routing_uft_entry_get r.1 off = default 0 (ports !! 0%nat) mod 16 /\
  length r.2 = length block /\
  forall f, 0 <= f < 64 ->
    routing_uft_entry_get r.2 f =
    if Z.odd f then ROUTING_UFT_INVALID_PORT4
    else default 0 (ports !! Z.to_nat ((f / 2) mod num_ports)) mod 16.
Proof.
  intros Hn Hlen off Ho Hm Ho16 r. subst r. unfold unicast_route_pair_via. cbn [fst snd].
  fold off.
  destruct (route_pair_rounds ports num_ports block 64 Hn Hlen ltac:(lia)) as (L & _ & E).
  change (Z.of_nat 64) with ROUTING_FID_BLOCK_SIZE in *. cbv zeta in *.
  split.
  - unfold u16, wrap. rewrite Z.mod_small by lia.
    rewrite entry_get_set by lia. now rewrite Z.eqb_refl.
  - split; [exact L|]. intros f Hf. rewrite (E f Hf).
    destruct (Z.ltb_spec f ROUTING_FID_BLOCK_SIZE); [reflexivity|].
    unfold ROUTING_FID_BLOCK_SIZE in *. lia.
Qed.

Lemma bridge_offset_channel fid_base f :
  0 <= fid_base -> 0 <= f < 64 ->
  u8 (PORT_BRIDGE_START + fid_to_bridge_offset (u16 (u8 fid_base + f))) mod 16 =
  9 + ((fid_base + f) / 2) mod 4.
Proof.
  intros Hb Hf. unfold fid_to_bridge_offset, PORT_BRIDGE_START.
  rewrite Z.shiftr_land. change (Z.shiftr 6 1) with 3.
  rewrite (land_mask _ 2 3) by (lia || reflexivity).
  rewrite Z.shiftr_div_pow2 by lia.
  unfold u16, u8, wrap.
  change (2 ^ 1) with 2. change (2 ^ 2) with 4. change (2 ^ 8) with 256.
  change (2 ^ 16) with 65536.
  Z.to_euclidean_division_equations; lia.
Qed.

Lemma route_local_rounds fid_base block (k : nat) :
  0 <= fid_base -> (32 <= length block)%nat -> (k <= 64)%nat ->
  let b := foldl (route_local_fid fid_base) block (seqZ 0 (Z.of_nat k)) in
  length b = length block /\
  forall f, 0 <= f < 64 ->
    routing_uft_entry_get b f =
    if f <? Z.of_nat k
    then if Z.odd f then 15 else 9 + ((fid_base + f) / 2) mod 4
    else routing_uft_entry_get block f.
Proof.
  intros Hb Hlen. induction k as [|k IH]; intros Hk.
  - cbv zeta. change (Z.of_nat 0) with 0. change (seqZ 0 0) with (@nil Z). cbn [foldl].
    split; [reflexivity|]. intros f Hf. destruct (Z.ltb_spec f 0); [lia|reflexivity].
  - cbv zeta. rewrite seqZ_snoc, foldl_app. cbn [foldl].
    destruct (IH ltac:(lia)) as (IL & IE). clear IH.
    set (b := foldl _ _ _) in *. cbv zeta in IL, IE.
    unfold route_local_fid. rewrite is_host_fid_odd. cbv zeta.
    assert (Hin : (Z.to_nat (Z.of_nat k / 2) < length b)%nat)
      by (rewrite IL; Z.to_euclidean_division_equations; lia).
    destruct (Z.odd (Z.of_nat k)) eqn:Ek.
    + split; [now rewrite entry_set_length|].
      intros f Hf. rewrite entry_get_set by (change (2 ^ 16) with 65536; lia).
      specialize (IE f Hf).
      destruct (Z.eqb_spec f (Z.of_nat k)) as [->|Hne].
      * destruct (Z.ltb_spec (Z.of_nat k) (Z.of_nat (S k))); [|lia]. rewrite Ek. reflexivity.
      * rewrite IE.
        destruct (Z.ltb_spec f (Z.of_nat k)), (Z.ltb_spec f (Z.of_nat (S k)));
          try lia; reflexivity.
    + split; [now rewrite entry_set_length|].
      intros f Hf. rewrite entry_get_set by (change (2 ^ 16) with 65536; lia).
      specialize (IE f Hf).
      destruct (Z.eqb_spec f (Z.of_nat k)) as [->|Hne].
      * destruct (Z.ltb_spec (Z.of_nat k) (Z.of_nat (S k))); [|lia]. rewrite Ek.
        apply bridge_offset_channel; lia.
      * rewrite IE.
        destruct (Z.ltb_spec f (Z.of_nat k)), (Z.ltb_spec f (Z.of_nat (S k)));
          try lia; reflexivity.
Qed.

Lemma route_pair_round_robin_witness :
  let r := unicast_route_pair_via (replicate 378 0) (replicate 32 0) 66 [3; 5] 2 in
  routing_uft_entry_get r.1 2 = 3 /\
  length r.2 = 32%nat /\
  forall f, 0 <= f < 64 ->
    routing_uft_entry_get r.2 f =
    if Z.odd f then ROUTING_UFT_INVALID_PORT4
    else default 0 ([3; 5] !! Z.to_nat ((f / 2) mod 2)) mod 16.
Proof.
  apply (route_pair_round_robin (replicate 378 0) (replicate 32 0) 66 [3; 5] 2).
  - lia.
  - vm_compute. lia.
  - vm_compute. discriminate.
  - vm_compute. lia.
  - vm_compute. reflexivity.
Defined.

(** X19. unicast_route_local sends each FID of the subdevice's own block to
    the bridge port of its MDFI channel: the even offset [f] goes to port
    9 + bits [2:1] of the FID [fid_base + f] (the 8-bit copy of the base
    the code adds to keeps those bits), every odd (host) offset is
    invalid, and the subdevice's own management FID goes to port 0. *)
Theorem route_local_bridge_ports (mgmt block : list Z) (fid_mgmt fid_base : Z) :
  0 <= fid_base -> (32 <= length block)%nat ->
  let off := fid_mgmt - ROUTING_FID_CPORT_BASE in
  0 <= off -> (Z.to_nat (off / 2) < length mgmt)%nat -> off < 2 ^ 16 ->
  let r := unicast_route_local mgmt block fid_mgmt fid_base in
  routing_uft_entry_get r.1 off = 0 /\
  length r.2 = length block /\
  forall f, 0 <= f < 64 ->
    routing_uft_entry_get r.2 f =
    if Z.odd f then ROUTING_UFT_INVALID_PORT4
    else PORT_BRIDGE_START + ((fid_base + f) / 2) mod 4.
Proof.
  intros Hb Hlen off Ho Hm Ho16 r. subst r. unfold unicast_route_local. cbn [fst snd].
  fold off.
  destruct (route_local_rounds fid_base block 64 Hb Hlen ltac:(lia)) as (L & E).
  change (Z.of_nat 64) with ROUTING_FID_BLOCK_SIZE in *. cbv zeta in *.
  split.
  - unfold u16, wrap. rewrite Z.mod_small by lia.
    rewrite entry_get_set by lia. now rewrite Z.eqb_refl.
  - split; [exact L|]. intros f Hf. rewrite (E f Hf).
    destruct (Z.ltb_spec f ROUTING_FID_BLOCK_SIZE); [reflexivity|].
    unfold ROUTING_FID_BLOCK_SIZE in *. lia.
Qed.

Lemma route_local_bridge_ports_witness :
  let r := unicast_route_local (replicate 378 0xff) (replicate 32 0xff) 66 960 in
  routing_uft_entry_get r.1 2 = 0 /\
  length r.2 = 32%nat /\
  forall f, 0 <= f < 64 ->
    routing_uft_entry_get r.2 f =
    if Z.odd f then ROUTING_UFT_INVALID_PORT4
    else PORT_BRIDGE_START + ((960 + f) / 2) mod 4.
Proof.
  apply (route_local_bridge_ports (replicate 378 0xff) (replicate 32 0xff) 66 960).
  - lia.
  - vm_compute. lia.
  - vm_compute. discriminate.
  - vm_compute. lia.
  - vm_compute. reflexivity.
Defined.

(** X20. What the route pipe is sent for a subdevice's own block: for a
    block base that is a multiple of 8 (every block base is a multiple of
    64), block_to_rpipe turns the block unicast_route_local has filled
    into the bridge ports 9, 10, 11, 12 in turn on the even FIDs and the
    8-bit invalid port 0x7f on the odd ones, whatever the block held
    before. *)
Theorem local_block_rpipe (mgmt block : list Z) (fid_mgmt fid_base : Z) :
  0 <= fid_base -> fid_base mod 8 = 0 -> (32 <= length block)%nat ->
  Io.block_to_rpipe (unicast_route_local mgmt block fid_mgmt fid_base).2
    ROUTING_FID_BLOCK_SIZE =
  mjoin (replicate 8 [9; 0x7f; 10; 0x7f; 11; 0x7f; 12; 0x7f]).
Proof.
  intros Hb Ha Hlen. unfold unicast_route_local. cbn [snd].
  destruct (route_local_rounds fid_base block 64 Hb Hlen ltac:(lia)) as (_ & E).
  cbv zeta in E. change (Z.of_nat 64) with ROUTING_FID_BLOCK_SIZE in E.
  unfold Io.block_to_rpipe.
  transitivity ((fun f => if Z.odd f then 0x7f else 9 + (f / 2) mod 4)
                <$> seqZ 0 ROUTING_FID_BLOCK_SIZE); [|vm_compute; reflexivity].
  apply list_fmap_ext. intros i f Hf. apply lookup_seqZ in Hf as [-> Hi].
  unfold ROUTING_FID_BLOCK_SIZE in *. cbv zeta.
  rewrite E by lia. destruct (Z.ltb_spec (0 + Z.of_nat i) 64); [|lia].
  destruct (Z.odd (0 + Z.of_nat i)); [reflexivity|].
  replace (((fid_base + (0 + Z.of_nat i)) / 2) mod 4) with (((0 + Z.of_nat i) / 2) mod 4)
    by (Z.to_euclidean_division_equations; lia).
  destruct (Z.eqb_spec (9 + ((0 + Z.of_nat i) / 2) mod 4) ROUTING_UFT_INVALID_PORT4) as [E15|];
    [|reflexivity].
  unfold ROUTING_UFT_INVALID_PORT4 in E15. Z.to_euclidean_division_equations; lia.
Qed.

Lemma local_block_rpipe_witness :
  Io.block_to_rpipe
    (unicast_route_local (replicate 378 0xff) (replicate 32 0xff) 66 960).2
    ROUTING_FID_BLOCK_SIZE =
  mjoin (replicate 8 [9; 0x7f; 10; 0x7f; 11; 0x7f; 12; 0x7f]).
Proof.
  apply (local_block_rpipe (replicate 378 0xff) (replicate 32 0xff) 66 960).
  - lia.
  - reflexivity.
  - vm_compute. lia.
Defined.

End UnicastSpec.

(** ** Port manager: initial state, controls, publication *)

Module PmSpec.
Import Port Pm.

Ltac pm_simpl :=
  cbn [ok_to_schedule_pm_work pm_work_pending pm_triggers
       extended_port_cnt port_cnt port lpn_fport_map fport_lpns bport_lpns per_portinfo
       _portstatus port_status next_port_status max_lpn
       set_pm_work_pending set_pm_triggers set_port_cnt set_port
       set_lpn_fport_map set_fport_lpns set_bport_lpns set_portstatus set_port_status
       set_next_port_status set_max_lpn fst snd].

Lemma testbit_set_bit (b i l : Z) :
  0 <= i -> 0 <= l -> Z.testbit (set_bit i b) l = Z.testbit b l || (l =? i).
Proof.
  intros Hi Hl. unfold set_bit. rewrite Z.lor_spec, Z.shiftl_spec by lia. f_equal.
  destruct (Z.eqb_spec l i) as [->|Hne].
  - now rewrite Z.sub_diag.
  - destruct (Z.ltb_spec l i); [now rewrite Z.testbit_neg_r by lia|].
    apply (Z.bits_above_log2 1 (l - i)); [lia|]. cbn. lia.
Qed.

Ltac mem_solve :=
  rewrite ?elem_of_app, ?list_elem_of_singleton; intuition (subst; tauto).

Lemma to_nat_inj_nonneg (a b : Z) : 0 <= a -> 0 <= b -> Z.to_nat a = Z.to_nat b -> a = b.
Proof. lia. Qed.

(** One turn of the loop of initial_port_state. *)
Lemma initial_port_inv m sd0 done fl cnt sd i :
  ports_inv m sd0 done fl cnt sd ->
  length (port sd0) = Z.to_nat PORT_FABRIC_COUNT ->
  length (per_portinfo sd0) = Z.to_nat PORT_COUNT ->
  length (lpn_fport_map sd0) = Z.to_nat PORT_COUNT ->
  length (_portstatus sd0) = Z.to_nat (2 * PORT_COUNT) ->
  Forall (fun l => 0 <= l) done -> fl ⊆ done ->
  1 <= i < PORT_COUNT -> i ∉ done ->
  let fl' := fl ++ (if is_fabric (per_portinfo sd0) i then [i] else []) in
  (length fl' <= Z.to_nat PORT_FABRIC_COUNT)%nat ->
  exists cnt' sd',
    initial_port m i cnt sd = Some (inr cnt', sd') /\
    ports_inv m sd0 (done ++ [i]) fl' cnt' sd'.
Proof.
  intros (Hcnt & Hpi & Hext & Hlp & Hlm & Hls & Hpc & Hmax & Hfl & Hun & Hfb & Hbb)
    Lp Lpi Lm Ls Hdone Hsub Hi Hnd fl' Hlen.
  assert (Hifl : i ∉ fl) by (intros H; apply Hnd, Hsub, H).
  assert (Hflnn : forall l, l ∈ fl -> 0 <= l).
  { intros l Hl. apply Hsub in Hl. rewrite Forall_forall in Hdone. now apply Hdone. }
  unfold initial_port. rewrite Hpi.
  destruct (per_portinfo sd0 !! Z.to_nat i) as [pi|] eqn:Epi.
  2:{ apply lookup_ge_None in Epi. unfold PORT_COUNT in *. lia. }
  cbn [mbind option_bind]. subst fl'. unfold is_fabric in *. rewrite Epi in *.
  destruct (port_link_mode_active pi =? STL_PORT_LINK_MODE_STL) eqn:Emode.
  - rewrite length_app in Hlen. cbn [length] in Hlen.
    destruct (Z.geb_spec cnt PORT_FABRIC_COUNT) as [Hge|Hlt]; [unfold PORT_FABRIC_COUNT in *; lia|].
    destruct (port sd !! Z.to_nat cnt) as [q0|] eqn:Eq0.
    2:{ apply lookup_ge_None in Eq0. unfold PORT_FABRIC_COUNT in *. lia. }
    cbn [mbind option_bind]. eexists _, _. split; [reflexivity|].
    unfold ports_inv. pm_simpl. rewrite !length_insert, length_alter, length_app. cbn [length].
    repeat split; try assumption; try lia.
    + destruct fl; reflexivity.
    + now rewrite last_last.
    + apply lookup_app_Some in H as [H|[Hk H]].
      * assert (Hl : l ∈ fl) by (eapply list_elem_of_lookup_2; eassumption).
        rewrite list_lookup_insert_ne.
        2:{ intros E. apply to_nat_inj_nonneg in E; [subst; contradiction|lia|auto]. }
        now apply (Hfl k l).
      * apply list_lookup_singleton_Some in H as [Hk0 <-].
        replace k with (length fl) by lia. replace (Z.to_nat cnt) with (length fl) by lia.
        apply list_lookup_insert_eq. unfold PORT_COUNT in *. lia.
    + apply lookup_app_Some in H as [H|[Hk H]].
      * assert (Hl : l ∈ fl) by (eapply list_elem_of_lookup_2; eassumption).
        rewrite list_lookup_alter_ne.
        2:{ intros E. apply to_nat_inj_nonneg in E; [subst; contradiction|lia|auto]. }
        now apply (Hfl k l).
      * apply list_lookup_singleton_Some in H as [Hk0 <-].
        rewrite list_lookup_alter_eq.
        destruct (_portstatus sd !! Z.to_nat i) eqn:Est; [reflexivity|].
        apply lookup_ge_None in Est. unfold PORT_COUNT in *. lia.
    + apply lookup_app_Some in H as [H|[Hk H]].
      * assert (Hl : l ∈ fl) by (eapply list_elem_of_lookup_2; eassumption).
        destruct (Hfl k l H) as (_ & _ & q & pi' & Hq & Hpi' & Hrest).
        exists q, pi'. split; [|split; [exact Hpi'|exact Hrest]].
        rewrite list_lookup_insert_ne; [exact Hq|].
        apply lookup_lt_Some in H. lia.
      * apply list_lookup_singleton_Some in H as [Hk0 <-].
        eexists _, pi. split.
        { replace k with (Z.to_nat cnt) by lia. apply list_lookup_insert_eq.
          apply lookup_lt_Some in Eq0. exact Eq0. }
        split; [exact Epi|]. cbn [lpn state fport_portinfo controls].
        repeat split. unfold u8, wrap. apply Z.mod_small. unfold PORT_COUNT in *. lia.
    + intros l Hl Hnl. rewrite not_elem_of_app, not_elem_of_cons in Hnl.
      destruct Hnl as [Hnl [Hne _]].
      rewrite list_lookup_insert_ne by lia. now apply Hun.
    + intros l Hl. rewrite testbit_set_bit by lia. rewrite Hfb by lia.
      destruct (Z.eqb_spec l i) as [->|Hne].
      * rewrite orb_true_r. symmetry. apply bool_decide_eq_true. mem_solve.
      * rewrite orb_false_r. apply bool_decide_ext. mem_solve.
    + intros l Hl. rewrite Hbb by lia. apply bool_decide_ext. mem_solve.
  - rewrite app_nil_r in *. eexists _, _. split; [reflexivity|].
    unfold ports_inv. pm_simpl. repeat split; try assumption; try (now apply (Hfl k l)).
    intros l Hl. rewrite testbit_set_bit by lia. rewrite Hbb by lia.
    destruct (Z.eqb_spec l i) as [->|Hne].
    + rewrite orb_true_r. symmetry. apply bool_decide_eq_true. mem_solve.
    + rewrite orb_false_r. apply bool_decide_ext. mem_solve.
Qed.

Local Abbreviation fabric sd0 := (fun l => is_fabric (per_portinfo sd0) l = true).

Lemma filter_fabric_cons sd0 i rest :
  filter (fabric sd0) (i :: rest) =
  (if is_fabric (per_portinfo sd0) i then [i] else []) ++ filter (fabric sd0) rest.
Proof.
  rewrite filter_cons. destruct (decide _) as [E|E].
  - now rewrite E.
  - apply not_true_is_false in E. now rewrite E.
Qed.

(** The loop of initial_port_state, when the fabric ports fit. *)
Lemma initial_ports_inv m sd0 rest : forall done fl cnt sd,
  ports_inv m sd0 done fl cnt sd ->
  length (port sd0) = Z.to_nat PORT_FABRIC_COUNT ->
  length (per_portinfo sd0) = Z.to_nat PORT_COUNT ->
  length (lpn_fport_map sd0) = Z.to_nat PORT_COUNT ->
  length (_portstatus sd0) = Z.to_nat (2 * PORT_COUNT) ->
  Forall (fun l => 0 <= l) done -> fl ⊆ done ->
  Forall (fun i => 1 <= i < PORT_COUNT) rest -> NoDup (done ++ rest) ->
  (length (fl ++ filter (fabric sd0) rest) <= Z.to_nat PORT_FABRIC_COUNT)%nat ->
  exists cnt' sd',
    initial_ports m rest cnt sd = Some (inr cnt', sd') /\
    ports_inv m sd0 (done ++ rest) (fl ++ filter (fabric sd0) rest) cnt' sd'.
Proof.
  induction rest as [|i rest IH]; intros done fl cnt sd Hinv Lp Lpi Lm Ls Hdone Hsub Hrest Hnd Hlen.
  - rewrite filter_nil, !app_nil_r in *. exists cnt, sd. split; [reflexivity|assumption].
  - rewrite filter_fabric_cons in *. rewrite app_assoc in *.
    apply Forall_cons in Hrest as [Hi Hrest].
    assert (Hid : i ∉ done).
    { apply NoDup_app in Hnd as (_ & Hnd & _). intros H. apply (Hnd i H). left. }
    destruct (initial_port_inv m sd0 done fl cnt sd i Hinv Lp Lpi Lm Ls Hdone Hsub Hi Hid)
      as (cnt1 & sd1 & E1 & Hinv1).
    { cbv zeta. rewrite length_app in Hlen. lia. }
    cbn [initial_ports]. rewrite E1. cbn [mbind option_bind].
    replace (done ++ i :: rest) with ((done ++ [i]) ++ rest) by now rewrite <- app_assoc.
    apply IH; try assumption.
    + apply Forall_app. split; [assumption|]. apply Forall_singleton. lia.
    + intros l Hl. apply elem_of_app in Hl as [Hl|Hl].
      * apply elem_of_app. left. now apply Hsub.
      * destruct (is_fabric _ i); [|inversion Hl]. apply elem_of_app. now right.
    + now rewrite <- app_assoc.
Qed.

(** The loop of initial_port_state, when there are more fabric ports than
    [sd->port] holds: it returns at the first that does not fit. *)
Lemma initial_ports_too_many m sd0 rest : forall done fl cnt sd,
  ports_inv m sd0 done fl cnt sd ->
  length (port sd0) = Z.to_nat PORT_FABRIC_COUNT ->
  length (per_portinfo sd0) = Z.to_nat PORT_COUNT ->
  length (lpn_fport_map sd0) = Z.to_nat PORT_COUNT ->
  length (_portstatus sd0) = Z.to_nat (2 * PORT_COUNT) ->
  Forall (fun l => 0 <= l) done -> fl ⊆ done ->
  Forall (fun i => 1 <= i < PORT_COUNT) rest -> NoDup (done ++ rest) ->
  (length fl <= Z.to_nat PORT_FABRIC_COUNT)%nat ->
  (Z.to_nat PORT_FABRIC_COUNT < length (fl ++ filter (fabric sd0) rest))%nat ->
  exists sd',
    initial_ports m rest cnt sd = Some (inl (- ENOENT), sd') /\
    port_cnt sd' = PORT_FABRIC_COUNT /\ port_status sd' = port_status sd.
Proof.
  induction rest as [|i rest IH]; intros done fl cnt sd Hinv Lp Lpi Lm Ls Hdone Hsub Hrest Hnd Hfl Hlen.
  - rewrite filter_nil, app_nil_r in Hlen. lia.
  - rewrite filter_fabric_cons in *. rewrite app_assoc in *.
    apply Forall_cons in Hrest as [Hi Hrest].
    assert (Hid : i ∉ done).
    { apply NoDup_app in Hnd as (_ & Hnd & _). intros H. apply (Hnd i H). left. }
    destruct (decide (length (fl ++ (if is_fabric (per_portinfo sd0) i then [i] else []))
                      <= Z.to_nat PORT_FABRIC_COUNT)%nat) as [Hfit|Hover].
    + destruct (initial_port_inv m sd0 done fl cnt sd i Hinv Lp Lpi Lm Ls Hdone Hsub Hi Hid Hfit)
        as (cnt1 & sd1 & E1 & Hinv1).
      cbn [initial_ports]. rewrite E1. cbn [mbind option_bind].
      destruct (IH (done ++ [i]) _ cnt1 sd1 Hinv1 Lp Lpi Lm Ls) as (sd' & E' & Hc & Hps);
        try assumption.
      * apply Forall_app. split; [assumption|]. apply Forall_singleton. lia.
      * intros l Hl. apply elem_of_app in Hl as [Hl|Hl].
        -- apply elem_of_app. left. now apply Hsub.
        -- destruct (is_fabric _ i); [|inversion Hl]. apply elem_of_app. now right.
      * now rewrite <- app_assoc.
      * exists sd'. split; [exact E'|]. split; [exact Hc|]. rewrite Hps.
        unfold initial_port in E1.
        destruct (per_portinfo sd !! Z.to_nat i); [|discriminate]. cbn [mbind option_bind] in E1.
        destruct (_ =? STL_PORT_LINK_MODE_STL); [|now injection E1 as _ <-].
        destruct (cnt >=? PORT_FABRIC_COUNT); [discriminate|].
        destruct (port sd !! Z.to_nat cnt); [|discriminate]. now injection E1 as _ <-.
    + destruct Hinv as (Hcnt & Hpi & _ & _ & _ & _ & Hpc & _).
      unfold is_fabric in Hover. cbn [initial_ports]. unfold initial_port. rewrite Hpi.
      destruct (per_portinfo sd0 !! Z.to_nat i) as [pi|]; [|rewrite app_nil_r in Hover; lia].
      cbn [mbind option_bind].
      destruct (port_link_mode_active pi =? STL_PORT_LINK_MODE_STL);
        [|rewrite app_nil_r in Hover; lia].
      rewrite length_app in Hover. cbn [length] in Hover.
      destruct (Z.geb_spec cnt PORT_FABRIC_COUNT) as [Hge|Hlt];
        [|unfold PORT_FABRIC_COUNT in *; lia].
      cbn [mbind option_bind]. exists sd. split; [reflexivity|]. split; [|reflexivity].
      rewrite Hpc. destruct fl; [cbn in Hover; unfold PORT_FABRIC_COUNT in *; lia|].
      unfold PORT_FABRIC_COUNT in *. lia.
Qed.

Lemma copy_status_length next init l i : length (copy_status next init l i) = length l.
Proof. unfold copy_status. destruct (l !! _); [apply length_insert|reflexivity]. Qed.

Lemma copy_status_below next init l i (j : nat) :
  (j < next)%nat -> copy_status next init l i !! j = l !! j.
Proof.
  intros Hj. unfold copy_status. destruct (l !! _); [|reflexivity].
  apply list_lookup_insert_ne. lia.
Qed.

Lemma foldl_copy_status_below next init (lpns : list Z) l (j : nat) :
  (j < next)%nat -> foldl (copy_status next init) l lpns !! j = l !! j.
Proof.
  intros Hj. revert l. induction lpns as [|i lpns IH]; intros l; [reflexivity|].
  cbn [foldl]. rewrite IH. now apply copy_status_below.
Qed.

Lemma scanned_lpns_range sd l :
  l ∈ scanned_lpns sd <-> PORT_FABRIC_START <= l < extended_port_cnt sd.
Proof. unfold scanned_lpns. rewrite elem_of_seqZ. lia. Qed.

Lemma stl_lpns_scanned sd l : l ∈ stl_lpns sd -> l ∈ scanned_lpns sd.
Proof. unfold stl_lpns. rewrite list_elem_of_filter. tauto. Qed.

Lemma ports_inv_start m sd :
  ports_inv m sd [] [] 0 (set_bport_lpns 0 (set_fport_lpns 0 (set_max_lpn 0 sd))).
Proof.
  unfold ports_inv. pm_simpl.
  split; [reflexivity|]. do 7 (split; [reflexivity|]).
  split; [intros k l H; inversion H|]. split; [reflexivity|]. split.
  - intros l Hl. rewrite Z.bits_0. symmetry. apply bool_decide_eq_false. apply not_elem_of_nil.
  - intros l Hl. rewrite Z.bits_0. symmetry. apply bool_decide_eq_false.
    intros [H _]. revert H. apply not_elem_of_nil.
Qed.

Lemma scanned_lpns_Forall sd :
  extended_port_cnt sd <= PORT_COUNT ->
  Forall (fun i => 1 <= i < PORT_COUNT) (scanned_lpns sd).
Proof.
  intros H. apply Forall_forall. intros l Hl. apply scanned_lpns_range in Hl.
  unfold PORT_FABRIC_START in *. lia.
Qed.

(** X21. initial_port_state, when the firmware reports no more than
    eight of the logical ports 1 to extended_port_cnt - 1 in fabric mode,
    returns 0 and sets the fabric ports up in ascending order of logical
    port number: the k-th of them takes sd->port[k], DISABLED, with the
    portinfo of its logical port, the ROUTABLE control set and the ENABLED
    control set only for a fixed port without manual bringup;
    get_fport_handle maps its logical port number to that entry, and
    get_fport_status returns health BLACK for it.  For every other logical
    port get_fport_status returns -EINVAL.  fport_lpns has exactly the
    bits of the fabric ports and bport_lpns those of the other logical
    ports scanned; port_cnt is the number of fabric ports and max_lpn the
    highest of them. *)
Theorem initial_port_state_maps (m : bool) (sd : fsubdev) (st : fport_status) :
  allocated sd -> extended_port_cnt sd <= PORT_COUNT ->
  (length (stl_lpns sd) <= Z.to_nat PORT_FABRIC_COUNT)%nat ->
  exists sd',
    initial_port_state m sd = Some (0, sd') /\
    port_cnt sd' = Z.of_nat (length (stl_lpns sd)) /\
    max_lpn sd' = List.last (stl_lpns sd) 0 /\
    (forall k l, stl_lpns sd !! k = Some l ->
       get_fport_handle (status_view sd') l = Some k /\
       get_fport_status (status_view sd') l st =
         (0, mk_status FPORT_HEALTH_BLACK 0 FPORT_ERROR_NONE) /\
       exists q pi, port sd' !! k = Some q /\ per_portinfo sd !! Z.to_nat l = Some pi /\
         lpn q = l /\ state q = PM_PORT_STATE_DISABLED /\
         fport_portinfo q = pm_portinfo pi /\
         controls q = initial_controls m (port_type pi)) /\
    (forall l, 0 <= l -> l ∉ stl_lpns sd ->
       get_fport_status (status_view sd') l st = (- EINVAL, st)) /\
    (forall l, 0 <= l -> Z.testbit (fport_lpns sd') l = bool_decide (l ∈ stl_lpns sd)) /\
    (forall l, 0 <= l ->
       Z.testbit (bport_lpns sd') l =
       bool_decide (l ∈ scanned_lpns sd /\ l ∉ stl_lpns sd)).
Proof.
  intros (Lp & Lpi & Ls & Hmap & Hpc0) Hext Hfit.
  assert (Lm : length (lpn_fport_map sd) = Z.to_nat PORT_COUNT)
    by (rewrite Hmap; apply length_replicate).
  destruct (initial_ports_inv m sd (scanned_lpns sd) [] [] 0 _ (ports_inv_start m sd)
              Lp Lpi Lm Ls) as (cnt & sd1 & E & Hinv).
  { constructor. } { intros l Hl. inversion Hl. } { now apply scanned_lpns_Forall. }
  { apply NoDup_seqZ. } { exact Hfit. }
  cbn [app] in Hinv. fold (stl_lpns sd) in Hinv.
  destruct Hinv as (Hcnt & Hpi & He & Hlp & Hlm & Hls & Hpc & Hmax & Hfl & Hun & Hfb & Hbb).
  unfold initial_port_state. pm_simpl.
  change (seqZ PORT_FABRIC_START (extended_port_cnt sd - PORT_FABRIC_START))
    with (scanned_lpns sd).
  rewrite E. cbn [mbind option_bind]. eexists. split; [reflexivity|]. pm_simpl.
  assert (Hrange : forall l, l ∈ stl_lpns sd -> 1 <= l < PORT_COUNT).
  { intros l Hl. apply stl_lpns_scanned, scanned_lpns_range in Hl.
    unfold PORT_FABRIC_START in *. lia. }
  split; [|split; [exact Hmax|split; [|split; [|split; [exact Hfb|exact Hbb]]]]].
  - rewrite Hpc, Hcnt. destruct (stl_lpns sd); [exact Hpc0|reflexivity].
  - intros k l Hkl. destruct (Hfl k l Hkl) as (Hm & Hst & Hq).
    assert (Hl := Hrange l (list_elem_of_lookup_2 _ _ _ Hkl)).
    assert (Hh : get_fport_handle
                   (status_view
                      (set_portstatus
                         (foldl (copy_status (Z.to_nat PORT_COUNT) 0) (_portstatus sd1)
                            (seqZ PORT_FABRIC_START (max_lpn sd1 + 1 - PORT_FABRIC_START)))
                         (set_next_port_status (Some (Z.to_nat PORT_COUNT))
                            (set_port_status (Some 0%nat) sd1)))) l = Some k).
    { unfold get_fport_handle, status_view. pm_simpl. cbn [Port.lpn_fport_map].
      destruct (Z.ltb_spec l PORT_COUNT); [|lia]. now rewrite Hm. }
    split; [exact Hh|]. split; [|exact Hq].
    unfold get_fport_status. rewrite Hh. unfold status_view. pm_simpl.
    cbn [Port.port_status fmap option_fmap option_map]. rewrite drop_0.
    rewrite foldl_copy_status_below by (unfold PORT_COUNT in *; lia). now rewrite Hst.
  - intros l Hl Hnl. unfold get_fport_status, get_fport_handle, status_view. pm_simpl.
    cbn [Port.lpn_fport_map]. destruct (Z.ltb_spec l PORT_COUNT); [|reflexivity].
    rewrite (Hun l Hl Hnl), Hmap, lookup_replicate_2 by (unfold PORT_COUNT in *; lia).
    reflexivity.
Qed.

Lemma initial_port_state_maps_witness :
  exists sd',
    initial_port_state false (sample_sd 8) = Some (0, sd') /\
    port_cnt sd' = 8 /\ max_lpn sd' = 8 /\
    get_fport_handle (status_view sd') 3 = Some 2%nat /\
    get_fport_status (status_view sd') 3 (mk_status FPORT_HEALTH_GREEN 0 FPORT_ERROR_NONE) =
      (0, mk_status FPORT_HEALTH_BLACK 0 FPORT_ERROR_NONE).
Proof.
  destruct (initial_port_state_maps false (sample_sd 8)
              (mk_status FPORT_HEALTH_GREEN 0 FPORT_ERROR_NONE))
    as (sd' & H1 & H2 & H3 & H4 & _).
  - unfold allocated. repeat split; vm_compute; reflexivity.
  - vm_compute. discriminate.
  - vm_compute. lia.
  - exists sd'. split; [exact H1|]. split; [exact H2|]. split; [exact H3|].
    destruct (H4 2%nat 3) as (Ha & Hb & _); [vm_compute; reflexivity|].
    split; [exact Ha|exact Hb].
Defined.

(** X22. initial_port_state, when the firmware reports more than eight
    logical ports in fabric mode, returns -ENOENT at the ninth: the eight
    before it are set up (port_cnt is 8), and no status array is
    published. *)
Theorem initial_port_state_too_many (m : bool) (sd : fsubdev) :
  allocated sd -> extended_port_cnt sd <= PORT_COUNT ->
  (Z.to_nat PORT_FABRIC_COUNT < length (stl_lpns sd))%nat ->
  exists sd',
    initial_port_state m sd = Some (- ENOENT, sd') /\
    port_cnt sd' = PORT_FABRIC_COUNT /\ port_status sd' = port_status sd.
Proof.
  intros (Lp & Lpi & Ls & Hmap & Hpc0) Hext Hover.
  assert (Lm : length (lpn_fport_map sd) = Z.to_nat PORT_COUNT)
    by (rewrite Hmap; apply length_replicate).
  destruct (initial_ports_too_many m sd (scanned_lpns sd) [] [] 0 _ (ports_inv_start m sd)
              Lp Lpi Lm Ls) as (sd1 & E & Hc & Hps).
  { constructor. } { intros l Hl. inversion Hl. } { now apply scanned_lpns_Forall. }
  { apply NoDup_seqZ. } { cbn. lia. } { exact Hover. }
  unfold initial_port_state. pm_simpl.
  change (seqZ PORT_FABRIC_START (extended_port_cnt sd - PORT_FABRIC_START))
    with (scanned_lpns sd).
  rewrite E. cbn [mbind option_bind]. exists sd1. repeat split; assumption.
Qed.

Lemma initial_port_state_too_many_witness :
  exists sd',
    initial_port_state false (sample_sd 9) = Some (- ENOENT, sd') /\
    port_cnt sd' = PORT_FABRIC_COUNT /\ port_status sd' = None.
Proof.
  apply (initial_port_state_too_many false (sample_sd 9)).
  - unfold allocated. repeat split; vm_compute; reflexivity.
  - vm_compute. discriminate.
  - vm_compute. lia.
Defined.

(** *** Status publication *)

(** The copy loop, for two arrays that do not overlap. *)
Lemma foldl_copy_status (new old : nat) (lpns : list Z) : forall l,
  (new + Z.to_nat PORT_COUNT <= old \/ old + Z.to_nat PORT_COUNT <= new)%nat ->
  Forall (fun i => 0 <= i < PORT_COUNT) lpns ->
  (new + Z.to_nat PORT_COUNT <= length l)%nat ->
  (old + Z.to_nat PORT_COUNT <= length l)%nat ->
  let l' := foldl (copy_status new old) l lpns in
  length l' = length l /\
  (forall i, i ∈ lpns -> l' !! (new + Z.to_nat i)%nat = l !! (old + Z.to_nat i)%nat) /\
  (forall j, (forall i, i ∈ lpns -> j <> (new + Z.to_nat i)%nat) -> l' !! j = l !! j).
Proof.
  induction lpns as [|i lpns IH]; intros l Hsep Hr Hn Ho; cbv zeta.
  - cbn [foldl]. split; [reflexivity|]. split; [|reflexivity]. intros i Hi. inversion Hi.
  - apply Forall_cons in Hr as [Hi Hr]. cbn [foldl].
    assert (Hlen : length (copy_status new old l i) = length l) by apply copy_status_length.
    destruct (IH (copy_status new old l i) Hsep Hr) as (L & A & B); [lia..|].
    cbv zeta in L, A, B.
    destruct (lookup_lt_is_Some_2 l (old + Z.to_nat i)) as [st Hst];
      [unfold PORT_COUNT in *; lia|].
    assert (Hc : copy_status new old l i = <[(new + Z.to_nat i)%nat := st]> l)
      by (unfold copy_status; now rewrite Hst).
    assert (Hold : forall i', 0 <= i' < PORT_COUNT ->
              copy_status new old l i !! (old + Z.to_nat i')%nat = l !! (old + Z.to_nat i')%nat).
    { intros i' Hi'. rewrite Hc. apply list_lookup_insert_ne. unfold PORT_COUNT in *. lia. }
    split; [congruence|]. split.
    + intros i' Hi'. destruct (decide (i' ∈ lpns)) as [Hin|Hnin].
      * rewrite (A i' Hin). apply Hold. rewrite Forall_forall in Hr. now apply Hr.
      * apply elem_of_cons in Hi' as [->|]; [|contradiction].
        rewrite B.
        -- rewrite Hc, list_lookup_insert_eq by (unfold PORT_COUNT in *; lia). now rewrite Hst.
        -- intros i' Hi' E. assert (i' = i); [|subst; contradiction].
           rewrite Forall_forall in Hr. specialize (Hr i' Hi'). lia.
    + intros j Hj. rewrite B by (intros i' Hi'; apply Hj; now right).
      rewrite Hc. apply list_lookup_insert_ne. intros E. apply (Hj i); [now left|auto].
Qed.

(** X23. publish_status_updates swaps the published and the unpublished
    status array and brings the new unpublished one up to date.  Readers
    afterwards see the array that was unpublished, as it was; the array
    that was published becomes the unpublished one and takes the entries
    of the logical ports 1 to max_lpn from it, its other entries staying
    as they were; the port map is not touched. *)
Theorem publish_swaps_and_copies (sd : fsubdev) (a b : nat) :
  port_status sd = Some a -> next_port_status sd = Some b ->
  (a = 0%nat /\ b = Z.to_nat PORT_COUNT \/ a = Z.to_nat PORT_COUNT /\ b = 0%nat) ->
  length (_portstatus sd) = Z.to_nat (2 * PORT_COUNT) ->
  max_lpn sd < PORT_COUNT ->
  exists sd',
    publish_status_updates sd = Some sd' /\
    port_status sd' = Some b /\ next_port_status sd' = Some a /\
    lpn_fport_map sd' = lpn_fport_map sd /\
    (forall i, 0 <= i < PORT_COUNT ->
       _portstatus sd' !! (b + Z.to_nat i)%nat = _portstatus sd !! (b + Z.to_nat i)%nat) /\
    (forall i, PORT_FABRIC_START <= i <= max_lpn sd ->
       _portstatus sd' !! (a + Z.to_nat i)%nat = _portstatus sd !! (b + Z.to_nat i)%nat) /\
    (forall i, 0 <= i < PORT_COUNT -> ~ PORT_FABRIC_START <= i <= max_lpn sd ->
       _portstatus sd' !! (a + Z.to_nat i)%nat = _portstatus sd !! (a + Z.to_nat i)%nat).
Proof.
  intros Hps Hnx Hab Hlen Hmax. unfold publish_status_updates. pm_simpl. rewrite Hps, Hnx.
  destruct (Z.ltb_spec (max_lpn sd) PORT_FABRIC_START) as [Hlt|Hge].
  - eexists. split; [reflexivity|]. pm_simpl. repeat split; try reflexivity.
    intros i Hi. lia.
  - cbn [mbind option_bind]. eexists. split; [reflexivity|]. pm_simpl.
    destruct (foldl_copy_status a b
                (seqZ PORT_FABRIC_START (max_lpn sd + 1 - PORT_FABRIC_START)) (_portstatus sd))
      as (L & A & B).
    { unfold PORT_COUNT in *. lia. }
    { apply Forall_forall. intros i Hi. apply elem_of_seqZ in Hi.
      unfold PORT_FABRIC_START, PORT_COUNT in *. lia. }
    { unfold PORT_COUNT in *. lia. } { unfold PORT_COUNT in *. lia. }
    cbv zeta in L, A, B.
    split; [reflexivity|]. split; [reflexivity|]. split; [reflexivity|]. split; [|split].
    + intros i Hi. apply B. intros i' Hi' E. apply elem_of_seqZ in Hi'.
      unfold PORT_FABRIC_START, PORT_COUNT in *. lia.
    + intros i Hi. apply A. apply elem_of_seqZ. lia.
    + intros i Hi Hn. apply B. intros i' Hi' E. apply elem_of_seqZ in Hi'.
      assert (i' = i) by (unfold PORT_FABRIC_START, PORT_COUNT in *; lia). subst. lia.
Qed.

Lemma publish_swaps_and_copies_witness :
  exists sd',
    publish_status_updates sample_ready = Some sd' /\
    port_status sd' = Some 13%nat /\ next_port_status sd' = Some 0%nat.
Proof.
  destruct (publish_swaps_and_copies sample_ready 0 13) as (sd' & H1 & H2 & H3 & _).
  - vm_compute. reflexivity.
  - vm_compute. reflexivity.
  - left. split; reflexivity.
  - vm_compute. reflexivity.
  - vm_compute. reflexivity.
  - exists sd'. split; [exact H1|]. split; [exact H2|exact H3].
Defined.

(** *** Port controls *)

Local Abbreviation en q := (with_controls q (set_bit PORT_CONTROL_ENABLED (controls q))).

Lemma set_bit_set (nr c : Z) : 0 <= nr -> test_bit nr c = true -> set_bit nr c = c.
Proof.
  intros Hnr H. unfold set_bit, test_bit in *. apply Z.bits_inj'. intros i Hi.
  rewrite Z.lor_spec, Z.shiftl_spec by lia.
  destruct (Z.eq_dec i nr) as [->|Hne]; [now rewrite H|].
  replace (Z.testbit 1 (i - nr)) with false; [apply orb_false_r|].
  destruct (Z.ltb_spec i nr); [now rewrite Z.testbit_neg_r by lia|].
  symmetry. apply (Z.bits_above_log2 1 (i - nr)); [lia|]. cbn. lia.
Qed.

Lemma test_set_bit (nr c : Z) : 0 <= nr -> test_bit nr (set_bit nr c) = true.
Proof.
  intros Hnr. unfold test_bit. rewrite testbit_set_bit by lia.
  now rewrite Z.eqb_refl, orb_true_r.
Qed.

Lemma with_controls_id q : with_controls q (controls q) = q.
Proof. now destruct q. Qed.

Lemma en_en q : en (en q) = en q.
Proof.
  unfold with_controls. cbn [controls fport_portinfo state lpn log_state].
  now rewrite (set_bit_set _ (set_bit _ _)) by (try apply test_set_bit; unfold PORT_CONTROL_ENABLED; lia).
Qed.

Lemma set_port_id sd : set_port (port sd) sd = sd.
Proof. now destruct sd. Qed.

(** The state of the loop of enable_fports after the logical ports
    [lpns]. *)
Lemma enable_fport_inv sd (Hv : handles_valid sd) (lpns : list Z) :
  let r := foldl enable_fport (true, sd) lpns in
  r.2 = set_port (port r.2) sd /\
  length (port r.2) = length (port sd) /\
  (forall k q, port sd !! k = Some q ->
     port r.2 !! k = Some (if bool_decide (selected sd lpns k) then en q else q)) /\
  (r.1 = true -> port r.2 = port sd) /\
  (r.1 = false -> exists k q, port sd !! k = Some q /\ selected sd lpns k /\
                    test_bit PORT_CONTROL_ENABLED (controls q) = false).
Proof.
  induction lpns as [|lpn lpns IH] using rev_ind; cbv zeta.
  - cbn [foldl fst snd]. rewrite set_port_id. repeat split; try discriminate.
    intros k q Hq. rewrite bool_decide_eq_false_2; [assumption|].
    unfold selected. now rewrite Exists_nil.
  - rewrite foldl_app. cbn [foldl]. cbv zeta in IH.
    destruct (foldl enable_fport (true, sd) lpns) as [u sd1]. cbn [fst snd] in IH.
    destruct IH as (I1 & I2 & I3 & I4 & I5).
    assert (Hview : status_view sd1 = status_view sd) by (rewrite I1; reflexivity).
    assert (Hsel : forall k, selected sd (lpns ++ [lpn]) k <->
                     selected sd lpns k \/ get_fport_handle (status_view sd) lpn = Some k).
    { intros k. unfold selected. rewrite Exists_app, Exists_cons, Exists_nil. tauto. }
    unfold enable_fport. rewrite Hview.
    destruct (get_fport_handle (status_view sd) lpn) as [k0|] eqn:Eh.
    + destruct (lookup_lt_is_Some_2 (port sd) k0 (Hv _ _ Eh)) as [q0 Hq0].
      unfold test_and_set_control. rewrite (I3 k0 q0 Hq0). cbn [fst snd].
      pose (q1 := (if bool_decide (selected sd lpns k0) then en q0 else q0)).
      fold q1.
      assert (Hen : en q1 = en q0) by (subst q1; destruct (bool_decide _); [apply en_en|reflexivity]).
      rewrite Hen. pm_simpl.
      split; [transitivity (set_port (<[k0:=en q0]> (port sd1)) (set_port (port sd1) sd));
              [now rewrite <- I1|reflexivity]|].
      split; [now rewrite length_insert|].
      split; [|split].
      * intros k q Hq. destruct (decide (k = k0)) as [->|Hne].
        -- rewrite list_lookup_insert_eq by (rewrite I2; eapply lookup_lt_Some; eassumption).
           rewrite bool_decide_eq_true_2 by (apply Hsel; now right). congruence.
        -- rewrite list_lookup_insert_ne by congruence. rewrite (I3 k q Hq).
           apply f_equal. apply (f_equal (fun b : bool => if b then en q else q)).
           apply bool_decide_ext. rewrite Hsel. intuition congruence.
      * intros Hu. apply andb_true_iff in Hu as [Hu Hold].
        specialize (I4 Hu). rewrite I4.
        assert (q1 = q0) as Hq1.
        { rewrite I4 in I3. specialize (I3 k0 q0 Hq0). rewrite Hq0 in I3. now injection I3. }
        rewrite Hq1 in Hold. unfold with_controls.
        rewrite set_bit_set by (unfold PORT_CONTROL_ENABLED; (lia || assumption)).
        fold (with_controls q0 (controls q0)). rewrite with_controls_id.
        now apply list_insert_id.
      * intros Hu. destruct u.
        -- cbn [andb] in Hu. exists k0, q0. split; [assumption|]. split; [apply Hsel; now right|].
           assert (q1 = q0) as Hq1.
           { specialize (I4 eq_refl). rewrite I4 in I3. specialize (I3 k0 q0 Hq0).
             rewrite Hq0 in I3. now injection I3. }
           now rewrite Hq1 in Hu.
        -- destruct (I5 eq_refl) as (k & q & Hq & Hs & Hb). exists k, q.
           split; [assumption|]. split; [apply Hsel; now left|assumption].
    + cbn [fst snd]. split; [assumption|]. split; [assumption|]. split; [|split].
      * intros k q Hq. rewrite (I3 k q Hq).
        apply f_equal. apply (f_equal (fun b : bool => if b then en q else q)).
        apply bool_decide_ext. rewrite Hsel. intuition congruence.
      * exact I4.
      * intros Hu. destruct (I5 Hu) as (k & q & Hq & Hs & Hb). exists k, q.
        split; [assumption|]. split; [apply Hsel; now left|assumption].
Qed.

Lemma en_fixed q : en q = q -> test_bit PORT_CONTROL_ENABLED (controls q) = true.
Proof.
  intros H. apply (f_equal controls) in H. cbn [with_controls controls] in H.
  rewrite <- H. apply test_set_bit. unfold PORT_CONTROL_ENABLED. lia.
Qed.

Lemma handles_valid_check sd :
  forallb (fun o => match o with Some k => k <? length (port sd) | None => true end)%nat
          (lpn_fport_map sd) = true ->
  handles_valid sd.
Proof.
  intros H lpn k Hh. unfold get_fport_handle, status_view in Hh. cbn [Port.lpn_fport_map] in Hh.
  destruct (lpn <? PORT_COUNT); [|discriminate].
  destruct (lpn_fport_map sd !! Z.to_nat lpn) as [o|] eqn:E; [|discriminate].
  cbn in Hh. subst o. rewrite forallb_forall in H.
  specialize (H (Some k)). apply Nat.ltb_lt, H.
  apply list_elem_of_In. eapply list_elem_of_lookup_2. exact E.
Qed.

Lemma enable_fports_run lpnmask sd :
  handles_valid sd ->
  exists r sd',
    enable_fports lpnmask sd = (r, sd') /\
    (forall k q, port sd !! k = Some q ->
       port sd' !! k =
       Some (if bool_decide (selected sd (Io.for_each_set_bit lpnmask) k) then en q else q)) /\
    status_view sd' = status_view sd /\ length (port sd') = length (port sd) /\
    ((forall k q, selected sd (Io.for_each_set_bit lpnmask) k -> port sd !! k = Some q ->
        test_bit PORT_CONTROL_ENABLED (controls q) = true) ->
     r = 0 /\ sd' = sd) /\
    ((exists k q, selected sd (Io.for_each_set_bit lpnmask) k /\ port sd !! k = Some q /\
        test_bit PORT_CONTROL_ENABLED (controls q) = false) ->
     pm_triggers sd' = set_bit NL_PM_CMD_EVENT (pm_triggers sd) /\
     if ok_to_schedule_pm_work sd then r = 0 /\ pm_work_pending sd' = true
     else r = - EAGAIN /\ pm_work_pending sd' = pm_work_pending sd).
Proof.
  intros Hv. pose proof (enable_fport_inv sd Hv (Io.for_each_set_bit lpnmask)) as H.
  cbv zeta in H. unfold enable_fports.
  destruct (foldl enable_fport (true, sd) (Io.for_each_set_bit lpnmask)) as [u sd1].
  cbn [fst snd] in H. destruct H as (I1 & I2 & I3 & I4 & I5).
  destruct u.
  - specialize (I4 eq_refl). assert (sd1 = sd) as -> by (rewrite I1, I4; apply set_port_id).
    exists 0, sd. split; [reflexivity|]. split; [exact I3|]. split; [reflexivity|].
    split; [reflexivity|]. split; [auto|].
    intros (k & q & Hs & Hq & Hb). exfalso.
    specialize (I3 k q Hq). rewrite bool_decide_eq_true_2 in I3 by exact Hs.
    rewrite Hq in I3. injection I3 as I3. symmetry in I3. apply en_fixed in I3. congruence.
  - destruct (I5 eq_refl) as (k & q & Hq & Hs & Hb).
    unfold signal_pm_thread. pm_simpl.
    assert (Hok : ok_to_schedule_pm_work sd1 = ok_to_schedule_pm_work sd) by (now rewrite I1).
    assert (Htr : pm_triggers sd1 = pm_triggers sd) by (now rewrite I1).
    assert (Hpd : pm_work_pending sd1 = pm_work_pending sd) by (now rewrite I1).
    assert (Hview : status_view sd1 = status_view sd) by (now rewrite I1).
    rewrite Hok. destruct (ok_to_schedule_pm_work sd); eexists _, _;
      (split; [reflexivity|]); pm_simpl;
      (split; [exact I3|]); (split; [exact Hview|]); (split; [exact I2|]);
      (split; [intros Hall; specialize (Hall k q Hs Hq); congruence|]);
      intros _; rewrite Htr; auto.
Qed.

(** X24. enable_fports sets the ENABLED control of the fabric ports the mask
    selects and of no other port.  When all of them had it set already the
    call changes nothing and returns 0.  Otherwise it records
    NL_PM_CMD_EVENT and queues the port manager, or returns -EAGAIN when
    the port manager may not be scheduled; the controls stay set in both
    cases. *)
Theorem enable_fports_sets_controls (lpnmask : Z) (sd : fsubdev) :
  handles_valid sd ->
  exists r sd',
    enable_fports lpnmask sd = (r, sd') /\
    (forall k q, port sd !! k = Some q ->
       port sd' !! k =
       Some (if bool_decide (selected sd (Io.for_each_set_bit lpnmask) k)
             then with_controls q (set_bit PORT_CONTROL_ENABLED (controls q)) else q)) /\
    ((forall k q, selected sd (Io.for_each_set_bit lpnmask) k -> port sd !! k = Some q ->
        test_bit PORT_CONTROL_ENABLED (controls q) = true) ->
     r = 0 /\ sd' = sd) /\
    ((exists k q, selected sd (Io.for_each_set_bit lpnmask) k /\ port sd !! k = Some q /\
        test_bit PORT_CONTROL_ENABLED (controls q) = false) ->
     pm_triggers sd' = set_bit NL_PM_CMD_EVENT (pm_triggers sd) /\
     if ok_to_schedule_pm_work sd then r = 0 /\ pm_work_pending sd' = true
     else r = - EAGAIN /\ pm_work_pending sd' = pm_work_pending sd).
Proof.
  intros Hv. destruct (enable_fports_run lpnmask sd Hv) as (r & sd' & E & H1 & _ & _ & H2 & H3).
  exists r, sd'. auto.
Qed.

Lemma enable_fports_sets_controls_witness :
  exists r sd',
    enable_fports 6 sample_ready = (r, sd') /\
    pm_triggers sd' = 256 /\ r = 0 /\ pm_work_pending sd' = true.
Proof.
  destruct (enable_fports_sets_controls 6 sample_ready) as (r & sd' & E & _ & _ & H).
  - apply handles_valid_check. vm_compute. reflexivity.
  - assert (Hok : ok_to_schedule_pm_work sample_ready = true) by (vm_compute; reflexivity).
    assert (Htr : pm_triggers sample_ready = 0) by (vm_compute; reflexivity).
    rewrite Hok, Htr in H. destruct H as (Ht & Hr & Hp).
    + exists 0%nat, (mk_fport (mk_portinfo 0 0 8 8 8 8 8 8 0xB0) PM_PORT_STATE_DISABLED 2 1 0).
      split; [constructor 1; vm_compute; reflexivity|]. split; vm_compute; reflexivity.
    + exists r, sd'. split; [exact E|]. split; [exact Ht|]. split; [exact Hr|exact Hp].
Defined.

(** X25. enable_fports is idempotent: a second call with the same mask
    returns 0, changes nothing and does not wake the port manager,
    whatever the first returned. *)
Theorem enable_fports_idempotent (lpnmask : Z) (sd : fsubdev) :
  handles_valid sd ->
  enable_fports lpnmask (enable_fports lpnmask sd).2 =
  (0, (enable_fports lpnmask sd).2).
Proof.
  intros Hv. destruct (enable_fports_run lpnmask sd Hv) as (r & sd' & E & H1 & Hview & Hlen & _).
  rewrite E. cbn [snd].
  assert (Hv' : handles_valid sd').
  { intros lpn k H. rewrite Hlen. apply (Hv lpn k). now rewrite <- Hview. }
  assert (Hsel : forall k, selected sd' (Io.for_each_set_bit lpnmask) k <->
                           selected sd (Io.for_each_set_bit lpnmask) k).
  { intros k. unfold selected. now rewrite Hview. }
  destruct (enable_fports_run lpnmask sd' Hv') as (r2 & sd2 & E2 & _ & _ & _ & H2 & _).
  rewrite E2. destruct H2 as [-> ->]; [|reflexivity].
  intros k q' Hs Hq'. apply Hsel in Hs.
  destruct (lookup_lt_is_Some_2 (port sd) k) as [q Hq].
  { rewrite <- Hlen. eapply lookup_lt_Some; eassumption. }
  rewrite (H1 k q Hq), bool_decide_eq_true_2 in Hq' by exact Hs.
  injection Hq' as <-. cbn [with_controls controls]. apply test_set_bit.
  unfold PORT_CONTROL_ENABLED. lia.
Qed.

Lemma enable_fports_idempotent_witness :
  enable_fports 6 (enable_fports 6 sample_ready).2 = (0, (enable_fports 6 sample_ready).2).
Proof.
  apply (enable_fports_idempotent 6 sample_ready), handles_valid_check.
  vm_compute. reflexivity.
Defined.

Local Abbreviation dis q := (with_controls q (clear_bit PORT_CONTROL_ENABLED (controls q))).

Lemma testbit_clear_bit (b i l : Z) :
  0 <= i -> 0 <= l -> Z.testbit (clear_bit i b) l = Z.testbit b l && negb (l =? i).
Proof.
  intros Hi Hl. unfold clear_bit. rewrite Z.ldiff_spec, Z.shiftl_spec by lia. f_equal. f_equal.
  destruct (Z.eqb_spec l i) as [->|Hne].
  - now rewrite Z.sub_diag.
  - destruct (Z.ltb_spec l i); [now rewrite Z.testbit_neg_r by lia|].
    apply (Z.bits_above_log2 1 (l - i)); [lia|]. cbn. lia.
Qed.

Lemma clear_bit_clear (nr c : Z) : 0 <= nr -> test_bit nr c = false -> clear_bit nr c = c.
Proof.
  intros Hnr H. unfold test_bit in *. apply Z.bits_inj'. intros i Hi.
  rewrite testbit_clear_bit by lia.
  destruct (Z.eqb_spec i nr) as [->|Hne]; [now rewrite H|apply andb_true_r].
Qed.

Lemma test_clear_bit_same (nr c : Z) : 0 <= nr -> test_bit nr (clear_bit nr c) = false.
Proof.
  intros Hnr. unfold test_bit. rewrite testbit_clear_bit by lia.
  now rewrite Z.eqb_refl, andb_false_r.
Qed.

Lemma dis_dis q : dis (dis q) = dis q.
Proof.
  unfold with_controls. cbn [controls fport_portinfo state lpn log_state].
  now rewrite (clear_bit_clear _ (clear_bit _ _))
    by (try apply test_clear_bit_same; unfold PORT_CONTROL_ENABLED; lia).
Qed.

Lemma dis_fixed q : dis q = q -> test_bit PORT_CONTROL_ENABLED (controls q) = false.
Proof.
  intros H. apply (f_equal controls) in H. cbn [with_controls controls] in H.
  rewrite <- H. apply test_clear_bit_same. unfold PORT_CONTROL_ENABLED. lia.
Qed.

(** The state of the loop of disable_fports after the logical ports
    [lpns]. *)
Lemma disable_fport_inv sd (Hv : handles_valid sd) (lpns : list Z) :
  let r := foldl disable_fport (false, sd) lpns in
  r.2 = set_port (port r.2) sd /\
  length (port r.2) = length (port sd) /\
  (forall k q, port sd !! k = Some q ->
     port r.2 !! k = Some (if bool_decide (selected sd lpns k) then dis q else q)) /\
  (r.1 = false -> port r.2 = port sd) /\
  (r.1 = true -> exists k q, port sd !! k = Some q /\ selected sd lpns k /\
                    test_bit PORT_CONTROL_ENABLED (controls q) = true).
Proof.
  induction lpns as [|lpn lpns IH] using rev_ind; cbv zeta.
  - cbn [foldl fst snd]. rewrite set_port_id. repeat split; try discriminate.
    intros k q Hq. rewrite bool_decide_eq_false_2; [assumption|].
    unfold selected. now rewrite Exists_nil.
  - rewrite foldl_app. cbn [foldl]. cbv zeta in IH.
    destruct (foldl disable_fport (false, sd) lpns) as [u sd1]. cbn [fst snd] in IH.
    destruct IH as (I1 & I2 & I3 & I4 & I5).
    assert (Hview : status_view sd1 = status_view sd) by (rewrite I1; reflexivity).
    assert (Hsel : forall k, selected sd (lpns ++ [lpn]) k <->
                     selected sd lpns k \/ get_fport_handle (status_view sd) lpn = Some k).
    { intros k. unfold selected. rewrite Exists_app, Exists_cons, Exists_nil. tauto. }
    unfold disable_fport. rewrite Hview.
    destruct (get_fport_handle (status_view sd) lpn) as [k0|] eqn:Eh.
    + destruct (lookup_lt_is_Some_2 (port sd) k0 (Hv _ _ Eh)) as [q0 Hq0].
      unfold test_and_clear_control. rewrite (I3 k0 q0 Hq0). cbn [fst snd].
      pose (q1 := (if bool_decide (selected sd lpns k0) then dis q0 else q0)).
      fold q1.
      assert (Hen : dis q1 = dis q0) by (subst q1; destruct (bool_decide _); [apply dis_dis|reflexivity]).
      rewrite Hen. pm_simpl.
      split; [transitivity (set_port (<[k0:=dis q0]> (port sd1)) (set_port (port sd1) sd));
              [now rewrite <- I1|reflexivity]|].
      split; [now rewrite length_insert|].
      split; [|split].
      * intros k q Hq. destruct (decide (k = k0)) as [->|Hne].
        -- rewrite list_lookup_insert_eq by (rewrite I2; eapply lookup_lt_Some; eassumption).
           rewrite bool_decide_eq_true_2 by (apply Hsel; now right). congruence.
        -- rewrite list_lookup_insert_ne by congruence. rewrite (I3 k q Hq).
           apply f_equal. apply (f_equal (fun b : bool => if b then dis q else q)).
           apply bool_decide_ext. rewrite Hsel. intuition congruence.
      * intros Hu. apply orb_false_iff in Hu as [Hu Hold].
        specialize (I4 Hu). rewrite I4.
        assert (q1 = q0) as Hq1.
        { rewrite I4 in I3. specialize (I3 k0 q0 Hq0). rewrite Hq0 in I3. now injection I3. }
        rewrite Hq1 in Hold. unfold with_controls.
        rewrite clear_bit_clear by (unfold PORT_CONTROL_ENABLED; (lia || assumption)).
        fold (with_controls q0 (controls q0)). rewrite with_controls_id.
        now apply list_insert_id.
      * intros Hu. destruct u.
        -- destruct (I5 eq_refl) as (k & q & Hq & Hs & Hb). exists k, q.
           split; [assumption|]. split; [apply Hsel; now left|assumption].
        -- cbn [orb] in Hu. exists k0, q0. split; [assumption|]. split; [apply Hsel; now right|].
           assert (q1 = q0) as Hq1.
           { specialize (I4 eq_refl). rewrite I4 in I3. specialize (I3 k0 q0 Hq0).
             rewrite Hq0 in I3. now injection I3. }
           now rewrite Hq1 in Hu.
    + cbn [fst snd]. split; [assumption|]. split; [assumption|]. split; [|split].
      * intros k q Hq. rewrite (I3 k q Hq).
        apply f_equal. apply (f_equal (fun b : bool => if b then dis q else q)).
        apply bool_decide_ext. rewrite Hsel. intuition congruence.
      * exact I4.
      * intros Hu. destruct (I5 Hu) as (k & q & Hq & Hs & Hb). exists k, q.
        split; [assumption|]. split; [apply Hsel; now left|assumption].
Qed.

Lemma disable_fports_run lpnmask sd :
  handles_valid sd ->
  exists r sd',
    disable_fports lpnmask sd = (r, sd') /\
    (forall k q, port sd !! k = Some q ->
       port sd' !! k =
       Some (if bool_decide (selected sd (Io.for_each_set_bit lpnmask) k) then dis q else q)) /\
    status_view sd' = status_view sd /\ length (port sd') = length (port sd) /\
    ((forall k q, selected sd (Io.for_each_set_bit lpnmask) k -> port sd !! k = Some q ->
        test_bit PORT_CONTROL_ENABLED (controls q) = false) ->
     r = 0 /\ sd' = sd) /\
    ((exists k q, selected sd (Io.for_each_set_bit lpnmask) k /\ port sd !! k = Some q /\
        test_bit PORT_CONTROL_ENABLED (controls q) = true) ->
     pm_triggers sd' = set_bit NL_PM_CMD_EVENT (pm_triggers sd) /\
     if ok_to_schedule_pm_work sd then r = 0 /\ pm_work_pending sd' = true
     else r = - EAGAIN /\ pm_work_pending sd' = pm_work_pending sd).
Proof.
  intros Hv. pose proof (disable_fport_inv sd Hv (Io.for_each_set_bit lpnmask)) as H.
  cbv zeta in H. unfold disable_fports.
  destruct (foldl disable_fport (false, sd) (Io.for_each_set_bit lpnmask)) as [u sd1].
  cbn [fst snd] in H. destruct H as (I1 & I2 & I3 & I4 & I5).
  destruct u.
  - destruct (I5 eq_refl) as (k & q & Hq & Hs & Hb).
    unfold signal_pm_thread. pm_simpl.
    assert (Hok : ok_to_schedule_pm_work sd1 = ok_to_schedule_pm_work sd) by (now rewrite I1).
    assert (Htr : pm_triggers sd1 = pm_triggers sd) by (now rewrite I1).
    assert (Hpd : pm_work_pending sd1 = pm_work_pending sd) by (now rewrite I1).
    assert (Hview : status_view sd1 = status_view sd) by (now rewrite I1).
    rewrite Hok. destruct (ok_to_schedule_pm_work sd); eexists _, _;
      (split; [reflexivity|]); pm_simpl;
      (split; [exact I3|]); (split; [exact Hview|]); (split; [exact I2|]);
      (split; [intros Hall; specialize (Hall k q Hs Hq); congruence|]);
      intros _; rewrite Htr; auto.
  - specialize (I4 eq_refl). assert (sd1 = sd) as -> by (rewrite I1, I4; apply set_port_id).
    exists 0, sd. split; [reflexivity|]. split; [exact I3|]. split; [reflexivity|].
    split; [reflexivity|]. split; [auto|].
    intros (k & q & Hs & Hq & Hb). exfalso.
    specialize (I3 k q Hq). rewrite bool_decide_eq_true_2 in I3 by exact Hs.
    rewrite Hq in I3. injection I3 as I3. symmetry in I3. apply dis_fixed in I3. congruence.
Qed.

(** X26. disable_fports clears the ENABLED control of the fabric ports the
    mask selects and of no other port.  When none of them had it set the
    call changes nothing and returns 0.  Otherwise it records
    NL_PM_CMD_EVENT and queues the port manager, or returns -EAGAIN when
    the port manager may not be scheduled; the controls stay cleared in
    both cases. *)
Theorem disable_fports_clears_controls (lpnmask : Z) (sd : fsubdev) :
  handles_valid sd ->
  exists r sd',
    disable_fports lpnmask sd = (r, sd') /\
    (forall k q, port sd !! k = Some q ->
       port sd' !! k =
       Some (if bool_decide (selected sd (Io.for_each_set_bit lpnmask) k)
             then with_controls q (clear_bit PORT_CONTROL_ENABLED (controls q)) else q)) /\
    ((forall k q, selected sd (Io.for_each_set_bit lpnmask) k -> port sd !! k = Some q ->
        test_bit PORT_CONTROL_ENABLED (controls q) = false) ->
     r = 0 /\ sd' = sd) /\
    ((exists k q, selected sd (Io.for_each_set_bit lpnmask) k /\ port sd !! k = Some q /\
        test_bit PORT_CONTROL_ENABLED (controls q) = true) ->
     pm_triggers sd' = set_bit NL_PM_CMD_EVENT (pm_triggers sd) /\
     if ok_to_schedule_pm_work sd then r = 0 /\ pm_work_pending sd' = true
     else r = - EAGAIN /\ pm_work_pending sd' = pm_work_pending sd).
Proof.
  intros Hv. destruct (disable_fports_run lpnmask sd Hv) as (r & sd' & E & H1 & _ & _ & H2 & H3).
  exists r, sd'. auto.
Qed.

Lemma disable_fports_clears_controls_witness :
  exists r sd',
    disable_fports 6 (enable_fports 6 sample_ready).2 = (r, sd') /\
    port sd' = port sample_ready /\ r = 0.
Proof.
  destruct (disable_fports_clears_controls 6 (enable_fports 6 sample_ready).2)
    as (r & sd' & E & _ & _ & H).
  - apply handles_valid_check. vm_compute. reflexivity.
  - assert (Hok : ok_to_schedule_pm_work (enable_fports 6 sample_ready).2 = true)
      by (vm_compute; reflexivity).
    rewrite Hok in H. destruct H as (_ & Hr & _).
    + exists 0%nat, (mk_fport (mk_portinfo 0 0 8 8 8 8 8 8 0xB0) PM_PORT_STATE_DISABLED 3 1 0).
      split; [constructor 1; vm_compute; reflexivity|]. split; vm_compute; reflexivity.
    + exists r, sd'. split; [exact E|]. split; [|exact Hr].
      vm_compute in E. now injection E as _ <-.
Defined.

End PmSpec.

(** ** Port status under RCU *)

Module PublishSpec.
Import Port Pm Publish.

Lemma run_app acts1 acts2 s :
  run (acts1 ++ acts2) s = s' ← run acts1 s; run acts2 s'.
Proof.
  revert s. induction acts1 as [|a acts1 IH]; intros s; [reflexivity|].
  cbn [app run]. destruct (step a s); cbn [mbind option_bind]; [apply IH|reflexivity].
Qed.

Lemma run_snoc acts a s s' :
  run (acts ++ [a]) s = Some s' <-> exists sm, run acts s = Some sm /\ step a sm = Some s'.
Proof.
  rewrite run_app. split.
  - destruct (run acts s) as [sm|]; cbn [mbind option_bind run]; [|discriminate].
    destruct (step a sm) as [s1|] eqn:E; cbn [mbind option_bind]; [|discriminate].
    intros H. injection H as <-. eauto.
  - intros (sm & -> & H). cbn [mbind option_bind run]. now rewrite H.
Qed.

Lemma readers_inside_elem rs r rd :
  rs !! r = Some rd -> inside (r_pc rd) = true -> r ∈ readers_inside rs.
Proof.
  intros Hr Hi. unfold readers_inside. apply list_elem_of_filter. split.
  - rewrite Hr. exact Hi.
  - apply elem_of_seq. apply lookup_lt_Some in Hr. lia.
Qed.

Lemma copy_status_len new old l i : length (copy_status new old l i) = length l.
Proof. unfold copy_status. destruct (l !! _); [apply length_insert|reflexivity]. Qed.

Lemma copy_status_other new old l i k :
  k <> (new + Z.to_nat i)%nat -> copy_status new old l i !! k = l !! k.
Proof.
  intros Hk. unfold copy_status. destruct (l !! (old + _)%nat); [|reflexivity].
  apply list_lookup_insert_ne. auto.
Qed.

(** What a step leaves as it was. *)
Lemma step_frame a s s' :
  step a s = Some s' ->
  lpn_fport_map (sd s') = lpn_fport_map (sd s) /\ max_lpn (sd s') = max_lpn (sd s) /\
  length (_portstatus (sd s')) = length (_portstatus (sd s)) /\
  length (readers s') = length (readers s).
Proof.
  destruct a as [r|l st| | | | ]; cbn [step]; unfold read_step.
  - destruct (readers s !! r) as [rd|]; [|discriminate]. cbn [mbind option_bind].
    destruct (r_pc rd) as [| | |[c|]|e|e];
      try destruct (get_fport_handle _ _); intros H; try discriminate;
      injection H as <-; cbn [sd readers]; rewrite length_insert; auto.
  - destruct (writer s); try discriminate.
    destruct (next_port_status (sd s)) as [b|]; [|discriminate]. cbn [mbind option_bind].
    destruct (_ && _); [|discriminate]. intros H. injection H as <-. cbn [sd readers].
    cbn. rewrite length_insert. auto.
  - destruct (writer s); try discriminate. intros H. injection H as <-. cbn. auto.
  - destruct (writer s); try discriminate. intros H. injection H as <-. cbn. auto.
  - destruct (writer s) as [| |old [|]|]; try discriminate. intros H. injection H as <-. cbn. auto.
  - destruct (writer s) as [| | |old new i]; try discriminate.
    destruct (i <=? max_lpn (sd s)).
    + destruct new as [n|]; [|discriminate]. destruct old as [o|]; [|discriminate].
      cbn [mbind option_bind]. intros H. injection H as <-. cbn. rewrite copy_status_len. auto.
    + intros H. injection H as <-. cbn. auto.
Qed.

(** A step of the writer, or of another reader, leaves reader [r] where
    it is. *)
Lemma step_other a s s' r :
  step a s = Some s' -> a <> Read r -> readers s' !! r = readers s !! r.
Proof.
  destruct a as [r'|l st| | | | ]; cbn [step]; unfold read_step; intros H Hne.
  - assert (r' <> r) by congruence.
    destruct (readers s !! r') as [rd|]; [|discriminate]. cbn [mbind option_bind] in H.
    destruct (r_pc rd) as [| | |[c|]|e|e];
      try destruct (get_fport_handle _ _); try discriminate;
      injection H as <-; cbn [readers]; now apply list_lookup_insert_ne.
  - destruct (writer s); try discriminate.
    destruct (next_port_status (sd s)) as [b|]; [|discriminate]. cbn [mbind option_bind] in H.
    destruct (_ && _); [|discriminate]. now injection H as <-.
  - destruct (writer s); try discriminate. now injection H as <-.
  - destruct (writer s); try discriminate. now injection H as <-.
  - destruct (writer s) as [| |old [|]|]; try discriminate. now injection H as <-.
  - destruct (writer s) as [| | |old new i]; try discriminate.
    destruct (i <=? max_lpn (sd s)).
    + destruct new as [n|]; [|discriminate]. destruct old as [o|]; [|discriminate].
      now injection H as <-.
    + now injection H as <-.
Qed.

(** The array a reader holds is not written. *)
Lemma step_frozen a s s' r rd c i :
  inv s -> step a s = Some s' ->
  readers s !! r = Some rd -> r_pc rd = AtCopy (Some c) ->
  (i < Z.to_nat PORT_COUNT)%nat ->
  _portstatus (sd s') !! (c + i)%nat = _portstatus (sd s) !! (c + i)%nat.
Proof.
  intros (Hlen & Hmax & Hptr & Hw & Hrd) H Hr Hpc Hi.
  specialize (Hrd r rd c Hr Hpc). unfold writer_ok in Hw.
  destruct a as [r'|l st| | | | ]; cbn [step] in H; unfold read_step in H.
  - destruct (readers s !! r') as [rd'|]; [|discriminate]. cbn [mbind option_bind] in H.
    destruct (r_pc rd') as [| | |[c'|]|e|e];
      try destruct (get_fport_handle _ _); try discriminate; now injection H as <-.
  - destruct (writer s); try discriminate.
    destruct (next_port_status (sd s)) as [b|] eqn:En; [|discriminate].
    cbn [mbind option_bind] in H.
    destruct ((0 <=? l) && (l <? PORT_COUNT)) eqn:Hl; [|discriminate].
    apply andb_true_iff in Hl as [Hl1 Hl2]. apply Z.leb_le in Hl1. apply Z.ltb_lt in Hl2.
    injection H as <-. cbn [sd _portstatus set_portstatus].
    destruct Hrd as [Hp|[_ []]].
    apply list_lookup_insert_ne. unfold PORT_COUNT in *.
    destruct Hptr as [[? ?]|[[? ?]|[? ?]]]; simplify_eq; unfold PORT_COUNT in *; lia.
  - destruct (writer s); try discriminate. now injection H as <-.
  - destruct (writer s); try discriminate. now injection H as <-.
  - destruct (writer s) as [| |old [|]|]; try discriminate. now injection H as <-.
  - destruct (writer s) as [| | |old new j]; try discriminate. destruct Hw as [-> Hj].
    destruct (Z.leb_spec j (max_lpn (sd s))).
    + destruct (next_port_status (sd s)) as [n|] eqn:En; [|discriminate].
      destruct old as [o|]; [|discriminate].
      injection H as <-. cbn [sd _portstatus set_portstatus].
      destruct Hrd as [Hp|[_ []]].
      apply copy_status_other. unfold PORT_COUNT, PORT_FABRIC_START in *.
      destruct Hptr as [[? ?]|[[? ?]|[? ?]]]; simplify_eq; unfold PORT_COUNT in *; lia.
    + now injection H as <-.
Qed.

Lemma pointers_ok_swap p n : pointers_ok p n -> pointers_ok n p.
Proof. unfold pointers_ok. tauto. Qed.

Lemma step_inv a s s' : inv s -> step a s = Some s' -> inv s'.
Proof.
  intros (Hlen & Hmax & Hptr & Hw & Hrd) H.
  destruct (step_frame a s s' H) as (_ & Hm' & Hl' & _).
  unfold inv. rewrite Hm', Hl'. split; [exact Hlen|]. split; [exact Hmax|].
  unfold writer_ok in *. unfold readers_ok in *.
  destruct a as [r'|l st| | | | ]; cbn [step] in H; unfold read_step in H.
  - destruct (readers s !! r') as [rd'|] eqn:Er'; [|discriminate]. cbn [mbind option_bind] in H.
    assert (Hgo : forall pc st w,
              (forall c, pc = AtCopy (Some c) -> port_status (sd s) = Some c) ->
              (w = writer s \/ w = leave r' (writer s)) ->
              Some (mk_system (sd s) (<[r' := mk_reader pc (r_lpn rd') st]> (readers s)) w)
                = Some s' ->
              pointers_ok (port_status (sd s')) (next_port_status (sd s')) /\
              match writer s' with
              | Copying _ new i => new = next_port_status (sd s') /\ PORT_FABRIC_START <= i
              | _ => True
              end /\
              (forall r rd a, readers s' !! r = Some rd -> r_pc rd = AtCopy (Some a) ->
                 port_status (sd s') = Some a \/
                 next_port_status (sd s') = Some a /\
                 match writer s' with
                 | Swapped _ => True
                 | Syncing _ waiting => r ∈ waiting
                 | _ => False
                 end)).
    { intros pc st w Hpc Hww E. injection E as <-. cbn [sd readers writer].
      split; [exact Hptr|]. split.
      { destruct Hww as [->| ->]; [exact Hw|]. now destruct (writer s). }
      intros r rd a Hr Ha.
      destruct (decide (r = r')) as [->|Hne].
      - rewrite list_lookup_insert_eq in Hr by (now apply lookup_lt_Some in Er').
        injection Hr as <-. cbn [r_pc] in Ha. left. now apply Hpc.
      - rewrite list_lookup_insert_ne in Hr by auto.
        destruct (Hrd r rd a Hr Ha) as [Hp|[Hn Hc]]; [now left|right].
        split; [exact Hn|].
        destruct Hww as [->| ->]; [exact Hc|].
        destruct (writer s); try exact Hc. cbn [leave].
        apply list_elem_of_filter. auto. }
    destruct (r_pc rd') as [| | |[c|]|e|e]; try destruct (get_fport_handle _ _);
      try discriminate; (refine (Hgo _ _ _ _ _ H); [|auto]); try discriminate.
    intros c E. now injection E as <-.
  - destruct (writer s) eqn:Ew; try discriminate.
    destruct (next_port_status (sd s)) as [b|] eqn:En; [|discriminate].
    cbn [mbind option_bind] in H. destruct (_ && _); [|discriminate].
    injection H as <-. cbn. rewrite En. split; [exact Hptr|]. split; [exact I|].
    intros r rd a Hr Ha. exact (Hrd r rd a Hr Ha).
  - destruct (writer s) eqn:Ew; try discriminate. injection H as <-. cbn.
    split; [now apply pointers_ok_swap|]. split; [exact I|].
    intros r rd a Hr Ha. destruct (Hrd r rd a Hr Ha) as [Hp|[_ []]]. right. auto.
  - destruct (writer s) as [|old| |] eqn:Ew; try discriminate. injection H as <-. cbn.
    split; [exact Hptr|]. split; [exact I|].
    intros r rd a Hr Ha. destruct (Hrd r rd a Hr Ha) as [Hp|[Hn _]]; [now left|right].
    split; [exact Hn|]. eapply readers_inside_elem; eauto. now rewrite Ha.
  - destruct (writer s) as [| |old [|]|] eqn:Ew; try discriminate. injection H as <-. cbn.
    split; [exact Hptr|]. split; [split; [reflexivity|lia]|].
    intros r rd a Hr Ha. destruct (Hrd r rd a Hr Ha) as [Hp|[Hn Hc]]; [now left|].
    inversion Hc.
  - destruct (writer s) as [| | |old new j] eqn:Ew; try discriminate. destruct Hw as [-> Hj].
    destruct (j <=? max_lpn (sd s)).
    + destruct (next_port_status (sd s)) as [n|] eqn:En; [|discriminate].
      destruct old as [o|]; [|discriminate].
      injection H as <-. cbn. rewrite En. split; [exact Hptr|].
      split; [split; [reflexivity|lia]|].
      intros r rd a Hr Ha. destruct (Hrd r rd a Hr Ha) as [Hp|[_ []]]. now left.
    + injection H as <-. cbn. split; [exact Hptr|]. split; [exact I|].
      intros r rd a Hr Ha. destruct (Hrd r rd a Hr Ha) as [Hp|[_ []]]. now left.
Qed.

Lemma run_inv acts s s' : inv s -> run acts s = Some s' -> inv s'.
Proof.
  revert s. induction acts as [|a acts IH]; intros s Hi H.
  - now injection H as <-.
  - cbn [run] in H. destruct (step a s) as [s1|] eqn:E; [|discriminate].
    eapply IH; [|exact H]. eapply step_inv; eauto.
Qed.

Lemma run_frame acts s s' :
  run acts s = Some s' -> lpn_fport_map (sd s') = lpn_fport_map (sd s).
Proof.
  revert s. induction acts as [|a acts IH]; intros s H.
  - now injection H as <-.
  - cbn [run] in H. destruct (step a s) as [s1|] eqn:E; [|discriminate].
    rewrite (IH _ H). apply (step_frame _ _ _ E).
Qed.

Lemma handle_frame (sd1 sd2 : fsubdev) l :
  lpn_fport_map sd2 = lpn_fport_map sd1 ->
  get_fport_handle (status_view sd2) l = get_fport_handle (status_view sd1) l.
Proof. intros H. unfold get_fport_handle, status_view. cbn. now rewrite H. Qed.

Lemma read_step_enabled r s rd :
  readers s !! r = Some rd -> (forall e, r_pc rd <> Done e) -> is_Some (step (Read r) s).
Proof.
  intros Hr Hd. cbn [step]. unfold read_step. rewrite Hr. cbn [mbind option_bind].
  destruct (r_pc rd) as [| | |[c|]|e|e]; try destruct (get_fport_handle _ _); eauto.
  now destruct (Hd e).
Qed.

Lemma handle_range (sd0 : fsubdev) l :
  0 <= l -> is_Some (get_fport_handle (status_view sd0) l) ->
  (Z.to_nat l < Z.to_nat PORT_COUNT)%nat.
Proof.
  intros Hl [k Hk]. unfold get_fport_handle in Hk.
  destruct (Z.ltb_spec l PORT_COUNT); [lia|discriminate].
Qed.

Lemma read_or_not (a : action) (r : nat) : a = Read r \/ a <> Read r.
Proof.
  destruct a as [r'| | | | | ]; try (right; discriminate).
  destruct (decide (r' = r)) as [->|Hne]; [now left|right; congruence].
Qed.

Lemma progress_step s0 r l st0 acts a s s' :
  0 <= l -> inv s -> run acts s0 = Some s -> step a s = Some s' ->
  progress s0 r l st0 acts s -> progress s0 r l st0 (acts ++ [a]) s'.
Proof.
  intros Hl Hi Hrun Hs (rd & Hr & Hlpn & Hp).
  destruct (step_frame a s s' Hs) as (Hmap & _).
  pose proof (handle_frame (sd s) (sd s') l Hmap) as Hh.
  destruct (read_or_not a r) as [->|Hne].
  - (* the reader's own statement *)
    cbn [step] in Hs. unfold read_step in Hs. rewrite Hr in Hs. cbn [mbind option_bind] in Hs.
    assert (Hlt : (r < length (readers s))%nat) by (now apply lookup_lt_Some in Hr).
    rewrite Hlpn in Hs.
    destruct (r_pc rd) as [| | |[c|]|e|e].
    + (* the test of get_fport_handle *)
      destruct (get_fport_handle (status_view (sd s)) l) as [k|] eqn:Ek;
        injection Hs as <-; eexists; cbn [readers sd];
        (split; [now apply list_lookup_insert_eq|]); cbn [r_pc r_lpn r_status];
        (split; [reflexivity|]).
      * split; [exact Hp|]. rewrite Ek. eauto.
      * exists acts, [Read r], s. split; [reflexivity|]. split; [exact Hrun|].
        unfold get_fport_status. rewrite Ek. now rewrite Hp.
    + injection Hs as <-. eexists. cbn [readers sd].
      split; [now apply list_lookup_insert_eq|]. cbn [r_pc r_lpn r_status]. auto.
    + destruct Hp as [Hst Hk]. injection Hs as <-. eexists. cbn [readers sd].
      split; [now apply list_lookup_insert_eq|]. cbn [r_pc r_lpn r_status].
      split; [reflexivity|]. split; [exact Hst|]. split; [exact Hk|].
      exists acts, [Read r], s. auto.
    + (* the copy *)
      destruct Hp as (Hst & Hk & acts1 & acts2 & sm & -> & Hsm & Hc & Hfr).
      injection Hs as <-. eexists. cbn [readers sd].
      split; [now apply list_lookup_insert_eq|]. cbn [r_pc r_lpn r_status].
      split; [reflexivity|].
      exists acts1, (acts2 ++ [Read r]), sm. split; [now rewrite app_assoc|].
      split; [exact Hsm|].
      rewrite run_app, Hsm in Hrun. cbn [mbind option_bind] in Hrun.
      pose proof (run_frame _ _ _ Hrun) as Hm2.
      pose proof (handle_range (sd s) l Hl Hk) as Hrng.
      unfold get_fport_status. rewrite <- (handle_frame _ _ l Hm2).
      destruct Hk as [k ->]. unfold status_view at 1. cbn [Port.port_status]. rewrite Hc.
      cbn [fmap option_fmap option_map]. rewrite lookup_drop.
      rewrite (Hfr c (Z.to_nat l) eq_refl Hrng).
      rewrite Hst. now destruct (_portstatus (sd sm) !! _).
    + destruct Hp as (Hst & Hk & acts1 & acts2 & sm & -> & Hsm & Hc & Hfr).
      injection Hs as <-. eexists. cbn [readers sd].
      split; [now apply list_lookup_insert_eq|]. cbn [r_pc r_lpn r_status].
      split; [reflexivity|].
      exists acts1, (acts2 ++ [Read r]), sm. split; [now rewrite app_assoc|].
      split; [exact Hsm|].
      rewrite run_app, Hsm in Hrun. cbn [mbind option_bind] in Hrun.
      pose proof (run_frame _ _ _ Hrun) as Hm2.
      unfold get_fport_status. rewrite <- (handle_frame _ _ l Hm2).
      destruct Hk as [k ->]. unfold status_view at 1. cbn [Port.port_status]. rewrite Hc.
      now rewrite Hst.
    + destruct Hp as (acts1 & acts2 & sm & -> & Hsm & Hres).
      injection Hs as <-. eexists. cbn [readers sd].
      split; [now apply list_lookup_insert_eq|]. cbn [r_pc r_lpn r_status].
      split; [reflexivity|].
      exists acts1, (acts2 ++ [Read r]), sm. split; [now rewrite app_assoc|]. auto.
    + discriminate.
  - (* a statement of the writer or of another reader *)
    exists rd. rewrite (step_other a s s' r Hs Hne). split; [exact Hr|].
    split; [exact Hlpn|]. rewrite Hh.
    destruct (r_pc rd) as [| | |c|e|e] eqn:Epc; try exact Hp.
    + destruct Hp as (Hst & Hk & acts1 & acts2 & sm & -> & Hsm & Hc & Hfr).
      split; [exact Hst|]. split; [exact Hk|].
      exists acts1, (acts2 ++ [a]), sm. split; [now rewrite app_assoc|].
      split; [exact Hsm|]. split; [exact Hc|].
      intros c0 i -> Hi0. rewrite <- (Hfr c0 i eq_refl Hi0).
      eapply step_frozen; eauto.
    + destruct Hp as (acts1 & acts2 & sm & -> & Hsm & Hres).
      exists acts1, (acts2 ++ [a]), sm. split; [now rewrite app_assoc|]. auto.
    + destruct Hp as (acts1 & acts2 & sm & -> & Hsm & Hres).
      exists acts1, (acts2 ++ [a]), sm. split; [now rewrite app_assoc|]. auto.
Qed.

Lemma run_progress s0 r l st0 acts s :
  0 <= l -> inv s0 -> readers s0 !! r = Some (mk_reader AtCall l st0) ->
  run acts s0 = Some s -> progress s0 r l st0 acts s.
Proof.
  intros Hl Hi Hr. revert s. induction acts as [|a acts IH] using rev_ind; intros s Hrun.
  - injection Hrun as <-. exists (mk_reader AtCall l st0). cbn [r_pc r_lpn r_status]. auto.
  - apply run_snoc in Hrun as (sm & Hsm & Hs).
    apply (progress_step s0 r l st0 acts a sm s Hl (run_inv _ _ _ Hi Hsm) Hsm Hs (IH sm Hsm)).
Qed.

Lemma fabric_port_handle (sd0 : fsubdev) l :
  0 <= l -> (fabric_port sd0 l <-> is_Some (get_fport_handle (status_view sd0) l)).
Proof.
  intros Hl. unfold fabric_port, get_fport_handle, status_view. cbn [Port.lpn_fport_map].
  destruct (Z.ltb_spec l PORT_COUNT).
  - split.
    + intros (_ & k & ->). cbn. eauto.
    + intros [k Hk]. split; [lia|]. exists k.
      destruct (lpn_fport_map sd0 !! Z.to_nat l) as [[k'|]|]; cbn in Hk; congruence.
  - split; [intros [? _]; lia|intros [k Hk]; discriminate].
Qed.

(** C10 (amended).  A call of get_fport_status that runs side by side
    with the port manager and with other callers returns what the
    function returns on the subdevice as it was at one moment of the call:
    -EINVAL with the buffer as it was when the logical port number has no
    fabric port or no record was published at that moment, and otherwise 0
    with the record the published array held for the port at that moment,
    whatever the port manager has written or published since.  At every
    moment of the call the caller's next statement can run: the caller is
    never made to wait. *)
Theorem get_fport_status_linearizable (acts : list action) (s s' : system) (r : nat)
    (l : Z) (st0 st' : fport_status) (err : Z) :
  inv s -> 0 <= l ->
  readers s !! r = Some (mk_reader AtCall l st0) ->
  run acts s = Some s' ->
  readers s' !! r = Some (mk_reader (Done err) l st') ->
  (exists acts1 acts2 sm,
     acts = acts1 ++ acts2 /\ run acts1 s = Some sm /\
     (err, st') = get_fport_status (status_view (sd sm)) l st0 /\
     (~ fabric_port (sd s) l \/ port_status (sd sm) = None ->
        err = - EINVAL /\ st' = st0) /\
     (forall a, fabric_port (sd s) l -> port_status (sd sm) = Some a ->
        err = 0 /\ _portstatus (sd sm) !! (a + Z.to_nat l)%nat = Some st')) /\
  (forall acts1 acts2 sm rd,
     acts = acts1 ++ acts2 -> run acts1 s = Some sm ->
     readers sm !! r = Some rd -> (forall e, r_pc rd <> Done e) ->
     is_Some (step (Read r) sm)).
Proof.
  intros Hi Hl Hr Hrun Hr'. split.
  - destruct (run_progress s r l st0 acts s' Hl Hi Hr Hrun) as (rd & Hrd & _ & Hp).
    rewrite Hr' in Hrd. injection Hrd as <-. cbn [r_pc r_status] in Hp.
    destruct Hp as (acts1 & acts2 & sm & -> & Hsm & Hres).
    exists acts1, acts2, sm. split; [reflexivity|]. split; [exact Hsm|]. split; [exact Hres|].
    pose proof (run_frame _ _ _ Hsm) as Hmap.
    pose proof (fabric_port_handle (sd s) l Hl) as Hfp.
    rewrite <- (handle_frame _ _ l Hmap) in Hfp.
    destruct (run_inv _ _ _ Hi Hsm) as (Hlen & _ & Hptr & _).
    unfold get_fport_status in Hres. split.
    + intros [Hn|Hn].
      * destruct (get_fport_handle (status_view (sd sm)) l) as [k|].
        -- destruct Hn. apply Hfp. eauto.
        -- now injection Hres as -> ->.
      * destruct (get_fport_handle (status_view (sd sm)) l) as [k|];
          [|now injection Hres as -> ->].
        unfold status_view in Hres. cbn [Port.port_status] in Hres. rewrite Hn in Hres.
        now injection Hres as -> ->.
    + intros a Hf Ha. pose proof Hf as [[_ Hlt] _]. apply Hfp in Hf as [k Hk]. rewrite Hk in Hres.
      unfold status_view in Hres. cbn [Port.port_status] in Hres. rewrite Ha in Hres.
      cbn [fmap option_fmap option_map] in Hres. rewrite lookup_drop in Hres.
      destruct (_portstatus (sd sm) !! (a + Z.to_nat l)%nat) as [x|] eqn:Ex.
      * now injection Hres as -> ->.
      * apply lookup_ge_None in Ex. rewrite Hlen in Ex. unfold PORT_COUNT in *.
        rewrite Ha in Hptr. destruct Hptr as [[? ?]|[[? ?]|[? ?]]]; simplify_eq;
          unfold PORT_COUNT in *; lia.
  - intros acts1 acts2 sm rd _ _ Hrd Hd. eapply read_step_enabled; eauto.
Qed.

(** A call for the fabric port 3 during which the port manager writes a
    new record for the port and publishes it: the caller has read the
    pointer before the swap, and returns the record published then. *)
Lemma get_fport_status_linearizable_witness :
  exists s' sm,
    run [Read 0; Read 0; Store 3 (mk_status FPORT_HEALTH_GREEN 0 FPORT_ERROR_NONE);
         Read 0; Swap; SyncBegin; Read 0; Read 0; SyncEnd; Copy] sample = Some s' /\
    readers s' !! 0%nat
      = Some (mk_reader (Done 0) 3 (mk_status FPORT_HEALTH_BLACK 0 FPORT_ERROR_NONE)) /\
    (0, mk_status FPORT_HEALTH_BLACK 0 FPORT_ERROR_NONE)
      = get_fport_status (status_view (sd sm)) 3
          (mk_status FPORT_HEALTH_RED 0 FPORT_ERROR_FAILED) /\
    port_status (sd s') = Some 13%nat /\
    _portstatus (sd s') !! (13 + 3)%nat = Some (mk_status FPORT_HEALTH_GREEN 0 FPORT_ERROR_NONE).
Proof.
  assert (Hinv : inv sample).
  { split; [vm_compute; reflexivity|]. split; [vm_compute; reflexivity|].
    split; [right; left; split; vm_compute; reflexivity|]. split; [exact I|].
    intros [|r] rd a Hr Ha; [|apply lookup_lt_Some in Hr; cbn in Hr; lia].
    injection Hr as <-. inversion Ha. }
  destruct (run [Read 0; Read 0; Store 3 (mk_status FPORT_HEALTH_GREEN 0 FPORT_ERROR_NONE);
                 Read 0; Swap; SyncBegin; Read 0; Read 0; SyncEnd; Copy] sample)
    as [s'|] eqn:Hrun; [|vm_compute in Hrun; discriminate Hrun].
  assert (Hr' : readers s' !! 0%nat
                = Some (mk_reader (Done 0) 3 (mk_status FPORT_HEALTH_BLACK 0 FPORT_ERROR_NONE))).
  { vm_compute in Hrun. injection Hrun as <-. reflexivity. }
  destruct (get_fport_status_linearizable _ sample s' 0 3
              (mk_status FPORT_HEALTH_RED 0 FPORT_ERROR_FAILED)
              (mk_status FPORT_HEALTH_BLACK 0 FPORT_ERROR_NONE) 0
              Hinv ltac:(lia) eq_refl Hrun Hr')
    as [(acts1 & acts2 & sm & _ & _ & Hres & _) _].
  exists s', sm. split; [reflexivity|]. split; [exact Hr'|]. split; [exact Hres|].
  vm_compute in Hrun. injection Hrun as <-. split; reflexivity.
Defined.

(** C10 (as stated).  The writer is made to wait by a reader.  With the
    caller between rcu_dereference and rcu_read_unlock, the port manager
    that has swapped the pointers and called synchronize_rcu has no
    statement it can run; it goes on once the caller has left its
    section. *)
Lemma writer_waits_for_reader :
  exists s,
    run [Read 0; Read 0; Read 0; Swap; SyncBegin] sample = Some s /\
    (forall a, (forall r, a <> Read r) -> step a s = None) /\
    is_Some (run [Read 0; Read 0; SyncEnd] s).
Proof.
  eexists. split; [vm_compute; reflexivity|]. split.
  - intros [r|l st| | | | ] Ha; try reflexivity. now destruct (Ha r).
  - vm_compute. eauto.
Qed.

End PublishSpec.

(** ** The sweep: what a second sweep computes and writes *)

Module EngineSpec.
Import Topo TopoSpec Engine.

(** *** The engine as a record *)

Lemma engine_eta e : mk_engine (fab e) (info e) (fdevs e) (max_dpa_index e) = e.
Proof. now destruct e. Qed.

Lemma update_info_fix e h g :
  (forall r, info e !! h = Some r -> g r = r) -> update_info e h g = e.
Proof.
  intros H. unfold update_info, with_info. rewrite alter_fix by exact H. apply engine_eta.
Qed.

Lemma walk_NoDup e : NoDup (walk e).
Proof. apply NoDup_filter, NoDup_seq. Qed.

Lemma walk_lookup e h :
  h ∈ walk e ->
  exists sd, routable_list (fab e) !! h = Some sd /\ routing_sd_is_error sd = false.
Proof.
  unfold walk, routing_sd_walk. intros H. apply list_elem_of_filter in H as [H _].
  unfold routing_sd_visited in H.
  destruct (routable_list (fab e) !! h) as [sd|]; [|discriminate].
  exists sd. split; [reflexivity|]. cbn in H. now apply negb_true_iff in H.
Qed.

Lemma lookup_fmap_eq {A B} (f : A -> B) (l l' : list A) h :
  f <$> l' = f <$> l ->
  match l !! h, l' !! h with
  | Some r, Some r' => f r' = f r
  | None, None => True
  | _, _ => False
  end.
Proof.
  intros H. assert (E : (f <$> l') !! h = (f <$> l) !! h) by now rewrite H.
  rewrite !list_lookup_fmap in E.
  destruct (l !! h), (l' !! h); cbn in E; try discriminate; [congruence|exact I].
Qed.

(** *** The stages before the tables *)

Lemma assign_fid_sd_eq e h :
  assign_fid_sd e h = update_info e h (assign_fid_info (fdevs e)).
Proof.
  unfold assign_fid_sd. destruct (info e !! h) as [r|] eqn:Hr.
  - destruct (fdevs e !! fdev_of r) as [dev|] eqn:Hd.
    + unfold update_info. f_equal. apply alter_ext_at. intros x Hx.
      assert (x = r) as -> by congruence. unfold assign_fid_info. now rewrite Hd.
    + symmetry. apply update_info_fix. intros x Hx.
      assert (x = r) as -> by congruence. unfold assign_fid_info. now rewrite Hd.
  - symmetry. apply update_info_fix. intros x Hx. congruence.
Qed.

Lemma assign_fids_eq e :
  assign_fids e
  = with_info (foldl (fun l h => alter (assign_fid_info (fdevs e)) h l) (info e) (walk e)) e.
Proof.
  unfold assign_fids. generalize (walk e). intros w. revert e.
  induction w as [|h w IH]; intros e; cbn [foldl].
  - symmetry. apply engine_eta.
  - rewrite IH, assign_fid_sd_eq. reflexivity.
Qed.

Lemma assign_fid_info_twice devs r :
  assign_fid_info devs (assign_fid_info devs r) = assign_fid_info devs r.
Proof.
  unfold assign_fid_info. destruct (devs !! fdev_of r) as [dev|] eqn:E.
  - cbn [set_fids fdev_of sd_index]. now rewrite E.
  - now rewrite E.
Qed.

Lemma key_assign devs r r' :
  key r' = key r -> key (assign_fid_info devs r') = key (assign_fid_info devs r).
Proof.
  unfold key, ident. intros [= E1 E2 E3 E4 E5 E6 E7]. unfold assign_fid_info. rewrite E1.
  destruct (devs !! fdev_of r); cbn; congruence.
Qed.

Lemma ident_assign devs r : ident (assign_fid_info devs r) = ident r.
Proof. unfold assign_fid_info. now destruct (devs !! fdev_of r). Qed.

Lemma init_max e e' :
  walk e' = walk e -> ident <$> info e' = ident <$> info e ->
  max_dpa_index (init e') = max_dpa_index (init e).
Proof.
  intros Hw Hi. unfold init. cbn [max_dpa_index with_max_dpa_index]. rewrite Hw. clear Hw.
  generalize 0. induction (walk e) as [|h w IH]; intros m; [reflexivity|].
  cbn [foldl]. rewrite IH. f_equal.
  pose proof (lookup_fmap_eq ident _ _ h Hi) as E.
  destruct (info e !! h) as [r|], (info e' !! h) as [r'|];
    [|destruct E|destruct E|reflexivity].
  unfold ident in E. injection E as E1 E2 E3 E4. now rewrite E3, E4.
Qed.

Lemma walk_topology walk0 f :
  routing_sd_walk false (build_planes walk0 (process_neighbors walk0 f))
  = routing_sd_walk false f /\
  routing_sd_walk false (process_neighbors walk0 f) = routing_sd_walk false f.
Proof.
  split; apply walk_same_state.
  - apply (sd_rel_topology_stages same_state same_state_refl same_state_trans);
      reflexivity.
  - apply (sd_rel_process_neighbors same_state same_state_refl same_state_trans);
      reflexivity.
Qed.

Lemma prepare_eq e :
  prepare e
  = mk_engine (topology_stages (fab e))
      (foldl (fun l h => alter (assign_fid_info (fdevs e)) h l) (info e) (walk e))
      (fdevs e) (max_dpa_index (init e)).
Proof.
  unfold prepare. cbv zeta. rewrite assign_fids_eq.
  unfold walk, with_fab, with_info. cbn [fab info fdevs max_dpa_index init with_max_dpa_index].
  destruct (walk_topology (routing_sd_walk false (fab e)) (fab e)) as [W1 W2].
  rewrite W2, W1. reflexivity.
Qed.

Lemma prepare_info e h :
  info (prepare e) !! h
  = (if bool_decide (h ∈ walk e) then assign_fid_info (fdevs e) else id) <$> info e !! h.
Proof. rewrite prepare_eq. cbn [info]. apply foldl_alter_lookup, assign_fid_info_twice. Qed.

Lemma prepare_walk e : walk (prepare e) = walk e.
Proof. rewrite prepare_eq. unfold walk. cbn [fab]. apply topology_stages_walk. Qed.

Lemma prepare_ident e : ident <$> info (prepare e) = ident <$> info e.
Proof.
  apply list_eq. intros h. rewrite !list_lookup_fmap, prepare_info.
  destruct (info e !! h) as [r|]; [|reflexivity]. cbn.
  destruct (bool_decide _); [|reflexivity]. cbn. f_equal. apply ident_assign.
Qed.

(** *** The table stages *)

Lemma agree_refl e : agree e e.
Proof. now repeat split. Qed.

Lemma agree_sym e e' : agree e e' -> agree e' e.
Proof. intros (? & ? & ? & ?). now repeat split. Qed.

Lemma agree_trans a b c : agree a b -> agree b c -> agree a c.
Proof. intros (? & ? & ? & ?) (? & ? & ? & ?). repeat split; congruence. Qed.

Lemma agree_walk e e' : agree e e' -> walk e' = walk e.
Proof. intros (H & _). unfold walk. now rewrite H. Qed.

Lemma key_fields r r' :
  key r' = key r ->
  fdev_of r' = fdev_of r /\ dpa_idx_base r' = dpa_idx_base r /\
  dpa_idx_range r' = dpa_idx_range r /\ fid_group r' = fid_group r /\
  fid_mgmt r' = fid_mgmt r /\ fid_base r' = fid_base r.
Proof. unfold key, ident. intros [= ? ? ? ? ? ? ?]. now repeat split. Qed.

Lemma update_info_proj {B} (F : routing_info -> B) e h g :
  (forall r, F (g r) = F r) -> F <$> info (update_info e h g) = F <$> info e.
Proof.
  intros H. unfold update_info, with_info. cbn [info]. apply list_eq. intros k.
  rewrite !list_lookup_fmap. destruct (decide (k = h)) as [->|Hne].
  - rewrite list_lookup_alter_eq. destruct (info e !! h); [|reflexivity]. cbn. now rewrite H.
  - now rewrite list_lookup_alter_ne.
Qed.

Lemma fold_proj {B} (F : routing_info -> B) (step : engine -> nat -> engine) w e :
  (forall e h, F <$> info (step e h) = F <$> info e) ->
  F <$> info (foldl step e w) = F <$> info e.
Proof.
  intros H. revert e. induction w as [|h w IH]; intros e; [reflexivity|].
  cbn [foldl]. now rewrite IH.
Qed.

(** A loop over subdevices whose body writes the routing data of the
    subdevice it is at, and none of what the table stages read. *)
Section fold.
Variable step : engine -> nat -> engine.
Hypothesis step_eq :
  forall e h, exists g, step e h = update_info e h g /\ forall r, key (g r) = key r.

Lemma step_quiet e h : agree e (step e h).
Proof.
destruct (step_eq e h) as (g & -> & Hg). repeat split. now apply update_info_proj.
Qed.

Lemma fold_quiet w e : agree e (foldl step e w).
Proof.
revert e. induction w as [|h w IH]; intros e; [apply agree_refl|].
cbn [foldl]. eapply agree_trans; [apply step_quiet|apply IH].
Qed.

Lemma step_agree e e' h : agree e e' -> agree (step e h) (step e' h).
Proof.
intros H. eapply agree_trans; [apply agree_sym, step_quiet|].
eapply agree_trans; [exact H|apply step_quiet].
Qed.

Lemma step_elsewhere e h h' : h' <> h -> info (step e h) !! h' = info e !! h'.
Proof.
intros Hne. destruct (step_eq e h) as (g & -> & _). unfold update_info, with_info.
cbn [info]. now rewrite list_lookup_alter_ne.
Qed.

Lemma fold_frame w e h : h ∉ w -> info (foldl step e w) !! h = info e !! h.
Proof.
revert e. induction w as [|h0 w IH]; intros e Hn; [reflexivity|].
cbn [foldl]. apply not_elem_of_cons in Hn as [Hne Hn]. rewrite IH by exact Hn.
now apply step_elsewhere.
Qed.

Variable Q : routing_info -> routing_info -> Prop.
Hypothesis step_at :
  forall e e' h r r', agree e e' -> h ∈ walk e ->
    info (step e h) !! h = Some r -> info (step e' h) !! h = Some r' -> Q r r'.

Lemma fold_at w e e' h r r' :
NoDup w -> (forall x, x ∈ w -> x ∈ walk e) -> agree e e' -> h ∈ w ->
info (foldl step e w) !! h = Some r -> info (foldl step e' w) !! h = Some r' -> Q r r'.
Proof.
revert e e'. induction w as [|h0 w IH]; intros e e' Hnd Hw Ha Hin; [inversion Hin|].
cbn [foldl]. apply NoDup_cons in Hnd as [Hh0 Hnd].
destruct (decide (h = h0)) as [->|Hne].
- rewrite !fold_frame by exact Hh0. apply step_at; [exact Ha|]. apply Hw. left.
- apply elem_of_cons in Hin as [Hin|Hin]; [contradiction|].
  apply IH; [exact Hnd| |now apply step_agree|exact Hin].
  intros x Hx. rewrite (agree_walk _ _ (step_quiet e h0)). apply Hw. now right.
Qed.

End fold.

(** unicast_routing *)

Lemma unicast_route_src_eq e h :
  exists g, unicast_route_src e h = update_info e h g /\
    forall r, exists u, g r = set_uft_next u r.
Proof.
  unfold unicast_route_src.
  destruct (routable_list (fab e) !! h) as [sd|], (info e !! h) as [r0|] eqn:E;
    try (eexists; split; [reflexivity|]; intros r; eexists; reflexivity);
    (exists (fun r => set_uft_next (uft_next r) r); split;
     [symmetry; apply update_info_fix; intros r _; now destruct r
     |intros r; eexists; reflexivity]).
Qed.

Lemma unicast_route_src_key e h :
  exists g, unicast_route_src e h = update_info e h g /\ forall r, key (g r) = key r.
Proof.
  destruct (unicast_route_src_eq e h) as (g & E & Hg). exists g. split; [exact E|].
  intros r. destruct (Hg r) as (u & ->). reflexivity.
Qed.

Lemma unicast_route_src_proj {B} (F : routing_info -> B) e h :
  (forall u r, F (set_uft_next u r) = F r) ->
  F <$> info (unicast_route_src e h) = F <$> info e.
Proof.
  intros HF. destruct (unicast_route_src_eq e h) as (g & -> & Hg).
  apply update_info_proj. intros r. destruct (Hg r) as (u & ->). apply HF.
Qed.

Lemma unicast_route_pair_key uft sd h r r' :
  key r' = key r -> unicast_route_pair uft sd h r' = unicast_route_pair uft sd h r.
Proof.
  intros Hk. apply key_fields in Hk as (_ & _ & _ & E1 & E2 & _).
  unfold unicast_route_pair. now rewrite E1, E2.
Qed.

Lemma unicast_route_local_key uft r r' :
  key r' = key r -> unicast_route_local uft r' = unicast_route_local uft r.
Proof.
  intros Hk. apply key_fields in Hk as (_ & _ & _ & E1 & E2 & E3).
  unfold unicast_route_local. now rewrite E1, E2, E3.
Qed.

Lemma unicast_route_src_at e e' h r r' :
  agree e e' -> h ∈ walk e ->
  info (unicast_route_src e h) !! h = Some r ->
  info (unicast_route_src e' h) !! h = Some r' ->
  uft_next r' = uft_next r /\ is_Some (uft_next r).
Proof.
  intros Ha Hin. destruct (walk_lookup e h Hin) as (sd & Hsd & _).
  pose proof (agree_walk _ _ Ha) as Hw.
  destruct Ha as (Hf & _ & _ & Hk). unfold unicast_route_src. rewrite Hw, Hf, Hsd.
  pose proof (lookup_fmap_eq key _ _ h Hk) as Eh.
  destruct (info e !! h) as [r0|] eqn:E0, (info e' !! h) as [r0'|] eqn:E0';
    try (destruct Eh; fail).
  2:{ intros H. rewrite E0 in H. discriminate. }
  unfold update_info, with_info. cbn [info]. rewrite !list_lookup_alter_eq, E0, E0'.
  cbn. intros [= <-] [= <-]. cbn. split; [|eauto]. f_equal.
  rewrite (unicast_route_local_key _ _ _ Eh). f_equal. clear Hin Hw.
  generalize routing_uft_alloc. induction (walk e) as [|d w IH]; intros u; [reflexivity|].
  cbn [foldl]. rewrite IH. f_equal.
  destruct (negb _); [reflexivity|].
  pose proof (lookup_fmap_eq key _ _ d Hk) as Ed.
  destruct (info e !! d) as [rd|], (info e' !! d) as [rd'|]; try (destruct Ed; fail);
    [|reflexivity].
  now apply unicast_route_pair_key.
Qed.

Lemma unicast_routing_at e e' h r r' :
  agree e e' -> h ∈ walk e ->
  info (unicast_routing e) !! h = Some r -> info (unicast_routing e') !! h = Some r' ->
  uft_next r' = uft_next r /\ is_Some (uft_next r).
Proof.
  intros Ha Hin. unfold unicast_routing. rewrite (agree_walk _ _ Ha).
  apply (fold_at unicast_route_src unicast_route_src_key
           (fun r r' => uft_next r' = uft_next r /\ is_Some (uft_next r))
           unicast_route_src_at (walk e) e e' h r r' (walk_NoDup e)); auto.
Qed.

Lemma unicast_routing_agree e : agree e (unicast_routing e).
Proof. apply fold_quiet, unicast_route_src_key. Qed.

Lemma unicast_routing_proj {B} (F : routing_info -> B) e :
  (forall u r, F (set_uft_next u r) = F r) ->
  F <$> info (unicast_routing e) = F <$> info e.
Proof. intros HF. apply fold_proj. intros e0 h. now apply unicast_route_src_proj. Qed.

(** map_addresses *)

Lemma map_addresses_for_sd_eq e h :
  exists g, map_addresses_for_sd e h = update_info e h g /\
    forall r, exists t, g r = set_fidgen_next t r.
Proof.
  unfold map_addresses_for_sd. destruct (info e !! h) as [r0|] eqn:E.
  - eexists. split; [reflexivity|]. intros r. eexists. reflexivity.
  - exists (fun r => set_fidgen_next (fidgen_next r) r). split.
    + symmetry. apply update_info_fix. intros r _. now destruct r.
    + intros r. eexists. reflexivity.
Qed.

Lemma map_addresses_for_sd_key e h :
  exists g, map_addresses_for_sd e h = update_info e h g /\ forall r, key (g r) = key r.
Proof.
  destruct (map_addresses_for_sd_eq e h) as (g & E & Hg). exists g. split; [exact E|].
  intros r. destruct (Hg r) as (u & ->). reflexivity.
Qed.

Lemma map_addresses_for_sd_proj {B} (F : routing_info -> B) e h :
  (forall t r, F (set_fidgen_next t r) = F r) ->
  F <$> info (map_addresses_for_sd e h) = F <$> info e.
Proof.
  intros HF. destruct (map_addresses_for_sd_eq e h) as (g & -> & Hg).
  apply update_info_proj. intros r. destruct (Hg r) as (u & ->). apply HF.
Qed.

Lemma set_dpa_lut_key fidgen r r' dfid :
  key r' = key r -> set_dpa_lut fidgen r' dfid = set_dpa_lut fidgen r dfid.
Proof.
  intros Hk. apply key_fields in Hk as (_ & E1 & E2 & _).
  unfold set_dpa_lut. now rewrite E1, E2.
Qed.

Lemma via_neighbor_agree e e' h_src h_dst dev :
  agree e e' -> via_neighbor e' h_src h_dst dev = via_neighbor e h_src h_dst dev.
Proof.
  intros (Hf & _ & _ & Hk). unfold via_neighbor. rewrite Hf.
  destruct (filter _ _) as [|n ?]; [reflexivity|].
  pose proof (lookup_fmap_eq key _ _ n Hk) as En.
  destruct (info e !! n) as [r|], (info e' !! n) as [r'|]; try (destruct En; fail);
    [|reflexivity].
  cbn. f_equal. now apply key_fields in En as (_ & _ & _ & _ & _ & E).
Qed.

Lemma map_addresses_for_sd_dst_agree e e' h r r' fidgen d :
  agree e e' -> key r' = key r ->
  map_addresses_for_sd_dst e' h r' fidgen d = map_addresses_for_sd_dst e h r fidgen d.
Proof.
  intros Ha Hk. unfold map_addresses_for_sd_dst.
  pose proof Ha as (Hf & Hd & _ & Hks).
  pose proof (lookup_fmap_eq key _ _ d Hks) as Ed.
  destruct (info e !! d) as [rd|], (info e' !! d) as [rd'|]; try (destruct Ed; fail);
    [|reflexivity].
  rewrite Hf, Hd. rewrite !(set_dpa_lut_key _ _ _ _ Ed).
  pose proof Ed as Ed0.
  apply key_fields in Hk as (E1 & _). apply key_fields in Ed as (E2 & _ & _ & _ & _ & E3).
  rewrite E1, E2, E3.
  destruct (bool_decide _); [reflexivity|]. destruct (_ =? 1); [reflexivity|].
  destruct (fdevs e !! fdev_of rd) as [dev|]; [|reflexivity].
  rewrite (via_neighbor_agree e e') by exact Ha.
  destruct (via_neighbor e h d dev); [|reflexivity].
  now apply set_dpa_lut_key.
Qed.

Lemma map_addresses_for_sd_at e e' h r r' :
  agree e e' -> h ∈ walk e ->
  info (map_addresses_for_sd e h) !! h = Some r ->
  info (map_addresses_for_sd e' h) !! h = Some r' ->
  fidgen_next r' = fidgen_next r /\ is_Some (fidgen_next r).
Proof.
  intros Ha _. pose proof (agree_walk _ _ Ha) as Hw.
  pose proof Ha as (_ & _ & Hm & Hk). unfold map_addresses_for_sd. rewrite Hw.
  pose proof (lookup_fmap_eq key _ _ h Hk) as Eh.
  destruct (info e !! h) as [r0|] eqn:E0, (info e' !! h) as [r0'|] eqn:E0';
    try (destruct Eh; fail).
  2:{ intros H. rewrite E0 in H. discriminate. }
  unfold update_info, with_info. cbn [info]. rewrite !list_lookup_alter_eq, E0, E0'.
  cbn. intros [= <-] [= <-]. cbn. split; [|eauto]. f_equal.
  unfold fidgen_alloc. rewrite Hm. clear Hw.
  generalize (fidgen_init
                (Io.mk_fidgen 0 0 0 0 0 0 0 0 (u16 (max_dpa_index e + 1))
                   (replicate (Z.to_nat (u16 (max_dpa_index e + 1))) 0))).
  induction (walk e) as [|d w IH]; intros g; [reflexivity|].
  cbn [foldl]. rewrite IH. f_equal. now apply map_addresses_for_sd_dst_agree.
Qed.

Lemma map_addresses_at e e' h r r' :
  agree e e' -> h ∈ walk e ->
  info (map_addresses e) !! h = Some r -> info (map_addresses e') !! h = Some r' ->
  fidgen_next r' = fidgen_next r /\ is_Some (fidgen_next r).
Proof.
  intros Ha Hin. unfold map_addresses. rewrite (agree_walk _ _ Ha).
  apply (fold_at map_addresses_for_sd map_addresses_for_sd_key
           (fun r r' => fidgen_next r' = fidgen_next r /\ is_Some (fidgen_next r))
           map_addresses_for_sd_at (walk e) e e' h r r' (walk_NoDup e)); auto.
Qed.

Lemma map_addresses_agree e : agree e (map_addresses e).
Proof. apply fold_quiet, map_addresses_for_sd_key. Qed.

Lemma map_addresses_proj {B} (F : routing_info -> B) e :
  (forall t r, F (set_fidgen_next t r) = F r) ->
  F <$> info (map_addresses e) = F <$> info e.
Proof. intros HF. apply fold_proj. intros e0 h. now apply map_addresses_for_sd_proj. Qed.

(** routing_logic_run *)

Lemma routing_logic_run_eq e :
  routing_logic_run e = map_addresses (unicast_routing (prepare e)).
Proof. reflexivity. Qed.

Lemma routing_logic_run_agree e : agree (prepare e) (routing_logic_run e).
Proof.
  rewrite routing_logic_run_eq.
  eapply agree_trans; [apply unicast_routing_agree|apply map_addresses_agree].
Qed.

(** The tables routing_logic_run computes for a subdevice of the walk
    are a function of what the table stages read. *)
Lemma routing_logic_run_tables e e' h r r' :
  agree (prepare e) (prepare e') -> h ∈ walk e ->
  info (routing_logic_run e) !! h = Some r -> info (routing_logic_run e') !! h = Some r' ->
  exists t, uft_next r = Some t.1 /\ fidgen_next r = Some t.2 /\
            uft_next r' = Some t.1 /\ fidgen_next r' = Some t.2.
Proof.
  intros Ha Hin Hr Hr'. rewrite routing_logic_run_eq in Hr, Hr'.
  rewrite <- prepare_walk in Hin.
  pose proof (unicast_routing_agree (prepare e)) as A1.
  pose proof (unicast_routing_agree (prepare e')) as A1'.
  assert (A2 : agree (unicast_routing (prepare e)) (unicast_routing (prepare e'))).
  { eapply agree_trans; [apply agree_sym, A1|]. eapply agree_trans; [exact Ha|exact A1']. }
  assert (Hin2 : h ∈ walk (unicast_routing (prepare e))) by now rewrite (agree_walk _ _ A1).
  destruct (map_addresses_at _ _ h r r' A2 Hin2 Hr Hr') as (Eg & g & Hg).
  pose proof (map_addresses_proj uft_next (unicast_routing (prepare e)) ltac:(reflexivity)) as P.
  pose proof (map_addresses_proj uft_next (unicast_routing (prepare e')) ltac:(reflexivity)) as P'.
  pose proof (lookup_fmap_eq uft_next _ _ h P) as L. rewrite Hr in L.
  pose proof (lookup_fmap_eq uft_next _ _ h P') as L'. rewrite Hr' in L'.
  destruct (info (unicast_routing (prepare e)) !! h) as [q|] eqn:Hq; [|destruct L].
  destruct (info (unicast_routing (prepare e')) !! h) as [q'|] eqn:Hq'; [|destruct L'].
  destruct (unicast_routing_at _ _ h q q' Ha Hin Hq Hq') as (Eu & u & Hu).
  exists (u, g). cbn [fst snd]. repeat split; congruence.
Qed.

Lemma prepare_held e : held <$> info (prepare e) = held <$> info e.
Proof.
  apply list_eq. intros h. rewrite !list_lookup_fmap, prepare_info.
  destruct (info e !! h) as [r|]; [|reflexivity]. cbn.
  destruct (bool_decide _); [|reflexivity]. cbn. f_equal.
  unfold assign_fid_info. now destruct (fdevs e !! fdev_of r).
Qed.

Lemma routing_logic_run_held e : held <$> info (routing_logic_run e) = held <$> info e.
Proof.
  rewrite routing_logic_run_eq, map_addresses_proj, unicast_routing_proj by reflexivity.
  apply prepare_held.
Qed.

Lemma routing_logic_run_walk e : walk (routing_logic_run e) = walk e.
Proof. rewrite (agree_walk _ _ (routing_logic_run_agree e)). apply prepare_walk. Qed.

(** *** The programming stage *)

Lemma io_view_Some e h v :
  io_view e h = Some v <->
  exists sd r dev,
    routable_list (fab e) !! h = Some sd /\ info e !! h = Some r /\
    fdevs e !! fdev_of r = Some dev /\
    v = Io.mk_fsubdev (switchinfo r) (Topo.fport_lpns sd) (bport_lpns r) (fport_log_state r)
          (pkg_offset dev) (pkg_size dev) (max_dpa_index e) (fid_base r)
          (io_state_of (Topo.routing_state sd))
          (uft r) (uft_next r) (fidgen r) (fidgen_next r).
Proof.
  unfold io_view.
  destruct (routable_list (fab e) !! h) as [sd|]; cbn.
  2:{ split; [discriminate|]. intros (? & ? & ? & ? & _). discriminate. }
  destruct (info e !! h) as [r|]; cbn.
  2:{ split; [discriminate|]. intros (? & ? & ? & _ & ? & _). discriminate. }
  destruct (fdevs e !! fdev_of r) as [dev|] eqn:Ed; cbn.
  2:{ split; [discriminate|]. intros (? & ? & ? & _ & [= <-] & ? & _). congruence. }
  split.
  - intros [= <-]. eauto 10.
  - intros (? & ? & ? & [= <-] & [= <-] & E & ->). rewrite Ed in E. now injection E as <-.
Qed.

Lemma io_state_of_topo st : io_state_of (topo_state_of st) = st.
Proof. now destruct st. Qed.

Lemma io_view_commit_ne e h h' sd' :
  h' <> h -> io_view (io_commit e h sd') h' = io_view e h'.
Proof.
  intros Hne. unfold io_view, io_commit, update_info, with_info, with_fab, update_sd, with_sds.
  cbn [fab info fdevs max_dpa_index routable_list]. now rewrite !list_lookup_alter_ne.
Qed.

(** io_work_fn writes the switchinfo, the tables and the state. *)
Lemma io_work_fn_writes env v u s' :
  Io.io_work_fn env (Io.mk_io v []) = Some (u, s') ->
  exists si st t tn g gn,
    Io.io_sd s' =
    Io.mk_fsubdev si (Io.fport_lpns v) (Io.bport_lpns v) (Io.fport_log_state v)
      (Io.pkg_offset v) (Io.pkg_size v) (Io.max_dpa_index v) (Io.fid_base v) st t tn g gn.
Proof.
  unfold Io.io_work_fn, Io.bind.
  destruct (Io.and_then _ _ _) as [[err s0]|] eqn:E; [|discriminate].
  apply IoSpec.keeps_programming in E. cbn [Io.io_sd] in E. unfold Io.same_routing in E.
  unfold Io.get_sd, Io.put_sd.
  destruct (err =? 0); intros [= <- <-]; cbn [Io.io_sd]; rewrite E; eauto 10.
Qed.

Lemma io_view_commit e h v sd' :
  io_view e h = Some v ->
  (exists si st t tn g gn,
     sd' = Io.mk_fsubdev si (Io.fport_lpns v) (Io.bport_lpns v) (Io.fport_log_state v)
             (Io.pkg_offset v) (Io.pkg_size v) (Io.max_dpa_index v) (Io.fid_base v)
             st t tn g gn) ->
  io_view (io_commit e h sd') h = Some sd'.
Proof.
  intros Hv (si & st & t & tn & g & gn & ->).
  apply io_view_Some in Hv as (sd & r & dev & Hsd & Hr & Hd & ->).
  apply io_view_Some. unfold io_commit, update_info, with_info, with_fab, update_sd, with_sds.
  cbn [fab info fdevs max_dpa_index routable_list].
  rewrite !list_lookup_alter_eq, Hsd, Hr. cbn.
  eexists _, _, dev. split; [reflexivity|]. split; [reflexivity|]. split; [exact Hd|].
  cbn. now rewrite io_state_of_topo.
Qed.

Lemma io_work_Some envs e h e1 hw :
  io_work envs e h = Some (e1, hw) ->
  exists v sd',
    io_view e h = Some v /\
    Io.io_work_fn (envs h) (Io.mk_io v []) = Some (tt, Io.mk_io sd' hw) /\
    e1 = io_commit e h sd'.
Proof.
  unfold io_work. destruct (io_view e h) as [v|]; [|discriminate]. cbn.
  destruct (Io.io_work_fn (envs h) (Io.mk_io v [])) as [[[] [sd' hw']]|] eqn:E;
    [|discriminate].
  cbn. intros [= <- <-]. eauto.
Qed.

Lemma same_but_state_refl sd : same_but_state sd sd.
Proof. now destruct sd. Qed.

Lemma same_but_state_trans a b c :
  same_but_state a b -> same_but_state b c -> same_but_state a c.
Proof. unfold same_but_state. intros -> ->. reflexivity. Qed.

Lemma io_commit_frame e h sd' :
  fdevs (io_commit e h sd') = fdevs e /\
  max_dpa_index (io_commit e h sd') = max_dpa_index e /\
  key <$> info (io_commit e h sd') = key <$> info e /\
  plane_list (fab (io_commit e h sd')) = plane_list (fab e) /\
  sd_rel same_but_state (fab e) (fab (io_commit e h sd')).
Proof.
  split; [reflexivity|]. split; [reflexivity|]. split; [|split; [reflexivity|]].
  - unfold io_commit. cbn [info with_fab]. now apply update_info_proj.
  - apply (rel_alter same_but_state same_but_state_refl). intros sd. reflexivity.
Qed.

(** routing_io_run: the tasks work each on their own subdevice. *)
Lemma io_tasks_spec envs w : forall e e1 hws,
  NoDup w -> io_tasks envs w e = Some (e1, hws) ->
  (fdevs e1 = fdevs e /\ max_dpa_index e1 = max_dpa_index e /\
   key <$> info e1 = key <$> info e /\ plane_list (fab e1) = plane_list (fab e) /\
   sd_rel same_but_state (fab e) (fab e1)) /\
  hws.*1 = w /\
  (forall h, h ∉ w -> io_view e1 h = io_view e h) /\
  (forall h, h ∈ w ->
     exists v sd' hw,
       io_view e h = Some v /\
       Io.io_work_fn (envs h) (Io.mk_io v []) = Some (tt, Io.mk_io sd' hw) /\
       (h, hw) ∈ hws /\ io_view e1 h = Some sd').
Proof.
  induction w as [|h0 w IH]; intros e e1 hws Hnd; cbn [io_tasks].
  - intros [= <- <-]. split.
    + repeat split. apply (sd_rel_refl same_but_state same_but_state_refl).
    + split; [reflexivity|]. split; [reflexivity|]. intros h Hin. inversion Hin.
  - apply NoDup_cons in Hnd as [Hh0 Hnd].
    destruct (io_work envs e h0) as [[ea hwa]|] eqn:Ew; [|discriminate]. cbn.
    destruct (io_tasks envs w ea) as [[eb hwb]|] eqn:Et; [|discriminate]. cbn.
    intros [= <- <-].
    apply io_work_Some in Ew as (v & sd' & Hv & Hrun & ->).
    destruct (IH _ _ _ Hnd Et) as ((F1 & F2 & F3 & F4 & F5) & Hk & Hout & Hin).
    destruct (io_commit_frame e h0 sd') as (C1 & C2 & C3 & C4 & C5).
    split; [|split; [|split]].
    + repeat split; try congruence.
      eapply (sd_rel_trans same_but_state same_but_state_trans); eauto.
    + cbn. now rewrite Hk.
    + intros h Hn. apply not_elem_of_cons in Hn as [Hne Hn].
      rewrite Hout by exact Hn. now apply io_view_commit_ne.
    + intros h Hh. apply elem_of_cons in Hh as [->|Hh].
      * exists v, sd', hwa. split; [exact Hv|]. split; [exact Hrun|]. split; [left|].
        rewrite Hout by exact Hh0. apply (io_view_commit e h0 v sd' Hv).
        exact (io_work_fn_writes _ _ _ _ Hrun).
      * destruct (Hin h Hh) as (v' & sd'' & hw & Hv' & Hrun' & Hmem & Hv1).
        assert (h <> h0) by (intros ->; contradiction).
        exists v', sd'', hw. rewrite io_view_commit_ne in Hv' by assumption.
        split; [exact Hv'|]. split; [exact Hrun'|]. split; [now right|exact Hv1].
Qed.

Lemma io_tasks_total envs w : forall e,
  NoDup w ->
  (forall h, h ∈ w ->
     exists v, io_view e h = Some v /\ is_Some (Io.io_work_fn (envs h) (Io.mk_io v []))) ->
  is_Some (io_tasks envs w e).
Proof.
  induction w as [|h0 w IH]; intros e Hnd Hall; cbn [io_tasks]; [eauto|].
  apply NoDup_cons in Hnd as [Hh0 Hnd].
  destruct (Hall h0 ltac:(left)) as (v & Hv & [[[] [sd' hw]] Hrun]).
  unfold io_work. rewrite Hv. cbn. rewrite Hrun. cbn.
  destruct (IH (io_commit e h0 sd') Hnd) as [[e1 hws] E].
  - intros h Hh. destruct (Hall h ltac:(now right)) as (v' & Hv' & Hs).
    exists v'. split; [|exact Hs]. rewrite io_view_commit_ne; [exact Hv'|].
    intros ->. contradiction.
  - rewrite E. cbn. eauto.
Qed.

(** A sweep that leaves the walk as it was has left the routable list and
    the planes as routing_logic_run left them. *)
Lemma walk_state f f' :
  sd_rel same_but_state f f' -> routing_sd_walk false f' = routing_sd_walk false f ->
  plane_list f' = plane_list f -> f' = f.
Proof.
  intros Hr Hw Hp. rewrite <- (fabric_eta f), <- (fabric_eta f'), Hp. f_equal.
  apply list_eq. intros h.
  destruct (routable_list f !! h) as [sd|] eqn:E.
  - destruct (Forall2_lookup_l _ _ _ _ _ Hr E) as (sd' & E' & Hs). rewrite E'. f_equal.
    assert (Hv : routing_sd_visited false f' h = routing_sd_visited false f h).
    { assert (Hb : h ∈ routing_sd_walk false f' <-> h ∈ routing_sd_walk false f)
        by now rewrite Hw.
      unfold routing_sd_walk in Hb. rewrite !list_elem_of_filter, !elem_of_seq in Hb.
      rewrite <- (Forall2_length _ _ _ Hr) in Hb. apply lookup_lt_Some in E.
      destruct (routing_sd_visited false f' h), (routing_sd_visited false f h);
        try reflexivity; exfalso.
      - assert (true = true /\ (0 <= h < 0 + length (routable_list f))%nat) as X
          by (split; [reflexivity|lia]). apply Hb in X. now destruct X.
      - assert (true = true /\ (0 <= h < 0 + length (routable_list f))%nat) as X
          by (split; [reflexivity|lia]). apply Hb in X. now destruct X. }
    unfold routing_sd_visited in Hv. rewrite E, E' in Hv. cbn in Hv.
    unfold routing_sd_is_error in Hv. unfold same_but_state, set_routing_state in Hs.
    destruct sd as [? ? ? ? st ? ?], sd' as [? ? ? ? st' ? ?]. cbn in *.
    injection Hs as -> -> -> -> -> ->.
    destruct st, st'; try discriminate; reflexivity.
  - apply lookup_ge_None. rewrite <- (Forall2_length _ _ _ Hr).
    now apply lookup_ge_None.
Qed.

Lemma io_view_tables e h v t :
  io_view e h = Some v -> Io.uft v = Some t.1 -> Io.fidgen v = Some t.2 ->
  tables_in_use e h = Some t.
Proof.
  intros Hv. apply io_view_Some in Hv as (sd & r & dev & _ & Hr & _ & ->). cbn.
  intros U G. unfold tables_in_use. rewrite Hr. cbn. rewrite U. cbn. rewrite G. cbn.
  now destruct t.
Qed.

(** *** A sweep after a sweep *)

(** On the state a sweep has left, with the walk as it was, the table
    stages read what they read in that sweep. *)
Lemma rerun_agree s s1 :
  planes_linked (fab s) ->
  fab s1 = fab (routing_logic_run s) -> fdevs s1 = fdevs (routing_logic_run s) ->
  key <$> info s1 = key <$> info (routing_logic_run s) ->
  walk s1 = walk s ->
  agree (prepare s) (prepare s1).
Proof.
  intros Hl Hf Hd Hk Hw.
  destruct (routing_logic_run_agree s) as (Af & Ad & _ & Ak).
  rewrite Af in Hf. rewrite Ad in Hd. rewrite Ak in Hk.
  assert (Hd' : fdevs s1 = fdevs s) by (rewrite Hd, prepare_eq; reflexivity).
  assert (K : key <$> info (prepare s1) = key <$> info (prepare s)).
  { apply list_eq. intros h. rewrite !list_lookup_fmap, !prepare_info, Hw, Hd'.
    pose proof (lookup_fmap_eq key _ _ h Hk) as E. rewrite prepare_info in E.
    destruct (info s !! h) as [r|], (info s1 !! h) as [r1|]; cbn in E |- *;
      try (destruct E; fail); [|reflexivity].
    f_equal. destruct (bool_decide _); cbn in E |- *; [|exact E].
    rewrite (key_assign _ _ _ E). now rewrite assign_fid_info_twice. }
  assert (I : ident <$> info s1 = ident <$> info s).
  { rewrite <- (prepare_ident s).
    change ident with (fst ∘ key). rewrite !list_fmap_compose. now rewrite Hk. }
  split; [|split; [|split; [|exact K]]].
  - rewrite !prepare_eq. cbn [fab]. rewrite Hf, prepare_eq. cbn [fab].
    now apply topology_stages_twice.
  - rewrite !prepare_eq. cbn [fdevs]. exact Hd'.
  - rewrite !prepare_eq. cbn [max_dpa_index]. now apply init_max.
Qed.

(** What a sweep that leaves the walk as it was hands to the next one,
    subdevice by subdevice. *)
Lemma resweep_views envs1 s s1 hw1 :
  planes_linked (fab s) ->
  routing_sweep envs1 s = Some (s1, hw1) ->
  walk s1 = walk s ->
  forall h, h ∈ walk s ->
    exists t v,
      tables_next (routing_logic_run s) h = Some t /\
      tables_in_use s1 h = Some t /\
      tables_next (routing_logic_run s1) h = Some t /\
      io_view s1 h = Some v /\ Io.uft v = Some t.1 /\ Io.fidgen v = Some t.2 /\
      io_view (routing_logic_run s1) h = Some (Io.stage_next t v).
Proof.
  intros Hl Hsw Hw. unfold routing_sweep, routing_io_run in Hsw.
  rewrite routing_logic_run_walk in Hsw.
  destruct (io_tasks_spec envs1 (walk s) _ s1 hw1 (walk_NoDup s) Hsw)
    as ((F1 & F2 & F3 & F4 & F5) & _ & _ & Hin1).
  assert (Hfab : fab s1 = fab (routing_logic_run s)).
  { apply walk_state; [exact F5| |exact F4].
    fold (walk s1) (walk (routing_logic_run s)). now rewrite routing_logic_run_walk. }
  assert (Ha : agree (prepare s) (prepare s1)) by now apply rerun_agree.
  assert (Ha' : agree (routing_logic_run s) (routing_logic_run s1)).
  { eapply agree_trans; [apply agree_sym, routing_logic_run_agree|].
    eapply agree_trans; [exact Ha|apply routing_logic_run_agree]. }
  intros h Hh. destruct (Hin1 h Hh) as (v' & v & hw & Hv' & Hrun & _ & Hv).
  pose proof Hv' as Hv'0. apply io_view_Some in Hv'0 as (sd' & r & dev & Hsd' & Hr & Hdev & Ev').
  destruct Ha' as (A1 & A2 & A3 & A4).
  pose proof (lookup_fmap_eq key _ _ h A4) as Ek. rewrite Hr in Ek.
  destruct (info (routing_logic_run s1) !! h) as [r'|] eqn:Hr'; [|destruct Ek].
  destruct (routing_logic_run_tables s s1 h r r' Ha Hh Hr Hr') as (t & T1 & T2 & T3 & T4).
  exists t, v.
  destruct (walk_lookup s1 h) as (sd1 & Hsd1 & Herr); [now rewrite Hw|].
  pose proof Hv as Hv1. apply io_view_Some in Hv1 as (sd1_ & r1 & dev1 & Hsd1' & Hr1 & Hdev1 & Ev).
  assert (sd1_ = sd1) as -> by congruence.
  assert (Hvalid : Io.state v = Io.TILE_ROUTING_STATE_VALID).
  { rewrite Ev. cbn. unfold routing_sd_is_error in Herr.
    destruct (routing_state sd1); [discriminate|reflexivity]. }
  assert (Hst : v' = Io.stage_next t v').
  { rewrite Ev'. unfold Io.stage_next, Io.set_tables. cbn. now rewrite T1, T2. }
  assert (Hprog : Io.program_sd (envs1 h) t v' = Some (v, hw)).
  { unfold Io.program_sd. rewrite <- Hst, Hrun. reflexivity. }
  destruct (IoSpec.sweep_valid_tables _ _ _ _ _ Hprog Hvalid) as (U & G).
  split. { unfold tables_next. rewrite Hr. cbn. rewrite T1. cbn. rewrite T2. now destruct t. }
  split. { now apply (io_view_tables s1 h v t). }
  split. { unfold tables_next. rewrite Hr'. cbn. rewrite T3. cbn. rewrite T4. now destruct t. }
  split; [exact Hv|]. split; [exact U|]. split; [exact G|].
  apply io_view_Some. exists sd1, r', dev1.
  pose proof (lookup_fmap_eq key _ _ h F3) as Ek1. rewrite Hr, Hr1 in Ek1.
  pose proof (lookup_fmap_eq held _ _ h (routing_logic_run_held s1)) as Eh.
  rewrite Hr1, Hr' in Eh.
  apply key_fields in Ek as (K1 & _ & _ & _ & _ & K2).
  apply key_fields in Ek1 as (K3 & _ & _ & _ & _ & K4).
  unfold held in Eh. injection Eh as H1 H2 H3 H4 H5.
  split; [now rewrite A1, <- Hfab|]. split; [exact Hr'|].
  split; [rewrite A2, <- F1, K1, <- K3; exact Hdev1|].
  rewrite Ev. unfold Io.stage_next, Io.set_tables. cbn.
  rewrite H1, H2, H3, H4, H5, T3, T4, A3, <- F2, K2, <- K4. reflexivity.
Qed.

(** C2 (amended).  A sweep run on the state a sweep has left, when that
    sweep has taken no subdevice to the error state: routing_logic_run
    computes for every subdevice of the walk the tables it computed in the
    first sweep, which are the tables the first sweep has put in use; the
    programming stage runs for every such subdevice and leaves these tables
    in use; and for each subdevice its writes are a prefix of the switchinfo
    set, the management block of the route table and, for each bridge
    port, the package address range and the activation of the port, all of
    them when every operation succeeds.  It writes no bridge block of the
    route table, no fidgen register block and no part of the lookup
    table.  The planes of the first state are taken to be well linked to
    their subdevices. *)
Theorem resweep_unchanged (envs1 envs2 : nat -> Io.io_env) (s s1 : engine)
    (hw1 : list (nat * list Io.hw_write)) :
  planes_linked (fab s) ->
  routing_sweep envs1 s = Some (s1, hw1) ->
  walk s1 = walk s ->
  exists s2 hw2,
    routing_sweep envs2 s1 = Some (s2, hw2) /\ hw2.*1 = walk s /\
    forall h, h ∈ walk s ->
      exists t v hw,
        tables_next (routing_logic_run s) h = Some t /\
        tables_in_use s1 h = Some t /\
        tables_next (routing_logic_run s1) h = Some t /\
        tables_in_use s2 h = Some t /\
        io_view s1 h = Some v /\ (h, hw) ∈ hw2 /\
        hw `prefix_of` Io.unchanged_writes t v /\
        ((forall n, Io.reply (envs2 h) n = 0) -> hw = Io.unchanged_writes t v).
Proof.
  intros Hl Hsw Hw.
  pose proof (resweep_views envs1 s s1 hw1 Hl Hsw Hw) as Hper.
  assert (Hw2 : walk (routing_logic_run s1) = walk s)
    by now rewrite routing_logic_run_walk.
  unfold routing_sweep, routing_io_run. rewrite Hw2.
  destruct (io_tasks_total envs2 (walk s) (routing_logic_run s1) (walk_NoDup s))
    as [[s2 hw2] E2].
  { intros h Hh. destruct (Hper h Hh) as (t & v & _ & _ & _ & _ & U & G & Hv2).
    exists (Io.stage_next t v). split; [exact Hv2|].
    destruct (IoSpec.sweep_unchanged (envs2 h) t v U G) as (sd2 & hw & Hp & _).
    unfold Io.program_sd in Hp.
    destruct (Io.io_work_fn (envs2 h) (Io.mk_io (Io.stage_next t v) []));
      [eauto|discriminate]. }
  exists s2, hw2. split; [exact E2|].
  destruct (io_tasks_spec envs2 _ _ _ _ (walk_NoDup s) E2) as (_ & Hk2 & _ & Hin2).
  split; [exact Hk2|].
  intros h Hh. destruct (Hper h Hh) as (t & v & P1 & P2 & P3 & Pv & U & G & Pv2).
  destruct (Hin2 h Hh) as (v2 & sd2 & hw & Hv2 & Hrun2 & Hmem & Hv2').
  rewrite Pv2 in Hv2. injection Hv2 as <-.
  destruct (IoSpec.sweep_unchanged (envs2 h) t v U G) as (sd2' & hw' & Hp & U2 & G2 & Hpre & Hfull).
  unfold Io.program_sd in Hp. rewrite Hrun2 in Hp. cbn in Hp. injection Hp as <- <-.
  exists t, v, hw. split; [exact P1|]. split; [exact P2|]. split; [exact P3|].
  split; [now apply (io_view_tables s2 h sd2 t)|].
  split; [exact Pv|]. split; [exact Hmem|]. split; [exact Hpre|].
  intros H0. now apply Hfull.
Qed.

Lemma pair_linked : planes_linked (fab pair).
Proof.
  intros [|[|h]] sd; cbn; intros [= <-]; reflexivity.
Qed.

Lemma resweep_unchanged_witness :
  exists s1 hw1 s2 hw2,
    routing_sweep accepting pair = Some (s1, hw1) /\ walk s1 = walk pair /\
    routing_sweep accepting s1 = Some (s2, hw2) /\
    forall h, h ∈ walk pair ->
      exists t, tables_in_use s1 h = Some t /\
                tables_next (routing_logic_run s1) h = Some t /\
                tables_in_use s2 h = Some t.
Proof.
  destruct (routing_sweep accepting pair) as [[s1 hw1]|] eqn:E1;
    [|vm_compute in E1; discriminate E1].
  assert (Hw : walk s1 = walk pair).
  { vm_compute in E1. injection E1 as <- _. vm_compute. reflexivity. }
  destruct (resweep_unchanged accepting accepting pair s1 hw1 pair_linked E1 Hw)
    as (s2 & hw2 & E2 & _ & Hall).
  exists s1, hw1, s2, hw2. split; [reflexivity|]. split; [exact Hw|]. split; [exact E2|].
  intros h Hh. destruct (Hall h Hh) as (t & v & hw & _ & P2 & P3 & P4 & _).
  exists t. auto.
Defined.

(** C2 (as stated).  Two devices of one subdevice each, cabled to each
    other, nothing programmed yet.  A first sweep succeeds and takes no
    subdevice to the error state.  The sweep run right after it computes
    the tables that are in use and leaves them in use, and yet makes six
    hardware writes on the first subdevice (and as many on the second): the
    switchinfo, the management block of the route table, and for each of
    the bridge ports 9 and 10 the package address range and the
    activation. *)
Lemma resweep_still_writes :
  exists s1 hw1 s2 hw2 si mask block data9 data10 others,
    routing_sweep accepting pair = Some (s1, hw1) /\ walk s1 = walk pair /\
    routing_sweep accepting s1 = Some (s2, hw2) /\
    tables_next (routing_logic_run s1) 0%nat = tables_in_use s1 0%nat /\
    tables_in_use s2 0%nat = tables_in_use s1 0%nat /\
    hw2 = (0%nat,
           [ Io.SwitchinfoSet si;
             Io.RpipeSet mask Io.ROUTING_FID_CPORT_BASE Io.ROUTING_MAX_DEVICES block;
             Io.CsrRawWrite (Io.get_raw_port_base 9 + Io.CSR_BT_PKG_ADDR_RANGE) data9;
             Io.PortLinkStateSet 9 Io.IB_PORT_ACTIVE;
             Io.CsrRawWrite (Io.get_raw_port_base 10 + Io.CSR_BT_PKG_ADDR_RANGE) data10;
             Io.PortLinkStateSet 10 Io.IB_PORT_ACTIVE ]) :: others.
Proof.
  destruct (routing_sweep accepting pair) as [[s1 hw1]|] eqn:E1;
    [|vm_compute in E1; discriminate E1].
  vm_compute in E1. injection E1 as <- <-.
  eexists _, _, _, _, _, _, _, _, _, _. split; [reflexivity|].
  split; [vm_compute; reflexivity|]. split; [vm_compute; reflexivity|].
  split; [vm_compute; reflexivity|]. split; [vm_compute; reflexivity|]. reflexivity.
Qed.

End EngineSpec.
